(* ===== verification/_CoqProject ===== *)
-Q . S2P
Prelude.v
Cmd.v
GoStrings.v
Config.v
RouterPattern.v
RouterTree.v
RouterInv.v
RouterInsert.v
RouterFind.v
RouterMux.v
RouterSpec.v
Values.v
URLValues.v
Messages.v
ParamDecoder.v
ParamDecoderSpec.v
BodyDecoder.v
BodyDecoderSpec.v
Validate.v
ValidateSpec.v
Unknown.v
UnknownSpec.v
APIErrors.v
APIMode.v
APIModeSpec.v
NetIP.v
AccessLists.v
AccessListsSpec.v
OAuth2.v
Web.v
Metrics.v
Mid.v
MidSpec.v
Adaptor.v
ProxyHandler.v
ProxySpec.v
ProxyExamples.v
Backend.v
BackendSpec.v
Balancer.v
Storage.v
StorageSpec.v
Updater.v
APIHandlers.v
APIHandlersSpec.v
APIFirewall.v
PackageRuns.v
APIFirewallSpec.v
APIExamples.v
Demo.v
GraphQL.v
WebSocket.v
GraphQLSpec.v
GraphQLExamples.v
Startup.v
StartupSpec.v
StartupExamples.v
