(* ===== verification/Prelude.v ===== *)
(** * Verification of the API firewall

    The program checks HTTP requests against OpenAPI specifications or a GraphQL
    schema.  It runs in one of three modes: as a proxy in front of a backend, which
    forwards what passes the checks (proxy mode and GraphQL mode), or as a service
    that reports for each of a set of stored specifications what is wrong with a
    request (API mode).  pkg/APIMode offers the API mode as a Go package.  This
    library models the program as Rocq functions on its data and proves what makes
    it correct; paths below are relative to src/.

    ** Conventions

    Go strings and byte slices are lists of bytes ([gostring]); [int] and the fixed
    widths are [Z] with the wrap-around written out where it matters.  A function
    that can panic returns an [outcome], one that returns an error a [result].
    Handlers work on the request context of fasthttp by explicit state passing
    ([Cmd.v]); a panic keeps the state reached, since a deferred function may
    recover.  Concurrent code is a step relation, and its theorems hold for every
    schedule.  Maps that Go visits in any order are [gmap]s, and what depends on the
    order is stated for all orders.  Libraries of third parties are type classes
    ([RegexpPkg], [SchemaPkg], [CachePkg], [CCachePkg], [CorazaPkg], [GraphQLPkg],
    [JSONPkg], [NetHTTPPkg] and others) or arguments, with the few documented facts the
    proofs need as fields; the witnesses instantiate all of them.  Logged messages are kept without their
    fields where a handler logs them, and debug messages are left out.

    ** The parts and their files

    - Foundations: [Prelude] (values, results, panics, lists), [Cmd] (stateful
      computations), [GoStrings] (strings, strconv, path), [URLValues] (sort, net/url,
      net/http), [NetIP] (net, net/netip).
    - Router (internal/platform/router): [RouterPattern] (patterns), [RouterTree]
      (radix tree and routing context), [RouterMux] (registration and lookup); the
      invariant, insertion and search in [RouterInv], [RouterInsert], [RouterFind].
      [RouterSpec]: the tree refines a table of routes after any registrations,
      lookup is sound and complete for it, and does not panic.
    - Validator (internal/platform/validator): [Values] and [Messages] (data and error
      texts), [ParamDecoder], [BodyDecoder] (req_resp_decoder.go), [Validate]
      (validate_request.go, validate_response.go), [Unknown] (undeclared parameters),
      [APIErrors] and [APIMode] (reports of the API mode).  The [...Spec] files show
      what an accepted request satisfies, round trips of the serialization styles,
      termination of decoding, that the body is left intact or rewritten with exactly
      its defaults, that exactly the undeclared parameters are reported, and which
      requests the API mode accepts.
    - Access lists and tokens: [AccessLists] (internal/platform/allowiplist and
      denylist), [OAuth2] (internal/platform/oauth2).  Subnets are enumerated exactly,
      the lists hold what their files say, tokens are accepted as specified, and a token
      is not introspected again while its entry is in the cache.
    - Web application: [Web] (internal/platform/web, proxy.go of internal/platform/proxy),
      [Mid] (internal/mid); [MidSpec] shows when a middleware calls the next handler.
      [Adaptor] (adaptor.go) serves the pages of the GraphQL playground: what a handler
      of net/http writes is what the client gets.
    - Backend connections: [Backend] (load balancer, pool, DNS cache of
      internal/platform/proxy); [BackendSpec]: its invariant, fairness, the overflow of
      the counter.  [Balancer] runs the load balancer concurrently, interleaved at its
      atomic operations: the calls of [Next] refine the sequential ones, with the flags
      as they are in the run, and [Stop] returns.
    - Proxy mode: [ProxyHandler] (cmd/api-firewall/internal/handlers/proxy: openapi.go,
      routes.go).  [ProxySpec]: what reaches the backend in block mode was routed,
      admitted and accepted; what reaches the client was accepted or is an answer of
      the firewall; log-only mode changes nothing.
    - Specifications: [Storage] (internal/platform/storage and the ticks of both
      updaters), [StorageSpec] (invariant of a store over any updates, updates settle,
      which changes are lost, which updates end the process).  [Updater]: the process
      of an updater with its start and stop over an interface, of which the updaters of
      the API mode and of the proxy mode are instances; when it can be stopped, and that
      what is served follows the store.
    - API mode: [APIHandlers] (handlers/api), [APIFirewall] (pkg/APIMode).  The [...Spec]
      files show that an answer has one entry per requested schema with exactly what
      routing, rules and validation of the request of the client give.  [PackageRuns]:
      the goroutines of the package at the level of their loads, stores and locks; there
      is no deadlock, and every schedule keeps all the entries where the mutex is used
      and loses some where it is not.  [Demo]: the demonstration program (demo/interface/api-mode)
      over the package.
    - GraphQL mode: [GraphQL] (validator/graphql.go, complexity, handlers/graphql),
      [WebSocket] (wsHandler.go, ws.go, wsClient.go).  [GraphQLSpec]: exactly which
      queries are valid, what is forwarded in block mode, and what a session lets pass.
    - Configuration, metrics and start: [Config] (internal/config, with the round trip of
      the list of endpoints), [Metrics] (internal/platform/metrics), [Startup] (main.go,
      the [Run] functions, health checks).  [StartupSpec] composes the components: what a
      started proxy or GraphQL firewall forwards is traced back to the files it was
      configured with.
    - [ProxyExamples], [APIExamples], [GraphQLExamples] and [StartupExamples] hold
      concrete instances of the libraries and the witnesses of the properties.

    ** Fuel

    [addChild] and [insertRoute_loop] consume the pattern, and one step more than its
    length is enough: the theorems of [RouterInsert] and [RouterSpec] are about that
    amount.  The searches recurse on the tree.
    [decodeBody] uses fuel for nested multipart bodies: any amount above the length of
    the body gives the same result ([decodeBody_fuel]), and that much is used.  The
    loops over the addresses of a subnet, over digits and over the groups of an IPv6
    address have as much fuel as they have steps.

    ** Not modelled

    - Sockets, listeners, timers and signals: the places where they act are parameters
      (answers of the network, ticks as steps).
    - Parsing of the command line, the environment and YAML into the configuration, and
      the validation of its tags, done by libraries.
    - Pools of buffers and parsers: the memory that pooled objects share.
    - Letters outside ASCII where case is ignored, and the headers that fasthttp manages
      itself beyond the content type.
    - The calls of the metrics inside the API mode, except where nil metrics panic.
    - Generated mocks, constants of the version, and the servers the demonstration
      program starts and waits for. *)
From stdpp Require Export base tactics option list gmap strings sorting.
From Stdlib Require Export ZArith Lia Ascii.

Declare Scope go_scope.
Delimit Scope go_scope with go.

Create HintDb apifw discriminated.

(** * Go values used by every component *)

(** Go strings are immutable byte sequences; [len], slicing and indexing work
    on bytes.  A Go string is a list of bytes, and the bytes are [ascii]. *)
Notation gostring := (list ascii).

(** String literals of the source are written as Rocq string literals. *)
Definition str (s : String.string) : gostring := String.list_ascii_of_string s.
Coercion str : String.string >-> list.

(** A computation that either returns or panics: a failed type assertion, an
    index out of range and a nil dereference all unwind to the next [recover]. *)
Inductive outcome (A : Type) : Type :=
| Ret (a : A)
| Panic.
Arguments Ret {A} a.
Arguments Panic {A}.

Definition obind {A B} (c : outcome A) (k : A → outcome B) : outcome B :=
  match c with Ret a => k a | Panic => Panic end.

(** A value or an error: the two-result convention of Go functions. *)
Inductive result (E A : Type) : Type :=
| Ok (a : A)
| Err (e : E).
Arguments Ok {E A} a.
Arguments Err {E A} e.

Definition rbind {E A B} (c : result E A) (k : A → result E B) : result E B :=
  match c with Ok a => k a | Err e => Err e end.

Definition is_ok {E A} (c : result E A) : bool :=
  match c with Ok _ => true | Err _ => false end.

Notation "x <-! c ;; k" := (obind c (λ x, k))
  (at level 100, c at next level, right associativity) : go_scope.
Notation "' p <-! c ;; k" := (obind c (λ x, match x with p => k end))
  (at level 100, p pattern, c at next level, right associativity) : go_scope.
Notation "x <-? c ;; k" := (rbind c (λ x, k))
  (at level 100, c at next level, right associativity) : go_scope.
Notation "' p <-? c ;; k" := (rbind c (λ x, match x with p => k end))
  (at level 100, p pattern, c at next level, right associativity) : go_scope.
Open Scope go_scope.

Section Outcome.
Context {A B : Type}.

Lemma obind_Ret (c : outcome A) (k : A → outcome B) b :
  obind c k = Ret b → ∃ a, c = Ret a ∧ k a = Ret b.
Proof. destruct c; simpl; eauto; discriminate. Qed.

Lemma obind_Panic (c : outcome A) (k : A → outcome B) :
  obind c k = Panic ↔ c = Panic ∨ ∃ a, c = Ret a ∧ k a = Panic.
Proof. destruct c; simpl; naive_solver. Qed.

Lemma rbind_Ok {E} (c : result E A) (k : A → result E B) b :
  rbind c k = Ok b → ∃ a, c = Ok a ∧ k a = Ok b.
Proof. destruct c; simpl; eauto; discriminate. Qed.

Lemma rbind_Err {E} (c : result E A) (k : A → result E B) e :
  rbind c k = Err e → c = Err e ∨ ∃ a, c = Ok a ∧ k a = Err e.
Proof. destruct c; simpl; naive_solver. Qed.
End Outcome.

(** Inversion of a hypothesis about a bind, on its successful branch. *)
Ltac inv_bind H :=
  first
    [ apply obind_Ret in H; destruct H as (? & ? & H)
    | apply rbind_Ok in H; destruct H as (? & ? & H) ].

(** Case analysis on every [match]/[if] scrutinee of the goal, closing the
    branches that congruence or arithmetic settles. *)
Ltac crush_match :=
  repeat (case_match; simplify_eq/=; try done).

(** * Lists *)

Section Lists.
Context {A : Type}.
Implicit Types (l : list A) (P : A → bool).

(** First element satisfying a test, with its index: the [for] loops that
    scan a slice and stop. *)
Fixpoint find_index P l : option nat :=
  match l with
  | [] => None
  | x :: l' => if P x then Some 0 else S <$> find_index P l'
  end.

Lemma find_index_Some P l i :
  find_index P l = Some i →
  ∃ x, l !! i = Some x ∧ P x = true ∧ Forall (λ y, P y = false) (take i l).
Proof.
  revert i; induction l as [|y l IH]; intros i; simpl; [discriminate|].
  destruct (P y) eqn:E.
  - intros [= <-]. exists y; repeat split; auto; constructor.
  - destruct (find_index P l) as [j|]; simpl; [|discriminate].
    intros [= <-]. destruct (IH _ eq_refl) as (x & ? & ? & ?).
    exists x; repeat split; auto; simpl; constructor; auto.
Qed.

Lemma find_index_None P l : find_index P l = None ↔ Forall (λ y, P y = false) l.
Proof.
  induction l as [|y l IH]; simpl; [split; auto; constructor|].
  destruct (P y) eqn:E; rewrite Forall_cons, E.
  - naive_solver.
  - rewrite <- IH. destruct (find_index P l); naive_solver.
Qed.

Lemma find_index_app_r P l1 l2 :
  Forall (λ y, P y = false) l1 →
  find_index P (l1 ++ l2) = (λ i, length l1 + i) <$> find_index P l2.
Proof.
  induction 1 as [|y l1 Hy _ IH]; simpl; [by destruct (find_index P l2)|].
  rewrite Hy, IH. by destruct (find_index P l2).
Qed.

Lemma find_index_lt P l i : find_index P l = Some i → i < length l.
Proof. intros (x & Hx & _)%find_index_Some. by apply lookup_lt_Some in Hx. Qed.

End Lists.

#[export] Hint Resolve find_index_lt : apifw.

(** * Counting *)

(** The elements of a list that satisfy a predicate, as the threads of a program that
    are at some point. *)
Definition count {A} (f : A → bool) (l : list A) : nat := length (List.filter f l).

Lemma count_insert {A} (f : A → bool) l k x x' :
  l !! k = Some x → count f (<[k := x']> l) + (if f x then 1 else 0) = count f l + (if f x' then 1 else 0).
Proof.
  unfold count. revert k. induction l as [|c l IH]; intros [|k] Hk; simplify_eq/=.
  - destruct (f x), (f x'); simpl; lia.
  - specialize (IH k Hk). destruct (f c); simpl; lia.
Qed.

Lemma count_app {A} (f : A → bool) l c : count f (l ++ [c]) = count f l + (if f c then 1 else 0).
Proof. unfold count. rewrite List.filter_app, length_app. simpl. by destruct (f c). Qed.

Lemma count_pos {A} (f : A → bool) l : 0 < count f l ↔ ∃ k x, l !! k = Some x ∧ f x = true.
Proof.
  unfold count. induction l as [|c l IH]; simpl.
  - split; [lia|]. by intros (k & x & ? & _).
  - destruct (f c) eqn:E; simpl.
    + split; [intros _; by exists 0, c|lia].
    + rewrite IH. split; intros (k & x & Hk & Hx); [by exists (S k), x|].
      destruct k as [|k]; simplify_eq/=; [congruence|by exists k, x].
Qed.

Lemma count_zero {A} (f : A → bool) l k x : count f l = 0 → l !! k = Some x → f x = false.
Proof.
  intros Hc Hk. destruct (f x) eqn:E; [|done]. assert (0 < count f l); [|lia]. apply count_pos. eauto.
Qed.
