(* ===== verification/Cmd.v ===== *)
(** Computations on a shared mutable state that may panic.  A panic keeps the
    state reached so far, since the code that recovers from it (deferred
    functions) sees the mutations made before it.  Postconditions and frame
    conditions of computations, with the rules for their constructs. *)
From S2P Require Import Prelude.

Section Cmd.
Context {S : Type}.

(** A command: the state after it, and its result. *)
Definition cmd (A : Type) : Type := S → S * outcome A.

Definition cmd_ret {A} (a : A) : cmd A := λ s, (s, Ret a).
Definition cmd_panic {A} : cmd A := λ s, (s, Panic).
Definition cmd_bind {A B} (c : cmd A) (k : A → cmd B) : cmd B :=
  λ s, match c s with
       | (s', Ret a) => k a s'
       | (s', Panic) => (s', Panic)
       end.
Definition cmd_get {A} (f : S → A) : cmd A := λ s, (s, Ret (f s)).
Definition cmd_modify (f : S → S) : cmd unit := λ s, (f s, Ret ()).
Definition cmd_lift {A} (o : outcome A) : cmd A := λ s, (s, o).

(** A deferred [recover]: after a panic, [k] gives the result. *)
Definition cmd_recover {A} (c : cmd A) (k : cmd A) : cmd A :=
  λ s, match c s with
       | (s', Panic) => k s'
       | r => r
       end.

(** * Postconditions *)

(** [Q] holds of the final state and the result of [c] from [s]. *)
Definition post {A} (c : cmd A) (s : S) (Q : S → outcome A → Prop) : Prop := Q (c s).1 (c s).2.

Lemma post_ret {A} (a : A) s (Q : S → outcome A → Prop) : Q s (Ret a) → post (cmd_ret a) s Q.
Proof. done. Qed.

Lemma post_bind {A B} (c : cmd A) (k : A → cmd B) s (Q : S → outcome B → Prop) :
  post c s (λ s' r, match r with Ret a => post (k a) s' Q | Panic => Q s' Panic end) →
  post (cmd_bind c k) s Q.
Proof. unfold post, cmd_bind. by destruct (c s) as [s' [a|]]. Qed.

Lemma post_recover {A} (c k : cmd A) s (Q : S → outcome A → Prop) :
  post c s (λ s' r, match r with Ret a => Q s' (Ret a) | Panic => post k s' Q end) →
  post (cmd_recover c k) s Q.
Proof. unfold post, cmd_recover. by destruct (c s) as [s' [a|]]. Qed.

Lemma post_get {A} (f : S → A) s (Q : S → outcome A → Prop) : Q s (Ret (f s)) → post (cmd_get f) s Q.
Proof. done. Qed.
Lemma post_modify f s (Q : S → outcome unit → Prop) : Q (f s) (Ret ()) → post (cmd_modify f) s Q.
Proof. done. Qed.

Lemma post_mono {A} (c : cmd A) s (P Q : S → outcome A → Prop) :
  post c s P → (∀ s' r, P s' r → Q s' r) → post c s Q.
Proof. unfold post. auto. Qed.

(** A sequence that returns, one that panics, and one on its first result. *)
Lemma bind_Ret {A B} (c : cmd A) (k : A → cmd B) s s' b :
  cmd_bind c k s = (s', Ret b) → ∃ a s1, c s = (s1, Ret a) ∧ k a s1 = (s', Ret b).
Proof. unfold cmd_bind. destruct (c s) as [s1 [a|]]; [eauto|done]. Qed.

Lemma bind_run {A B} (c : cmd A) (k : A → cmd B) s s1 a :
  c s = (s1, Ret a) → cmd_bind c k s = k a s1.
Proof. unfold cmd_bind. by intros ->. Qed.

Lemma bind_get {A B} (f : S → A) (k : A → cmd B) s : cmd_bind (cmd_get f) k s = k (f s) s.
Proof. done. Qed.
Lemma bind_modify {B} (f : S → S) (k : unit → cmd B) s : cmd_bind (cmd_modify f) k s = k () (f s).
Proof. done. Qed.
Lemma bind_ret {A B} (a : A) (k : A → cmd B) s : cmd_bind (cmd_ret a) k s = k a s.
Proof. done. Qed.
Lemma bind_lift {A B} (a : A) (k : A → cmd B) s : cmd_bind (cmd_lift (Ret a)) k s = k a s.
Proof. done. Qed.

(** * Frames *)

(** [c] does not change the observation [f] of the state, whatever its result. *)
Definition keeps {A B} (f : S → B) (c : cmd A) : Prop := ∀ s, f (c s).1 = f s.

Lemma keeps_ret {A B} (f : S → B) (a : A) : keeps f (cmd_ret a).
Proof. by intros s. Qed.
Lemma keeps_panic {A B} (f : S → B) : keeps f (cmd_panic (A := A)).
Proof. by intros s. Qed.
Lemma keeps_get {A B} (f : S → B) (g : S → A) : keeps f (cmd_get g).
Proof. by intros s. Qed.
Lemma keeps_lift {A B} (f : S → B) (o : outcome A) : keeps f (cmd_lift o).
Proof. by intros s. Qed.
Lemma keeps_modify {B} (f : S → B) (g : S → S) : (∀ s, f (g s) = f s) → keeps f (cmd_modify g).
Proof. done. Qed.
Lemma keeps_bind {A B C} (f : S → C) (c : cmd A) (k : A → cmd B) :
  keeps f c → (∀ a, keeps f (k a)) → keeps f (cmd_bind c k).
Proof.
  intros Hc Hk s. unfold cmd_bind. specialize (Hc s). destruct (c s) as [s' [a|]]; simpl in *; [|done].
  by rewrite Hk.
Qed.
Lemma keeps_recover {A C} (f : S → C) (c k : cmd A) :
  keeps f c → keeps f k → keeps f (cmd_recover c k).
Proof.
  intros Hc Hk s. unfold cmd_recover. specialize (Hc s). destruct (c s) as [s' [a|]]; simpl in *; [done|].
  by rewrite Hk.
Qed.
Lemma keeps_if {A C} (f : S → C) (b : bool) (c k : cmd A) :
  keeps f c → keeps f k → keeps f (if b then c else k).
Proof. by destruct b. Qed.

(** A command whose frame is known, followed by anything. *)
Lemma keeps_run {A B} (f : S → B) (c : cmd A) s s' r : keeps f c → c s = (s', r) → f s' = f s.
Proof. intros Hk E. specialize (Hk s). by rewrite E in Hk. Qed.
End Cmd.
Arguments cmd : clear implicits.

Notation "x <-- c ;; k" := (cmd_bind c (λ x, k))
  (at level 100, c at next level, right associativity) : go_scope.
Notation "' p <-- c ;; k" := (cmd_bind c (λ x, match x with p => k end))
  (at level 100, p pattern, c at next level, right associativity) : go_scope.
Notation "c ;;; k" := (cmd_bind c (λ _ : unit, k)) (at level 100, right associativity) : go_scope.

#[export] Hint Resolve keeps_ret keeps_panic keeps_get keeps_lift keeps_bind keeps_recover keeps_if
  : apifw.

(** Frame goals: the constructs, then the observation of each modification. *)
Ltac solve_keeps :=
  repeat first
    [ apply keeps_ret | apply keeps_panic | apply keeps_get | apply keeps_lift
    | apply keeps_bind; [|intros ?] | apply keeps_recover
    | apply keeps_modify; [intros []; reflexivity]
    | apply keeps_if
    | case_match
    | assumption
    | progress eauto with apifw ].
