(* ===== verification/GoStrings.v ===== *)
(** The parts of Go's [strings], [bytes] and [strconv] packages the sources
    use, as executable functions on byte strings, with the lemmas the
    components share.  Case mapping and white space are those of the ASCII
    range (the strings compared this way are HTTP tokens and keywords). *)
From S2P Require Import Prelude.

(** * Bytes *)

Definition byte_val (c : ascii) : Z := Z.of_N (N_of_ascii c).

Definition is_digit (c : ascii) : bool := (48 <=? byte_val c)%Z && (byte_val c <=? 57)%Z.

Definition byte_lower (c : ascii) : ascii :=
  if (65 <=? byte_val c)%Z && (byte_val c <=? 90)%Z
  then ascii_of_N (Z.to_N (byte_val c + 32)) else c.

Definition byte_upper (c : ascii) : ascii :=
  if (97 <=? byte_val c)%Z && (byte_val c <=? 122)%Z
  then ascii_of_N (Z.to_N (byte_val c - 32)) else c.

Definition is_space (c : ascii) : bool :=
  (byte_val c =? 32)%Z || ((9 <=? byte_val c)%Z && (byte_val c <=? 13)%Z).

(** * Package strings *)

Definition eqb_str (a b : gostring) : bool := bool_decide (a = b).
Infix "=?s" := eqb_str (at level 70, no associativity) : go_scope.

Definition is_empty (s : gostring) : bool := match s with [] => true | _ => false end.

Definition to_lower : gostring → gostring := map byte_lower.
Definition to_upper : gostring → gostring := map byte_upper.
Definition equal_fold (a b : gostring) : bool := to_lower a =?s to_lower b.

Fixpoint has_prefix (s p : gostring) {struct p} : bool :=
  match p, s with
  | [], _ => true
  | c :: p', d :: s' => bool_decide (c = d) && has_prefix s' p'
  | _ :: _, [] => false
  end.

Definition has_suffix (s p : gostring) : bool := has_prefix (reverse s) (reverse p).

Definition trim_prefix (s p : gostring) : gostring :=
  if has_prefix s p then drop (length p) s else s.
Definition trim_suffix (s p : gostring) : gostring :=
  if has_suffix s p then take (length s - length p) s else s.

(** [strings.IndexByte]; [None] is the result -1. *)
Definition index_byte (s : gostring) (c : ascii) : option nat :=
  find_index (λ d, bool_decide (d = c)) s.

(** [strings.Index]; [None] is the result -1. *)
Fixpoint index_str (s p : gostring) : option nat :=
  if has_prefix s p then Some 0
  else match s with [] => None | _ :: s' => S <$> index_str s' p end.

Definition contains (s p : gostring) : bool := bool_decide (is_Some (index_str s p)).

Definition last_index_byte (s : gostring) (c : ascii) : option nat :=
  (λ i, length s - 1 - i) <$> index_byte (reverse s) c.

Fixpoint trim_left (s : gostring) : gostring :=
  match s with
  | c :: s' => if is_space c then trim_left s' else s
  | [] => []
  end.
Definition trim_space (s : gostring) : gostring :=
  reverse (trim_left (reverse (trim_left s))).

(** [strings.Split] with a non-empty separator: [skip] is the number of bytes
    of the separator still to be dropped. *)
Fixpoint split_aux (sep : gostring) (skip : nat) (s : gostring) : list gostring :=
  match s with
  | [] => [[]]
  | c :: s' =>
      match skip with
      | S k => split_aux sep k s'
      | 0 =>
          if has_prefix s sep then [] :: split_aux sep (length sep - 1) s'
          else match split_aux sep 0 s' with
               | h :: t => (c :: h) :: t
               | [] => [[c]]
               end
      end
  end.

(** [strings.Split]: an empty separator explodes the string. *)
Definition split (s sep : gostring) : list gostring :=
  match sep with [] => map (λ c, [c]) s | _ => split_aux sep 0 s end.

(** [strings.SplitN(s, sep, 2)]. *)
Definition split2 (s sep : gostring) : list gostring :=
  match index_str s sep with
  | Some i => [take i s; drop (i + length sep) s]
  | None => [s]
  end.

(** [strings.Join]. *)
Fixpoint join (l : list gostring) (sep : gostring) : gostring :=
  match l with
  | [] => []
  | [x] => x
  | x :: l' => x ++ sep ++ join l' sep
  end.

(** [strings.ReplaceAll] with a non-empty [old]. *)
Definition replace_all (s old new : gostring) : gostring := join (split s old) new.

(** * Package path *)

(** [path.Clean]: the elements of the path, the last one first. *)
Definition clean_elem (rooted : bool) (out : list gostring) (el : gostring) : list gostring :=
  if is_empty el || (el =?s ".") then out
  else if el =?s ".." then
    match out with
    | top :: out' => if top =?s ".." then el :: out else out'
    | [] => if rooted then [] else [el]
    end
  else el :: out.

Definition path_Clean (p : gostring) : gostring :=
  let rooted := has_prefix p "/" in
  let out := reverse (fold_left (clean_elem rooted) (split p "/") []) in
  match (if rooted then str "/" else []) ++ join out "/" with [] => str "." | q => q end.

(** [path.Join] of two elements: empty ones are left out. *)
Definition path_Join (a b : gostring) : gostring :=
  match List.filter (λ s, negb (is_empty s)) [a; b] with
  | [] => []
  | l => path_Clean (join l "/")
  end.

(** * Package net/url *)

Definition hex_val (c : ascii) : option Z :=
  let v := byte_val c in
  if (48 <=? v)%Z && (v <=? 57)%Z then Some (v - 48)%Z
  else let l := byte_val (byte_lower c) in
       if (97 <=? l)%Z && (l <=? 102)%Z then Some (l - 97 + 10)%Z else None.

(** [url.QueryUnescape]; [None] is an escape error. *)
Fixpoint query_unescape (s : gostring) : option gostring :=
  match s with
  | [] => Some []
  | c :: s' =>
      if bool_decide (c = "%"%char) then
        match s' with
        | a :: b :: s'' =>
            match hex_val a, hex_val b with
            | Some x, Some y =>
                cons (ascii_of_N (Z.to_N (x * 16 + y))) <$> query_unescape s''
            | _, _ => None
            end
        | _ => None
        end
      else cons (if bool_decide (c = "+"%char) then " "%char else c) <$> query_unescape s'
  end.

(** One [key=value] of [url.ParseQuery]: [Some None] is a pair to skip, [None]
    an error. *)
Definition parse_pair (kv : gostring) : option (option (gostring * gostring)) :=
  if bool_decide (";"%char ∈ kv) then None
  else if is_empty kv then Some None
  else
    let '(k, v) :=
      match index_byte kv "=" with Some i => (take i kv, drop (S i) kv) | None => (kv, []) end in
    match query_unescape k, query_unescape v with
    | Some k, Some v => Some (Some (k, v))
    | _, _ => None
    end.

(** * Package net/http: header names *)

(** Bytes allowed in a header field name. *)
Definition is_token (c : ascii) : bool :=
  is_digit c
  || ((97 <=? byte_val (byte_lower c))%Z && (byte_val (byte_lower c) <=? 122)%Z)
  || bool_decide (c ∈ str "!#$%&'*+-.^_`|~").

Fixpoint canonical_loop (upper : bool) (s : gostring) : gostring :=
  match s with
  | [] => []
  | c :: s' =>
      (if upper then byte_upper c else byte_lower c)
      :: canonical_loop (bool_decide (c = "-"%char)) s'
  end.

(** [http.CanonicalHeaderKey]: unchanged when a byte is not allowed. *)
Definition CanonicalHeaderKey (s : gostring) : gostring :=
  if forallb is_token s then canonical_loop true s else s.

(** * Package strconv *)

Definition digit_val (c : ascii) : option Z :=
  let v := byte_val c in
  if (48 <=? v)%Z && (v <=? 57)%Z then Some (v - 48)%Z
  else let l := byte_val (byte_lower c) in
       if (97 <=? l)%Z && (l <=? 122)%Z then Some (l - 97 + 10)%Z else None.

Inductive num_error := ErrSyntax | ErrRange.
#[export] Instance num_error_eq_dec : EqDecision num_error.
Proof. solve_decision. Defined.

(** The digit loop of [ParseUint]: underscores are skipped when the base was
    given as 0, a digit not below the base is a syntax error and a value of
    more than [bits] bits a range error (the loop returns at the first of the
    two). *)
Fixpoint parse_digits (base0 : bool) (base bits acc : Z) (s : gostring) : result num_error Z :=
  match s with
  | [] => Ok acc
  | c :: s' =>
      if bool_decide (c = "_"%char) && base0 then parse_digits base0 base bits acc s'
      else match digit_val c with
           | Some d =>
               if (base <=? d)%Z then Err ErrSyntax
               else let acc' := (acc * base + d)%Z in
                    if (2 ^ bits <=? acc')%Z then Err ErrRange
                    else parse_digits base0 base bits acc' s'
           | None => Err ErrSyntax
           end
  end.

(** [underscoreOK]: underscores must separate digits, after an optional base
    prefix.  [seen] is the class of the previous byte: '^' for the start, '0'
    for a digit or base prefix, '_' for an underscore, '!' for anything else. *)
Fixpoint underscore_loop (hex : bool) (seen : ascii) (s : gostring) : bool :=
  match s with
  | [] => negb (bool_decide (seen = "_"%char))
  | c :: s' =>
      let l := byte_val (byte_lower c) in
      if is_digit c || (hex && (97 <=? l)%Z && (l <=? 102)%Z)
      then underscore_loop hex "0"%char s'
      else if bool_decide (c = "_"%char)
           then if bool_decide (seen = "0"%char) then underscore_loop hex "_"%char s'
                else false
           else if bool_decide (seen = "_"%char) then false
                else underscore_loop hex "!"%char s'
  end.

Definition drop_sign (s : gostring) : gostring :=
  match s with
  | c :: s' => if bool_decide (c = "-"%char) || bool_decide (c = "+"%char) then s' else s
  | [] => []
  end.

Definition underscore_ok (s0 : gostring) : bool :=
  let s := drop_sign s0 in
  match s with
  | "0"%char :: b :: s' =>
      let l := byte_lower b in
      if bool_decide (l = "b"%char) || bool_decide (l = "o"%char) || bool_decide (l = "x"%char)
      then underscore_loop (bool_decide (l = "x"%char)) "0"%char s'
      else underscore_loop false "^"%char s
  | _ => underscore_loop false "^"%char s
  end.

(** Base detection of [ParseUint] with base 0: the base and what follows the
    prefix. *)
Definition base_prefix (s : gostring) : Z * gostring :=
  match s with
  | "0"%char :: c :: r0 =>
      let l := byte_lower c in
      if bool_decide (l = "b"%char) && negb (is_empty r0) then (2%Z, r0)
      else if bool_decide (l = "o"%char) && negb (is_empty r0) then (8%Z, r0)
      else if bool_decide (l = "x"%char) && negb (is_empty r0) then (16%Z, r0)
      else (8%Z, c :: r0)
  | "0"%char :: [] => (8%Z, [])
  | _ => (10%Z, s)
  end.

(** [strconv.ParseUint(s, base, bits)]. *)
Definition parse_uint (base bits : Z) (s : gostring) : result num_error Z :=
  if is_empty s then Err ErrSyntax
  else if (base =? 0)%Z then
    let '(b, rest) := base_prefix s in
    n <-? parse_digits true b bits 0 rest ;;
    if bool_decide ("_"%char ∈ rest) && negb (underscore_ok s) then Err ErrSyntax else Ok n
  else parse_digits false base bits 0 s.

(** [strconv.ParseInt(s, base, bits)]. *)
Definition parse_int (base bits : Z) (s : gostring) : result num_error Z :=
  if is_empty s then Err ErrSyntax
  else
    let neg := match s with "-"%char :: _ => true | _ => false end in
    let s' := drop_sign s in
    un <-? parse_uint base bits s' ;;
    let cutoff := (2 ^ (bits - 1))%Z in
    if negb neg && (cutoff <=? un)%Z then Err ErrRange
    else if neg && (cutoff <? un)%Z then Err ErrRange
    else Ok (if neg then - un else un)%Z.

(** [strconv.Atoi]. *)
Definition atoi (s : gostring) : result num_error Z := parse_int 10 64 s.

(** [strconv.ParseBool]. *)
Definition parse_bool (s : gostring) : option bool :=
  if bool_decide (s ∈ [str "1"; str "t"; str "T"; str "true"; str "TRUE"; str "True"])
  then Some true
  else if bool_decide (s ∈ [str "0"; str "f"; str "F"; str "false"; str "FALSE"; str "False"])
  then Some false else None.

(** [strconv.Itoa] / [FormatInt(_, 10)]: [fuel] digits at most. *)
Fixpoint format_digits (fuel : nat) (n : Z) (acc : gostring) : gostring :=
  match fuel with
  | 0 => acc
  | S f =>
      let acc' := ascii_of_N (Z.to_N (48 + n mod 10)) :: acc in
      if (n <? 10)%Z then acc' else format_digits f (n / 10) acc'
  end.

Definition itoa (n : Z) : gostring :=
  let digits m := format_digits (S (Z.to_nat (Z.log2 m))) m [] in
  if (n <? 0)%Z then "-"%char :: digits (- n)%Z else digits n.

(** * Lemmas *)

Lemma eqb_str_true a b : (a =?s b) = true ↔ a = b.
Proof. apply bool_decide_eq_true. Qed.

Lemma eqb_str_false a b : (a =?s b) = false ↔ a ≠ b.
Proof. apply bool_decide_eq_false. Qed.

Lemma eqb_str_refl a : (a =?s a) = true.
Proof. by apply eqb_str_true. Qed.

Lemma has_prefix_spec s p : has_prefix s p = true ↔ p `prefix_of` s.
Proof.
  revert s; induction p as [|c p IH]; intros [|d s]; simpl.
  - split; auto using prefix_nil.
  - split; auto using prefix_nil.
  - split; [discriminate|]. intros [k ?]; discriminate.
  - rewrite andb_true_iff, bool_decide_eq_true, IH. split.
    + intros [-> ?]. by apply prefix_cons.
    + intros H. split; [by apply prefix_cons_inv_1 in H|by apply prefix_cons_inv_2 in H].
Qed.

Lemma has_prefix_app p s : has_prefix (p ++ s) p = true.
Proof. apply has_prefix_spec. by apply prefix_app_r. Qed.

Lemma has_prefix_drop s p : has_prefix s p = true → s = p ++ drop (length p) s.
Proof. intros [k ->]%has_prefix_spec. by rewrite drop_app_length. Qed.

Lemma has_prefix_length s p : has_prefix s p = true → length p ≤ length s.
Proof. intros [k ->]%has_prefix_spec. rewrite length_app. lia. Qed.

Lemma has_prefix_single c s :
  has_prefix s [c] = true ↔ ∃ s', s = c :: s'.
Proof. rewrite has_prefix_spec. split; intros [k ->]; eexists; done. Qed.

Lemma index_byte_Some s c i :
  index_byte s c = Some i ↔
  s !! i = Some c ∧ c ∉ take i s.
Proof.
  unfold index_byte; split.
  - intros (x & Hx & Hc%bool_decide_eq_true & Hall)%find_index_Some. subst x.
    split; [done|]. intros Hin. rewrite Forall_forall in Hall.
    specialize (Hall _ Hin). by apply bool_decide_eq_false in Hall.
  - revert i; induction s as [|d s IH]; intros [|i]; simpl; try (intros [? ?]; discriminate).
    + intros [[= ->] _]. by rewrite bool_decide_true.
    + rewrite elem_of_cons. intros [? Hn]. rewrite bool_decide_false by naive_solver.
      rewrite (IH i); naive_solver.
Qed.

Lemma index_byte_None s c : index_byte s c = None ↔ c ∉ s.
Proof.
  unfold index_byte. rewrite find_index_None, Forall_forall. split.
  - intros H Hin. specialize (H _ Hin). by apply bool_decide_eq_false in H.
  - intros H x Hx. apply bool_decide_eq_false. by intros ->.
Qed.

Lemma index_byte_app s c s' : c ∉ s → index_byte (s ++ c :: s') c = Some (length s).
Proof.
  intros. apply index_byte_Some. split.
  - by rewrite lookup_app_r, Nat.sub_diag by lia.
  - by rewrite take_app_length.
Qed.

Lemma index_byte_lt s c i : index_byte s c = Some i → i < length s.
Proof. intros [H _]%index_byte_Some. by apply lookup_lt_Some in H. Qed.

(** ** Split and Join *)

Lemma split_aux_cons sep k s : ∃ h t, split_aux sep k s = h :: t.
Proof.
  revert k; induction s as [|c s IH]; intros k; simpl; eauto.
  destruct k; [|by apply IH]. case_match; eauto.
  destruct (IH 0) as (h & t & ->). eauto.
Qed.

Lemma split_aux_no_sep c s : c ∉ s → split_aux [c] 0 s = [s].
Proof.
  induction s as [|d s IH]; intros Hn; simpl; [done|].
  rewrite elem_of_cons in Hn. rewrite IH by naive_solver.
  by rewrite bool_decide_false by naive_solver.
Qed.

Lemma split_aux_app_sep c x s :
  c ∉ x → split_aux [c] 0 (x ++ c :: s) = x :: split_aux [c] 0 s.
Proof.
  induction x as [|d x IH]; intros Hn; simpl.
  - by rewrite bool_decide_true by done.
  - rewrite elem_of_cons in Hn. rewrite IH by naive_solver.
    by rewrite bool_decide_false by naive_solver.
Qed.

Lemma split_join c l :
  l ≠ [] → Forall (λ x, c ∉ x) l → split (join l [c]) [c] = l.
Proof.
  intros Hne Hall; unfold split. induction Hall as [|x l Hx Hall IH]; [done|].
  destruct l as [|y l].
  - by apply split_aux_no_sep.
  - change (join (x :: y :: l) [c]) with (x ++ c :: join (y :: l) [c]).
    rewrite split_aux_app_sep by done. f_equal. by apply IH.
Qed.

Lemma join_cons2 x y l sep : join (x :: y :: l) sep = x ++ sep ++ join (y :: l) sep.
Proof. done. Qed.

Lemma join_split_aux c s : join (split_aux [c] 0 s) [c] = s.
Proof.
  induction s as [|d s IH]; [done|]. simpl.
  destruct (split_aux_cons [c] 0 s) as (h & t & Hs). rewrite Hs in *.
  destruct (bool_decide (c = d)) eqn:E; simpl.
  - apply bool_decide_eq_true in E as <-. by rewrite <- IH.
  - destruct t; simpl in *; by rewrite <- IH.
Qed.

Lemma join_split c s : join (split s [c]) [c] = s.
Proof. apply join_split_aux. Qed.

Lemma split_aux_pieces c s : Forall (λ x, c ∉ x) (split_aux [c] 0 s).
Proof.
  induction s as [|d s IH]; simpl.
  - constructor; [apply not_elem_of_nil|constructor].
  - destruct (split_aux_cons [c] 0 s) as (h & t & Hs). rewrite Hs in *.
    destruct (bool_decide (c = d)) eqn:E; simpl.
    + constructor; [apply not_elem_of_nil|done].
    + apply bool_decide_eq_false in E. inversion_clear IH.
      constructor; [|done]. rewrite elem_of_cons; naive_solver.
Qed.

Lemma split_nonempty c s : split s [c] ≠ [].
Proof. unfold split. destruct (split_aux_cons [c] 0 s) as (? & ? & ->). done. Qed.

(** ** Decimal numbers *)

Lemma digit_char n : (0 ≤ n < 10)%Z →
  digit_val (ascii_of_N (Z.to_N (48 + n))) = Some n
  ∧ ascii_of_N (Z.to_N (48 + n)) ≠ "_"%char
  ∧ ascii_of_N (Z.to_N (48 + n)) ≠ "-"%char
  ∧ ascii_of_N (Z.to_N (48 + n)) ≠ "+"%char.
Proof.
  intros H.
  assert (Hc : (n = 0 ∨ n = 1 ∨ n = 2 ∨ n = 3 ∨ n = 4 ∨ n = 5 ∨ n = 6 ∨ n = 7 ∨ n = 8 ∨ n = 9)%Z) by lia.
  repeat destruct Hc as [->|Hc]; try (subst n); repeat split; done.
Qed.

Lemma digit_char_zero n : (0 ≤ n < 10)%Z →
  ascii_of_N (Z.to_N (48 + n)) = "0"%char → n = 0%Z.
Proof.
  intros H E. destruct (digit_char n H) as [Hd _]. rewrite E in Hd. by injection Hd.
Qed.

(** The digits of [n] followed by [tl], read back from [acc]. *)
Lemma format_digits_parse f n tl base0 bits acc :
  (0 ≤ n)%Z → (n < 10 ^ Z.of_nat f)%Z → (0 < f) → (0 ≤ acc)%Z →
  ∃ k ds, format_digits f n tl = ds ++ tl ∧ length ds = S k ∧
    (acc * 10 ^ Z.of_nat (S k) + n < 2 ^ bits →
     parse_digits base0 10 bits acc (ds ++ tl)
     = parse_digits base0 10 bits (acc * 10 ^ Z.of_nat (S k) + n) tl)%Z.
Proof.
  revert n tl. induction f as [|f IH]; intros n tl Hn Hf Hpos Hacc; [lia|]. simpl.
  assert (Hm : (0 ≤ n mod 10 < 10)%Z) by (apply Z.mod_pos_bound; lia).
  destruct (digit_char _ Hm) as (Hd & Hu & _).
  set (d := ascii_of_N (Z.to_N (48 + n mod 10))) in *.
  assert (Hstep : ∀ a : Z, (0 ≤ a)%Z → (a * 10 + n mod 10 < 2 ^ bits)%Z →
    parse_digits base0 10 bits a (d :: tl)
    = parse_digits base0 10 bits (a * 10 + n mod 10) tl).
  { intros a Ha Hb. simpl. rewrite bool_decide_false by done. simpl. rewrite Hd.
    destruct (Z.leb_spec 10 (n mod 10)); [lia|].
    by destruct (Z.leb_spec (2 ^ bits) (a * 10 + n mod 10)); [lia|]. }
  destruct (Z.ltb_spec n 10) as [Hlt|Hge].
  - exists 0, [d]. repeat split. rewrite Z.mod_small in * by lia.
    intros Hb. change (10 ^ Z.of_nat 1)%Z with 10%Z in *. simpl app. by rewrite Hstep by lia.
  - pose proof (Z.div_mod n 10 ltac:(lia)) as Hdm.
    assert (0 < f). { destruct f; [|lia]. change (10 ^ Z.of_nat 1)%Z with 10%Z in Hf. lia. }
    assert (Hq : (n / 10 < 10 ^ Z.of_nat f)%Z).
    { apply Z.div_lt_upper_bound; [lia|]. rewrite Nat2Z.inj_succ, Z.pow_succ_r in Hf; lia. }
    destruct (IH (n / 10)%Z (d :: tl)) as (k & ds & Hfd & Hlen & Hp); try lia.
    exists (S k), (ds ++ [d]). rewrite Hfd, <- app_assoc, length_app, Hlen.
    split; [done|split; [simpl; lia|]]. intros Hb. simpl app.
    rewrite (Nat2Z.inj_succ (S k)), Z.pow_succ_r in * by lia.
    assert (0 < 10 ^ Z.of_nat (S k))%Z by (apply Z.pow_pos_nonneg; lia).
    rewrite Hp by nia. rewrite Hstep by nia. f_equal. nia.
Qed.

Lemma lt_pow10_log2 m : (0 ≤ m)%Z → (m < 10 ^ Z.of_nat (S (Z.to_nat (Z.log2 m))))%Z.
Proof.
  intros Hm. rewrite Nat2Z.inj_succ, Z2Nat.id by apply Z.log2_nonneg.
  destruct (Z.eq_dec m 0) as [->|Hnz]; [done|].
  destruct (Z.log2_spec m) as [_ H]; [lia|].
  eapply Z.lt_le_trans; [exact H|]. apply Z.pow_le_mono_l; lia.
Qed.

(** The first byte of a decimal numeral: it is a digit, and it is "0" only for
    the number 0. *)
Lemma format_digits_head f n tl :
  (0 ≤ n)%Z → (n < 10 ^ Z.of_nat f)%Z → 0 < f →
  ∃ m ds, format_digits f n tl = ascii_of_N (Z.to_N (48 + m)) :: ds ∧ (0 ≤ m < 10)%Z ∧
    (m = 0 → n = 0)%Z ∧ (n = 0%Z → ds = tl).
Proof.
  revert n tl. induction f as [|f IH]; intros n tl Hn Hf Hpos; [lia|]. simpl.
  destruct (Z.ltb_spec n 10) as [Hlt|Hge].
  - eexists (n mod 10)%Z, tl. rewrite Z.mod_small by lia. repeat split; lia.
  - assert (0 < f). { destruct f; [|lia]. change (10 ^ Z.of_nat 1)%Z with 10%Z in Hf. lia. }
    assert (Hq : (n / 10 < 10 ^ Z.of_nat f)%Z).
    { apply Z.div_lt_upper_bound; [lia|]. rewrite Nat2Z.inj_succ, Z.pow_succ_r in Hf; lia. }
    assert (1 ≤ n / 10)%Z by (apply Z.div_le_lower_bound; lia).
    destruct (IH (n / 10)%Z (ascii_of_N (Z.to_N (48 + n mod 10)) :: tl))
      as (m & ds & -> & ? & ? & ?); try lia.
    exists m, ds. repeat split; lia.
Qed.

Definition digits (m : Z) : gostring := format_digits (S (Z.to_nat (Z.log2 m))) m [].

Lemma digits_parse base0 bits m :
  (0 ≤ m < 2 ^ bits)%Z → parse_digits base0 10 bits 0 (digits m) = Ok m.
Proof.
  intros Hm. unfold digits.
  destruct (format_digits_parse (S (Z.to_nat (Z.log2 m))) m [] base0 bits 0)
    as (k & ds & -> & _ & Hp); try lia; [by apply lt_pow10_log2; lia|].
  rewrite Hp; [simpl; f_equal; lia|lia].
Qed.

Lemma parse_digits_no_underscore base bits acc s n :
  parse_digits false base bits acc s = Ok n → "_"%char ∉ s.
Proof.
  revert acc; induction s as [|c s IH]; intros acc; simpl; [set_solver|].
  rewrite andb_false_r. destruct (digit_val c) eqn:Hd; [|discriminate].
  repeat case_match; try discriminate. intros Hp%IH.
  rewrite elem_of_cons. intros [<-|?]; [discriminate Hd|done].
Qed.

(** Reading back a printed non-negative number, with or without base
    detection: the numeral of 0 is the single digit "0", and no other numeral
    starts with it, so base 0 reads every numeral as decimal. *)
Lemma parse_uint_digits base bits m :
  base = 0%Z ∨ base = 10%Z → (0 ≤ m < 2 ^ bits)%Z → parse_uint base bits (digits m) = Ok m.
Proof.
  intros Hbase Hm.
  pose proof (digits_parse true bits m Hm) as Hp.
  pose proof (digits_parse false bits m Hm) as Hp'.
  pose proof (parse_digits_no_underscore _ _ _ _ _ Hp') as Hnu.
  destruct (format_digits_head (S (Z.to_nat (Z.log2 m))) m []) as (h & ds & Hfd & Hh & H0 & Hz);
    try lia; [by apply lt_pow10_log2; lia|].
  change (digits m = ascii_of_N (Z.to_N (48 + h)) :: ds) in Hfd.
  unfold parse_uint. destruct Hbase as [-> | ->]; [|by rewrite Hp', Hfd].
  destruct (decide (m = 0%Z)) as [->|Hnz]; [done|].
  assert (ascii_of_N (Z.to_N (48 + h)) ≠ "0"%char) as Hc.
  { intros E%digit_char_zero; [lia|done]. }
  rewrite Hfd in *. simpl is_empty. cbv iota.
  set (c := ascii_of_N _) in *. clearbody c. change (0 =? 0)%Z with true. cbv iota.
  assert (base_prefix (c :: ds) = (10%Z, c :: ds)) as ->.
  { unfold base_prefix. repeat (case_match; try done). }
  rewrite Hp. simpl. by rewrite (bool_decide_false _ Hnu).
Qed.

(** [ParseInt] reads back what [Itoa] printed, for every number of the width. *)
Lemma parse_int_itoa base bits n :
  base = 0%Z ∨ base = 10%Z → (0 < bits)%Z →
  (- 2 ^ (bits - 1) ≤ n < 2 ^ (bits - 1))%Z →
  parse_int base bits (itoa n) = Ok n.
Proof.
  intros Hbase Hbits Hn.
  assert (2 ^ bits = 2 * 2 ^ (bits - 1))%Z as Hpow.
  { rewrite <- Z.pow_succ_r by lia. f_equal. lia. }
  unfold itoa. fold (digits n) (digits (- n)).
  destruct (Z.ltb_spec n 0) as [Hneg|Hpos].
  - unfold parse_int. simpl. rewrite parse_uint_digits by (auto; lia). simpl.
    destruct (Z.ltb_spec (2 ^ (bits - 1)) (- n)); [lia|]. f_equal; lia.
  - pose proof (parse_uint_digits base bits n Hbase ltac:(lia)) as Hp.
    destruct (format_digits_head (S (Z.to_nat (Z.log2 n))) n []) as (h & ds & Hfd & Hh & _);
      try lia; [by apply lt_pow10_log2; lia|].
    change (digits n = ascii_of_N (Z.to_N (48 + h)) :: ds) in Hfd.
    destruct (digit_char h Hh) as (_ & _ & Hm & Hpl). rewrite Hfd in *.
    set (c := ascii_of_N _) in *. clearbody c.
    unfold parse_int. simpl is_empty. cbv iota.
    assert (drop_sign (c :: ds) = c :: ds) as ->.
    { simpl. by rewrite !bool_decide_false. }
    assert (match c :: ds with "-"%char :: _ => true | _ => false end = false) as ->.
    { repeat (case_match; try done). }
    rewrite Hp. simpl. by destruct (Z.leb_spec (2 ^ (bits - 1)) n); [lia|].
Qed.

(** What [ParseInt] accepts fits the width. *)
Lemma parse_digits_bound base0 base bits acc s n :
  (0 ≤ acc < 2 ^ bits)%Z → (0 ≤ base)%Z →
  parse_digits base0 base bits acc s = Ok n → (0 ≤ n < 2 ^ bits)%Z.
Proof.
  revert acc; induction s as [|c s IH]; intros acc Hacc Hb; simpl; [naive_solver|].
  case_match; [by apply IH|]. destruct (digit_val c) as [d|] eqn:Hd; [|discriminate].
  assert (0 ≤ d)%Z.
  { revert Hd. unfold digit_val. repeat case_match; intros [= <-];
      repeat match goal with H : (_ && _) = true |- _ => apply andb_prop in H as [? ?] end; lia. }
  destruct (Z.leb_spec base d); [discriminate|].
  destruct (Z.leb_spec (2 ^ bits) (acc * base + d)); [discriminate|].
  apply IH; [nia|done].
Qed.

Lemma parse_uint_bound base bits s n :
  (0 ≤ base)%Z → (0 ≤ bits)%Z → parse_uint base bits s = Ok n → (0 ≤ n < 2 ^ bits)%Z.
Proof.
  intros Hb Hbits. assert (0 < 2 ^ bits)%Z by (apply Z.pow_pos_nonneg; lia).
  unfold parse_uint. case_match; [discriminate|]. case_match.
  - destruct (base_prefix s) as [b rest] eqn:E.
    assert (0 ≤ b)%Z
      by (revert E; unfold base_prefix; repeat case_match; intros [= <- _]; lia).
    intros Hr. apply rbind_Ok in Hr as (m & Hm & Hr).
    case_match; [discriminate|]. injection Hr as ->.
    eapply parse_digits_bound in Hm; [done| |done]; lia.
  - apply parse_digits_bound; lia.
Qed.

Lemma parse_int_bound base bits s n :
  (0 ≤ base)%Z → (0 < bits)%Z → parse_int base bits s = Ok n →
  (- 2 ^ (bits - 1) ≤ n < 2 ^ (bits - 1))%Z.
Proof.
  intros Hb Hbits. unfold parse_int. case_match; [discriminate|].
  intros Hr. apply rbind_Ok in Hr as (un & Hu & Hr).
  apply parse_uint_bound in Hu; [|lia|lia].
  destruct (match s with "-"%char :: _ => true | _ => false end); simpl in Hr.
  - destruct (Z.ltb_spec (2 ^ (bits - 1)) un); [discriminate|]. injection Hr as <-. lia.
  - destruct (Z.leb_spec (2 ^ (bits - 1)) un); [discriminate|]. injection Hr as <-. lia.
Qed.

Lemma split_pieces c s : Forall (λ x, c ∉ x) (split s [c]).
Proof. apply split_aux_pieces. Qed.

Lemma elem_of_join a x l sep : x ∈ l → a ∈ x → a ∈ join l sep.
Proof.
  induction l as [|y l IH]; [by intros ?%elem_of_nil|].
  destruct l as [|z l]; [by intros ->%list_elem_of_singleton|].
  rewrite join_cons2, elem_of_cons, !elem_of_app. naive_solver.
Qed.

Lemma elem_of_split a x c s : x ∈ split s [c] → a ∈ x → a ∈ s.
Proof. intros Hx Ha. rewrite <- (join_split c s). by eapply elem_of_join. Qed.

Lemma index_str_byte s c : index_str s [c] = index_byte s c.
Proof.
  induction s as [|d s IH]; [done|]. unfold index_byte. simpl.
  rewrite andb_true_r, (bool_decide_ext (d = c) (c = d)) by naive_solver.
  case_bool_decide; [done|]. rewrite IH. unfold index_byte. done.
Qed.

Lemma trim_left_suffix s : ∃ p, s = p ++ trim_left s.
Proof.
  induction s as [|c s [p IH]]; [by exists []|]. simpl.
  destruct (is_space c); [|by exists []]. exists (c :: p). simpl. by f_equal.
Qed.

Lemma trim_left_idemp s : trim_left (trim_left s) = trim_left s.
Proof.
  induction s as [|c s IH]; [done|]. simpl.
  destruct (is_space c) eqn:E; [done|]. simpl. by rewrite E.
Qed.

Lemma trim_left_prefix u w : trim_left (u ++ w) = u ++ w → trim_left u = u.
Proof.
  destruct u as [|c u]; [done|]. simpl. destruct (is_space c); [|done]. intros H.
  destruct (trim_left_suffix (u ++ w)) as [p Hp]. rewrite H in Hp.
  apply (f_equal length) in Hp. rewrite !length_app in Hp. simpl in Hp. rewrite length_app in Hp. lia.
Qed.

Lemma trim_space_prefix s : ∃ w, trim_left s = trim_space s ++ w.
Proof.
  destruct (trim_left_suffix (reverse (trim_left s))) as [p Hp]. exists (reverse p).
  unfold trim_space. by rewrite <- reverse_app, <- Hp, reverse_involutive.
Qed.

Lemma trim_space_idemp s : trim_space (trim_space s) = trim_space s.
Proof.
  destruct (trim_space_prefix s) as [w Hw]. unfold trim_space at 1.
  rewrite (trim_left_prefix (trim_space s) w) by (rewrite <- Hw; apply trim_left_idemp).
  unfold trim_space. by rewrite reverse_involutive, trim_left_idemp.
Qed.

Lemma elem_of_trim_space a s : a ∈ trim_space s → a ∈ s.
Proof.
  destruct (trim_left_suffix s) as [p Hp], (trim_space_prefix s) as [w Hw].
  intros Ha. rewrite Hp, Hw, !elem_of_app. naive_solver.
Qed.
