(* ===== verification/Config.v ===== *)
(** The configuration (internal/config): the list of endpoints with their own
    modes (endpoints.go), the HTTP statuses a configuration may name (status.go),
    the text of a log line (logging.go) and the rules of ModSecurity (modsec.go).
    The records that the command line library fills are in the files of the
    components that read them. *)
From S2P Require Import Prelude GoStrings.

(** * Endpoints *)

Record ValidationMode := MkValidationMode {
  vm_RequestValidation : gostring;
  vm_ResponseValidation : gostring
}.

Record Endpoint := MkEndpoint {
  ep_ValidationMode : ValidationMode;
  ep_Path : gostring;
  ep_Method : gostring
}.
Notation EndpointList := (list Endpoint).

Definition ErrEndpointFormat : gostring := "invalid endpoint format, expected [METHOD:]PATH|REQ|RESP".

(** The method and the path before the first bar; the method is kept as it is. *)
Definition method_path (s : gostring) : gostring * gostring :=
  if contains s ":" then
    match split2 s ":" with [method; path] => (method, path) | _ => ([], []) end
  else ([], s).

(** One item of the list: what is appended, or the error. *)
Definition parse_endpoint (item : gostring) : result gostring Endpoint :=
  match split item "|" with
  | [p; req; resp] =>
      let '(method, path) := method_path p in
      let ep := MkEndpoint (MkValidationMode (trim_space req) (trim_space resp)) (trim_space path) method in
      if is_empty (ep_Path ep) || is_empty (vm_RequestValidation (ep_ValidationMode ep))
         || is_empty (vm_ResponseValidation (ep_ValidationMode ep))
      then Err ErrEndpointFormat else Ok ep
  | _ => Err ErrEndpointFormat
  end.

(** The loop over the items: those before a wrong one stay in the list. *)
Fixpoint set_items (e : EndpointList) (items : list gostring) : EndpointList * option gostring :=
  match items with
  | [] => (e, None)
  | item :: items' =>
      match parse_endpoint item with
      | Err err => (e, Some err)
      | Ok ep => set_items (e ++ [ep]) items'
      end
  end.

(** [EndpointList.Set]: the list after the call and the error. *)
Definition EndpointList_Set (e : EndpointList) (value : gostring) : EndpointList * option gostring :=
  if is_empty value then (e, None) else set_items e (split value ",").

Definition Endpoint_String (ep : Endpoint) : gostring :=
  ep_Method ep ++ str ":" ++ ep_Path ep ++ str "|" ++ vm_RequestValidation (ep_ValidationMode ep)
  ++ str "|" ++ vm_ResponseValidation (ep_ValidationMode ep).

(** [EndpointList.String]. *)
Definition EndpointList_String (e : EndpointList) : gostring := join (map Endpoint_String e) ",".

(** * HTTP statuses *)

Definition AllHttpStatuses : list Z :=
  [100; 101; 102; 103;
   200; 201; 202; 203; 204; 205; 206; 207; 208; 226;
   300; 301; 302; 303; 304; 305; 307; 308;
   400; 401; 402; 403; 404; 405; 406; 407; 408; 409; 410; 411; 412; 413; 414; 415; 416; 417;
   418; 421; 422; 423; 424; 425; 426; 428; 429; 431; 451;
   500; 501; 502; 503; 504; 505; 506; 507; 508; 510; 511]%Z.

(** A field as package reflect sees it: its kind, with the value of an integer.
    [KIntN] are the integers of 8, 16 and 32 bits. *)
Inductive kind_value :=
| KInt (n : Z)
| KInt64 (n : Z)
| KIntN (n : Z)
| KFloat64
| KSlice (l : list kind_value)
| KOther.

(** [Value.Int] panics unless the kind is one of the signed integers. *)
Definition Value_Int (v : kind_value) : outcome Z :=
  match v with KInt n | KInt64 n | KIntN n => Ret n | _ => Panic end.

Definition known_status (code : Z) : bool := existsb (Z.eqb code) AllHttpStatuses.

Fixpoint known_statuses (l : list kind_value) : outcome bool :=
  match l with
  | [] => Ret true
  | v :: l' => code <-! Value_Int v ;; if known_status code then known_statuses l' else Ret false
  end.

Definition ValidateStatusList (field : kind_value) : outcome bool :=
  match field with
  | KInt _ | KInt64 _ | KFloat64 => code <-! Value_Int field ;; Ret (known_status code)
  | KSlice l => known_statuses l
  | KIntN _ | KOther => Ret false
  end.

(** * Log lines *)

(** [DisableMultiStringFormat]; [None] is a value that is not a string. *)
Definition DisableMultiStringFormat (i : option gostring) : gostring :=
  match i with Some value => replace_all value [ascii_of_nat 10] " " | None => [] end.

(** * ModSecurity *)

Record ModSecurity := MkModSecurity {
  ms_ConfFiles : list gostring;
  ms_RulesDir : gostring
}.

Section ModSec.
(** [NotExist]: [os.IsNotExist] of the error of [os.Stat].  [NewWAF]: the engine
    for the files with directives, in order. *)
Context {WAF : Type} (NotExist : gostring → bool) (NewWAF : list gostring → result gostring WAF).

Fixpoint conf_files (files : list gostring) : result gostring (list gostring) :=
  match files with
  | [] => Ok []
  | f :: files' =>
      if NotExist f
      then Err (str "Loading ModSecurity configuration file error: no such file or directory: " ++ f)
      else fs <-? conf_files files' ;; Ok (f :: fs)
  end.

Definition rules_dir (dir : gostring) : result gostring (list gostring) :=
  if is_empty dir then Ok []
  else if NotExist dir
  then Err (str "Loading ModSecurity rules from dir error: no such file or directory: " ++ dir)
  else Ok [path_Join dir "*.conf"].

Definition LoadModSecurityConfiguration (cfg : ModSecurity) : result gostring (option WAF) :=
  match ms_ConfFiles cfg, ms_RulesDir cfg with
  | [], [] => Ok None
  | files, dir =>
      fs <-? conf_files files ;; rules <-? rules_dir dir ;;
      waf <-? NewWAF (fs ++ rules) ;; Ok (Some waf)
  end.
End ModSec.

(** * What the operations do *)

Lemma set_items_app e items :
  set_items e items = (e ++ (set_items [] items).1, (set_items [] items).2).
Proof.
  revert e; induction items as [|item items IH]; intros e; simpl; [by rewrite app_nil_r|].
  destruct (parse_endpoint item) as [ep|err]; [|by rewrite app_nil_r].
  rewrite (IH (e ++ [ep])), (IH [ep]). by rewrite <- (assoc_L (++)).
Qed.

(** An endpoint that [Set] can produce. *)
Definition clean_field (s : gostring) : Prop :=
  (","%char ∉ s) ∧ ("|"%char ∉ s) ∧ trim_space s = s ∧ s ≠ [].
Definition endpoint_wf (ep : Endpoint) : Prop :=
  clean_field (ep_Path ep) ∧ clean_field (vm_RequestValidation (ep_ValidationMode ep)) ∧
  clean_field (vm_ResponseValidation (ep_ValidationMode ep)) ∧
  (","%char ∉ ep_Method ep) ∧ ("|"%char ∉ ep_Method ep) ∧ (":"%char ∉ ep_Method ep).

Lemma method_path_join m p :
  ":"%char ∉ m → method_path (m ++ str ":" ++ p) = (m, p).
Proof.
  intros Hm. unfold method_path, contains, split2. change (str ":") with [":"%char].
  rewrite index_str_byte. change ([":"%char] ++ p) with (":"%char :: p).
  rewrite index_byte_app by done. rewrite bool_decide_true by eauto.
  rewrite take_app_length, drop_app_add. done.
Qed.

Lemma method_path_parts s m p :
  method_path s = (m, p) → (":"%char ∉ m) ∧ ∀ a, a ∈ m ∨ a ∈ p → a ∈ s.
Proof.
  unfold method_path, contains, split2. change (str ":") with [":"%char].
  rewrite index_str_byte. destruct (index_byte s ":") as [i|] eqn:E; simpl.
  - intros [= <- <-]. apply index_byte_Some in E as [_ Hi]. split; [done|].
    intros a Ha. rewrite <- (take_drop i s), elem_of_app. destruct Ha as [Ha|Ha]; [by left|right].
    rewrite <- drop_drop in Ha. rewrite <- (take_drop 1 (drop i s)), elem_of_app. by right.
  - intros [= <- <-]. split; [by intros ?%elem_of_nil|]. by intros a [?%elem_of_nil|].
Qed.

Lemma endpoint_fields ep :
  Endpoint_String ep = join [ep_Method ep ++ str ":" ++ ep_Path ep;
    vm_RequestValidation (ep_ValidationMode ep); vm_ResponseValidation (ep_ValidationMode ep)] ["|"%char].
Proof. unfold Endpoint_String. simpl. by rewrite <- !(assoc_L (++)). Qed.

Lemma parse_String ep : endpoint_wf ep → parse_endpoint (Endpoint_String ep) = Ok ep.
Proof.
  destruct ep as [[req resp] path method]. intros (Hp & Hq & Hr & Hc & Hb & Hm). simpl in *.
  unfold parse_endpoint. change (str "|") with ["|"%char]. rewrite endpoint_fields, split_join; [|done|].
  - cbn [ep_Method ep_Path]. rewrite method_path_join by done. simpl.
    destruct Hp as (_ & _ & -> & Hp), Hq as (_ & _ & -> & Hq), Hr as (_ & _ & -> & Hr).
    by destruct path, req, resp.
  - simpl. repeat constructor; [|apply Hq|apply Hr].
    rewrite elem_of_app, elem_of_cons. destruct Hp as (_ & Hp & _). by intros [?|[?|?]].
Qed.

Lemma String_no_comma ep : endpoint_wf ep → ","%char ∉ Endpoint_String ep.
Proof.
  intros (Hp & Hq & Hr & Hc & _). unfold Endpoint_String. rewrite !elem_of_app.
  change (str ":") with [":"%char]. change (str "|") with ["|"%char]. rewrite !list_elem_of_singleton.
  destruct Hp, Hq, Hr. by intros [?|[?|[?|[?|[?|[?|?]]]]]].
Qed.

(** What [Set] reads from an item without a comma is well formed. *)
Lemma parse_endpoint_wf item ep :
  ","%char ∉ item → parse_endpoint item = Ok ep → endpoint_wf ep.
Proof.
  unfold parse_endpoint. intros Hc. change (str "|") with ["|"%char].
  pose proof (split_pieces "|" item) as Hb.
  pose proof (λ a x, elem_of_split a x "|" item) as Hi.
  destruct (split item ["|"%char]) as [|p [|req [|resp [|]]]]; try done.
  destruct (method_path p) as [m path] eqn:Em.
  destruct (method_path_parts _ _ _ Em) as [Hm Hmp]. simpl.
  destruct (trim_space path) eqn:Ep, (trim_space req) eqn:Eq, (trim_space resp) eqn:Er; try done.
  simpl. rewrite <- Ep, <- Eq, <- Er. intros [= <-].
  rewrite !Forall_cons in Hb. destruct Hb as (Hb1 & Hb2 & Hb3 & _).
  assert (∀ x, x ∈ [p; req; resp] → ","%char ∉ x) as Hcs by (intros x Hx ?; by eapply Hc, Hi).
  assert (∀ x, (","%char ∉ x) → ("|"%char ∉ x) → trim_space x ≠ [] → clean_field (trim_space x)) as Hf.
  { intros x H1 H2 H3. repeat split; [..|apply trim_space_idemp|done]; by intros ?%elem_of_trim_space. }
  assert (","%char ∉ p) as Hp by (apply Hcs, list_elem_of_here).
  split_and!; simpl.
  - apply Hf; [intros ?; eapply Hp; auto|intros ?; eapply Hb1; auto|congruence].
  - apply Hf; [apply Hcs; right; left|done|congruence].
  - apply Hf; [apply Hcs; do 2 right; left|done|congruence].
  - intros ?. eapply Hp; auto.
  - intros ?. eapply Hb1; auto.
  - done.
Qed.

Lemma set_items_String e eps :
  Forall endpoint_wf eps → set_items e (map Endpoint_String eps) = (e ++ eps, None).
Proof.
  intros Hwf. revert e; induction Hwf as [|ep eps Hep _ IH]; intros e; simpl; [by rewrite app_nil_r|].
  by rewrite parse_String, IH, <- (assoc_L (++)) by done.
Qed.

(** Every endpoint that the loop appends is well formed. *)
Lemma set_items_wf e items :
  Forall (λ item, ","%char ∉ item) items → Forall endpoint_wf e →
  Forall endpoint_wf (set_items e items).1.
Proof.
  intros Hc; revert e; induction Hc as [|item items Hi _ IH]; intros e He; simpl; [done|].
  destruct (parse_endpoint item) eqn:E; [|done]. apply IH, Forall_app; split; [done|].
  apply Forall_singleton. by eapply parse_endpoint_wf.
Qed.

Lemma String_nonempty ep eps : EndpointList_String (ep :: eps) ≠ [].
Proof.
  unfold EndpointList_String, Endpoint_String. destruct eps; simpl; by destruct (ep_Method ep).
Qed.

(** C27: The endpoint list survives printing: the lists that [Set] makes of a text
    (also the part read before an error) have well-formed endpoints only, and a list
    of well-formed endpoints that [String] prints is read back by [Set], after what
    the variable already holds and without an error. *)
Theorem endpoints_roundtrip :
  (∀ value, Forall endpoint_wf (EndpointList_Set [] value).1) ∧
  (∀ e eps, Forall endpoint_wf eps → EndpointList_Set e (EndpointList_String eps) = (e ++ eps, None)).
Proof.
  split.
  - intros value. unfold EndpointList_Set. destruct (is_empty value); [constructor|].
    apply set_items_wf; [apply split_pieces|constructor].
  - intros e [|ep eps] Hwf; [by rewrite app_nil_r|]. unfold EndpointList_Set.
    pose proof (String_nonempty ep eps) as Hne. destruct (EndpointList_String (ep :: eps)) eqn:E; [done|].
    cbn [is_empty]. rewrite <- E. unfold EndpointList_String. change (str ",") with [","%char].
    rewrite split_join; [by apply set_items_String|done|].
    apply Forall_map. eapply Forall_impl; [exact Hwf|]. apply String_no_comma.
Qed.

(** The statuses of a list are accepted exactly when all of them are known. *)
Lemma status_list_accepts codes :
  ValidateStatusList (KSlice (map KInt codes)) = Ret (forallb known_status codes).
Proof. simpl. induction codes as [|c codes IH]; [done|]. simpl. by destruct (known_status c). Qed.

(** A status given as a float is asked for its integer, which panics. *)
Lemma float_status_panics : ValidateStatusList KFloat64 = Panic.
Proof. done. Qed.

(** A line of the log has no line break. *)
Lemma log_line_single value : ascii_of_nat 10 ∉ DisableMultiStringFormat (Some value).
Proof.
  unfold DisableMultiStringFormat, replace_all. pose proof (split_pieces (ascii_of_nat 10) value) as H.
  induction H as [|x l Hx Hl IH]; [by intros ?%elem_of_nil|]. destruct l as [|y l]; [done|].
  rewrite join_cons2, !elem_of_app. intros [?|[Hs|?]]; [done| |done].
  by apply list_elem_of_singleton in Hs.
Qed.

(** An engine is made exactly when files are configured, they all exist and the
    engine accepts their directives. *)
Lemma LoadModSecurity_Some {WAF} NotExist (NewWAF : list gostring → result gostring WAF) cfg waf :
  LoadModSecurityConfiguration NotExist NewWAF cfg = Ok (Some waf) →
  Forall (λ f, NotExist f = false) (ms_ConfFiles cfg) ∧
  (ms_RulesDir cfg ≠ [] → NotExist (ms_RulesDir cfg) = false) ∧
  NewWAF (ms_ConfFiles cfg ++
    (if is_empty (ms_RulesDir cfg) then [] else [path_Join (ms_RulesDir cfg) "*.conf"])) = Ok waf.
Proof.
  destruct cfg as [files dir]. simpl.
  assert (∀ fs, conf_files NotExist files = Ok fs → Forall (λ f, NotExist f = false) files ∧ fs = files) as Hf.
  { induction files as [|f files IH]; simpl; [by intros fs [= <-]|].
    intros fs. destruct (NotExist f) eqn:E; [done|].
    destruct (conf_files NotExist files) as [fs'|]; [|done]. intros [= <-].
    destruct (IH fs') as [? ->]; [done|]. by split; [constructor|]. }
  intros H. assert (∃ fs rules, conf_files NotExist files = Ok fs ∧ rules_dir NotExist dir = Ok rules ∧
    NewWAF (fs ++ rules) = Ok waf) as (fs & rules & H1 & H2 & H3).
  { assert ((fs <-? conf_files NotExist files ;; rules <-? rules_dir NotExist dir ;;
      w <-? NewWAF (fs ++ rules) ;; Ok (Some w)) = Ok (Some waf)) as H' by (by destruct files, dir).
    destruct (conf_files NotExist files) as [fs|]; [|done].
    destruct (rules_dir NotExist dir) as [rules|]; [|done]. simpl in H'. exists fs, rules.
    destruct (NewWAF (fs ++ rules)); [|done]. by simplify_eq/=. }
  destruct (Hf _ H1) as [? ->]. unfold rules_dir in H2. destruct dir; simpl in *; [by simplify_eq|].
  destruct (NotExist _) eqn:E; by simplify_eq.
Qed.

Lemma endpoints_roundtrip_witness :
  EndpointList_Set [] "POST:/orders|BLOCK|LOG_ONLY" =
    EndpointList_Set [] (EndpointList_String [MkEndpoint (MkValidationMode "BLOCK" "LOG_ONLY") "/orders" "POST"]).
Proof.
  rewrite (proj2 endpoints_roundtrip); [by vm_compute|].
  apply Forall_singleton. unfold endpoint_wf, clean_field. simpl.
  repeat split; try done; by apply (bool_decide_unpack _); vm_compute.
Defined.
