(* ===== verification/RouterPattern.v ===== *)
(** Route patterns of the radix-tree router (internal/platform/router/tree.go):
    [patNextSegment], [patParamKeys] and [longestPrefix], and the meaning of a
    pattern as a list of items, which the tree's theorems are stated with. *)
From S2P Require Import Prelude GoStrings.

(** * Node types and segments *)

(** [nodeTyp], in the order of its constants. *)
Inductive nodeTyp := ntStatic | ntRegexp | ntParam | ntCatchAll.
#[export] Instance nodeTyp_eq_dec : EqDecision nodeTyp.
Proof. solve_decision. Defined.

(** The three error values of [patNextSegment] and those of the functions that
    call it. *)
Inductive route_error :=
| ErrWildcardBeforeParam
| ErrClosingDelimiter
| ErrWildcardNotLast
| ErrDuplicateKey (pattern key : gostring)
| ErrInvalidRegexp (rexpat : gostring)
| ErrReplacingMissingChild
| ErrUnknownNodeType
| ErrMethodNotSupported (method : gostring)
| ErrPatternSlash (pattern : gostring)
| ErrMaxMethods.

(** The results of [patNextSegment]: node type, parameter key, regexp string,
    tail byte, starting and ending index. *)
Record segment := Segment {
  seg_typ : nodeTyp;
  seg_key : gostring;
  seg_rexpat : gostring;
  seg_tail : ascii;
  seg_start : nat;
  seg_end : nat
}.

(** The loop that reads to the closing brace, [cc] being the number of braces
    open and [i] the index; [None] when the pattern ends first. *)
Fixpoint close_brace (cc : Z) (i : nat) (s : gostring) : option nat :=
  match s with
  | [] => None
  | c :: s' =>
      if bool_decide (c = "{"%char) then close_brace (cc + 1) (S i) s'
      else if bool_decide (c = "}"%char) then
        if (cc - 1 =? 0)%Z then Some i else close_brace (cc - 1) (S i) s'
      else close_brace cc (S i) s'
  end.

(** The anchors added to a non-empty regexp. *)
Definition anchor_rexpat (rexpat : gostring) : gostring :=
  match rexpat with
  | [] => []
  | c :: _ =>
      let r1 := if bool_decide (c = "^"%char) then rexpat else "^"%char :: rexpat in
      if bool_decide (last r1 = Some "$"%char) then r1 else r1 ++ ["$"%char]
  end.

Definition patNextSegment (pattern : gostring) : result route_error segment :=
  let ps := index_byte pattern "{" in
  let ws := index_byte pattern "*" in
  match ps, ws with
  | None, None => Ok (Segment ntStatic [] [] "000" 0 (length pattern))
  | Some p, _ =>
      if match ws with Some w => bool_decide (w < p) | None => false end
      then Err ErrWildcardBeforeParam
      else
        match close_brace 0 0 (drop p pattern) with
        | None => Err ErrClosingDelimiter
        | Some i =>
            let pe := p + i in
            let key := take (pe - (p + 1)) (drop (p + 1) pattern) in
            let pe := S pe in
            let tail := default "/"%char (pattern !! pe) in
            match index_byte key ":" with
            | Some idx =>
                Ok (Segment ntRegexp (take idx key) (anchor_rexpat (drop (idx + 1) key)) tail p pe)
            | None => Ok (Segment ntParam key [] tail p pe)
            end
        end
  | None, Some w =>
      if bool_decide (w < length pattern - 1) then Err ErrWildcardNotLast
      else Ok (Segment ntCatchAll ["*"%char] [] "000" w (length pattern))
  end.

(** The loop of [patParamKeys]; [fuel] bounds the number of segments. *)
Fixpoint patParamKeys_loop (fuel : nat) (pattern pat : gostring) (keys : list gostring)
  : result route_error (list gostring) :=
  match fuel with
  | 0 => Ok keys
  | S f =>
      sg <-? patNextSegment pat ;;
      if bool_decide (seg_typ sg = ntStatic) then Ok keys
      else if bool_decide (seg_key sg ∈ keys) then Err (ErrDuplicateKey pattern (seg_key sg))
      else patParamKeys_loop f pattern (drop (seg_end sg) pat) (keys ++ [seg_key sg])
  end.

Definition patParamKeys (pattern : gostring) : result route_error (list gostring) :=
  patParamKeys_loop (S (length pattern)) pattern pattern [].

Fixpoint longestPrefix (k1 k2 : gostring) : nat :=
  match k1, k2 with
  | c :: k1', d :: k2' => if bool_decide (c = d) then S (longestPrefix k1' k2') else 0
  | _, _ => 0
  end.

(** * The items of a pattern

    A pattern denotes the sequence of its static bytes and its parameters; the
    parameter names do not matter for matching. *)

Inductive item :=
| IChar (c : ascii)
| IRegexp (rexpat : gostring) (tail : ascii)
| IParam (tail : ascii)
| ICatchAll.
#[export] Instance item_eq_dec : EqDecision item.
Proof. solve_decision. Defined.

Definition chars : gostring → list item := map IChar.

Definition seg_item (sg : segment) : item :=
  match seg_typ sg with
  | ntRegexp => IRegexp (seg_rexpat sg) (seg_tail sg)
  | ntParam => IParam (seg_tail sg)
  | _ => ICatchAll
  end.

Fixpoint items_fuel (fuel : nat) (pat : gostring) : result route_error (list item) :=
  match fuel with
  | 0 => Ok []
  | S f =>
      sg <-? patNextSegment pat ;;
      if bool_decide (seg_typ sg = ntStatic) then Ok (chars pat)
      else its <-? items_fuel f (drop (seg_end sg) pat) ;;
           Ok (chars (take (seg_start sg) pat) ++ seg_item sg :: its)
  end.

Definition items (pat : gostring) : result route_error (list item) :=
  items_fuel (S (length pat)) pat.

Definition is_param_item (i : item) : bool :=
  match i with IChar _ => false | _ => true end.

(** A pattern without parameters. *)
Definition static_pat (s : gostring) : Prop := "{"%char ∉ s ∧ "*"%char ∉ s.

#[export] Instance static_pat_dec s : Decision (static_pat s).
Proof. unfold static_pat. apply _. Defined.

(** * Lemmas *)

Lemma longestPrefix_spec k1 k2 :
  let n := longestPrefix k1 k2 in
  take n k1 = take n k2 ∧ n ≤ length k1 ∧ n ≤ length k2 ∧
  (n = length k1 ∨ n = length k2 ∨ k1 !! n ≠ k2 !! n).
Proof.
  revert k2; induction k1 as [|c k1 IH]; intros [|d k2]; simpl; 
    try (solve [repeat split; (lia || auto)]).
  destruct (bool_decide (c = d)) eqn:E.
  - apply bool_decide_eq_true in E as ->. specialize (IH k2) as (Ht & ? & ? & Hd). simpl.
    rewrite Ht. repeat split; try lia. destruct Hd as [|[|]]; auto.
  - apply bool_decide_eq_false in E. repeat split; try lia. right; right. simpl. congruence.
Qed.

Lemma longestPrefix_full k1 k2 :
  longestPrefix k1 k2 = length k2 → k1 = k2 ++ drop (length k2) k1.
Proof.
  intros H. destruct (longestPrefix_spec k1 k2) as (Ht & _). rewrite H in Ht.
  rewrite (take_ge k2) in Ht by lia. rewrite <- Ht at 1. by rewrite take_drop.
Qed.

Lemma longestPrefix_pos c k1 k2 : 0 < longestPrefix (c :: k1) (c :: k2).
Proof. simpl. rewrite bool_decide_true by done. lia. Qed.

Lemma close_brace_bound cc i s j :
  close_brace cc i s = Some j → i ≤ j < i + length s.
Proof.
  revert cc i; induction s as [|c s IH]; intros cc i; simpl; [discriminate|].
  repeat case_match; try (intros ?%IH; lia). intros [= <-]; lia.
Qed.

Lemma close_brace_pos s i : close_brace 0 0 ("{"%char :: s) = Some i → 1 ≤ i ≤ length s.
Proof. simpl. intros ?%close_brace_bound. lia. Qed.

Lemma index_byte_cons_ne c d s :
  c ≠ d → index_byte (c :: s) d = S <$> index_byte s d.
Proof. intros. unfold index_byte. simpl. by rewrite bool_decide_false. Qed.

(** The segment of a pattern one byte longer on the left. *)
Definition shift_seg (sg : segment) : segment :=
  match sg with
  | Segment ntStatic k r t s e => Segment ntStatic k r t s (S e)
  | Segment ty k r t s e => Segment ty k r t (S s) (S e)
  end.

Lemma patNextSegment_cons c s :
  c ≠ "{"%char → c ≠ "*"%char →
  patNextSegment (c :: s) =
  match patNextSegment s with Ok sg => Ok (shift_seg sg) | Err e => Err e end.
Proof.
  intros Hb Hs. unfold patNextSegment. rewrite !index_byte_cons_ne by done.
  destruct (index_byte s "{") as [p|], (index_byte s "*") as [w|]; simpl; try done.
  - destruct (bool_decide (w < p)) eqn:E.
    + apply bool_decide_eq_true in E. by rewrite bool_decide_true by lia.
    + apply bool_decide_eq_false in E. rewrite bool_decide_false by lia.
      destruct (close_brace 0 0 (drop p s)); simpl; try done.
      case_match; done.
  - destruct (close_brace 0 0 (drop p s)); simpl; try done. case_match; done.
  - rewrite Nat.sub_0_r.
    rewrite (bool_decide_ext (S w < length s) (w < length s - 1)) by lia.
    by destruct (bool_decide (w < length s - 1)).
Qed.

Lemma patNextSegment_static s : static_pat s →
  patNextSegment s = Ok (Segment ntStatic [] [] "000" 0 (length s)).
Proof. intros [Hb Hs]. unfold patNextSegment. by rewrite !(proj2 (index_byte_None _ _)). Qed.

(** Where a segment that is not static lies in its pattern. *)
Lemma patNextSegment_bounds s sg :
  patNextSegment s = Ok sg → seg_typ sg ≠ ntStatic →
  seg_start sg < seg_end sg ≤ length s ∧
  static_pat (take (seg_start sg) s) ∧
  s !! seg_start sg = Some (if decide (seg_typ sg = ntCatchAll) then "*" else "{")%char.
Proof.
  unfold patNextSegment, static_pat. setoid_rewrite elem_of_take.
  destruct (index_byte s "{") as [p|] eqn:Hp.
  - apply index_byte_Some in Hp as [Hp Hpn]. rewrite elem_of_take in Hpn.
    case_match eqn:Hw; [discriminate|].
    assert (¬ ∃ i, s !! i = Some "*"%char ∧ i < p) as Hstar.
    { intros (i & Hi & Hlt). destruct (index_byte s "*") as [w|] eqn:Hx.
      - apply bool_decide_eq_false in Hw. apply index_byte_Some in Hx as [_ Hx].
        apply Hx, elem_of_take. exists i. split; [done|lia].
      - apply index_byte_None in Hx. by apply Hx, (list_elem_of_lookup_2 _ i). }
    assert (p < length s) by (by apply lookup_lt_Some in Hp).
    destruct (close_brace 0 0 (drop p s)) as [i|] eqn:Hc; [|discriminate].
    rewrite (drop_S _ _ _ Hp) in Hc. apply close_brace_pos in Hc. rewrite length_drop in Hc.
    intros Hok _; case_match; case_match; simplify_eq/=; (split; [lia|done]).
  - destruct (index_byte s "*") as [w|] eqn:Hw; [|intros; by simplify_eq/=].
    apply index_byte_None in Hp. apply index_byte_Some in Hw as [Hw Hwn].
    rewrite elem_of_take in Hwn. apply lookup_lt_Some in Hw as Hlt.
    case_match; [discriminate|]. intros Hok _; simplify_eq/=. split; [lia|].
    repeat split; auto.
    intros (i & Hi & _). by apply Hp, (list_elem_of_lookup_2 _ i).
Qed.

Lemma patNextSegment_static_inv s sg :
  patNextSegment s = Ok sg → seg_typ sg = ntStatic → static_pat s ∧ seg_tail sg = "000"%char.
Proof.
  unfold patNextSegment, static_pat.
  destruct (index_byte s "{") eqn:Hp; [repeat case_match; intros; simplify_eq/=|].
  destruct (index_byte s "*") eqn:Hw; [repeat case_match; intros; simplify_eq/=|].
  apply index_byte_None in Hp, Hw. intros; by simplify_eq/=.
Qed.

Lemma patNextSegment_catchAll s sg :
  patNextSegment s = Ok sg → seg_typ sg = ntCatchAll →
  seg_tail sg = "000"%char ∧ seg_end sg = length s.
Proof.
  unfold patNextSegment.
  destruct (index_byte s "{") eqn:Hp; [repeat case_match; intros; simplify_eq/=|].
  destruct (index_byte s "*") eqn:Hw; [|intros; simplify_eq/=].
  case_match; [discriminate|]. intros; by simplify_eq/=.
Qed.

Lemma items_fuel_enough f g s :
  length s < f → length s < g → items_fuel f s = items_fuel g s.
Proof.
  revert g s; induction f as [|f IH]; intros [|g] s Hf Hg; try lia. simpl.
  destruct (patNextSegment s) as [sg|] eqn:Hs; simpl; [|done].
  case_bool_decide as Hst; [done|].
  apply patNextSegment_bounds in Hs as [Hb _]; [|done].
  by rewrite (IH g) by (rewrite length_drop; lia).
Qed.

(** The defining equation of [items], without the fuel. *)
Lemma items_unfold s :
  items s =
    (sg <-? patNextSegment s ;;
     if bool_decide (seg_typ sg = ntStatic) then Ok (chars s)
     else its <-? items (drop (seg_end sg) s) ;;
          Ok (chars (take (seg_start sg) s) ++ seg_item sg :: its)).
Proof.
  unfold items. simpl. destruct (patNextSegment s) as [sg|] eqn:Hs; simpl; [|done].
  case_bool_decide as Hst; [done|].
  apply patNextSegment_bounds in Hs as [Hb _]; [|done].
  by rewrite (items_fuel_enough _ (S (length (drop (seg_end sg) s)))) by (rewrite length_drop; lia).
Qed.

Lemma items_cons c s :
  c ≠ "{"%char → c ≠ "*"%char →
  items (c :: s) = (its <-? items s ;; Ok (IChar c :: its)).
Proof.
  intros Hb Hs. rewrite (items_unfold (c :: s)), (items_unfold s).
  rewrite patNextSegment_cons by done.
  destruct (patNextSegment s) as [[ty k r t st e]|] eqn:Hseg; simpl; [|done].
  destruct ty; simpl; try done; by destruct (items (drop e s)).
Qed.

Lemma items_app_static p s :
  static_pat p → items (p ++ s) = (its <-? items s ;; Ok (chars p ++ its)).
Proof.
  unfold static_pat. induction p as [|c p IH]; simpl; intros [Hb Hs].
  - by destruct (items s).
  - rewrite elem_of_cons in Hb, Hs. rewrite items_cons by naive_solver.
    rewrite IH by naive_solver. by destruct (items s).
Qed.

Lemma items_static s : static_pat s → items s = Ok (chars s).
Proof. intros H. rewrite items_unfold, patNextSegment_static by done. done. Qed.

Lemma items_nil : items [] = Ok [].
Proof. done. Qed.

(** A pattern that starts with a parameter. *)
Lemma items_segment0 s sg :
  patNextSegment s = Ok sg → seg_typ sg ≠ ntStatic → seg_start sg = 0 →
  items s = (its <-? items (drop (seg_end sg) s) ;; Ok (seg_item sg :: its)).
Proof.
  intros Hs Hty H0. rewrite items_unfold, Hs. simpl. rewrite bool_decide_false by done.
  by rewrite H0.
Qed.

Lemma patNextSegment_head c s sg :
  patNextSegment (c :: s) = Ok sg → c = "{"%char ∨ c = "*"%char →
  seg_typ sg ≠ ntStatic ∧ seg_start sg = 0.
Proof.
  intros Hs Hc. destruct (decide (seg_typ sg = ntStatic)) as [E|E].
  - apply patNextSegment_static_inv in Hs as [[Hb Hw] _]; [|done].
    rewrite elem_of_cons in Hb, Hw. naive_solver.
  - split; [done|]. apply patNextSegment_bounds in Hs as (_ & [Hb Hw] & _); [|done].
    destruct (seg_start sg); [done|]. simpl in *. rewrite elem_of_cons in Hb, Hw. naive_solver.
Qed.

Lemma seg_item_param sg : is_param_item (seg_item sg) = true.
Proof. unfold seg_item. by destruct (seg_typ sg). Qed.

Lemma chars_app_inv p a r : chars p = chars a ++ r → ∃ q, p = a ++ q ∧ r = chars q.
Proof.
  revert a; induction p as [|c p IH]; intros [|d a]; simpl; try discriminate.
  - intros <-. by exists [].
  - intros <-. by exists (c :: p).
  - intros [= -> Hr]. destruct (IH a Hr) as (q & -> & ->). by exists q.
Qed.

(** ** The keys of a pattern *)

Lemma patParamKeys_loop_length f pattern s keys ks its :
  length s < f →
  patParamKeys_loop f pattern s keys = Ok ks → items s = Ok its →
  length ks = length keys + length (filter (λ i, is_param_item i = true) its).
Proof.
  revert s keys its; induction f as [|f IH]; intros s keys its Hf; [lia|]. simpl.
  rewrite (items_unfold s).
  destruct (patNextSegment s) as [sg|] eqn:Hs; simpl; [|discriminate].
  assert (Hchars : ∀ l, filter (λ i, is_param_item i = true) (chars l) = []).
  { induction l as [|c l IHl]; [done|]. simpl. rewrite filter_cons_False; done. }
  case_bool_decide as Hst.
  - intros [= <-] [= <-]. rewrite Hchars. simpl. lia.
  - case_bool_decide; [discriminate|]. intros Hk Hi. inv_bind Hi. injection Hi as <-.
    apply patNextSegment_bounds in Hs as [Hb _]; [|done].
    eapply IH in Hk; [|rewrite length_drop; lia|done]. rewrite Hk, length_app.
    rewrite filter_app, Hchars. simpl. rewrite filter_cons_True by apply seg_item_param.
    simpl. lia.
Qed.

Lemma patParamKeys_length s ks its :
  patParamKeys s = Ok ks → items s = Ok its →
  length ks = length (filter (λ i, is_param_item i = true) its).
Proof. intros Hk Hi. by eapply patParamKeys_loop_length in Hk; [|lia|exact Hi]. Qed.

Lemma patParamKeys_loop_NoDup f pattern s keys ks :
  NoDup keys → patParamKeys_loop f pattern s keys = Ok ks → NoDup ks.
Proof.
  revert s keys; induction f as [|f IH]; intros s keys Hnd; simpl; [naive_solver|].
  destruct (patNextSegment s); simpl; [|discriminate].
  case_bool_decide; [naive_solver|]. case_bool_decide; [discriminate|]. apply IH.
  apply NoDup_app. split; [done|]. split; [set_solver|]. apply NoDup_singleton.
Qed.

Lemma patParamKeys_NoDup s ks : patParamKeys s = Ok ks → NoDup ks.
Proof. apply patParamKeys_loop_NoDup, NoDup_nil_2. Qed.

(** A pattern whose keys are accepted has items. *)
Lemma patParamKeys_loop_items f pattern s keys ks :
  length s < f → patParamKeys_loop f pattern s keys = Ok ks → ∃ its, items s = Ok its.
Proof.
  revert s keys; induction f as [|f IH]; intros s keys Hf; [lia|]. simpl.
  rewrite (items_unfold s).
  destruct (patNextSegment s) as [sg|] eqn:Hs; simpl; [|discriminate].
  case_bool_decide as Hst; [eauto|]. case_bool_decide; [discriminate|]. intros Hk.
  apply patNextSegment_bounds in Hs as [Hb _]; [|done].
  eapply IH in Hk as [its ->]; [|rewrite length_drop; lia]. simpl. eauto.
Qed.

Lemma patParamKeys_items s ks : patParamKeys s = Ok ks → ∃ its, items s = Ok its.
Proof. apply patParamKeys_loop_items. lia. Qed.

#[export] Hint Resolve patParamKeys_NoDup seg_item_param : apifw.
