(* ===== verification/RouterTree.v ===== *)
(** The radix tree of the router (internal/platform/router/tree.go) and its
    routing context (context.go): the node type, registration
    ([insertRoute], [addChild], [setEndpoint]), search ([findRoute]) and the
    listing of routes.

    A node is reachable from one parent only, so the pointer updates of the
    source are rebuilding of the path to the node.  [addChild] returns a
    pointer to the node its caller then passes to [setEndpoint]; here the
    caller passes what it does with that node as a continuation. *)
From S2P Require Import Prelude GoStrings RouterPattern.

(** The part of package regexp the router uses: compilation, which can fail,
    and matching. *)
Class RegexpPkg := {
  regex : Type;
  regexp_Compile : gostring → option regex;
  regexp_MatchString : regex → gostring → bool
}.

(** * HTTP methods *)

Definition mSTUB : Z := 1.
Definition mCONNECT : Z := 2.
Definition mDELETE : Z := 4.
Definition mGET : Z := 8.
Definition mHEAD : Z := 16.
Definition mOPTIONS : Z := 32.
Definition mPATCH : Z := 64.
Definition mPOST : Z := 128.
Definition mPUT : Z := 256.
Definition mTRACE : Z := 512.

(** The package variables [methodMap] and [mALL]. *)
Record method_table := MethodTable {
  methodMap : gmap gostring Z;
  mALL : Z
}.

Definition default_methods : method_table := MethodTable
  (list_to_map
    [(str "CONNECT", mCONNECT); (str "DELETE", mDELETE); (str "GET", mGET);
     (str "HEAD", mHEAD); (str "OPTIONS", mOPTIONS); (str "PATCH", mPATCH);
     (str "POST", mPOST); (str "PUT", mPUT); (str "TRACE", mTRACE)])
  (fold_right Z.lor 0%Z
    [mCONNECT; mDELETE; mGET; mHEAD; mOPTIONS; mPATCH; mPOST; mPUT; mTRACE]).

(** [RegisterMethod], on a 64-bit platform ([strconv.IntSize] is 64); [2 << n]
    is a 64-bit shift. *)
Definition RegisterMethod (mt : method_table) (method : gostring)
  : method_table * option route_error :=
  if is_empty method then (mt, None)
  else
    let method := to_upper method in
    match methodMap mt !! method with
    | Some _ => (mt, None)
    | None =>
        let n := Z.of_nat (size (methodMap mt)) in
        if (64 - 2 <? n)%Z then (mt, Some ErrMaxMethods)
        else
          let m := (Z.shiftl 2 n mod 2 ^ 64)%Z in
          (MethodTable (<[method := m]> (methodMap mt)) (Z.lor (mALL mt) m), None)
    end.

Record Actions := MkActions { act_Request : gostring; act_Response : gostring }.

(** * The routing context *)

Record RouteParams := MkRouteParams { Keys : list gostring; Values : list gostring }.

(** [Context], without the fields of sub-routers the router never sets
    ([Routes], [RouteMethod]). *)
Record Context := MkContext {
  RoutePath : gostring;
  URLParams : RouteParams;
  routeParams : RouteParams;
  routePattern : gostring;
  RoutePatterns : list gostring;
  methodNotAllowed : bool;
  methodsAllowed : list Z
}.

Definition NewRouteContext : Context :=
  MkContext [] (MkRouteParams [] []) (MkRouteParams [] []) [] [] false [].

(** [Reset] keeps the backing arrays and forgets every field's content. *)
Definition Reset (x : Context) : Context :=
  MkContext [] (MkRouteParams [] []) (MkRouteParams [] []) [] [] false [].

Definition RouteParams_Add (s : RouteParams) (key value : gostring) : RouteParams :=
  MkRouteParams (Keys s ++ [key]) (Values s ++ [value]).

Definition set_routeParams (f : RouteParams → RouteParams) (x : Context) : Context :=
  MkContext (RoutePath x) (URLParams x) (f (routeParams x)) (routePattern x)
    (RoutePatterns x) (methodNotAllowed x) (methodsAllowed x).

(** [rctx.routeParams.Values = append(rctx.routeParams.Values, v)]. *)
Definition push_value (v : gostring) : Context → Context :=
  set_routeParams (λ rp, MkRouteParams (Keys rp) (Values rp ++ [v])).
(** [rctx.routeParams.Values = rctx.routeParams.Values[:k]]. *)
Definition truncate_values (k : nat) : Context → Context :=
  set_routeParams (λ rp, MkRouteParams (Keys rp) (take k (Values rp))).
(** [rctx.routeParams.Keys = append(rctx.routeParams.Keys, ks...)]. *)
Definition add_keys (ks : list gostring) : Context → Context :=
  set_routeParams (λ rp, MkRouteParams (Keys rp ++ ks) (Values rp)).
(** The 405 hint: the methods registered on the node, and the flag. *)
Definition add_allowed (ms : list Z) (x : Context) : Context :=
  MkContext (RoutePath x) (URLParams x) (routeParams x) (routePattern x)
    (RoutePatterns x) true (methodsAllowed x ++ ms).

(** The loop of [Context.URLParam] from the last key; an index of [Keys]
    without a value is a panic. *)
Definition Context_URLParam (x : Context) (key : gostring) : outcome gostring :=
  match find_index (λ k, k =?s key) (reverse (Keys (URLParams x))) with
  | None => Ret []
  | Some i =>
      match Values (URLParams x) !! (length (Keys (URLParams x)) - 1 - i) with
      | Some v => Ret v
      | None => Panic
      end
  end.

(** The loop of [AllURLParams] over the keys of the context. *)
Fixpoint AllURLParams_loop (keys vals : list gostring) (params : gmap gostring gostring)
  : outcome (gmap gostring gostring) :=
  match keys, vals with
  | [], _ => Ret params
  | k :: keys', v :: vals' => AllURLParams_loop keys' vals' (<[k := v]> params)
  | _ :: _, [] => Panic
  end.

Definition AllURLParams (rctx : option Context) : outcome (option (gmap gostring gostring)) :=
  match rctx with
  | None => Ret None
  | Some x => m <-! AllURLParams_loop (Keys (URLParams x)) (Values (URLParams x)) ∅ ;; Ret (Some m)
  end.

(** [replaceWildcards] shortens the pattern at each call; [fuel] is its length. *)
Fixpoint replaceWildcards (fuel : nat) (p : gostring) : gostring :=
  match fuel with
  | 0 => p
  | S f => if contains p "/*/" then replaceWildcards f (replace_all p "/*/" "/") else p
  end.

Definition RoutePattern (x : Context) : gostring :=
  let joined := join (RoutePatterns x) [] in
  let routePattern := replaceWildcards (length joined) joined in
  if routePattern =?s "/" then routePattern
  else trim_suffix (trim_suffix routePattern "//") "/".

(** * Endpoints and nodes *)

Section Tree.
Context `{RegexpPkg} {Handler : Type}.

Record endpoint := MkEndpoint {
  handler : option Handler;
  pattern : gostring;
  actions : option Actions;
  paramKeys : list gostring
}.

(** [type endpoints map[methodTyp]*endpoint]; a node's map may be nil. *)
Notation endpoints := (gmap Z endpoint).

(** [endpoints.Value]: the entry of a method, created empty when missing. *)
Definition endpoints_Value (s : endpoints) (method : Z) : endpoint :=
  default (MkEndpoint None [] None []) (s !! method).

(** A node with its four groups of children; [subroutes] is never set by the
    sources and is left out. *)
Inductive node := MkNode
  (typ : nodeTyp) (label tail : ascii) (prefix : gostring) (rex : option regex)
  (eps : option endpoints) (sts res pas cas : list node).

Definition n_typ (n : node) := let 'MkNode ty _ _ _ _ _ _ _ _ _ := n in ty.
Definition n_label (n : node) := let 'MkNode _ l _ _ _ _ _ _ _ _ := n in l.
Definition n_tail (n : node) := let 'MkNode _ _ t _ _ _ _ _ _ _ := n in t.
Definition n_prefix (n : node) := let 'MkNode _ _ _ p _ _ _ _ _ _ := n in p.
Definition n_rex (n : node) := let 'MkNode _ _ _ _ r _ _ _ _ _ := n in r.
Definition n_endpoints (n : node) := let 'MkNode _ _ _ _ _ e _ _ _ _ := n in e.

(** [n.children[t]]. *)
Definition children (n : node) (t : nodeTyp) : list node :=
  let 'MkNode _ _ _ _ _ _ sts res pas cas := n in
  match t with ntStatic => sts | ntRegexp => res | ntParam => pas | ntCatchAll => cas end.

Definition set_children (n : node) (t : nodeTyp) (l : list node) : node :=
  let 'MkNode ty la ta p r e sts res pas cas := n in
  match t with
  | ntStatic => MkNode ty la ta p r e l res pas cas
  | ntRegexp => MkNode ty la ta p r e sts l pas cas
  | ntParam => MkNode ty la ta p r e sts res l cas
  | ntCatchAll => MkNode ty la ta p r e sts res pas l
  end.

Definition set_endpoints (n : node) (e : option endpoints) : node :=
  let 'MkNode ty la ta p r _ sts res pas cas := n in MkNode ty la ta p r e sts res pas cas.

(** Updates of the fields [typ], [label], [tail], [prefix] and [rex]. *)
Definition set_edge (n : node) (ty : nodeTyp) (la ta : ascii) (p : gostring) (r : option regex)
  : node :=
  let 'MkNode _ _ _ _ _ e sts res pas cas := n in MkNode ty la ta p r e sts res pas cas.

(** A node literal of the source: no endpoints, no children. *)
Definition new_node (ty : nodeTyp) (la ta : ascii) (p : gostring) : node :=
  MkNode ty la ta p None None [] [] [] [].

Definition empty_node : node := new_node ntStatic "000" "000" [].

(** ** Sorted groups of children *)

(** [sort.Sort] by label: the insertion sort of Go for slices of at most 12
    elements, one step and the whole. *)
Fixpoint insert_by_label (x : node) (l : list node) : list node :=
  match l with
  | [] => [x]
  | y :: l' =>
      if (byte_val (n_label x) <? byte_val (n_label y))%Z then x :: l
      else y :: insert_by_label x l'
  end.

Definition sort_by_label (ns : list node) : list node :=
  fold_left (λ acc x, insert_by_label x acc) ns [].

(** [nodes.Swap]. *)
Definition nodes_Swap (ns : list node) (i j : nat) : list node :=
  match ns !! i, ns !! j with
  | Some x, Some y => <[i := y]> (<[j := x]> ns)
  | _, _ => ns
  end.

(** [nodes.tailSort]: the last parameter node with tail '/' goes last. *)
Definition tailSort (ns : list node) : list node :=
  match find_index
          (λ n, negb (bool_decide (n_typ n = ntStatic)) && bool_decide (n_tail n = "/"%char))
          (reverse ns) with
  | Some k => nodes_Swap ns (length ns - 1 - k) (length ns - 1)
  | None => ns
  end.

Definition nodes_Sort (ns : list node) : list node := tailSort (sort_by_label ns).

(** The binary search of [nodes.findEdge] and [node.findEdge] on the labels;
    [i], [j] and [idx] are the source's variables.  The elements are generic
    because the search below runs it on nodes paired with their search. *)
Fixpoint findEdge_loop (fuel : nat) (labels : list ascii) (label : ascii) (i j idx : Z) : Z :=
  match fuel with
  | 0 => idx
  | S f =>
      if (i <=? j)%Z then
        let idx := (i + (j - i) / 2)%Z in
        let l := byte_val (default "000"%char (labels !! Z.to_nat idx)) in
        if (l <? byte_val label)%Z then findEdge_loop f labels label (idx + 1) j idx
        else if (byte_val label <? l)%Z then findEdge_loop f labels label i (idx - 1) idx
        else findEdge_loop f labels label (Z.of_nat (length labels)) j idx
      else idx
  end.

Definition findEdge {A} (lab : A → ascii) (ns : list A) (label : ascii) : option A :=
  let labels := map lab ns in
  let idx := findEdge_loop (S (S (length ns))) labels label 0 (Z.of_nat (length ns) - 1) 0 in
  match ns !! Z.to_nat idx with
  | Some n => if bool_decide (lab n = label) then Some n else None
  | None => None
  end.

(** [node.findEdge]; the catch-all group answers with its first node. *)
Definition node_findEdge (n : node) (ntyp : nodeTyp) (label : ascii) : outcome (option node) :=
  match ntyp, children n ntyp with
  | _, [] => Panic
  | ntCatchAll, c :: _ => Ret (Some c)
  | _, nds => Ret (findEdge n_label nds label)
  end.

(** [node.isLeaf]. *)
Definition isLeaf (n : node) : bool := bool_decide (is_Some (n_endpoints n)).

(** ** Registration *)

(** [getEdge], with the index of the edge found. *)
Definition getEdge (n : node) (ntyp : nodeTyp) (label tail : ascii) (prefix : gostring)
  : option (nat * node) :=
  let nds := children n ntyp in
  let ok c :=
    bool_decide (n_label c = label) && bool_decide (n_tail c = tail)
    && negb (bool_decide (ntyp = ntRegexp) && negb (n_prefix c =?s prefix)) in
  i ← find_index ok nds; c ← nds !! i; Some (i, c).

(** [replaceChild]; the new child is given the label and the tail. *)
Definition replaceChild (n : node) (label tail : ascii) (child : node) : result route_error node :=
  let nds := children n (n_typ child) in
  let ok c := bool_decide (n_label c = label) && bool_decide (n_tail c = tail) in
  match find_index ok nds with
  | Some i =>
      let child := set_edge child (n_typ child) label tail (n_prefix child) (n_rex child) in
      Ok (set_children n (n_typ child) (<[i := child]> nds))
  | None => Err ErrReplacingMissingChild
  end.

Definition setEndpoint (mt : method_table) (method : Z) (acts : option Actions)
    (h : option Handler) (pat : gostring) (n : node) : node * option route_error :=
  let eps := default ∅ (n_endpoints n) in
  match patParamKeys pat with
  | Err e => (set_endpoints n (Some eps), Some e)
  | Ok keys =>
      let eps :=
        if (Z.land method mSTUB =? mSTUB)%Z then
          let v := endpoints_Value eps mSTUB in
          <[mSTUB := MkEndpoint h (pattern v) (actions v) (paramKeys v)]> eps
        else eps in
      let new := MkEndpoint h pat acts keys in
      let eps :=
        if (Z.land method (mALL mt) =? mALL mt)%Z
        then foldr (λ km eps, <[km.2 := new]> eps) (<[mALL mt := new]> eps)
               (map_to_list (methodMap mt))
        else <[method := new]> eps in
      (set_endpoints n (Some eps), None)
  end.

(** The end of [addChild]: the child joins its group, which is sorted again. *)
Definition append_child (n child : node) : node :=
  set_children n (n_typ child) (nodes_Sort (children n (n_typ child) ++ [child])).

(** [addChild]; [k] is what the caller does with the node returned.  The error
    result leaves [n] as it was: the child is attached last. *)
Fixpoint addChild (fuel : nat) (n child : node) (search : gostring)
    (k : node → node * option route_error) : result route_error (node * option route_error) :=
  match fuel with
  | 0 => Err ErrClosingDelimiter
  | S f =>
      sg <-? patNextSegment search ;;
      let segTyp := seg_typ sg in
      '(child, oe) <-?
        (if bool_decide (segTyp = ntStatic) then Ok (k child)
        else
          child <-?
            (if bool_decide (segTyp = ntRegexp) then
               match regexp_Compile (seg_rexpat sg) with
               | None => Err (ErrInvalidRegexp (seg_rexpat sg))
               | Some rex =>
                   Ok (set_edge child (n_typ child) (n_label child) (n_tail child)
                         (seg_rexpat sg) (Some rex))
               end
             else Ok child) ;;
          if bool_decide (seg_start sg = 0) then
            let child := set_edge child segTyp (n_label child) (seg_tail sg)
                           (n_prefix child) (n_rex child) in
            let segStartIdx :=
              if bool_decide (segTyp = ntCatchAll) then length search else seg_end sg in
            match drop segStartIdx search with
            | [] => Ok (k child)
            | (c :: _) as search => addChild f child (new_node ntStatic c "000" search) search k
            end
          else
            let child := set_edge child ntStatic (n_label child) (n_tail child)
                           (take (seg_start sg) search) None in
            let search := drop (seg_start sg) search in
            let nn := new_node segTyp (default "000"%char (head search)) (seg_tail sg) [] in
            addChild f child nn search k) ;;
      Ok (append_child n child, oe)
  end.

(** The split of a static node [c] of [parent] at [cp] bytes. *)
Definition split_node (parent c : node) (label segTail : ascii) (search : gostring) (cp : nat)
    (k : node → node * option route_error) : node * option route_error :=
  let child := new_node ntStatic label segTail (take cp search) in
  match replaceChild parent label segTail child with
  | Err e => (parent, Some e)
  | Ok _ =>
      let place ch :=
        match replaceChild parent label segTail ch with Ok p => p | Err _ => parent end in
      let rest := drop cp (n_prefix c) in
      let c := set_edge c (n_typ c) (default "000"%char (head rest)) (n_tail c) rest (n_rex c) in
      match addChild (S (length rest)) child c rest (λ hn, (hn, None)) with
      | Err e => (place child, Some e)
      | Ok (child, _) =>
          match drop cp search with
          | [] => let '(child, oe) := k child in (place child, oe)
          | (l :: _) as search =>
              match addChild (S (length search)) child (new_node ntStatic l "000" search) search k with
              | Err e => (place child, Some e)
              | Ok (child, oe) => (place child, oe)
              end
          end
      end
  end.

(** The loop of [insertRoute] from the node [n] with [search] left, [k] being
    the call of [setEndpoint].  The result is the subtree of [n] after the
    call, and the error if there is one. *)
Fixpoint insertRoute_loop (fuel : nat) (n : node) (search : gostring)
    (k : node → node * option route_error) : node * option route_error :=
  match fuel with
  | 0 => (n, Some ErrUnknownNodeType)
  | S f =>
      match search with
      | [] => k n
      | label :: _ =>
          match
            (if bool_decide (label = "{"%char) || bool_decide (label = "*"%char)
             then patNextSegment search
             else Ok (Segment ntStatic [] [] "000" 0 0))
          with
          | Err e => (n, Some e)
          | Ok sg =>
              let prefix := if bool_decide (seg_typ sg = ntRegexp) then seg_rexpat sg else [] in
              match getEdge n (seg_typ sg) label (seg_tail sg) prefix with
              | None =>
                  let child := new_node ntStatic label (seg_tail sg) search in
                  match addChild (S (length search)) n child search k with
                  | Err e => (n, Some e)
                  | Ok (n', oe) => (n', oe)
                  end
              | Some (i, c) =>
                  let descend search :=
                    let '(c', oe) := insertRoute_loop f c search k in
                    (set_children n (seg_typ sg) (<[i := c']> (children n (seg_typ sg))), oe) in
                  if negb (bool_decide (n_typ c = ntStatic)) then descend (drop (seg_end sg) search)
                  else
                    let commonPrefix := longestPrefix search (n_prefix c) in
                    if bool_decide (commonPrefix = length (n_prefix c))
                    then descend (drop commonPrefix search)
                    else split_node n c label (seg_tail sg) search commonPrefix k
              end
          end
      end
  end.

Definition insertRoute (mt : method_table) (n : node) (method : Z) (pat : gostring)
    (acts : option Actions) (h : option Handler) : node * option route_error :=
  insertRoute_loop (S (length pat)) n pat (setEndpoint mt method acts h pat).

Definition InsertRoute mt n method pat h := insertRoute mt n method pat None h.
Definition InsertRouteWithActions mt n method pat acts h := insertRoute mt n method pat acts h.

(** ** Search *)

(** The check of a leaf where the path ends: the handler's keys are recorded
    when the method has one, otherwise the 405 hint is set. *)
Definition leaf_check (mt : method_table) (method : Z) (xn : node) (rctx : Context)
  : Context * bool :=
  match n_endpoints xn with
  | None => (rctx, false)
  | Some eps =>
      match eps !! method with
      | Some (MkEndpoint (Some _) _ _ keys) => (add_keys keys rctx, true)
      | _ =>
          (add_allowed
             (filter (λ m, m ≠ mALL mt ∧ m ≠ mSTUB) (map_to_list eps).*1) rctx, false)
      end
  end.

(** Where the value of a parameter node would end in [xsearch]; [None] is a
    [continue] of the loop. *)
Definition param_end (ntyp : nodeTyp) (xn : node) (xsearch : gostring) : option nat :=
  match index_byte xsearch (n_tail xn) with
  | None => if bool_decide (n_tail xn = "/"%char) then Some (length xsearch) else None
  | Some p => if bool_decide (ntyp = ntRegexp) && bool_decide (p = 0) then None else Some p
  end.

(** The same after the check of the value: the regexp of a regexp node, no '/'
    for the others. *)
Definition param_cut (ntyp : nodeTyp) (xn : node) (xsearch : gostring) : option nat :=
  p ← param_end ntyp xn xsearch;
  match ntyp, n_rex xn with
  | ntRegexp, Some rex => if regexp_MatchString rex (take p xsearch) then Some p else None
  | _, _ =>
      match index_byte (take p xsearch) "/" with Some _ => None | None => Some p end
  end.

(** What a search of a subtree does: the context after it and the node found. *)
Notation searcher := (Context → gostring → Context * option node).

(** Leaf check and recursive search of one candidate node. *)
Definition visit (mt : method_table) (method : Z) (xn : node) (rec : searcher)
    (rctx : Context) (xsearch : gostring) : Context * option node :=
  let '(rctx, found) :=
    if is_empty xsearch then leaf_check mt method xn rctx else (rctx, false) in
  if found then (rctx, Some xn) else rec rctx xsearch.

(** The inner loop over the parameter or regexp nodes of a group. *)
Fixpoint param_loop (mt : method_table) (ntyp : nodeTyp) (method : Z)
    (nds : list (node * searcher)) (rctx : Context) (search : gostring)
  : Context * option node :=
  match nds with
  | [] => (rctx, None)
  | (xn, rec) :: nds' =>
      match param_cut ntyp xn search with
      | None => param_loop mt ntyp method nds' rctx search
      | Some p =>
          let prevlen := length (Values (routeParams rctx)) in
          match visit mt method xn rec (push_value (take p search) rctx) (drop p search) with
          | (rctx, Some fin) => (rctx, Some fin)
          | (rctx, None) =>
              param_loop mt ntyp method nds' (truncate_values prevlen rctx) search
          end
      end
  end.

(** The end of an iteration of the outer loop: visit the candidate, and remove
    the parameter when nothing was found. *)
Definition visit_pop (mt : method_table) (method : Z) (xn : node) (rec : searcher)
    (rctx : Context) (xsearch : gostring) : Context * option node :=
  match visit mt method xn rec rctx xsearch with
  | (rctx, Some fin) => (rctx, Some fin)
  | (rctx, None) =>
      (if bool_decide (n_typ xn = ntStatic) then rctx
       else truncate_values (length (Values (routeParams rctx)) - 1) rctx, None)
  end.

(** One iteration of the outer loop, for the group of children of type [ntyp]. *)
Definition find_group (mt : method_table) (method : Z) (ntyp : nodeTyp)
    (nds : list (node * searcher)) (rctx : Context) (search : gostring)
  : Context * option node :=
  match nds with
  | [] => (rctx, None)
  | first :: _ =>
      match ntyp with
      | ntStatic =>
          let label := default "000"%char (head search) in
          match findEdge (λ e, n_label e.1) nds label with
          | None => (rctx, None)
          | Some (xn, rec) =>
              if has_prefix search (n_prefix xn)
              then visit_pop mt method xn rec rctx (drop (length (n_prefix xn)) search)
              else (rctx, None)
          end
      | ntParam | ntRegexp =>
          if is_empty search then (rctx, None)
          else
            match param_loop mt ntyp method nds rctx search with
            | (rctx, Some fin) => (rctx, Some fin)
            | (rctx, None) =>
                let '(xn, rec) := default first (last nds) in
                visit_pop mt method xn rec (push_value [] rctx) search
            end
      | ntCatchAll =>
          visit_pop mt method first.1 first.2 (push_value search rctx) []
      end
  end.

(** [findRoute]: the groups in the order of [nodeTyp], until a node is found. *)
Fixpoint findRoute (mt : method_table) (method : Z) (n : node) (rctx : Context)
    (search : gostring) {struct n} : Context * option node :=
  let 'MkNode _ _ _ _ _ _ sts res pas cas := n in
  match find_group mt method ntStatic
          (map (λ c, (c, findRoute mt method c)) sts) rctx search with
  | (rctx, Some fin) => (rctx, Some fin)
  | (rctx, None) =>
      match find_group mt method ntRegexp
              (map (λ c, (c, findRoute mt method c)) res) rctx search with
      | (rctx, Some fin) => (rctx, Some fin)
      | (rctx, None) =>
          match find_group mt method ntParam
                  (map (λ c, (c, findRoute mt method c)) pas) rctx search with
          | (rctx, Some fin) => (rctx, Some fin)
          | (rctx, None) =>
              find_group mt method ntCatchAll
                (map (λ c, (c, findRoute mt method c)) cas) rctx search
          end
      end
  end.

(** The part [FindRoute] and [FindRouteWithActions] share: the context is
    cleared, searched, and the parameters and the pattern are recorded.  An
    endpoint missing on the node found would be a nil dereference. *)
Definition find_record (mt : method_table) (n : node) (rctx : Context) (method : Z)
    (path : gostring) : outcome (Context * option (node * endpoint)) :=
  let rctx := MkContext (RoutePath rctx) (URLParams rctx) (MkRouteParams [] []) []
                (RoutePatterns rctx) (methodNotAllowed rctx) (methodsAllowed rctx) in
  match findRoute mt method n rctx path with
  | (rctx, None) => Ret (rctx, None)
  | (rctx, Some rn) =>
      match default ∅ (n_endpoints rn) !! method with
      | None => Panic
      | Some ep =>
          let up := MkRouteParams (Keys (URLParams rctx) ++ Keys (routeParams rctx))
                      (Values (URLParams rctx) ++ Values (routeParams rctx)) in
          let '(rp, rps) :=
            if is_empty (pattern ep) then (routePattern rctx, RoutePatterns rctx)
            else (pattern ep, RoutePatterns rctx ++ [pattern ep]) in
          Ret (MkContext (RoutePath rctx) up (routeParams rctx) rp rps
                 (methodNotAllowed rctx) (methodsAllowed rctx), Some (rn, ep))
      end
  end.

Definition FindRoute (mt : method_table) (n : node) (rctx : Context) (method : Z)
    (path : gostring) : outcome (Context * option (node * endpoints * option Handler)) :=
  '(rctx, r) <-! find_record mt n rctx method path ;;
  Ret (rctx, (λ ne, (ne.1, default ∅ (n_endpoints ne.1), handler ne.2)) <$> r).

Definition FindRouteWithActions (mt : method_table) (n : node) (rctx : Context) (method : Z)
    (path : gostring) : outcome (Context * option (node * option Handler * option Actions)) :=
  '(rctx, r) <-! find_record mt n rctx method path ;;
  Ret (rctx, (λ ne, (ne.1, handler ne.2, actions ne.2)) <$> r).

(** ** Listing of the routes *)

(** [walk] with a visitor that never stops: the endpoint maps of the leaves in
    pre-order. *)
Fixpoint walk (n : node) : list endpoints :=
  let 'MkNode _ _ _ _ _ eps sts res pas cas := n in
  match eps with Some e => [e] | None => [] end
  ++ concat (map walk sts) ++ concat (map walk res)
  ++ concat (map walk pas) ++ concat (map walk cas).

Record Route := MkRoute { rt_Handlers : gmap gostring Handler; rt_Pattern : gostring }.

(** [methodTypString]: the first method of the map with this bit. *)
Definition methodTypString (mt : method_table) (method : Z) : gostring :=
  match filter (λ km, km.2 = method) (map_to_list (methodMap mt)) with
  | (s, _) :: _ => s
  | [] => []
  end.

(** The endpoints of a leaf grouped by pattern. *)
Definition group_by_pattern (eps : endpoints) : gmap gostring endpoints :=
  foldr (λ mh pats,
           if is_empty (pattern mh.2) then pats
           else <[pattern mh.2 := <[mh.1 := mh.2]> (default ∅ (pats !! pattern mh.2))]> pats)
    ∅ (map_to_list eps).

(** The routes of one pattern. *)
Definition route_handlers (mt : method_table) (mh : endpoints) : gmap gostring Handler :=
  let hs0 := match ep ← mh !! mALL mt; handler ep with
             | Some h => {[ str "*" := h ]}
             | None => ∅
             end in
  foldr (λ me hs,
           match handler me.2, methodTypString mt me.1 with
           | Some h, (_ :: _) as m => <[m := h]> hs
           | _, _ => hs
           end) hs0 (map_to_list mh).

Definition routes (mt : method_table) (n : node) : list Route :=
  concat (map (λ eps,
    match ep ← eps !! mSTUB; handler ep with
    | Some _ => []
    | None =>
        map (λ pm, MkRoute (route_handlers mt pm.2) pm.1) (map_to_list (group_by_pattern eps))
    end) (walk n)).
(** ** Search of a pattern *)

(** What is left of the pattern after the edge to [c]; [None] when it does not start
    with the text of the edge. *)
Definition pattern_rest (c : node) (pat : gostring) : option gostring :=
  match n_typ c with
  | ntStatic =>
      let idx := longestPrefix pat (n_prefix c) in
      if idx <? length (n_prefix c) then None else Some (drop idx pat)
  | ntParam | ntRegexp =>
      Some (drop (match index_byte pat "}" with Some i => i + 1 | None => 0 end) pat)
  | ntCatchAll => Some (drop (longestPrefix pat "*") pat)
  end.

Notation pattern_searcher := (gostring → outcome (bool * option gostring)).
Definition unknown_node_type : option gostring := Some (str "unknown node type").

(** The loop of [findPattern] over the groups [ts]. *)
Fixpoint pattern_loop (groups : nodeTyp → list (node * pattern_searcher)) (pat : gostring)
    (ts : list nodeTyp) : outcome (bool * option gostring) :=
  match ts with
  | [] => Ret (false, unknown_node_type)
  | t :: ts =>
      match groups t with
      | [] => pattern_loop groups pat ts
      | (first, _) :: _ =>
          match pat with
          | [] => Panic
          | label :: _ =>
              edge <-! match n_typ first, groups (n_typ first) with
                       | _, [] => Panic
                       | ntCatchAll, e :: _ => Ret (Some e)
                       | _, nds => Ret (findEdge (λ e, n_label e.1) nds label)
                       end ;;
              match edge with
              | None => pattern_loop groups pat ts
              | Some (c, rec) =>
                  match pattern_rest c pat with
                  | None => pattern_loop groups pat ts
                  | Some xpattern =>
                      if is_empty xpattern then Ret (true, unknown_node_type) else rec xpattern
                  end
              end
          end
      end
  end.

Fixpoint findPattern (n : node) (pat : gostring) {struct n} : outcome (bool * option gostring) :=
  let 'MkNode _ _ _ _ _ _ sts res pas cas := n in
  pattern_loop (λ t,
    match t with
    | ntStatic => map (λ c, (c, findPattern c)) sts
    | ntRegexp => map (λ c, (c, findPattern c)) res
    | ntParam => map (λ c, (c, findPattern c)) pas
    | ntCatchAll => map (λ c, (c, findPattern c)) cas
    end) pat [ntStatic; ntRegexp; ntParam; ntCatchAll].
End Tree.
