(* ===== verification/RouterInv.v ===== *)
(** The invariant of the routing tree and what the tree means: the finite map
    from (items of a pattern, method) to endpoints that it stands for.
    Registration is a point update of that map and preserves the invariant. *)
From S2P Require Import Prelude GoStrings RouterPattern RouterTree.

(** * Binary search and sorting *)

Lemma byte_val_inj c d : byte_val c = byte_val d → c = d.
Proof.
  unfold byte_val. intros E%N2Z.inj.
  by rewrite <- (ascii_N_embedding c), <- (ascii_N_embedding d), E.
Qed.

Definition sorted_labels (l : list ascii) : Prop :=
  ∀ i j a b, i < j → l !! i = Some a → l !! j = Some b → (byte_val a ≤ byte_val b)%Z.

Lemma sorted_labels_cons a l :
  sorted_labels l → Forall (λ b, byte_val a ≤ byte_val b)%Z l → sorted_labels (a :: l).
Proof.
  intros Hs Hf [|i] [|j] x y Hij; simpl; try lia.
  - intros [= <-] Hy. rewrite Forall_forall in Hf. by apply Hf, (list_elem_of_lookup_2 _ j).
  - apply Hs. lia.
Qed.

Lemma sorted_labels_inv a l :
  sorted_labels (a :: l) → sorted_labels l ∧ Forall (λ b, byte_val a ≤ byte_val b)%Z l.
Proof.
  intros Hs. split.
  - intros i j x y Hij ??. apply (Hs (S i) (S j)); simpl; auto; lia.
  - apply Forall_forall. intros x [i Hi]%list_elem_of_lookup.
    apply (Hs 0 (S i)); simpl; auto; lia.
Qed.

(** The search interval always contains the wanted label, so the loop stops on
    it. *)
Lemma findEdge_loop_spec fuel labels label i j idx k :
  sorted_labels labels → labels !! k = Some label →
  (0 ≤ i ≤ Z.of_nat k)%Z → (Z.of_nat k ≤ j < Z.of_nat (length labels))%Z →
  (j - i + 1 < Z.of_nat fuel)%Z →
  labels !! Z.to_nat (findEdge_loop fuel labels label i j idx) = Some label.
Proof.
  intros Hs Hk. revert i j idx. induction fuel as [|f IH]; intros i j idx Hi Hj Hf; [lia|].
  cbn [findEdge_loop]. destruct (Z.leb_spec i j) as [Hij|]; [|lia]. cbv zeta.
  set (q := ((j - i) / 2)%Z).
  assert (0 ≤ q ≤ j - i)%Z as Hq.
  { unfold q. split; [apply Z.div_pos; lia|]. apply Z.div_le_upper_bound; lia. }
  destruct (lookup_lt_is_Some_2 labels (Z.to_nat (i + q))) as [l Hl]; [lia|].
  rewrite Hl. simpl.
  destruct (Z.ltb_spec (byte_val l) (byte_val label)) as [H1|H1].
  { apply IH; try lia. split; [lia|]. apply Z.nlt_ge. intros Hlt.
    destruct (decide (k = Z.to_nat (i + q))) as [->|]; [simplify_eq; lia|].
    pose proof (Hs k (Z.to_nat (i + q)) _ _ ltac:(lia) Hk Hl). lia. }
  destruct (Z.ltb_spec (byte_val label) (byte_val l)) as [H2|H2].
  { apply IH; try lia. split; [|lia]. apply Z.nlt_ge. intros Hlt.
    destruct (decide (k = Z.to_nat (i + q))) as [->|]; [simplify_eq; lia|].
    pose proof (Hs (Z.to_nat (i + q)) k _ _ ltac:(lia) Hl Hk). lia. }
  assert (l = label) as -> by (apply byte_val_inj; lia).
  destruct f; [lia|]. simpl. destruct (Z.leb_spec (Z.of_nat (length labels)) j); [lia|]. done.
Qed.

Section FindEdge.
Context {A : Type} (lab : A → ascii).

Lemma findEdge_Some ns label n : findEdge lab ns label = Some n → n ∈ ns ∧ lab n = label.
Proof.
  unfold findEdge. destruct (ns !! _) as [m|] eqn:Hm; [|discriminate].
  case_bool_decide; [|discriminate]. intros [= <-].
  split; [by eapply list_elem_of_lookup_2|done].
Qed.

(** The binary search finds an element with the label when there is one. *)
Lemma findEdge_complete ns label n :
  sorted_labels (map lab ns) → n ∈ ns → lab n = label →
  ∃ n', findEdge lab ns label = Some n' ∧ lab n' = label.
Proof.
  intros Hs [k Hk]%list_elem_of_lookup Hl. unfold findEdge.
  assert (map lab ns !! k = Some label) as Hk' by (by rewrite list_lookup_fmap, Hk; simpl; subst).
  apply lookup_lt_Some in Hk as Hlt.
  pose proof (findEdge_loop_spec (S (S (length ns))) _ label 0
                (Z.of_nat (length ns) - 1) 0 k Hs Hk') as Hb.
  rewrite length_map in Hb. specialize (Hb ltac:(lia) ltac:(lia) ltac:(lia)).
  rewrite list_lookup_fmap in Hb.
  cbv zeta.
  destruct (ns !! Z.to_nat _) as [m|]; simplify_eq/=. exists m. by rewrite bool_decide_true.
Qed.
End FindEdge.

Section Sorting.
Context `{RegexpPkg} {Handler : Type}.
Notation node := (@node _ Handler).
Implicit Types (n c x : node) (l ns : list node).

Lemma insert_by_label_perm x l : insert_by_label x l ≡ₚ x :: l.
Proof.
  induction l as [|y l IH]; simpl; [done|]. case_match; [done|].
  rewrite IH. by rewrite Permutation_swap.
Qed.

Lemma insert_by_label_sorted x l :
  sorted_labels (map n_label l) → sorted_labels (map n_label (insert_by_label x l)).
Proof.
  induction l as [|y l IH]; simpl; intros Hs.
  - intros [|?] [|?]; simpl; intros; simplify_eq/=; lia.
  - apply sorted_labels_inv in Hs as [Hs Hy].
    destruct (Z.ltb_spec (byte_val (n_label x)) (byte_val (n_label y))) as [Hlt|Hge]; simpl.
    + apply sorted_labels_cons; [by apply sorted_labels_cons|].
      constructor; [lia|]. eapply Forall_impl; [exact Hy|]. simpl. lia.
    + apply sorted_labels_cons; [by apply IH|].
      apply Forall_map. rewrite insert_by_label_perm. constructor; [simpl; lia|].
      by rewrite Forall_map in Hy.
Qed.

Lemma sort_by_label_spec l :
  sort_by_label l ≡ₚ l ∧ sorted_labels (map n_label (sort_by_label l)).
Proof.
  unfold sort_by_label.
  assert (∀ acc, sorted_labels (map n_label acc) →
    fold_left (λ acc x, insert_by_label x acc) l acc ≡ₚ acc ++ l ∧
    sorted_labels (map n_label (fold_left (λ acc x, insert_by_label x acc) l acc))) as Hgen.
  { induction l as [|x l IH]; intros acc Hs; simpl; [by rewrite app_nil_r|].
    destruct (IH (insert_by_label x acc)) as [Hp Hs']; [by apply insert_by_label_sorted|].
    split; [|done]. rewrite Hp, insert_by_label_perm. simpl. by rewrite Permutation_middle. }
  apply (Hgen []). intros [|i] j a b _; discriminate.
Qed.

Lemma nodes_Swap_perm l i j : nodes_Swap l i j ≡ₚ l.
Proof.
  unfold nodes_Swap. destruct (l !! i) as [x|] eqn:Hi; [|done].
  destruct (l !! j) as [y|] eqn:Hj; [|done]. by apply Permutation_insert_swap.
Qed.

Lemma nodes_Sort_perm l : nodes_Sort l ≡ₚ l.
Proof.
  unfold nodes_Sort, tailSort. destruct (sort_by_label_spec l) as [Hp _].
  case_match; [by rewrite nodes_Swap_perm|done].
Qed.

(** The tail sort leaves static nodes alone, so their group stays sorted. *)
Lemma nodes_Sort_sorted l :
  Forall (λ c, n_typ c = ntStatic) l → sorted_labels (map n_label (nodes_Sort l)).
Proof.
  intros Hst. destruct (sort_by_label_spec l) as [Hp Hs]. unfold nodes_Sort, tailSort.
  assert (find_index (λ n : node, negb (bool_decide (n_typ n = ntStatic))
            && bool_decide (n_tail n = "/"%char)) (reverse (sort_by_label l)) = None) as ->; [|done].
  apply find_index_None. rewrite Forall_reverse, Hp.
  eapply Forall_impl; [exact Hst|]. intros c Hc. simpl. by rewrite bool_decide_true.
Qed.

Lemma nodes_Sort_singleton c : nodes_Sort [c] = [c].
Proof. by apply Permutation_singleton_r, nodes_Sort_perm. Qed.
End Sorting.

(** * The meaning of a tree *)

Fixpoint strip (p l : list item) : option (list item) :=
  match p, l with
  | [], _ => Some l
  | a :: p', b :: l' => if bool_decide (a = b) then strip p' l' else None
  | _ :: _, [] => None
  end.

Lemma strip_Some p l r : strip p l = Some r ↔ l = p ++ r.
Proof.
  revert l; induction p as [|a p IH]; intros [|b l]; simpl; try naive_solver.
  case_bool_decide; naive_solver.
Qed.

Lemma strip_app p r : strip p (p ++ r) = Some r.
Proof. by apply strip_Some. Qed.

Lemma strip_app_l p q l : strip (p ++ q) l = r ← strip p l; strip q r.
Proof.
  revert l; induction p as [|a p IH]; intros l; [done|].
  destruct l as [|b l]; simpl; [done|]. case_bool_decide; [apply IH|done].
Qed.

Section Meaning.
Context `{RegexpPkg} {Handler : Type}.
Notation node := (@node _ Handler).
Notation endpoints := (gmap Z (@endpoint Handler)).
Implicit Types (n c : node) (its : list item).

(** The items on the edge into a node: the bytes of a static prefix, or the
    parameter. *)
Definition edge_items (c : node) : list item :=
  match n_typ c with
  | ntStatic => chars (n_prefix c)
  | ntRegexp => [IRegexp (n_prefix c) (n_tail c)]
  | ntParam => [IParam (n_tail c)]
  | ntCatchAll => [ICatchAll]
  end.

(** The first of them; no two edges of a node share it. *)
Definition edge_head (c : node) : item :=
  match n_typ c with
  | ntStatic => IChar (n_label c)
  | ntRegexp => IRegexp (n_prefix c) (n_tail c)
  | ntParam => IParam (n_tail c)
  | ntCatchAll => ICatchAll
  end.

(** The endpoints registered under the items [its] below [n]. *)
Fixpoint sem (n : node) (its : list item) {struct n} : endpoints :=
  let 'MkNode _ _ _ _ _ eps sts res pas cas := n in
  match its with
  | [] => default ∅ eps
  | h :: _ =>
      let go := find_index (λ e : item * list item * (list item → endpoints),
                              bool_decide (e.1.1 = h)) in
      let kids :=
        map (λ c, (edge_head c, edge_items c, sem c)) sts
        ++ map (λ c, (edge_head c, edge_items c, sem c)) res
        ++ map (λ c, (edge_head c, edge_items c, sem c)) pas
        ++ map (λ c, (edge_head c, edge_items c, sem c)) cas in
      match i ← go kids; kids !! i with
      | None => ∅
      | Some e => match strip e.1.2 its with Some rest => e.2 rest | None => ∅ end
      end
  end.

(** The same, with the items of the edge into [c] first. *)
Definition sem1 (c : node) (its : list item) : endpoints :=
  match strip (edge_items c) its with Some rest => sem c rest | None => ∅ end.

(** ** Well-formedness *)

(** What holds of a child in the group [t]. *)
Definition child_ok (t : nodeTyp) (c : node) : Prop :=
  n_typ c = t ∧
  match t with
  | ntStatic => head (n_prefix c) = Some (n_label c) ∧ static_pat (n_prefix c) ∧ n_tail c = "000"%char
  | ntRegexp => n_label c = "{"%char ∧ is_Some (n_rex c) ∧ n_rex c = regexp_Compile (n_prefix c)
  | ntParam => n_label c = "{"%char
  | ntCatchAll => n_label c = "*"%char ∧ n_tail c = "000"%char ∧ ∀ t', children c t' = []
  end.

Definition group_ok (t : nodeTyp) (l : list node) : Prop :=
  Forall (child_ok t) l ∧ NoDup (map edge_head l)
  ∧ (t = ntStatic → sorted_labels (map n_label l)).

(** The invariant of the tree below [n], by rule induction on the groups of
    children [groups]. *)
Inductive wf : node → Prop :=
| wf_intro n (groups : nodeTyp → list node) :
    (∀ t, children n t = groups t) →
    (∀ t, group_ok t (groups t)) → (∀ t c, c ∈ groups t → wf c) → wf n.

Lemma wf_unfold n :
  wf n ↔ (∀ t, group_ok t (children n t)) ∧ (∀ t c, c ∈ children n t → wf c).
Proof.
  split.
  - intros [m groups Hgr Hg Hk]. split; intros t; rewrite Hgr; eauto.
  - intros [Hg Hk]. by apply (wf_intro n (children n)).
Qed.

Lemma child_ok_head t c : child_ok t c → ∃ its, edge_items c = edge_head c :: its.
Proof.
  intros [Ht Hc]. unfold edge_items, edge_head. rewrite Ht. destruct t; eauto.
  destruct Hc as (Hh & _). destruct (n_prefix c); simplify_eq/=. eauto.
Qed.

Lemma wf_child n t c : wf n → c ∈ children n t → child_ok t c ∧ wf c.
Proof.
  intros [Hg Hk]%wf_unfold Hc. split; [|eauto].
  destruct (Hg t) as [Hf _]. by eapply Forall_forall.
Qed.

(** Two edges of a node with the same first item are the same. *)
Lemma wf_head_inj n t t' c c' :
  wf n → c ∈ children n t → c' ∈ children n t' → edge_head c = edge_head c' → t = t' ∧ c = c'.
Proof.
  intros Hwf Hc Hc' He.
  destruct (wf_child _ _ _ Hwf Hc) as [[Ht _] _], (wf_child _ _ _ Hwf Hc') as [[Ht' _] _].
  assert (t = t') as <-.
  { revert He. unfold edge_head. rewrite Ht, Ht'. by destruct t, t'. }
  split; [done|]. apply wf_unfold in Hwf as [Hg _]. destruct (Hg t) as (_ & Hnd & _).
  apply list_elem_of_lookup in Hc as [i Hi], Hc' as [j Hj].
  assert (i = j) as <-.
  { eapply NoDup_lookup; [exact Hnd| |]; rewrite list_lookup_fmap; [by rewrite Hi|].
    rewrite Hj. simpl. by rewrite He. }
  by simplify_eq.
Qed.

Lemma sem_nil n : sem n [] = default ∅ (n_endpoints n).
Proof. by destruct n. Qed.

(** The children of a node in the order [sem] tries them. *)
Definition kids (n : node) : list node :=
  children n ntStatic ++ children n ntRegexp ++ children n ntParam ++ children n ntCatchAll.

Lemma elem_of_kids n c : c ∈ kids n ↔ ∃ t, c ∈ children n t.
Proof.
  unfold kids. rewrite !elem_of_app. split; [naive_solver|]. intros [[] ?]; auto.
Qed.

Lemma sem_cons n h its :
  sem n (h :: its) =
  match i ← find_index (λ c, bool_decide (edge_head c = h)) (kids n); kids n !! i with
  | None => ∅
  | Some c => sem1 c (h :: its)
  end.
Proof.
  assert (Hfi : ∀ l : list node,
    find_index (λ e : item * list item * (list item → endpoints), bool_decide (e.1.1 = h))
      (map (λ c, (edge_head c, edge_items c, sem c)) l)
    = find_index (λ c, bool_decide (edge_head c = h)) l).
  { induction l as [|c l IH]; simpl; [done|]. by rewrite IH. }
  destruct n as [ty la ta p r eps sts res pas cas]. cbn [sem]. cbv zeta.
  rewrite <- !map_app, Hfi. unfold kids. cbn [children].
  destruct (find_index _ _) as [i|]; simpl; [|done].
  rewrite list_lookup_fmap. by destruct (_ !! i).
Qed.

(** A child's part of the map. *)
Lemma sem_child n t c its : wf n → c ∈ children n t → sem n (edge_items c ++ its) = sem c its.
Proof.
  intros Hwf Hc. destruct (wf_child _ _ _ Hwf Hc) as [Hok _].
  destruct (child_ok_head _ _ Hok) as [r Hr].
  assert (sem1 c (edge_items c ++ its) = sem c its) as Hs by (unfold sem1; by rewrite strip_app).
  rewrite Hr in *. simpl. rewrite sem_cons.
  destruct (find_index _ (kids n)) as [i|] eqn:Hi.
  - apply find_index_Some in Hi as (c' & Hc' & He%bool_decide_eq_true & _).
    simpl. rewrite Hc'. simpl.
    assert (∃ t', c' ∈ children n t') as [t' Hin].
    { apply elem_of_kids. by eapply list_elem_of_lookup_2. }
    by destruct (wf_head_inj n t t' c c') as [_ <-].
  - apply find_index_None in Hi. rewrite Forall_forall in Hi.
    specialize (Hi c). rewrite elem_of_kids in Hi.
    by rewrite bool_decide_true in Hi by done; discriminate Hi; eauto.
Qed.

Lemma sem_inv n its :
  wf n → its ≠ [] →
  (∃ t c rest, c ∈ children n t ∧ its = edge_items c ++ rest ∧ sem n its = sem c rest) ∨
  (sem n its = ∅ ∧ ∀ t c rest, c ∈ children n t → its ≠ edge_items c ++ rest).
Proof.
  intros Hwf Hne. destruct its as [|h its]; [done|].
  destruct (find_index (λ c, bool_decide (edge_head c = h)) (kids n)) as [i|] eqn:Hi.
  - apply find_index_Some in Hi as Hf. destruct Hf as (c & Hc & He%bool_decide_eq_true & _).
    assert (∃ t, c ∈ children n t) as [t Hin].
    { apply elem_of_kids. by eapply list_elem_of_lookup_2. }
    destruct (strip (edge_items c) (h :: its)) as [rest|] eqn:Hst.
    + apply strip_Some in Hst as Heq. left. exists t, c, rest. split; [done|split; [done|]].
      rewrite Heq. by eapply sem_child.
    + right. rewrite sem_cons, Hi. simpl. rewrite Hc. simpl. unfold sem1. rewrite Hst.
      split; [done|]. intros t' c' rest Hc' Heq.
      destruct (wf_child _ _ _ Hwf Hc') as [Hok' _]. destruct (child_ok_head _ _ Hok') as [r Hr].
      assert (edge_head c' = h) as He' by (rewrite Hr in Heq; by simplify_eq/=).
      destruct (wf_head_inj n t t' c c') as [_ <-]; try done; [congruence|].
      rewrite Heq, strip_app in Hst. done.
  - right. rewrite sem_cons, Hi. split; [done|]. intros t c rest Hc Heq.
    destruct (wf_child _ _ _ Hwf Hc) as [Hok _]. destruct (child_ok_head _ _ Hok) as [r Hr].
    apply find_index_None in Hi. rewrite Forall_forall in Hi. specialize (Hi c).
    rewrite elem_of_kids, bool_decide_true in Hi; [discriminate Hi; eauto|].
    rewrite Hr in Heq. by simplify_eq/=.
Qed.
(** ** The search of a pattern *)

(** On a tree of the invariant the search of a pattern that is not empty returns, and
    always with an error, also when it answers [true]. *)
Lemma pattern_loop_error (n : node) groups pat ts :
  wf n → pat ≠ [] → (∀ t, map fst (groups t) = children n t) →
  (∀ t c rec p, (c, rec) ∈ groups t → p ≠ [] → ∃ b, rec p = Ret (b, unknown_node_type)) →
  ∃ b, pattern_loop groups pat ts = Ret (b, unknown_node_type).
Proof.
  intros Hwf Hne Hch Hrec. induction ts as [|t ts IH]; cbn [pattern_loop]; [by exists false|].
  destruct (groups t) as [|[first rec0] nds] eqn:Hg; [done|]. destruct pat as [|label pat]; [done|].
  assert (n_typ first = t) as ->.
  { destruct (wf_child n t first Hwf) as [[Ht _] _]; [|done]. rewrite <- Hch, Hg. apply list_elem_of_here. }
  rewrite Hg.
  assert (∃ e, match t with
               | ntCatchAll => Ret (Some (first, rec0))
               | _ => Ret (findEdge (λ e, n_label e.1) ((first, rec0) :: nds) label)
               end = Ret e ∧ ∀ x, e = Some x → x ∈ groups t) as (e & He & Hin).
  { rewrite Hg. destruct t; (eexists; split; [done|]);
      try (by intros x [Hx _]%findEdge_Some). intros x [= <-]. apply list_elem_of_here. }
  destruct t; rewrite He; cbn [obind]; (destruct e as [[c rec]|]; [|done]);
    (destruct (pattern_rest c _) as [xp|]; [|done]); (destruct xp; cbn [is_empty]; [by exists true|]);
    (eapply Hrec; [by apply Hin|done]).
Qed.

Lemma findPattern_error (n : node) pat :
  wf n → pat ≠ [] → ∃ b, findPattern n pat = Ret (b, unknown_node_type).
Proof.
  intros Hwf. revert pat. induction Hwf as [n groups Hgr Hg Hk IH]. intros pat Hne.
  destruct n as [ty la ta p r eps sts res pas cas].
  eapply pattern_loop_error; [by apply (wf_intro _ groups)|done| |].
  - intros []; rewrite map_map; apply map_id.
  - intros t c rec q Hin Hq.
    assert (c ∈ children (MkNode ty la ta p r eps sts res pas cas) t ∧ rec = findPattern c) as [Hc ->].
    { destruct t; apply list_elem_of_fmap in Hin as (c' & [= -> ->] & Hc); done. }
    apply (IH t c); [by rewrite <- Hgr|done].
Qed.
End Meaning.
