(* ===== verification/RouterInsert.v ===== *)
(** Registration in the routing tree: [addChild], [split_node] and the loop of
    [insertRoute] preserve the invariant, and change the map the tree stands
    for at the items of the pattern only. *)
From S2P Require Import Prelude GoStrings RouterPattern RouterTree RouterInv.

Section Insert.
Context `{RegexpPkg} {Handler : Type}.
Notation node := (@node _ Handler).
Notation endpoint := (@endpoint Handler).
Notation endpoints := (gmap Z endpoint).
Implicit Types (n c child ch : node) (its js : list item) (f : endpoints → endpoints)
  (oe : option route_error).

(** * Updates of the children of a node *)

Lemma children_set_children n t l t' :
  children (set_children n t l) t' = if decide (t = t') then l else children n t'.
Proof. by destruct n, t, t'. Qed.

Lemma endpoints_set_children n t l : n_endpoints (set_children n t l) = n_endpoints n.
Proof. by destruct n, t. Qed.

(** What identifies the edge into a node: all its fields but the endpoints and
    the children. *)
Definition same_edge (n n' : node) : Prop :=
  n_typ n' = n_typ n ∧ n_label n' = n_label n ∧ n_tail n' = n_tail n
  ∧ n_prefix n' = n_prefix n ∧ n_rex n' = n_rex n.

Lemma same_edge_refl n : same_edge n n.
Proof. by repeat split. Qed.

Lemma same_edge_trans n1 n2 n3 : same_edge n1 n2 → same_edge n2 n3 → same_edge n1 n3.
Proof. unfold same_edge. naive_solver congruence. Qed.

Lemma same_edge_set_children n t l : same_edge n (set_children n t l).
Proof. by destruct n, t. Qed.

Lemma same_edge_items n n' :
  same_edge n n' → edge_items n' = edge_items n ∧ edge_head n' = edge_head n.
Proof. intros (Ht & Hl & Hta & Hp & _). unfold edge_items, edge_head. by rewrite Ht, Hl, Hta, Hp. Qed.

Lemma same_edge_child_ok t n n' :
  same_edge n n' → (t = ntCatchAll → ∀ t', children n' t' = []) → child_ok t n → child_ok t n'.
Proof.
  intros (Ht & Hl & Hta & Hp & Hr) Hk [Hty Hc]. split; [congruence|].
  destruct t; rewrite ?Ht, ?Hl, ?Hta, ?Hp, ?Hr; try done.
  destruct Hc as (? & ? & _). auto.
Qed.

Lemma child_ok_head_static t c : child_ok t c → t = ntStatic → n_label c ≠ "{"%char ∧ n_label c ≠ "*"%char.
Proof.
  intros [_ Hc] ->. destruct Hc as (Hh & [Hb Hs] & _).
  destruct (n_prefix c); simplify_eq/=. rewrite elem_of_cons in Hb, Hs. naive_solver.
Qed.

(** The part of the map below an edge is the child's. *)
Lemma sem_head n t c its :
  wf n → c ∈ children n t → head its = Some (edge_head c) → sem n its = sem1 c its.
Proof.
  intros Hwf Hc Hh. destruct its as [|h its]; simplify_eq/=. unfold sem1.
  destruct (sem_inv n (edge_head c :: its) Hwf ltac:(done))
    as [(t' & c' & rest & Hc' & Heq & Hs)|[Hs Hno]].
  - destruct (wf_child _ _ _ Hwf Hc') as [Hok' _]. destruct (child_ok_head _ _ Hok') as [r Hr].
    assert (edge_head c = edge_head c') by (rewrite Hr in Heq; by simplify_eq/=).
    destruct (wf_head_inj n t t' c c') as [_ <-]; try done. by rewrite Hs, Heq, strip_app.
  - destruct (strip _ _) as [r|] eqn:Hst; [|done]. apply strip_Some in Hst. by edestruct Hno.
Qed.

Lemma sem_no_head n its :
  wf n → its ≠ [] → (∀ t c, c ∈ children n t → head its ≠ Some (edge_head c)) → sem n its = ∅.
Proof.
  intros Hwf Hne Hno. destruct (sem_inv n its Hwf Hne) as [(t & c & rest & Hc & Heq & _)|[? _]]; [|done].
  destruct (wf_child _ _ _ Hwf Hc) as [Hok _]. destruct (child_ok_head _ _ Hok) as [r Hr].
  destruct (Hno t c Hc). by rewrite Heq, Hr.
Qed.

(** Two nodes with the same edges for the first item agree. *)
Lemma sem_agree n n' its :
  wf n → wf n' → its ≠ [] →
  (∀ t c, head its = Some (edge_head c) → c ∈ children n t ↔ c ∈ children n' t) →
  sem n its = sem n' its.
Proof.
  intros Hwf Hwf' Hne Hiff. destruct its as [|h its]; [done|].
  destruct (sem_inv n (h :: its) Hwf Hne) as [(t & c & rest & Hc & Heq & Hs)|[Hs Hno]].
  - destruct (wf_child _ _ _ Hwf Hc) as [Hok _]. destruct (child_ok_head _ _ Hok) as [r Hr].
    rewrite Heq, (sem_child n t), (sem_child n' t); try done.
    apply Hiff; [|done]. rewrite Hr in Heq. by simplify_eq/=.
  - destruct (sem_inv n' (h :: its) Hwf' Hne) as [(t & c & rest & Hc & Heq & _)|[-> _]]; [|done].
    destruct (wf_child _ _ _ Hwf' Hc) as [Hok _]. destruct (child_ok_head _ _ Hok) as [r Hr].
    destruct (Hno t c rest); [|done]. apply Hiff; [|done]. rewrite Hr in Heq. by simplify_eq/=.
Qed.

Lemma elem_of_append_child n child t c :
  c ∈ children (append_child n child) t ↔
  c ∈ children n t ∨ (t = n_typ child ∧ c = child).
Proof.
  unfold append_child. rewrite children_set_children. case_decide as Ht.
  - subst t. rewrite nodes_Sort_perm, elem_of_app, list_elem_of_singleton. naive_solver.
  - naive_solver.
Qed.

Lemma append_child_wf n child :
  wf n → wf child → child_ok (n_typ child) child →
  (∀ c, c ∈ children n (n_typ child) → edge_head c ≠ edge_head child) →
  wf (append_child n child).
Proof.
  intros Hwf Hwc Hok Hdiff. pose proof (proj1 (wf_unfold n) Hwf) as [Hg Hk]. apply wf_unfold. split.
  - intros t. unfold append_child. rewrite children_set_children.
    case_decide as Ht; [|done]. subst t. destruct (Hg (n_typ child)) as (Hf & Hnd & Hs).
    split; [|split].
    + rewrite nodes_Sort_perm. apply Forall_app; auto.
    + rewrite nodes_Sort_perm, map_app. apply NoDup_app. split; [done|]. split.
      * intros x (c & -> & Hc)%list_elem_of_fmap. simpl. rewrite list_elem_of_singleton.
        by apply Hdiff.
      * apply NoDup_singleton.
    + intros Hst. apply nodes_Sort_sorted. apply Forall_app. split; [|auto].
      eapply Forall_impl; [exact Hf|]. intros c [Hc _]. congruence.
  - intros t c [Hc|[-> ->]]%elem_of_append_child; eauto.
Qed.

(** Attaching a child whose first item is new adds the child's part. *)
Lemma append_child_sem n child its :
  wf n → wf child → child_ok (n_typ child) child →
  (∀ t c, c ∈ children n t → edge_head c ≠ edge_head child) →
  sem (append_child n child) its =
    if decide (head its = Some (edge_head child)) then sem1 child its else sem n its.
Proof.
  intros Hwf Hwc Hok Hdiff.
  assert (wf (append_child n child)) as Hwf' by (apply append_child_wf; eauto).
  destruct its as [|h its].
  - rewrite decide_False by done. unfold append_child. by rewrite !sem_nil, endpoints_set_children.
  - case_decide as Hh.
    + apply (sem_head _ (n_typ child)); try done. apply elem_of_append_child. auto.
    + apply sem_agree; try done. intros t c Hc. rewrite elem_of_append_child.
      split; [|by left]. intros [?|[-> ->]]; done.
Qed.

(** Replacing the child of an edge by one with the same first item. *)
Lemma elem_of_insert_child n t i c c' d :
  wf n → children n t !! i = Some c →
  d ∈ <[i := c']> (children n t) → d = c' ∨ (d ∈ children n t ∧ edge_head d ≠ edge_head c).
Proof.
  intros Hwf Hi Hd. apply list_elem_of_lookup in Hd as [j Hj].
  destruct (decide (i = j)) as [<-|Hne].
  - left. apply lookup_lt_Some in Hi. rewrite list_lookup_insert_eq in Hj by done. congruence.
  - right. rewrite list_lookup_insert_ne in Hj by done. split; [by eapply list_elem_of_lookup_2|].
    intros Heq. apply wf_unfold in Hwf as [Hg _]. destruct (Hg t) as (_ & Hnd & _). apply Hne.
    eapply NoDup_lookup; [exact Hnd| |]; rewrite list_lookup_fmap; [by rewrite Hi|].
    rewrite Hj. simpl. by rewrite Heq.
Qed.

Lemma set_child_wf n t i c c' :
  wf n → children n t !! i = Some c → wf c' → child_ok t c' → edge_head c' = edge_head c →
  wf (set_children n t (<[i := c']> (children n t))).
Proof.
  intros Hwf Hi Hwc Hok He. pose proof (proj1 (wf_unfold n) Hwf) as [Hg Hk].
  destruct (Hg t) as (Hf & Hnd & Hs).
  assert (child_ok t c) as Hokc by (eapply Forall_lookup_1; eauto).
  apply wf_unfold. split.
  - intros t'. rewrite children_set_children. case_decide; [subst t'|done]. split; [|split].
    + by apply Forall_insert.
    + unfold map. change (NoDup (edge_head <$> <[i:=c']> (children n t))).
      rewrite list_fmap_insert, list_insert_id; [done|].
      by rewrite list_lookup_fmap, Hi, He.
    + intros ->. change (sorted_labels (n_label <$> <[i:=c']> (children n ntStatic))).
      rewrite list_fmap_insert, list_insert_id; [by apply Hs|].
      rewrite list_lookup_fmap, Hi. simpl. f_equal.
      unfold edge_head in He. destruct Hokc as [Ht1 _], Hok as [Ht2 _].
      rewrite Ht1, Ht2 in He. congruence.
  - intros t' d. rewrite children_set_children. case_decide; [subst t'|eauto].
    intros [->|[? _]]%(elem_of_insert_child n t i c); eauto.
Qed.

Lemma set_child_sem n t i c c' its :
  wf n → children n t !! i = Some c → wf c' → child_ok t c' → edge_head c' = edge_head c →
  sem (set_children n t (<[i := c']> (children n t))) its =
    if decide (head its = Some (edge_head c)) then sem1 c' its else sem n its.
Proof.
  intros Hwf Hi Hwc Hok He.
  assert (wf (set_children n t (<[i := c']> (children n t)))) as Hwf' by by eapply set_child_wf.
  destruct its as [|h its].
  - rewrite decide_False by done. by rewrite !sem_nil, endpoints_set_children.
  - case_decide as Hh.
    + apply (sem_head _ t); try done; [|congruence].
      rewrite children_set_children, decide_True by done.
      apply (list_elem_of_lookup_2 _ i). apply lookup_lt_Some in Hi. by rewrite list_lookup_insert_eq.
    + apply sem_agree; try done. intros t' d Hd. rewrite children_set_children.
      case_decide; [subst t'|done]. split.
      * intros [->|[? _]]%(elem_of_insert_child n t i c); [congruence|done..].
      * intros [j Hj]%list_elem_of_lookup. apply (list_elem_of_lookup_2 _ j).
        rewrite list_lookup_insert_ne; [done|]. intros <-. congruence.
Qed.

(** * New nodes *)

(** What [setEndpoint] does to the node it is given, whatever the method: the
    endpoint map is changed by [f] and the error does not depend on the node. *)
Definition upd_endpoints f oe (n : node) : node * option route_error :=
  (set_endpoints n (Some (f (default ∅ (n_endpoints n)))), oe).

Definition bare (n : node) : Prop := n_endpoints n = None ∧ ∀ t, children n t = [].

Lemma bare_wf n : bare n → wf n.
Proof.
  intros [_ Hk]. apply wf_unfold. split.
  - intros t. rewrite Hk. split; [constructor|]. split; [constructor|].
    intros _ [|i] j a b _; discriminate.
  - intros t c. rewrite Hk. by intros ?%not_elem_of_nil.
Qed.

Lemma bare_sem n its : bare n → sem n its = ∅.
Proof.
  intros Hb. destruct (decide (its = [])) as [->|Hne].
  - rewrite sem_nil. by destruct Hb as [-> _].
  - apply sem_no_head; [by apply bare_wf|done|]. intros t c.
    destruct Hb as [_ ->]. by intros ?%not_elem_of_nil.
Qed.

Lemma set_endpoints_edge n e : same_edge n (set_endpoints n e).
Proof. by destruct n. Qed.

Lemma children_set_endpoints n e t : children (set_endpoints n e) t = children n t.
Proof. by destruct n. Qed.

Lemma set_endpoints_wf n e : wf n → wf (set_endpoints n e).
Proof.
  intros [Hg Hk]%wf_unfold. apply wf_unfold. split.
  - intros t. by rewrite children_set_endpoints.
  - intros t c. rewrite children_set_endpoints. apply Hk.
Qed.

Lemma set_endpoints_sem n e its :
  wf n → sem (set_endpoints n e) its = if decide (its = []) then default ∅ e else sem n its.
Proof.
  intros Hwf. case_decide as Hn.
  - subst. rewrite sem_nil. by destruct n.
  - apply sem_agree; auto using set_endpoints_wf. intros. by rewrite children_set_endpoints.
Qed.

Lemma set_endpoints_child_ok t n e : child_ok t n → child_ok t (set_endpoints n e).
Proof.
  intros Hok. eapply same_edge_child_ok; [apply set_endpoints_edge| |done].
  intros -> t'. rewrite children_set_endpoints. by destruct Hok as (_ & _ & _ & ?).
Qed.

(** A subtree below an edge whose map is [f ∅] at [its] and empty elsewhere. *)
Definition is_chain f its (ch : node) : Prop :=
  wf ch ∧ child_ok (n_typ ch) ch ∧ head its = Some (edge_head ch)
  ∧ ∀ js, sem1 ch js = if decide (js = its) then f ∅ else ∅.

Lemma leaf_chain f child :
  bare child → child_ok (n_typ child) child →
  is_chain f (edge_items child) (set_endpoints child (Some (f ∅))).
Proof.
  intros Hb Hok. pose proof (set_endpoints_edge child (Some (f ∅))) as He.
  destruct (same_edge_items _ _ He) as [Hi Hh]. pose proof (bare_wf _ Hb) as Hwf.
  split; [by apply set_endpoints_wf|]. split.
  { destruct He as [-> _]. by apply set_endpoints_child_ok. }
  rewrite Hh. destruct (child_ok_head _ _ Hok) as [r Hr]. split; [by rewrite Hr|].
  intros js. unfold sem1. rewrite Hi. destruct (strip _ js) as [rest|] eqn:Hst.
  - apply strip_Some in Hst as ->. rewrite set_endpoints_sem by done.
    rewrite bare_sem by done. case_decide as Hn; simpl.
    + subst. by rewrite app_nil_r, decide_True.
    + rewrite decide_False; [done|]. intros E. apply Hn.
      by apply (app_inv_head (edge_items child)); rewrite app_nil_r.
  - rewrite decide_False; [done|]. intros ->.
    pose proof (strip_app (edge_items child) []) as E. rewrite app_nil_r in E. congruence.
Qed.

Lemma link_chain f its child ch :
  bare child → child_ok (n_typ child) child → n_typ child ≠ ntCatchAll →
  is_chain f its ch → is_chain f (edge_items child ++ its) (append_child child ch).
Proof.
  intros Hb Hok Hca (Hwf & Hokc & Hh & Hs). pose proof (bare_wf _ Hb) as Hwb.
  assert (same_edge child (append_child child ch)) as He by apply same_edge_set_children.
  assert (∀ t c, c ∈ children child t → edge_head c ≠ edge_head ch) as Hno.
  { intros t c. destruct Hb as [_ ->]. by intros ?%not_elem_of_nil. }
  destruct (same_edge_items _ _ He) as [Hi Hhd].
  destruct (child_ok_head _ _ Hok) as [r Hr].
  split; [apply append_child_wf; eauto|]. split.
  { destruct He as (Ht & He). rewrite Ht. eapply same_edge_child_ok; [by split| |done]. done. }
  split; [by rewrite Hr, Hhd|].
  intros js. unfold sem1. rewrite Hi. destruct (strip _ js) as [rest|] eqn:Hst.
  - apply strip_Some in Hst as ->. rewrite append_child_sem by done.
    rewrite bare_sem by done. destruct (decide (rest = its)) as [->|Hne].
    + rewrite decide_True by done. rewrite Hs. by rewrite !decide_True.
    + rewrite (decide_False (P := edge_items child ++ rest = _)) by (by intros ?%app_inv_head).
      case_decide; [|done]. rewrite Hs. by rewrite decide_False.
  - rewrite decide_False; [done|]. intros ->. by rewrite strip_app in Hst.
Qed.

(** * addChild *)

Definition compiles (i : item) : Prop :=
  match i with IRegexp r _ => is_Some (regexp_Compile r) | _ => True end.

(** A pattern that can be registered: it parses and its regexps compile. *)
Definition insertable (s : gostring) its : Prop := items s = Ok its ∧ Forall compiles its.

Lemma chars_compile s : Forall compiles (chars s).
Proof. apply Forall_map, Forall_forall. done. Qed.

Lemma not_insertable_err s e : patNextSegment s = Err e → ∀ its, ¬ insertable s its.
Proof. intros Hs its [Hi _]. by rewrite items_unfold, Hs in Hi. Qed.

Lemma insertable_app p s its :
  static_pat p → insertable (p ++ s) its ↔ ∃ its', its = chars p ++ its' ∧ insertable s its'.
Proof.
  intros Hp. unfold insertable. rewrite items_app_static by done. split.
  - intros [Hi Hc]. inv_bind Hi. injection Hi as <-. apply Forall_app in Hc as [_ ?]. eauto.
  - intros (its' & -> & -> & Hc). simpl. split; [done|].
    apply Forall_app; auto using chars_compile.
Qed.

Lemma insertable_seg s sg its :
  patNextSegment s = Ok sg → seg_typ sg ≠ ntStatic → seg_start sg = 0 →
  insertable s its ↔
  ∃ its', its = seg_item sg :: its' ∧ compiles (seg_item sg) ∧ insertable (drop (seg_end sg) s) its'.
Proof.
  intros Hs Ht H0. unfold insertable. rewrite (items_segment0 _ _ Hs Ht H0). split.
  - intros [Hi Hc]. inv_bind Hi. injection Hi as <-. inversion_clear Hc. eauto.
  - intros (its' & -> & ? & -> & Hc). simpl. split; [done|]. by constructor.
Qed.

Lemma insertable_nil : insertable [] [].
Proof. split; [done|constructor]. Qed.

Lemma insertable_static s : static_pat s → insertable s (chars s).
Proof. intros. split; [by apply items_static|apply chars_compile]. Qed.

(** A first item that is a byte is the first byte of the pattern. *)
Lemma insertable_head d D its (c : ascii) :
  insertable (d :: D) its → head its = Some (IChar c) → c = d.
Proof.
  intros Hin Hh.
  destruct (decide (d = "{"%char ∨ d = "*"%char)) as [Hd|Hd].
  - destruct (patNextSegment (d :: D)) as [sg|e] eqn:Hs.
    + destruct (patNextSegment_head _ _ _ Hs Hd) as [Ht H0].
      apply (insertable_seg _ _ _ Hs Ht H0) in Hin as (its' & -> & _).
      pose proof (seg_item_param sg) as Hp. simplify_eq/=. by rewrite Hh in Hp.
    + by destruct (not_insertable_err _ _ Hs its).
  - destruct Hin as [Hi _]. rewrite items_cons in Hi by naive_solver.
    inv_bind Hi. simplify_eq/=. done.
Qed.

(** The node of a parameter at the start of a pattern. *)
Lemma param_child_ok la s sg pfx rx :
  patNextSegment (la :: s) = Ok sg → seg_typ sg ≠ ntStatic → seg_start sg = 0 →
  (seg_typ sg = ntRegexp → pfx = seg_rexpat sg ∧ is_Some rx ∧ rx = regexp_Compile pfx) →
  let child := MkNode (seg_typ sg) la (seg_tail sg) pfx rx None [] [] [] [] in
  bare child ∧ child_ok (n_typ child) child ∧ edge_items child = [seg_item sg].
Proof.
  intros Hs Ht H0 Hrx child. apply patNextSegment_bounds in Hs as Hb; [|done].
  rewrite H0 in Hb. destruct Hb as (_ & _ & Hla). simpl in Hla. injection Hla as Hla.
  split; [by split; [|intros []]|]. unfold child_ok, edge_items, seg_item. simpl.
  destruct (seg_typ sg) eqn:Hty; try done; rewrite Hla.
  - destruct Hrx as (-> & ? & ?); auto.
  - destruct (patNextSegment_catchAll _ _ Hs Hty) as [-> _].
    split; [|done]. do 3 (split; [done|]). by intros [].
Qed.

(** The outcome of [addChild] with a new child: a chain of nodes for the items
    of [search] is attached to [n], or [search] cannot be registered. *)
Definition addChild_post f oe (n : node) (search : gostring)
    (r : result route_error (node * option route_error)) : Prop :=
  (∃ its ch, insertable search its ∧ r = Ok (append_child n ch, oe) ∧ is_chain f its ch) ∨
  (∃ e, r = Err e ∧ ∀ its, ¬ insertable search its).

(** The compilation step for a segment that is not static: the fields [prefix]
    and [rex] of the child, or an item that does not compile. *)
Lemma compile_step (sg : segment) (child : node) :
  bare child → n_rex child = None →
  let r := (if bool_decide (seg_typ sg = ntRegexp) then
              match regexp_Compile (seg_rexpat sg) with
              | None => Err (ErrInvalidRegexp (seg_rexpat sg))
              | Some rex =>
                  Ok (set_edge child (n_typ child) (n_label child) (n_tail child)
                        (seg_rexpat sg) (Some rex))
              end
            else Ok child) : result route_error node in
  (∃ pfx rx, r = Ok (MkNode (n_typ child) (n_label child) (n_tail child) pfx rx None [] [] [] [])
     ∧ compiles (seg_item sg)
     ∧ (seg_typ sg = ntRegexp → pfx = seg_rexpat sg ∧ is_Some rx ∧ rx = regexp_Compile pfx)) ∨
  (∃ e, r = Err e ∧ ¬ compiles (seg_item sg)).
Proof.
  intros Hb Hr r. subst r. unfold seg_item.
  assert (∃ ty la ta p, child = MkNode ty la ta p None None [] [] [] []) as (ty & la & ta & p & ->).
  { destruct child as [ty la ta p rx e l1 l2 l3 l4], Hb as [? Hk]; simplify_eq/=.
    rewrite (Hk ntStatic : l1 = _), (Hk ntRegexp : l2 = _), (Hk ntParam : l3 = _),
      (Hk ntCatchAll : l4 = _). eauto. }
  case_bool_decide as Ht; simpl.
  - rewrite Ht. simpl. destruct (regexp_Compile (seg_rexpat sg)) as [rx|] eqn:Hc.
    + left. exists (seg_rexpat sg), (Some rx). split; [done|]. split; [eauto|]. by rewrite Hc; eauto.
    + right. eexists. split; [done|]. by intros [? ?].
  - left. exists p, None. split; [done|]. split; [|done]. destruct (seg_typ sg); done.
Qed.

(** A parameter at the start of the pattern. *)
Lemma addChild_param f oe fuel (n : node) la s sg pfx rx :
  (∀ (n : node) la s ty ta p, length (la :: s) < fuel →
     (static_pat (la :: s) → ty = ntStatic ∧ p = la :: s) →
     (la ≠ "{"%char → la ≠ "*"%char → ta = "000"%char) →
     addChild_post f oe n (la :: s)
       (addChild fuel n (new_node ty la ta p) (la :: s) (upd_endpoints f oe))) →
  length (la :: s) ≤ fuel →
  patNextSegment (la :: s) = Ok sg → seg_typ sg ≠ ntStatic → seg_start sg = 0 →
  compiles (seg_item sg) →
  (seg_typ sg = ntRegexp → pfx = seg_rexpat sg ∧ is_Some rx ∧ rx = regexp_Compile pfx) →
  let child := MkNode (seg_typ sg) la (seg_tail sg) pfx rx None [] [] [] [] in
  let idx := if bool_decide (seg_typ sg = ntCatchAll) then length (la :: s) else seg_end sg in
  (∃ its ch, insertable (la :: s) its ∧ is_chain f its ch ∧
     match drop idx (la :: s) with
     | [] => Ok (upd_endpoints f oe child)
     | (c :: _) as search => addChild fuel child (new_node ntStatic c "000" search) search
                             (upd_endpoints f oe)
     end = Ok (ch, oe)) ∨
  (∃ e, match drop idx (la :: s) with
        | [] => Ok (upd_endpoints f oe child)
        | (c :: _) as search => addChild fuel child (new_node ntStatic c "000" search) search
                                (upd_endpoints f oe)
        end = Err e ∧ ∀ its, ¬ insertable (la :: s) its).
Proof.
  intros IH Hf Hs Ht H0 Hcomp Hrx child idx.
  destruct (param_child_ok la s sg pfx rx Hs Ht H0 Hrx) as (Hb & Hok & Hi). fold child in Hb, Hok, Hi.
  pose proof (λ its, insertable_seg _ _ its Hs Ht H0) as Hins.
  apply patNextSegment_bounds in Hs as Hbd; [|done]. destruct Hbd as (Hbd & _).
  assert (drop idx (la :: s) = drop (seg_end sg) (la :: s)) as Hidx.
  { unfold idx. case_bool_decide as Hca; [|done]. by destruct (patNextSegment_catchAll _ _ Hs Hca) as [_ ->]. }
  rewrite Hidx. destruct (drop (seg_end sg) (la :: s)) as [|c s'] eqn:Hd; cbv beta iota zeta.
  - left. exists [seg_item sg], (set_endpoints child (Some (f ∅))).
    split; [apply (proj2 (Hins _)); eauto using insertable_nil|].
    split; [rewrite <- Hi; by apply leaf_chain|done].
  - assert (length (c :: s') < fuel) as Hlen.
    { rewrite <- Hd, length_drop. simpl in *. lia. }
    destruct (IH child c s' ntStatic "000"%char (c :: s') Hlen) as [(its & ch & Hin & -> & Hch)|(e & -> & Hno)];
      [done|done| |].
    + left. eexists _, _. split; [apply (proj2 (Hins _)); eauto|]. split; [|done].
      rewrite <- (app_nil_l its), app_comm_cons, <- Hi. apply link_chain; try done.
      intros Hca. destruct (patNextSegment_catchAll _ _ Hs Hca) as [_ He].
      rewrite He, drop_ge in Hd by done. done.
    + right. exists e. split; [done|]. intros its (its' & -> & _ & Hin)%Hins.
      by eapply Hno.
Qed.

(** A static prefix before the first parameter. *)
Lemma addChild_prefix f oe fuel la s ta sg :
  (∀ (n : node) la s ty ta p, length (la :: s) < fuel →
     (static_pat (la :: s) → ty = ntStatic ∧ p = la :: s) →
     (la ≠ "{"%char → la ≠ "*"%char → ta = "000"%char) →
     addChild_post f oe n (la :: s)
       (addChild fuel n (new_node ty la ta p) (la :: s) (upd_endpoints f oe))) →
  length (la :: s) ≤ fuel →
  patNextSegment (la :: s) = Ok sg → seg_typ sg ≠ ntStatic → seg_start sg ≠ 0 →
  (la ≠ "{"%char → la ≠ "*"%char → ta = "000"%char) →
  let child : node := MkNode ntStatic la ta (take (seg_start sg) (la :: s)) None None [] [] [] [] in
  let search := drop (seg_start sg) (la :: s) in
  let r := addChild fuel child
             (new_node (seg_typ sg) (default "000"%char (head search)) (seg_tail sg) [])
             search (upd_endpoints f oe) in
  (∃ its ch, insertable (la :: s) its ∧ is_chain f its ch ∧ r = Ok (ch, oe)) ∨
  (∃ e, r = Err e ∧ ∀ its, ¬ insertable (la :: s) its).
Proof.
  intros IH Hf Hs Ht H0 Hta child search r.
  apply patNextSegment_bounds in Hs as Hbd; [|done]. destruct Hbd as (Hbd & Hsp & Hlk).
  assert (∃ (c : ascii) s', search = c :: s' ∧ (c = "{"%char ∨ c = "*"%char)) as (c & s' & Hse & Hc).
  { exists (if decide (seg_typ sg = ntCatchAll) then "*" else "{")%char, (drop (S (seg_start sg)) (la :: s)).
    split; [by apply drop_S|]. case_decide; auto. }
  assert (length (c :: s') < fuel) as Hlen.
  { rewrite <- Hse. unfold search. rewrite length_drop. simpl in *. lia. }
  assert (insertable (la :: s) = insertable (take (seg_start sg) (la :: s) ++ c :: s')) as ->.
  { f_equal. rewrite <- Hse. symmetry. apply take_drop. }
  pose proof (λ its, insertable_app (take (seg_start sg) (la :: s)) (c :: s') its Hsp) as Hins.
  assert (bare child) as Hb by (split; [done|by intros []]).
  assert (child_ok (n_typ child) child) as Hok.
  { split; [done|]. simpl. destruct (seg_start sg) as [|k]; [done|]. simpl in *.
    split; [done|]. split; [done|]. destruct Hsp as [Hb1 Hb2].
    rewrite elem_of_cons in Hb1, Hb2. apply Hta; naive_solver. }
  subst r. rewrite Hse. simpl head. simpl default.
  destruct (IH child c s' (seg_typ sg) (seg_tail sg) [] Hlen)
    as [(its & ch & Hin & -> & Hch)|(e & -> & Hno)].
  - intros [Hb1 Hb2]. rewrite elem_of_cons in Hb1, Hb2. naive_solver.
  - naive_solver.
  - left. eexists _, _. split; [apply (proj2 (Hins _)); eauto|]. split; [|done].
    change (chars (take (seg_start sg) (la :: s))) with (edge_items child).
    by apply link_chain.
  - right. exists e. split; [done|]. intros its (its' & -> & Hin)%Hins. by eapply Hno.
Qed.

Lemma addChild_fresh f oe fuel n la s ty ta p :
  length (la :: s) < fuel →
  (static_pat (la :: s) → ty = ntStatic ∧ p = la :: s) →
  (la ≠ "{"%char → la ≠ "*"%char → ta = "000"%char) →
  addChild_post f oe n (la :: s)
    (addChild fuel n (new_node ty la ta p) (la :: s) (upd_endpoints f oe)).
Proof.
  revert n la s ty ta p. induction fuel as [|fuel IH]; intros n la s ty ta p Hf Hst Hta; [lia|].
  cbn [addChild]. destruct (patNextSegment (la :: s)) as [sg|e] eqn:Hs; cbn [rbind];
    [|right; eauto using not_insertable_err].
  case_bool_decide as Ht; cbn [rbind].
  { apply patNextSegment_static_inv in Hs as [Hsp _]; [|done].
    destruct (Hst Hsp) as [-> ->]. left. exists (chars (la :: s)). eexists.
    split; [by apply insertable_static|]. split; [done|].
    change (chars (la :: s)) with (edge_items (new_node ntStatic la ta (la :: s) : node)).
    apply leaf_chain; [by split; [|intros []]|]. split; [done|]. split; [done|]. split; [done|].
    destruct Hsp as [Hb Hw]. rewrite elem_of_cons in Hb, Hw. apply Hta; naive_solver. }
  destruct (compile_step sg (new_node ty la ta p)) as [(pfx & rx & -> & Hcomp & Hrx)|(e & -> & Hno)];
    [by split; [|intros []]|done|..]; cbn [rbind].
  2:{ right. eexists. split; [done|]. intros its Hin. apply Hno.
      apply patNextSegment_bounds in Hs as Hbd; [|done].
      destruct Hin as [Hi Hc]. rewrite items_unfold, Hs in Hi. simpl in Hi.
      rewrite bool_decide_false in Hi by done. inv_bind Hi. injection Hi as <-.
      apply Forall_app in Hc as [_ Hc]. by inversion Hc. }
  case_bool_decide as H0.
  - destruct (addChild_param f oe fuel n la s sg pfx rx IH ltac:(lia) Hs Ht H0 Hcomp Hrx)
      as [(its & ch & Hin & Hch & Heq)|(e & Heq & Hno)];
      cbn [set_edge new_node n_label n_prefix n_rex n_typ] in *; cbv zeta in *;
      rewrite Heq; cbn [rbind]; [left|right]; eauto 10.
  - destruct (addChild_prefix f oe fuel la s ta sg IH ltac:(lia) Hs Ht H0 Hta)
      as [(its & ch & Hin & Hch & Heq)|(e & Heq & Hno)];
      cbn [set_edge new_node n_label n_tail n_typ] in *; cbv zeta in *;
      rewrite Heq; cbn [rbind]; [left|right]; eauto 10.
Qed.

(** * The loop of insertRoute *)

(** [s'] is [s] with [f] applied at [its0]. *)
Definition point_upd f its0 (s s' : list item → endpoints) : Prop :=
  ∀ its, s' its = if decide (its = its0) then f (s its) else s its.

(** What an insertion below [n] guarantees: the invariant, and the map changed
    at the items of the pattern, or an error and the map unchanged. *)
Definition insert_post f oe (n : node) (search : gostring) (r : node * option route_error) : Prop :=
  wf r.1 ∧ same_edge n r.1 ∧
  ((∃ its, insertable search its ∧ r.2 = oe ∧ point_upd f its (sem n) (sem r.1)) ∨
   (∃ e, r.2 = Some e ∧ (∀ its, ¬ insertable search its) ∧ ∀ its, sem r.1 its = sem n its)).

Lemma insert_post_err f oe n search e :
  wf n → (∀ its, ¬ insertable search its) → insert_post f oe n search (n, Some e).
Proof. intros. split; [done|]. split; [apply same_edge_refl|]. right. eauto. Qed.

Lemma insert_post_here f oe n : wf n → insert_post f oe n [] (upd_endpoints f oe n).
Proof.
  intros Hwf. split; [by apply set_endpoints_wf|]. split; [apply set_endpoints_edge|].
  left. exists []. split; [apply insertable_nil|]. split; [done|]. intros its. simpl.
  rewrite set_endpoints_sem by done. repeat case_decide; subst; try done. by rewrite sem_nil.
Qed.

(** Replacing a child by one whose part of the map is updated. *)
Lemma insert_post_child f oe n t i c c' search r :
  wf n → children n t !! i = Some c → wf c' → child_ok t c' → edge_head c' = edge_head c →
  ((∃ its, insertable search its ∧ head its = Some (edge_head c) ∧ r = oe
      ∧ point_upd f its (sem1 c) (sem1 c')) ∨
   (∃ e, r = Some e ∧ (∀ its, ¬ insertable search its) ∧ ∀ its, sem1 c' its = sem1 c its)) →
  insert_post f oe n search (set_children n t (<[i := c']> (children n t)), r).
Proof.
  intros Hwf Hi Hwc Hok He Hor.
  assert (∀ its, head its = Some (edge_head c) → sem n its = sem1 c its) as Hhd.
  { intros its. apply (sem_head n t); [done|]. by eapply list_elem_of_lookup_2. }
  split; [by eapply set_child_wf|]. split; [apply same_edge_set_children|]. simpl.
  destruct Hor as [(its0 & Hin & Hh & -> & Hup)|(e & -> & Hno & Hsem)]; [left|right].
  - exists its0. split; [done|]. split; [done|]. intros its. erewrite set_child_sem by done.
    case_decide as Hc.
    + rewrite Hhd by done. apply Hup.
    + rewrite decide_False by (intros ->; done). done.
  - exists e. split; [done|]. split; [done|]. intros its. erewrite set_child_sem by done.
    case_decide; [|done]. rewrite Hhd by done. apply Hsem.
Qed.

(** Insertion below the edge of [c], after [c] was possibly replaced by a node
    [c0] that stands for the same part of the map. *)
Lemma insert_post_below f oe n t i c c0 search search' r :
  wf n → children n t !! i = Some c → child_ok t c0 → child_ok t r.1 →
  edge_head c0 = edge_head c → (∀ its, sem1 c0 its = sem1 c its) →
  (∀ its, insertable search its ↔ ∃ its', its = edge_items c0 ++ its' ∧ insertable search' its') →
  insert_post f oe c0 search' r →
  insert_post f oe n search (set_children n t (<[i := r.1]> (children n t)), r.2).
Proof.
  intros Hwf Hi Hok0 Hok Heh0 Hs0 Hins (Hwc & He & Hor).
  destruct (same_edge_items _ _ He) as [Hei Heh].
  destruct (child_ok_head _ _ Hok0) as [tl Htl].
  eapply insert_post_child; try done; [congruence|].
  destruct Hor as [(its' & Hin & Hr & Hup)|(e & Hr & Hno & Hsem)]; [left|right].
  - exists (edge_items c0 ++ its'). split; [apply Hins; eauto|].
    split; [rewrite Htl; simpl; congruence|].
    split; [done|]. intros its. rewrite <- Hs0. unfold sem1. rewrite Hei.
    destruct (strip (edge_items c0) its) as [rest|] eqn:Hst.
    + apply strip_Some in Hst as ->. rewrite Hup.
      destruct (decide (rest = its')) as [->|Hne]; [by rewrite decide_True|].
      rewrite decide_False; [done|]. by intros ?%app_inv_head.
    + rewrite decide_False; [done|]. intros ->. by rewrite strip_app in Hst.
  - exists e. split; [done|]. split.
    + intros its (its' & -> & Hin)%Hins. by eapply Hno.
    + intros its. rewrite <- Hs0. unfold sem1. rewrite Hei. by destruct (strip _ _).
Qed.

(** Attaching a chain under a new first item. *)
Lemma insert_post_append f oe n search its ch :
  wf n → insertable search its → is_chain f its ch →
  (∀ c, c ∈ children n (n_typ ch) → edge_head c ≠ edge_head ch) →
  insert_post f oe n search (append_child n ch, oe).
Proof.
  intros Hwf Hin (Hwc & Hok & Hh & Hs) Hno.
  assert (∀ t c, c ∈ children n t → edge_head c ≠ edge_head ch) as Hno'.
  { intros t c Hc He. destruct (wf_child _ _ _ Hwf Hc) as [[Ht _] _].
    assert (t = n_typ ch) as ->; [|by eapply Hno].
    rewrite <- Ht. revert He. unfold edge_head. by destruct (n_typ c), (n_typ ch). }
  split; [by apply append_child_wf|]. split; [apply same_edge_set_children|].
  left. exists its. split; [done|]. split; [done|]. intros js. simpl.
  rewrite append_child_sem by done. destruct (decide (js = its)) as [->|Hne].
  - rewrite decide_True by done. rewrite Hs, decide_True by done.
    rewrite sem_no_head; [done|done|by intros ->|].
    intros t c Hc. rewrite Hh. intros [= E]. by apply (Hno' t c).
  - case_decide as Hhj; [|done]. rewrite Hs, decide_False by done. symmetry.
    apply sem_no_head; [done|by intros ->|].
    intros t c Hc. rewrite Hhj. intros [= E]. by apply (Hno' t c).
Qed.

(** ** Edges *)

Lemma getEdge_Some n t label tail prefix i c :
  getEdge n t label tail prefix = Some (i, c) →
  children n t !! i = Some c ∧ n_label c = label ∧ n_tail c = tail
  ∧ (t = ntRegexp → n_prefix c = prefix)
  ∧ (t = ntStatic → find_index (λ c, bool_decide (n_label c = label) && bool_decide (n_tail c = tail))
                      (children n ntStatic) = Some i).
Proof.
  unfold getEdge. destruct (find_index _ _) as [j|] eqn:Hj; simpl; [|discriminate].
  destruct (children n t !! j) as [d|] eqn:Hd; simpl; [|discriminate]. intros [= -> ->].
  apply find_index_Some in Hj as Hf. destruct Hf as (d & Hd' & Hok & _). simplify_eq.
  apply andb_prop in Hok as [[Hl%bool_decide_eq_true Ht%bool_decide_eq_true]%andb_prop Hp].
  do 3 (split; [done|]). split.
  - intros ->. rewrite bool_decide_true in Hp by done. simpl in Hp. rewrite negb_involutive in Hp.
    by apply eqb_str_true in Hp.
  - intros ->. rewrite <- Hj. clear. induction (children n ntStatic) as [|x l IH]; simpl; [done|].
    rewrite IH. by rewrite andb_true_r.
Qed.

Lemma getEdge_None n t label tail prefix c :
  getEdge n t label tail prefix = None → c ∈ children n t →
  n_label c = label → n_tail c = tail → (t = ntRegexp → n_prefix c = prefix) → False.
Proof.
  unfold getEdge. destruct (find_index _ _) as [j|] eqn:Hj; simpl.
  - apply find_index_Some in Hj as (d & -> & _). done.
  - intros _ Hc Hl Ht Hp. apply find_index_None in Hj. rewrite Forall_forall in Hj.
    specialize (Hj c Hc). rewrite !bool_decide_true in Hj by done. simpl in Hj.
    case_bool_decide as Hty; [|done]. rewrite Hp, eqb_str_refl in Hj by done. done.
Qed.

Lemma set_edge_id n : set_edge n (n_typ n) (n_label n) (n_tail n) (n_prefix n) (n_rex n) = n.
Proof. by destruct n. Qed.

Lemma replaceChild_static n label tail i child :
  find_index (λ c, bool_decide (n_label c = label) && bool_decide (n_tail c = tail))
    (children n ntStatic) = Some i →
  n_typ child = ntStatic → n_label child = label → n_tail child = tail →
  replaceChild n label tail child = Ok (set_children n ntStatic (<[i := child]> (children n ntStatic))).
Proof.
  intros Hi Ht <- <-. unfold replaceChild. rewrite Ht, Hi.
  rewrite <- Ht, set_edge_id, Ht. done.
Qed.

(** ** Splitting a static node *)

Lemma addChild_static fuel n c s k :
  static_pat s → addChild (S fuel) n c s k = Ok (append_child n (k c).1, (k c).2).
Proof.
  intros Hs. cbn [addChild]. rewrite patNextSegment_static by done. simpl. by destruct (k c).
Qed.

(** The lower half of a split node: the subtree under the rest of the prefix. *)
Definition lower (c : node) (cp : nat) : node :=
  let rest := drop cp (n_prefix c) in
  set_edge c (n_typ c) (default "000"%char (head rest)) (n_tail c) rest (n_rex c).

Lemma children_set_edge n ty la ta p r t : children (set_edge n ty la ta p r) t = children n t.
Proof. by destruct n. Qed.

Lemma set_edge_wf n ty la ta p r : wf n → wf (set_edge n ty la ta p r).
Proof.
  intros [Hg Hk]%wf_unfold. apply wf_unfold. split.
  - intros t. by rewrite children_set_edge.
  - intros t c. rewrite children_set_edge. apply Hk.
Qed.

Lemma set_edge_sem n ty la ta p r its : wf n → sem (set_edge n ty la ta p r) its = sem n its.
Proof.
  intros Hwf. destruct (decide (its = [])) as [->|Hn].
  - rewrite !sem_nil. by destruct n.
  - apply sem_agree; auto using set_edge_wf. intros. by rewrite children_set_edge.
Qed.

Lemma static_pat_app p q : static_pat (p ++ q) ↔ static_pat p ∧ static_pat q.
Proof. unfold static_pat. rewrite !elem_of_app. naive_solver. Qed.

Lemma lower_ok c cp :
  wf c → child_ok ntStatic c → cp < length (n_prefix c) →
  wf (lower c cp) ∧ child_ok ntStatic (lower c cp)
  ∧ edge_items (lower c cp) = chars (drop cp (n_prefix c))
  ∧ head (drop cp (n_prefix c)) = Some (n_label (lower c cp)).
Proof.
  intros Hwf (Hty & Hh & Hsp & Hta) Hcp. unfold lower.
  assert (∃ b B, drop cp (n_prefix c) = b :: B) as (b & B & HB).
  { destruct (drop cp (n_prefix c)) eqn:E; [|eauto].
    apply (f_equal length) in E. rewrite length_drop in E. simpl in E. lia. }
  rewrite <- (take_drop cp (n_prefix c)), static_pat_app, HB in Hsp.
  destruct Hsp as [_ Hsp]. rewrite HB. simpl. split; [by apply set_edge_wf|].
  destruct c; simpl in *; subst. by split.
Qed.

(** The two halves stand for the same part of the map as the node. *)
Lemma split_halves c cp :
  let child := append_child (new_node ntStatic (n_label c) "000" (take cp (n_prefix c))) (lower c cp) in
  wf c → child_ok ntStatic c → 0 < cp < length (n_prefix c) →
  wf child ∧ child_ok ntStatic child ∧ edge_head child = edge_head c
  ∧ edge_items child = chars (take cp (n_prefix c))
  ∧ (∀ its, sem1 child its = sem1 c its)
  ∧ n_endpoints child = None
  ∧ (∀ t d, d ∈ children child t → d = lower c cp).
Proof.
  intros child Hwf Hok Hcp. destruct (lower_ok c cp Hwf Hok) as (Hwl & Hokl & Hil & Hhl); [lia|].
  set (child0 := new_node ntStatic (n_label c) "000" (take cp (n_prefix c)) : node) in *.
  assert (bare child0) as Hb by (split; [done|by intros []]).
  assert (n_typ (lower c cp) = ntStatic) as Htl by apply Hokl.
  pose proof Hok as (Hty & Hh & Hsp & Hta).
  assert (∀ t d, d ∈ children child0 t → edge_head d ≠ edge_head (lower c cp)) as Hno.
  { intros t d. destruct Hb as [_ ->]. by intros ?%not_elem_of_nil. }
  assert (edge_items child = chars (take cp (n_prefix c))) as Hei.
  { destruct (same_edge_items child0 child) as [-> _]; [|done]. apply same_edge_set_children. }
  split; [apply append_child_wf; rewrite ?Htl; eauto using bare_wf|]. split.
  { eapply (same_edge_child_ok _ child0); [apply same_edge_set_children|done|].
    split; [done|]. simpl. rewrite <- (take_drop cp (n_prefix c)), static_pat_app in Hsp.
    split; [|naive_solver]. destruct (n_prefix c), cp; simpl in *; naive_solver lia. }
  split.
  { destruct (same_edge_items child0 child) as [_ ->]; [apply same_edge_set_children|].
    unfold edge_head. by rewrite Hty. }
  split; [done|]. split; [|split].
  - intros its. unfold sem1. rewrite Hei. unfold edge_items. rewrite Hty.
    rewrite <- (take_drop cp (n_prefix c)) at 2. unfold chars. rewrite map_app, strip_app_l.
    destruct (strip (map IChar (take cp (n_prefix c))) its) as [rest|]; simpl; [|done].
    unfold child. rewrite append_child_sem; rewrite ?Htl; eauto using bare_wf.
    rewrite bare_sem by done. unfold sem1. rewrite Hil. unfold chars.
    destruct (strip _ rest) as [r|] eqn:Hst.
    + apply strip_Some in Hst as ->. rewrite decide_True; [by apply set_edge_sem|].
      unfold edge_head. rewrite Htl. by destruct (drop cp (n_prefix c)); simplify_eq/=.
    + by case_decide.
  - unfold child, append_child. by rewrite endpoints_set_children.
  - intros t d [Hd|[_ ->]]%elem_of_append_child; [|done].
    destruct Hb as [_ Hb]. rewrite Hb in Hd. by apply not_elem_of_nil in Hd.
Qed.

(** The whole split: where [search] leaves the prefix of [c] after [cp] bytes. *)
Lemma split_node_post f oe n c i label search cp :
  wf n → getEdge n ntStatic label "000" [] = Some (i, c) →
  head search = Some label → cp = longestPrefix search (n_prefix c) → cp < length (n_prefix c) →
  insert_post f oe n search (split_node n c label "000" search cp (upd_endpoints f oe)).
Proof.
  intros Hwf (Hi & Hl & Hta & _ & Hfi)%getEdge_Some Hh -> Hcp.
  specialize (Hfi eq_refl). set (cp := longestPrefix search (n_prefix c)) in *.
  destruct (wf_child n _ c Hwf (list_elem_of_lookup_2 _ _ _ Hi)) as [Hok Hwc].
  destruct (longestPrefix_spec search (n_prefix c)) as (Htake & Hle1 & Hle2 & Hdiff). fold cp in Htake, Hle1, Hle2, Hdiff.
  assert (0 < cp) as Hpos.
  { destruct Hok as (_ & Hhp & _). unfold cp. destruct search, (n_prefix c); simplify_eq/=.
    rewrite bool_decide_true by congruence. lia. }
  destruct (lower_ok c cp Hwc Hok Hcp) as (Hwl & Hokl & Hil & Hhl).
  destruct (split_halves c cp Hwc Hok (conj Hpos Hcp)) as (Hwh & Hokh & Hehh & Heih & Hsemh & Heph & Hkids).
  assert (static_pat (drop cp (n_prefix c))) as Hspd.
  { destruct Hok as (_ & _ & Hsp & _). rewrite <- (take_drop cp (n_prefix c)), static_pat_app in Hsp. naive_solver. }
  assert (static_pat (take cp search)) as Hspt.
  { destruct Hok as (_ & _ & Hsp & _). rewrite <- (take_drop cp (n_prefix c)), static_pat_app in Hsp.
    rewrite Htake. naive_solver. }
  assert (insertable search = insertable (take cp search ++ drop cp search)) as Hse
    by (by rewrite take_drop).
  pose proof (λ its, insertable_app (take cp search) (drop cp search) its Hspt) as Hins.
  unfold split_node. erewrite replaceChild_static by done.
  rewrite addChild_static by done. cbn [fst snd]. fold (lower c cp). rewrite Htake, <- Hl.
  set (half := append_child (new_node ntStatic (n_label c) "000" (take cp (n_prefix c))) (lower c cp)) in *.
  assert (∀ r, insert_post f oe half (drop cp search) r →
    insert_post f oe n search
      (match replaceChild n (n_label c) "000" r.1 with Ok p => p | Err _ => n end, r.2)) as Hplace.
  { intros r Hr. pose proof Hr as (_ & Hed & _).
    pose proof Hed as (Hty' & Hla' & Hta' & _).
    assert (same_edge (new_node ntStatic (n_label c) "000" (take cp (n_prefix c)) : node) half)
      as (Hty & Hla & Hta0 & _) by apply same_edge_set_children.
    simpl in Hty, Hla, Hta0. rewrite (replaceChild_static n _ _ i); [|by rewrite Hl|congruence..].
    eapply (insert_post_below f oe n ntStatic i c half); try done.
    - by eapply same_edge_child_ok.
    - intros its. by rewrite Hse, Heih, Hins, Htake. }
  destruct (drop cp search) as [|d D] eqn:HD; cbv beta iota zeta.
  { apply (Hplace (upd_endpoints f oe half)). by apply insert_post_here. }
  destruct (addChild_fresh f oe (S (length (d :: D))) half d D ntStatic "000" (d :: D))
    as [(its & ch & Hin & -> & Hch)|(e & -> & Hno)]; try done; [lia| |].
  - apply (Hplace (append_child half ch, oe)). eapply insert_post_append; try done.
    intros x Hx%Hkids Heq. subst x. destruct Hch as (_ & _ & Hhc & _).
    rewrite <- Heq in Hhc. unfold edge_head in Hhc. rewrite (proj1 Hokl) in Hhc.
    apply (insertable_head _ _ _ _ Hin) in Hhc.
    destruct Hdiff as [Hd|[Hd|Hd]]; [|lia|].
    + rewrite Hd, drop_all in HD. done.
    + apply Hd. rewrite <- (Nat.add_0_r cp), <- !lookup_drop, HD.
      rewrite <- !head_lookup, Hhl. simpl. congruence.
  - apply (Hplace (half, Some e)). by apply insert_post_err.
Qed.

Lemma edge_head_typ n t c :
  wf n → c ∈ children n t → t = match edge_head c with
    | IChar _ => ntStatic | IRegexp _ _ => ntRegexp | IParam _ => ntParam | ICatchAll => ntCatchAll end.
Proof.
  intros Hwf Hc. destruct (wf_child _ _ _ Hwf Hc) as [[Ht _] _]. unfold edge_head.
  rewrite Ht. by destruct t.
Qed.

(** Without an edge for the segment, no child starts with its item. *)
Lemma getEdge_None_param n la s sg c t :
  wf n → patNextSegment (la :: s) = Ok sg → seg_typ sg ≠ ntStatic → seg_start sg = 0 →
  getEdge n (seg_typ sg) la (seg_tail sg)
    (if bool_decide (seg_typ sg = ntRegexp) then seg_rexpat sg else []) = None →
  c ∈ children n t → edge_head c ≠ seg_item sg.
Proof.
  intros Hwf Hs Ht H0 Hg Hc He. pose proof (edge_head_typ _ _ _ Hwf Hc) as Htt.
  apply patNextSegment_bounds in Hs as Hb; [|done]. destruct Hb as (_ & _ & Hla).
  rewrite H0 in Hla. simpl in Hla. injection Hla as ->.
  destruct (wf_child _ _ _ Hwf Hc) as [[Hty Hok] _].
  unfold edge_head, seg_item in He. rewrite Hty in He.
  assert (t = seg_typ sg) as -> by (destruct t, (seg_typ sg); done).
  eapply getEdge_None; [exact Hg|exact Hc|..].
  - destruct (seg_typ sg); naive_solver.
  - destruct (seg_typ sg) eqn:E; try naive_solver.
    destruct (patNextSegment_catchAll _ _ Hs E) as [-> _]. naive_solver.
  - intros E. rewrite E in *. simpl. naive_solver.
Qed.

Lemma getEdge_None_static n label c t :
  wf n → getEdge n ntStatic label "000" [] = None →
  c ∈ children n t → edge_head c ≠ IChar label.
Proof.
  intros Hwf Hg Hc He. pose proof (edge_head_typ _ _ _ Hwf Hc) as Htt. rewrite He in Htt. subst t.
  destruct (wf_child _ _ _ Hwf Hc) as [(Hty & _ & _ & Hta) _].
  unfold edge_head in He. rewrite Hty in He.
  eapply getEdge_None; [exact Hg|exact Hc|congruence|done|done].
Qed.

(** One step of the loop at a parameter of the pattern. *)
Lemma insert_param_step f oe fuel n la s sg :
  (∀ c search, wf c → length search < fuel →
     insert_post f oe c search (insertRoute_loop fuel c search (upd_endpoints f oe))) →
  wf n → length (la :: s) ≤ fuel →
  la = "{"%char ∨ la = "*"%char → patNextSegment (la :: s) = Ok sg →
  insert_post f oe n (la :: s)
    match getEdge n (seg_typ sg) la (seg_tail sg)
            (if bool_decide (seg_typ sg = ntRegexp) then seg_rexpat sg else []) with
    | None =>
        match addChild (S (length (la :: s))) n (new_node ntStatic la (seg_tail sg) (la :: s))
                (la :: s) (upd_endpoints f oe) with
        | Err e => (n, Some e)
        | Ok (n', oe) => (n', oe)
        end
    | Some (i, c) =>
        let r := insertRoute_loop fuel c (drop (seg_end sg) (la :: s)) (upd_endpoints f oe) in
        (set_children n (seg_typ sg) (<[i := r.1]> (children n (seg_typ sg))), r.2)
    end.
Proof.
  intros IH Hwf Hf Hla Hs. destruct (patNextSegment_head _ _ _ Hs Hla) as [Ht H0].
  pose proof (λ its, insertable_seg _ _ its Hs Ht H0) as Hins.
  destruct (getEdge _ _ _ _ _) as [[i c]|] eqn:Hg.
  - apply getEdge_Some in Hg as (Hi & Hl & Hta & Hre & _).
    destruct (wf_child n _ c Hwf (list_elem_of_lookup_2 _ _ _ Hi)) as [Hok Hwc].
    assert (edge_items c = [seg_item sg]) as Hei.
    { unfold edge_items, seg_item. rewrite (proj1 Hok), Hta.
      destruct (seg_typ sg) eqn:E; try done. by rewrite Hre. }
    apply patNextSegment_bounds in Hs as Hbd; [|done]. destruct Hbd as (Hbd & _).
    set (r := insertRoute_loop fuel c _ _).
    assert (insert_post f oe c (drop (seg_end sg) (la :: s)) r) as Hr.
    { apply IH; [done|]. rewrite length_drop. simpl in *. lia. }
    cbv zeta. eapply (insert_post_below f oe n (seg_typ sg) i c c); try done.
    + pose proof Hr as (_ & He & _). eapply same_edge_child_ok; [exact He| |done].
      intros Hca t'. destruct (patNextSegment_catchAll _ _ Hs Hca) as [_ Hend].
      subst r. rewrite Hend, drop_all. destruct fuel as [|fuel]; [simpl in Hf; lia|].
      simpl. rewrite children_set_endpoints. rewrite Hca in Hok. by destruct Hok as (_ & _ & _ & ->).
    + intros its. rewrite Hins, Hei. simpl. split; [naive_solver|].
      intros (its' & -> & Hin). exists its'. split; [done|]. split; [|done].
      unfold seg_item. destruct (seg_typ sg) eqn:E; try done. simpl.
      destruct Hok as (_ & _ & Hsome & Hcmp). specialize (Hre eq_refl). simpl in Hre.
      by rewrite <- Hre, <- Hcmp.
  - destruct (addChild_fresh f oe (S (length (la :: s))) n la s ntStatic (seg_tail sg) (la :: s))
      as [(its & ch & Hin & -> & Hch)|(e & -> & Hno)]; try done; [lia|naive_solver|..].
    + eapply insert_post_append; try done. intros c Hc. destruct Hch as (_ & _ & Hh & _).
      apply Hins in Hin as (its' & -> & _). simpl in Hh. injection Hh as <-.
      by eapply getEdge_None_param.
    + by apply insert_post_err.
Qed.

(** One step of the loop at a static byte of the pattern. *)
Lemma insert_static_step f oe fuel n la s :
  (∀ c search, wf c → length search < fuel →
     insert_post f oe c search (insertRoute_loop fuel c search (upd_endpoints f oe))) →
  wf n → length (la :: s) < S fuel → ¬ (la = "{"%char ∨ la = "*"%char) →
  insert_post f oe n (la :: s)
    match getEdge n ntStatic la "000" [] with
    | None =>
        match addChild (S (length (la :: s))) n (new_node ntStatic la "000" (la :: s))
                (la :: s) (upd_endpoints f oe) with
        | Err e => (n, Some e)
        | Ok (n', oe) => (n', oe)
        end
    | Some (i, c) =>
        if negb (bool_decide (n_typ c = ntStatic)) then
          let '(c', oe) := insertRoute_loop fuel c (drop 0 (la :: s)) (upd_endpoints f oe) in
          (set_children n ntStatic (<[i := c']> (children n ntStatic)), oe)
        else if bool_decide (longestPrefix (la :: s) (n_prefix c) = length (n_prefix c)) then
          let '(c', oe) :=
            insertRoute_loop fuel c (drop (longestPrefix (la :: s) (n_prefix c)) (la :: s))
              (upd_endpoints f oe) in
          (set_children n ntStatic (<[i := c']> (children n ntStatic)), oe)
        else split_node n c la "000" (la :: s) (longestPrefix (la :: s) (n_prefix c))
               (upd_endpoints f oe)
    end.
Proof.
  intros IH Hwf Hf Hla. destruct (getEdge n ntStatic la "000" []) as [[i c]|] eqn:Hg.
  - apply getEdge_Some in Hg as Hg'. destruct Hg' as (Hi & Hl & Hta & _).
    destruct (wf_child n _ c Hwf (list_elem_of_lookup_2 _ _ _ Hi)) as [Hok Hwc].
    rewrite (bool_decide_true (n_typ c = _)) by apply Hok. simpl negb. cbv iota.
    case_bool_decide as Hcp.
    + pose proof (longestPrefix_full _ _ Hcp) as Hfull. rewrite Hcp.
      pose proof Hok as (Hty & Hh & Hsp & _).
      set (r := insertRoute_loop fuel c _ _).
      assert (insert_post f oe c (drop (length (n_prefix c)) (la :: s)) r) as Hr.
      { apply IH; [done|]. rewrite length_drop. destruct (n_prefix c); simplify_eq/=. lia. }
      rewrite (surjective_pairing r). eapply (insert_post_below f oe n ntStatic i c c); try done.
      * pose proof Hr as (_ & He & _). by eapply same_edge_child_ok.
      * intros its. rewrite Hfull at 1. rewrite insertable_app by done.
        unfold edge_items. by rewrite Hty.
    + eapply split_node_post; try done.
      destruct (longestPrefix_spec (la :: s) (n_prefix c)) as (_ & _ & ? & _). lia.
  - destruct (addChild_fresh f oe (S (length (la :: s))) n la s ntStatic "000" (la :: s))
      as [(its & ch & Hin & -> & Hch)|(e & -> & Hno)]; try done; [lia|..].
    + eapply insert_post_append; try done. intros c Hc. destruct Hch as (_ & _ & Hh & _).
      destruct Hin as [Hi _]. rewrite items_cons in Hi by naive_solver. inv_bind Hi.
      injection Hi as <-. simpl in Hh. injection Hh as <-. by eapply getEdge_None_static.
    + by apply insert_post_err.
Qed.

Lemma insertRoute_loop_post f oe fuel n search :
  wf n → length search < fuel →
  insert_post f oe n search (insertRoute_loop fuel n search (upd_endpoints f oe)).
Proof.
  revert n search. induction fuel as [|fuel IH]; intros n search Hwf Hf; [lia|].
  destruct search as [|la s]; [by apply insert_post_here|]. cbn [insertRoute_loop].
  destruct (decide (la = "{"%char ∨ la = "*"%char)) as [Hla|Hla].
  - assert (bool_decide (la = "{"%char) || bool_decide (la = "*"%char) = true) as ->.
    { destruct Hla as [-> | ->]; done. }
    destruct (patNextSegment (la :: s)) as [sg|e] eqn:Hs;
      [|apply insert_post_err; [done|by eapply not_insertable_err]].
    pose proof (insert_param_step f oe fuel n la s sg IH Hwf ltac:(lia) Hla Hs) as Hp. cbv zeta in *.
    destruct (getEdge _ _ _ _ _) as [[i c]|] eqn:Hg; [|done].
    apply getEdge_Some in Hg as (Hi & _).
    destruct (wf_child n _ c Hwf (list_elem_of_lookup_2 _ _ _ Hi)) as [[Hty _] _].
    destruct (patNextSegment_head _ _ _ Hs Hla) as [Ht _].
    rewrite bool_decide_false by congruence. simpl. by destruct (insertRoute_loop _ _ _ _).
  - assert (bool_decide (la = "{"%char) || bool_decide (la = "*"%char) = false) as ->.
    { rewrite !bool_decide_false by naive_solver. done. }
    cbn [seg_typ seg_tail seg_rexpat seg_end]. cbv zeta.
    rewrite (bool_decide_false (ntStatic = ntRegexp)) by done.
    by apply insert_static_step.
Qed.
End Insert.
