(* ===== verification/RouterFind.v ===== *)
(** Search in the routing tree: what a route found by [findRoute] matches
    (soundness), which paths are always found (completeness), and that a
    static route is found by its own path whatever else is registered. *)
From S2P Require Import Prelude GoStrings RouterPattern RouterTree RouterInv RouterInsert.

Section Find.
Context `{RegexpPkg} {Handler : Type}.
Notation node := (@node _ Handler).
Notation endpoint := (@endpoint Handler).
Notation endpoints := (gmap Z endpoint).
Notation searcher := (Context → gostring → Context * option node).

(** * Paths that match a pattern *)

(** A parameter with tail [t] takes [v] from the path: [v] runs up to the first
    [t], or to the end of the path when [t] is '/'. *)
Definition cut (t : ascii) (v rest : gostring) : Prop :=
  t ∉ v ∧ (head rest = Some t ∨ rest = [] ∧ t = "/"%char).

Definition regexp_accepts (rexpat v : gostring) : Prop :=
  ∃ rx, regexp_Compile rexpat = Some rx ∧ regexp_MatchString rx v = true.

(** The paths a route found may have, with the values captured: a value that
    is not empty was cut at its tail and, for a regexp, accepted by it. *)
Inductive imatch : list item → gostring → list gostring → Prop :=
| im_nil : imatch [] [] []
| im_char c its path vs : imatch its path vs → imatch (IChar c :: its) (c :: path) vs
| im_param t its v path vs :
    v = [] ∨ (cut t v path ∧ "/"%char ∉ v) →
    imatch its path vs → imatch (IParam t :: its) (v ++ path) (v :: vs)
| im_regexp r t its v path vs :
    v = [] ∨ (cut t v path ∧ regexp_accepts r v) →
    imatch its path vs → imatch (IRegexp r t :: its) (v ++ path) (v :: vs)
| im_catchAll path : imatch [ICatchAll] path [path].

(** The paths that are always found: every parameter has its value cut at its
    tail, and a regexp a non-empty value it accepts. *)
Inductive cmatch : list item → gostring → list gostring → Prop :=
| cm_nil : cmatch [] [] []
| cm_char c its path vs : cmatch its path vs → cmatch (IChar c :: its) (c :: path) vs
| cm_param t its v path vs :
    v ++ path ≠ [] → cut t v path → "/"%char ∉ v →
    cmatch its path vs → cmatch (IParam t :: its) (v ++ path) (v :: vs)
| cm_regexp r t its v path vs :
    v ≠ [] → cut t v path → regexp_accepts r v →
    cmatch its path vs → cmatch (IRegexp r t :: its) (v ++ path) (v :: vs)
| cm_catchAll path : cmatch [ICatchAll] path [path].

Lemma imatch_chars p its path vs : imatch its path vs → imatch (chars p ++ its) (p ++ path) vs.
Proof. intros Hm. induction p as [|c p IH]; [done|]. by apply im_char. Qed.

Lemma cmatch_chars_inv p its path vs :
  cmatch (chars p ++ its) path vs → ∃ path', path = p ++ path' ∧ cmatch its path' vs.
Proof.
  revert path. induction p as [|c p IH]; intros path; simpl; [eauto|].
  inversion_clear 1 as [|? ? path' ? Hm| | |]. destruct (IH _ Hm) as (path'' & -> & ?). eauto.
Qed.

Lemma cmatch_imatch its path vs : cmatch its path vs → imatch its path vs.
Proof. induction 1; econstructor; eauto. Qed.

(** Exactly the parameters capture values. *)
Lemma imatch_length its path vs :
  imatch its path vs → length vs = length (filter (λ i, is_param_item i = true) its).
Proof.
  induction 1; simpl; try done;
    rewrite ?filter_cons_True, ?filter_cons_False by done; simpl; congruence.
Qed.

(** * Soundness *)

Section Sound.
Context (mt : method_table) (method : Z).

(** The fields of the context a search does not touch. *)
Definition same_frame (x y : Context) : Prop :=
  RoutePath y = RoutePath x ∧ URLParams y = URLParams x
  ∧ routePattern y = routePattern x ∧ RoutePatterns y = RoutePatterns x.

(** What a search for [search] guarantees, [S] being the map searched. *)
Definition find_post (S : list item → endpoints) (rctx : Context) (search : gostring)
    (r : Context * option node) : Prop :=
  same_frame rctx r.1 ∧
  match r.2 with
  | None => routeParams r.1 = routeParams rctx
  | Some m =>
      ∃ its vs ep,
        S its !! method = Some ep ∧ is_Some (handler ep)
        ∧ default ∅ (n_endpoints m) !! method = Some ep ∧ imatch its search vs
        ∧ routeParams r.1 = MkRouteParams (Keys (routeParams rctx) ++ paramKeys ep)
                              (Values (routeParams rctx) ++ vs)
  end.

Lemma same_frame_refl x : same_frame x x.
Proof. done. Qed.

Lemma same_frame_trans x y z : same_frame x y → same_frame y z → same_frame x z.
Proof. unfold same_frame. naive_solver congruence. Qed.

Lemma same_frame_params f x : same_frame x (set_routeParams f x).
Proof. done. Qed.

Hint Resolve same_frame_refl same_frame_params : apifw.

(** The leaf check answers for the empty rest of the path. *)
Lemma leaf_check_post (c : node) rctx :
  let r := leaf_check mt method c rctx in
  same_frame rctx r.1 ∧
  if r.2 then
    ∃ ep, default ∅ (n_endpoints c) !! method = Some ep ∧ is_Some (handler ep)
          ∧ r.1 = add_keys (paramKeys ep) rctx
  else routeParams r.1 = routeParams rctx.
Proof.
  unfold leaf_check. destruct (n_endpoints c) as [eps|]; simpl; [|done].
  destruct (eps !! method) as [[[h|] pat acts keys]|] eqn:He; simpl; try done.
  split; [done|]. eexists. split; [done|]. by split; [eexists|].
Qed.

Lemma visit_post (c : node) rec rctx xs :
  (∀ rctx xs, find_post (sem c) rctx xs (rec rctx xs)) →
  find_post (sem c) rctx xs (visit mt method c rec rctx xs).
Proof.
  intros Hrec. unfold visit. destruct xs as [|x xs]; simpl; [|apply Hrec].
  pose proof (leaf_check_post c rctx) as [Hfr Hl].
  destruct (leaf_check mt method c rctx) as [rctx' [|]]; simpl in *.
  - destruct Hl as (ep & He & Hh & ->). split; [done|]. exists [], [], ep.
    rewrite sem_nil, app_nil_r. repeat split; try done. constructor.
  - destruct (Hrec rctx' []) as [Hfr' Hr]. split; [by eapply same_frame_trans|].
    destruct (rec rctx' []) as [rctx'' [m|]]; simpl in *; [|congruence].
    by rewrite Hl in Hr.
Qed.

(** A search below a child, as a search of its parent: [v] is the value pushed
    for a parameter. *)
Lemma find_post_child (n : node) t c rctx search xs r :
  wf n → c ∈ children n t → t = ntStatic →
  search = n_prefix c ++ xs →
  find_post (sem c) rctx xs r → find_post (sem n) rctx search r.
Proof.
  intros Hwf Hc -> -> [Hfr Hr]. split; [done|]. destruct (r.2) as [m|]; [|done].
  destruct Hr as (its & vs & ep & Hs & Hh & He & Hm & Hp).
  destruct (wf_child _ _ _ Hwf Hc) as [[Hty _] _].
  exists (edge_items c ++ its), vs, ep. rewrite (sem_child n ntStatic) by done.
  repeat split; try done. unfold edge_items. rewrite Hty. by apply imatch_chars.
Qed.

Lemma find_post_param (n : node) t c rctx v xs r m :
  wf n → c ∈ children n t →
  (∀ its vs, is_Some (sem c its !! method) → imatch its xs vs →
     imatch (edge_items c ++ its) (v ++ xs) (v :: vs)) →
  find_post (sem c) (push_value v rctx) xs r → r.2 = Some m →
  find_post (sem n) rctx (v ++ xs) r.
Proof.
  intros Hwf Hc Him [Hfr Hr] Hm. split; [done|]. rewrite Hm in *.
  destruct Hr as (its & vs & ep & Hs & Hh & He & Hi & Hp).
  exists (edge_items c ++ its), (v :: vs), ep. rewrite (sem_child n t) by done.
  repeat split; try done; [by eapply Him|]. rewrite Hp. simpl. by rewrite <- app_assoc.
Qed.

(** The cut a parameter node makes. *)
Lemma param_cut_Some (c : node) t search p :
  child_ok t c → t = ntParam ∨ t = ntRegexp → param_cut t c search = Some p →
  cut (n_tail c) (take p search) (drop p search)
  ∧ (t = ntParam → "/"%char ∉ take p search)
  ∧ (t = ntRegexp → regexp_accepts (n_prefix c) (take p search)).
Proof.
  intros [_ Hok] Ht Hc. unfold param_cut in Hc.
  destruct (param_end t c search) as [q|] eqn:Hq; simpl in Hc; [|discriminate].
  assert (q = p) as -> by (destruct t, (n_rex c); repeat case_match; naive_solver).
  split.
  - unfold param_end in Hq. destruct (index_byte search (n_tail c)) as [q|] eqn:Hi.
    + case_match; [discriminate|]. injection Hq as ->. apply index_byte_Some in Hi as [Hl Hn].
      split; [done|]. left. by rewrite (drop_S _ _ _ Hl).
    + case_bool_decide as Hsl; [|discriminate]. injection Hq as <-. apply index_byte_None in Hi.
      rewrite firstn_all, drop_all. split; [done|auto].
  - destruct Ht as [-> | ->]; (split; [|try done]).
    + intros _. destruct (index_byte (take p search) "/") eqn:Hs; [|by apply index_byte_None].
      by destruct (n_rex c).
    + done.
    + intros _. destruct Hok as (_ & [rx Hrx] & Hcmp). rewrite Hrx in *.
      exists rx. split; [done|]. by case_match.
Qed.

Lemma param_cut_complete (c : node) t v rest :
  child_ok t c → t = ntParam ∨ t = ntRegexp → cut (n_tail c) v rest →
  (t = ntParam → "/"%char ∉ v) → (t = ntRegexp → v ≠ [] ∧ regexp_accepts (n_prefix c) v) →
  param_cut t c (v ++ rest) = Some (length v).
Proof.
  intros [_ Hok] Ht [Hv Hr] Hpa Hre. unfold param_cut.
  assert (param_end t c (v ++ rest) = Some (length v)) as ->.
  { unfold param_end. destruct Hr as [Hr|[-> Hsl]].
    - destruct rest as [|x rest]; simplify_eq/=. rewrite index_byte_app by done.
      destruct Ht as [-> | ->]; simpl; [done|]. destruct (Hre eq_refl) as [Hne _].
      by destruct v.
    - rewrite app_nil_r. rewrite (proj2 (index_byte_None _ _)) by done.
      by rewrite bool_decide_true. }
  simpl. rewrite take_app_length. destruct Ht as [-> | ->].
  - rewrite (proj2 (index_byte_None _ _)) by auto. by destruct (n_rex c).
  - destruct Hok as (_ & [rx Hrx] & Hcmp). destruct (Hre eq_refl) as [_ (rx' & Hrx' & Hm)].
    rewrite Hrx in *. assert (rx = rx') as -> by congruence. by rewrite Hm.
Qed.

(** The items of a parameter edge match the value cut, and the empty value. *)
Lemma param_edge_match (c : node) t v xs its vs :
  child_ok t c → t = ntParam ∨ t = ntRegexp →
  v = [] ∨ (cut (n_tail c) v xs ∧ (t = ntParam → "/"%char ∉ v)
            ∧ (t = ntRegexp → regexp_accepts (n_prefix c) v)) →
  imatch its xs vs → imatch (edge_items c ++ its) (v ++ xs) (v :: vs).
Proof.
  intros [Hty _] Ht Hv Hm. unfold edge_items. rewrite Hty.
  destruct Ht as [-> | ->]; simpl; constructor; try done; destruct Hv as [|(? & ? & ?)]; auto.
Qed.

(** A search of a sibling after one that found nothing. *)
Lemma find_post_seq S rctx rctx' search r :
  find_post S rctx search (rctx', None) → find_post S rctx' search r → find_post S rctx search r.
Proof.
  intros [Hf1 Hp1] [Hf2 Hp2]. simpl in *. split; [by eapply same_frame_trans|].
  rewrite Hp1 in Hp2. done.
Qed.

(** The nodes of a group paired with their searches, as [findRoute] pairs them. *)
Definition pairs (cs : list node) : list (node * searcher) :=
  map (λ c, (c, findRoute mt method c)) cs.

Lemma elem_of_pairs cs x rec : (x, rec) ∈ pairs cs → x ∈ cs ∧ rec = findRoute mt method x.
Proof. intros (c & Hc & ?)%list_elem_of_fmap. by simplify_eq. Qed.

Lemma param_loop_post (n : node) t cs rctx search :
  wf n → t = ntParam ∨ t = ntRegexp → cs ⊆ children n t →
  (∀ c, c ∈ cs → ∀ rctx xs, find_post (sem c) rctx xs (findRoute mt method c rctx xs)) →
  find_post (sem n) rctx search (param_loop mt t method (pairs cs) rctx search).
Proof.
  intros Hwf Ht Hin Hrec. revert rctx. induction cs as [|c cs IH]; intros rctx; simpl; [done|].
  assert (c ∈ children n t) as Hc by (apply Hin; left).
  destruct (wf_child _ _ _ Hwf Hc) as [Hok _].
  assert (∀ rctx, find_post (sem n) rctx search (param_loop mt t method (pairs cs) rctx search)) as IH'.
  { intros rctx'. apply IH; [set_solver|]. intros; apply Hrec; set_solver. }
  destruct (param_cut t c search) as [p|] eqn:Hp; [|apply IH'].
  destruct (param_cut_Some c t search p Hok Ht Hp) as (Hcut & Hpa & Hre).
  pose proof (visit_post c (findRoute mt method c) (push_value (take p search) rctx)
                (drop p search) (Hrec c ltac:(left))) as Hv.
  destruct (visit _ _ _ _ _ _) as [rctx' [m|]].
  - rewrite <- (take_drop p search) at 1. eapply find_post_param; try done.
    intros its vs _ Hm. eapply param_edge_match; eauto.
  - eapply find_post_seq; [|apply IH']. destruct Hv as [Hfr Hrp]. simpl in *.
    split; [done|]. simpl. rewrite Hrp. simpl. rewrite take_app_length. by destruct (routeParams rctx).
Qed.

(** The candidate at the end of an iteration, with its value pushed. *)
Lemma visit_pop_post (n : node) t c rctx v xs :
  wf n → c ∈ children n t → t ≠ ntStatic →
  (∀ its vs, is_Some (sem c its !! method) → imatch its xs vs →
     imatch (edge_items c ++ its) (v ++ xs) (v :: vs)) →
  (∀ rctx xs, find_post (sem c) rctx xs (findRoute mt method c rctx xs)) →
  find_post (sem n) rctx (v ++ xs)
    (visit_pop mt method c (findRoute mt method c) (push_value v rctx) xs).
Proof.
  intros Hwf Hc Ht Him Hrec. unfold visit_pop.
  pose proof (visit_post c (findRoute mt method c) (push_value v rctx) xs Hrec) as Hv.
  destruct (visit _ _ _ _ _ _) as [rctx' [m|]].
  - by eapply find_post_param.
  - destruct (wf_child _ _ _ Hwf Hc) as [[Hty _] _]. rewrite bool_decide_false by congruence.
    destruct Hv as [Hfr Hrp]. simpl in *. split; [done|]. simpl. rewrite Hrp. simpl.
    rewrite length_app. simpl. rewrite Nat.add_sub, take_app_length. by destruct (routeParams rctx).
Qed.

Lemma find_group_post (n : node) t rctx search :
  wf n →
  (∀ c, c ∈ children n t → ∀ rctx xs, find_post (sem c) rctx xs (findRoute mt method c rctx xs)) →
  find_post (sem n) rctx search
    (find_group mt method t (pairs (children n t)) rctx search).
Proof.
  intros Hwf Hrec. unfold find_group.
  destruct (pairs (children n t)) as [|[c0 rec0] es] eqn:Hp; [done|].
  cbv beta iota zeta. rewrite <- Hp.
  assert (∀ x rec, (x, rec) ∈ pairs (children n t) → x ∈ children n t ∧ rec = findRoute mt method x)
    as Hpairs by apply elem_of_pairs.
  destruct (Hpairs c0 rec0) as [Hc0 ->]; [rewrite Hp; left|].
  assert (t = ntParam ∨ t = ntRegexp →
    find_post (sem n) rctx search
      (if is_empty search then (rctx, None)
       else match param_loop mt t method (pairs (children n t)) rctx search with
            | (rctx, Some fin) => (rctx, Some fin)
            | (rctx, None) =>
                let '(xn, rec) := default (c0, findRoute mt method c0) (last (pairs (children n t))) in
                visit_pop mt method xn rec (push_value [] rctx) search
            end)) as Hparam.
  { intros Ht. case_match; [done|].
    pose proof (param_loop_post n t (children n t) rctx search Hwf Ht ltac:(done) Hrec) as Hl.
    destruct (param_loop _ _ _ _ _ _) as [rctx' [m|]]; [done|].
    eapply find_post_seq; [exact Hl|].
    assert (∃ x, default (c0, findRoute mt method c0) (last (pairs (children n t)))
                 = (x, findRoute mt method x) ∧ x ∈ children n t) as (x & -> & Hx).
    { destruct (last (pairs (children n t))) as [[x rec]|] eqn:Hla; simpl; [|eauto].
      apply last_Some_elem_of, Hpairs in Hla as [? ->]. eauto. }
    destruct (wf_child _ _ _ Hwf Hx) as [Hok _].
    rewrite <- (app_nil_l search) at 1. eapply (visit_pop_post n t); eauto.
    - naive_solver.
    - intros its vs _ Hm. apply (param_edge_match x t [] search); auto. }
  destruct t; auto.
  - destruct (findEdge _ _ _) as [[xn rec]|] eqn:Hf; [|done].
    apply findEdge_Some in Hf as [Hx _]. apply Hpairs in Hx as [Hx ->].
    destruct (has_prefix search (n_prefix xn)) eqn:Hpre; [|done]. apply has_prefix_drop in Hpre as Heq.
    destruct (wf_child _ _ _ Hwf Hx) as [[Hty _] _].
    apply (find_post_child n ntStatic xn _ _ (drop (length (n_prefix xn)) search));
      [done|done|done|exact Heq|]. unfold visit_pop.
    pose proof (visit_post xn (findRoute mt method xn) rctx (drop (length (n_prefix xn)) search)
                  (Hrec xn Hx)) as Hv.
    destruct (visit _ _ _ _ _ _) as [rctx' [m|]]; [done|]. by rewrite bool_decide_true.
  - simpl. rewrite <- (app_nil_r search) at 1. eapply (visit_pop_post n ntCatchAll); eauto.
    intros its vs [ep Hs] Hm.
    destruct (wf_child _ _ _ Hwf Hc0) as [(Hty & _ & _ & Hno) Hwc].
    destruct (decide (its = [])) as [->|Hne].
    + inversion Hm; subst. unfold edge_items. rewrite Hty. simpl. rewrite app_nil_r. constructor.
    + rewrite sem_no_head, lookup_empty in Hs; try done. intros t c. rewrite Hno.
      by intros ?%not_elem_of_nil.
Qed.

Lemma findRoute_unfold (n : node) rctx search :
  findRoute mt method n rctx search =
  match find_group mt method ntStatic (pairs (children n ntStatic)) rctx search with
  | (rctx, Some fin) => (rctx, Some fin)
  | (rctx, None) =>
      match find_group mt method ntRegexp (pairs (children n ntRegexp)) rctx search with
      | (rctx, Some fin) => (rctx, Some fin)
      | (rctx, None) =>
          match find_group mt method ntParam (pairs (children n ntParam)) rctx search with
          | (rctx, Some fin) => (rctx, Some fin)
          | (rctx, None) =>
              find_group mt method ntCatchAll (pairs (children n ntCatchAll)) rctx search
          end
      end
  end.
Proof. by destruct n. Qed.

(** What [findRoute] returns is registered, has a handler for the method, and
    its pattern matches the path with the values recorded; when nothing is
    found the parameters of the context are as before. *)
Lemma findRoute_post (n : node) rctx search :
  wf n → find_post (sem n) rctx search (findRoute mt method n rctx search).
Proof.
  intros Hwf. revert rctx search.
  induction Hwf as [n groups Hgr Hg Hk IH]. intros rctx search.
  assert (wf n) as Hwf by (by apply (wf_intro n groups)).
  assert (∀ t rctx, find_post (sem n) rctx search
            (find_group mt method t (pairs (children n t)) rctx search)) as Hpost.
  { intros t rctx'. apply find_group_post; [done|]. intros c Hc. rewrite Hgr in Hc. by eapply IH. }
  rewrite findRoute_unfold.
  pose proof (Hpost ntStatic rctx) as H1.
  destruct (find_group _ _ ntStatic _ _ _) as [c1 [m|]]; [done|]. eapply find_post_seq; [exact H1|].
  pose proof (Hpost ntRegexp c1) as H2.
  destruct (find_group _ _ ntRegexp _ _ _) as [c2 [m|]]; [done|]. eapply find_post_seq; [exact H2|].
  pose proof (Hpost ntParam c2) as H3.
  destruct (find_group _ _ ntParam _ _ _) as [c3 [m|]]; [done|]. eapply find_post_seq; [exact H3|].
  apply Hpost.
Qed.

(** * Completeness *)

(** A search that finds a node whatever the context. *)
Definition finds (rec : searcher) (search : gostring) : Prop :=
  ∀ rctx, ∃ rctx' m, rec rctx search = (rctx', Some m).

Lemma visit_finds (c : node) its ep search vs rctx :
  sem c its !! method = Some ep → is_Some (handler ep) → cmatch its search vs →
  (its ≠ [] → finds (findRoute mt method c) search) →
  ∃ rctx' m, visit mt method c (findRoute mt method c) rctx search = (rctx', Some m).
Proof.
  intros Hs Hh Hm Hrec. unfold visit. destruct (decide (its = [])) as [->|Hne].
  - inversion Hm; subst. simpl. rewrite sem_nil in Hs. unfold leaf_check.
    destruct (n_endpoints c) as [eps|]; simpl in Hs; [|done]. rewrite Hs.
    destruct ep as [[h|] pat acts keys]; [|by destruct Hh]. eauto.
  - destruct (if is_empty search then leaf_check _ _ _ _ else _) as [rctx' [|]]; [eauto|].
    by apply Hrec.
Qed.

Lemma param_loop_finds t cs (c : node) v rest its ep vs rctx :
  t = ntParam ∨ t = ntRegexp → c ∈ cs → child_ok t c →
  cut (n_tail c) v rest → (t = ntParam → "/"%char ∉ v) →
  (t = ntRegexp → v ≠ [] ∧ regexp_accepts (n_prefix c) v) →
  sem c its !! method = Some ep → is_Some (handler ep) → cmatch its rest vs →
  (its ≠ [] → finds (findRoute mt method c) rest) →
  ∃ rctx' m, param_loop mt t method (pairs cs) rctx (v ++ rest) = (rctx', Some m).
Proof.
  intros Ht Hin Hok Hcut Hpa Hre Hs Hh Hm Hrec. revert rctx.
  induction cs as [|c' cs IH]; [by apply not_elem_of_nil in Hin|]. intros rctx. simpl.
  apply elem_of_cons in Hin. destruct Hin as [<-|Hin].
  - rewrite (param_cut_complete c t v rest) by done.
    rewrite take_app_length, drop_app_length.
    destruct (visit_finds c its ep rest vs (push_value v rctx)) as (rctx' & m & ->); eauto.
  - destruct (param_cut t c' (v ++ rest)) as [p|]; [|by apply IH].
    destruct (visit _ _ _ _ _ _) as [rctx' [m|]]; [eauto|]. by apply IH.
Qed.

(** The binary search over a static group finds the edge of a byte. *)
Lemma findEdge_pairs (n : node) c :
  wf n → c ∈ children n ntStatic →
  findEdge (λ e, n_label e.1) (pairs (children n ntStatic)) (n_label c)
  = Some (c, findRoute mt method c).
Proof.
  intros Hwf Hc. destruct (proj1 (wf_unfold n) Hwf) as [Hg _].
  destruct (Hg ntStatic) as (Hf & _ & Hsort).
  destruct (findEdge_complete (λ e : node * searcher, n_label e.1) (pairs (children n ntStatic))
              (n_label c) (c, findRoute mt method c)) as ([x rec] & Hfe & Hl); try done.
  - unfold pairs. rewrite map_map. by apply Hsort.
  - apply list_elem_of_fmap. eauto.
  - rewrite Hfe. apply findEdge_Some in Hfe as [Hx _]. apply elem_of_pairs in Hx as [Hx ->].
    destruct (wf_head_inj n ntStatic ntStatic x c) as [_ ->]; try done.
    rewrite Forall_forall in Hf. unfold edge_head.
    rewrite (proj1 (Hf _ Hx)), (proj1 (Hf _ Hc)). simpl in Hl. congruence.
Qed.

(** The group of the edge that the items start with finds the rest. *)
Lemma find_group_finds (n : node) t c its ep search vs rctx :
  wf n → c ∈ children n t →
  sem c its !! method = Some ep → is_Some (handler ep) →
  cmatch (edge_items c ++ its) search vs →
  (∀ rest vs, its ≠ [] → cmatch its rest vs → finds (findRoute mt method c) rest) →
  ∃ rctx' m, find_group mt method t (pairs (children n t)) rctx search = (rctx', Some m).
Proof.
  intros Hwf Hc Hs Hh Hm Hrec. destruct (wf_child _ _ _ Hwf Hc) as [Hok Hwc].
  pose proof (proj1 Hok) as Hty. unfold edge_items in Hm. rewrite Hty in Hm. unfold find_group.
  destruct (pairs (children n t)) as [|[c0 rec0] es] eqn:Hp.
  { unfold pairs in Hp. apply map_eq_nil in Hp. rewrite Hp in Hc. by apply not_elem_of_nil in Hc. }
  cbv beta iota zeta. rewrite <- Hp. destruct t.
  - apply cmatch_chars_inv in Hm as (path & -> & Hm).
    pose proof Hok as (_ & Hhp & _).
    assert (default "000"%char (head (n_prefix c ++ path)) = n_label c) as ->.
    { destruct (n_prefix c); simplify_eq/=. done. }
    rewrite findEdge_pairs by done. rewrite has_prefix_app, drop_app_length. unfold visit_pop.
    destruct (visit_finds c its ep path vs rctx) as (rctx' & m & ->); eauto.
  - inversion Hm as [| | |? ? ? v rest vs' Hv Hcut Hacc Hm'|]; subst.
    destruct (param_loop_finds ntRegexp (children n ntRegexp) c v rest its ep vs' rctx)
      as (rctx' & m & ->); [auto|done|done|done|done|auto|done|done|done|eauto|].
    destruct v; [done|]. eauto.
  - inversion Hm as [| |? ? v rest vs' Hne Hcut Hsl Hm'| |]; subst.
    destruct (param_loop_finds ntParam (children n ntParam) c v rest its ep vs' rctx)
      as (rctx' & m & ->); [auto|done|done|done|done|done|done|done|done|eauto|].
    destruct (v ++ rest); [done|]. eauto.
  - destruct (proj1 (wf_unfold n) Hwf) as [Hg _]. destruct (Hg ntCatchAll) as (Hf & _ & _).
    assert (its = []) as -> by (by inversion Hm). simpl.
    destruct (elem_of_pairs (children n ntCatchAll) c0 rec0) as [Hc0 ->]; [rewrite Hp; left|].
    destruct (wf_head_inj n ntCatchAll ntCatchAll c0 c) as [_ ->]; try done.
    { destruct (wf_child _ _ _ Hwf Hc0) as [[Hty0 _] _]. unfold edge_head. by rewrite Hty, Hty0. }
    unfold visit_pop.
    destruct (visit_finds c [] ep [] [] (push_value search rctx)) as (rctx' & m & ->);
      [done|done|constructor|done|eauto].
Qed.

(** A path that matches a registered pattern canonically is found: by that
    route, or by one tried before it. *)
Lemma findRoute_finds (n : node) its ep search vs :
  wf n → its ≠ [] → sem n its !! method = Some ep → is_Some (handler ep) →
  cmatch its search vs → finds (findRoute mt method n) search.
Proof.
  intros Hwf. revert its search vs.
  induction Hwf as [n groups Hgr Hg Hk IH]. intros its search vs Hne Hs Hh Hm rctx.
  assert (wf n) as Hwf by (by apply (wf_intro n groups)).
  destruct (sem_inv n its Hwf Hne) as [(t & c & rest & Hc & -> & Heq)|[Hemp _]];
    [|by rewrite Hemp, lookup_empty in Hs].
  rewrite Heq in Hs.
  assert (∀ rctx, ∃ rctx' m, find_group mt method t (pairs (children n t)) rctx search = (rctx', Some m))
    as Hfind.
  { intros rctx'. eapply find_group_finds; eauto. intros rest' vs' Hne' Hm'.
    rewrite Hgr in Hc. eapply IH; eauto. }
  rewrite findRoute_unfold.
  destruct (find_group mt method ntStatic _ _ _) as [c1 [m1|]] eqn:E1; [eauto|].
  destruct (find_group mt method ntRegexp _ _ _) as [c2 [m2|]] eqn:E2; [eauto|].
  destruct (find_group mt method ntParam _ _ _) as [c3 [m3|]] eqn:E3; [eauto|].
  destruct t; [destruct (Hfind rctx)|destruct (Hfind c1)|destruct (Hfind c2)|apply Hfind];
    naive_solver congruence.
Qed.

(** * Static routes *)

(** A static route is what its own path finds, and nothing is captured. *)
Lemma findRoute_static (n : node) p ep rctx :
  wf n → p ≠ [] → sem n (chars p) !! method = Some ep → is_Some (handler ep) →
  ∃ m, findRoute mt method n rctx p = (add_keys (paramKeys ep) rctx, Some m)
       ∧ default ∅ (n_endpoints m) !! method = Some ep.
Proof.
  intros Hwf. revert p rctx.
  induction Hwf as [n groups Hgr Hg Hk IH]. intros p rctx Hne Hs Hh.
  assert (wf n) as Hwf by (by apply (wf_intro n groups)).
  destruct (sem_inv n (chars p) Hwf) as [(t & c & rest & Hc & Hits & Heq)|[Hemp _]];
    [by destruct p| |by rewrite Hemp, lookup_empty in Hs].
  destruct (wf_child _ _ _ Hwf Hc) as [Hok Hwc]. pose proof (proj1 Hok) as Hty.
  assert (t = ntStatic) as ->.
  { unfold edge_items in Hits. rewrite Hty in Hits. by destruct p, t. }
  assert (∃ q, p = n_prefix c ++ q ∧ rest = chars q) as (q & -> & ->).
  { unfold edge_items in Hits. rewrite Hty in Hits. by apply chars_app_inv. }
  rewrite Heq in Hs. rewrite findRoute_unfold. unfold find_group at 1.
  destruct (pairs (children n ntStatic)) as [|[c0 rec0] es] eqn:Hp.
  { unfold pairs in Hp. apply map_eq_nil in Hp. rewrite Hp in Hc. by apply not_elem_of_nil in Hc. }
  cbv beta iota zeta. rewrite <- Hp.
  assert (default "000"%char (head (n_prefix c ++ q)) = n_label c) as ->.
  { destruct Hok as (_ & Hhp & _). destruct (n_prefix c); simplify_eq/=. done. }
  rewrite findEdge_pairs by done. rewrite has_prefix_app, drop_app_length. unfold visit_pop, visit.
  destruct q as [|x q]; simpl.
  - rewrite sem_nil in Hs. unfold leaf_check. destruct (n_endpoints c) as [eps|] eqn:He; simpl in Hs; [|done].
    rewrite Hs. destruct ep as [[h|] pat acts keys]; [|by destruct Hh].
    exists c. by rewrite He.
  - rewrite Hgr in Hc. destruct (IH ntStatic c Hc (x :: q) rctx) as (m & -> & Hm); eauto.
Qed.
End Sound.
End Find.
