(* ===== verification/RouterMux.v ===== *)
(** The multiplexer (internal/platform/router/mux.go): registration and lookup
    of handlers by method and path.  Its specification is a finite table from
    (items of a pattern, method) to endpoints; the multiplexer refines it. *)
From S2P Require Import Prelude GoStrings RouterPattern RouterTree RouterInv RouterInsert RouterFind.

#[export] Instance item_countable : Countable item.
Proof.
  refine (inj_countable'
    (λ i, match i with
          | IChar c => (0, [c], "000"%char) | IRegexp r t => (1, r, t)
          | IParam t => (2, [], t) | ICatchAll => (3, [], "000"%char) end)
    (λ x, match x with
          | (0, [c], _) => IChar c | (1, r, t) => IRegexp r t
          | (2, _, t) => IParam t | _ => ICatchAll end) _).
  by intros [].
Defined.

(** * The method table *)

(** Every method has its own bit, and [mALL] is the union of the bits. *)
Definition table_ok (mt : method_table) : Prop :=
  let n := Z.of_nat (size (methodMap mt)) in
  (2 ≤ n ≤ 63)%Z ∧ mALL mt = (2 ^ (n + 1) - 2)%Z
  ∧ (∀ k m, methodMap mt !! k = Some m → ∃ i, (1 ≤ i ≤ n)%Z ∧ m = (2 ^ i)%Z)
  ∧ (∀ k k' m, methodMap mt !! k = Some m → methodMap mt !! k' = Some m → k = k').

Lemma default_methods_ok : table_ok default_methods.
Proof.
  set (L := map_to_list (methodMap default_methods)).
  assert (∀ k m, methodMap default_methods !! k = Some m → (k, m) ∈ L) as Hlk.
  { intros k m. apply elem_of_map_to_list. }
  split; [vm_compute; split; discriminate|]. split; [done|]. split.
  - assert (Forall (λ km, (1 ≤ Z.log2 km.2 ≤ 9)%Z ∧ km.2 = (2 ^ Z.log2 km.2)%Z) L) as HL
      by (apply (bool_decide_unpack _); vm_compute; exact I).
    intros k m Hk%Hlk. rewrite Forall_forall in HL. destruct (HL _ Hk). by exists (Z.log2 m).
  - assert (Forall (λ x, Forall (λ y, x.2 = y.2 → x.1 = y.1) L) L) as HL
      by (apply (bool_decide_unpack _); vm_compute; exact I).
    intros k k' m Hk%Hlk Hk'%Hlk. rewrite Forall_forall in HL. specialize (HL _ Hk).
    rewrite Forall_forall in HL. by apply (HL _ Hk').
Qed.

Lemma land_pow2_small a k : (0 < a < 2 ^ k)%Z → (0 ≤ k)%Z → Z.land a (2 ^ k) = 0%Z.
Proof.
  intros Ha Hk. apply Z.bits_inj'. intros i Hi.
  rewrite Z.land_spec, Z.pow2_bits_eqb, Z.bits_0 by done.
  destruct (Z.eqb_spec k i) as [<-|]; [|apply andb_false_r].
  rewrite Z.bits_above_log2; [done|lia|]. apply Z.log2_lt_pow2; lia.
Qed.

Lemma RegisterMethod_table_ok mt method :
  table_ok mt → table_ok (RegisterMethod mt method).1.
Proof.
  intros Hok. unfold RegisterMethod. case_match; [done|].
  destruct (methodMap mt !! to_upper method) as [m0|] eqn:Hm; [done|].
  destruct (Z.ltb_spec (64 - 2) (Z.of_nat (size (methodMap mt)))) as [|Hlt]; [done|].
  destruct Hok as (Hn & Hall & Hbits & Hinj). unfold table_ok. simpl.
  rewrite map_size_insert_None by done.
  set (n := Z.of_nat (size (methodMap mt))) in *.
  replace (Z.of_nat (S (size (methodMap mt)))) with (n + 1)%Z by lia.
  assert (Z.shiftl 2 n mod 2 ^ 64 = 2 ^ (n + 1))%Z as Hbit.
  { rewrite Z.shiftl_mul_pow2 by lia. rewrite Z.pow_add_r by lia. rewrite Z.mod_small; [lia|].
    split; [lia|]. replace (2 ^ 64)%Z with (2 * 2 ^ 63)%Z by done.
    apply Z.mul_lt_mono_pos_l; [lia|]. apply Z.pow_lt_mono_r; lia. }
  rewrite Hbit. split; [lia|]. split; [|split].
  - rewrite Hall. assert (2 ^ 2 ≤ 2 ^ (n + 1))%Z by (apply Z.pow_le_mono_r; lia).
    rewrite <- Z.lxor_lor, <- Z.add_nocarry_lxor.
    + rewrite (Z.pow_add_r 2 (n + 1) 1) by lia. lia.
    + apply land_pow2_small; lia.
    + apply land_pow2_small; lia.
  - intros k m. rewrite lookup_insert_Some. intros [[_ <-]|[_ Hk]].
    + exists (n + 1)%Z. split; [lia|done].
    + destruct (Hbits _ _ Hk) as (i & Hi & ->). exists i. split; [lia|done].
  - assert (∀ k, methodMap mt !! k ≠ Some (2 ^ (n + 1))%Z) as Hfresh.
    { intros k Hk. destruct (Hbits _ _ Hk) as (i & Hi & Heq).
      apply Z.pow_inj_r in Heq; lia. }
    intros k k' m. rewrite !lookup_insert_Some.
    intros [[<- <-]|[_ Hk]] [[<- Hk']|[_ Hk']]; naive_solver.
Qed.


(** A method of the table has one bit: it is neither the stub nor all methods. *)
Lemma table_bit mt k m :
  table_ok mt → methodMap mt !! k = Some m →
  (Z.land m mSTUB =? mSTUB)%Z = false ∧ (Z.land m (mALL mt) =? mALL mt)%Z = false.
Proof.
  intros (Hn & Hall & Hbits & _) Hk. destruct (Hbits _ _ Hk) as (i & Hi & ->). split.
  - unfold mSTUB. rewrite Z.land_comm, land_pow2_small; [done| |lia].
    split; [lia|]. change 1%Z with (2 ^ 0)%Z at 1. apply Z.pow_lt_mono_r; lia.
  - apply Z.eqb_neq. intros Heq. set (n := Z.of_nat (size (methodMap mt))) in *.
    assert (∀ j, (0 ≤ j < n)%Z → Z.testbit (mALL mt) (Z.succ j) = true) as Hbit.
    { intros j Hj. rewrite Hall.
      replace (2 ^ (n + 1) - 2)%Z with (2 * Z.ones n)%Z.
      - rewrite Z.testbit_even_succ by lia. apply Z.ones_spec_low. lia.
      - rewrite Z.ones_equiv, Z.pow_add_r by lia. lia. }
    pose proof (Hbit 0%Z ltac:(lia)) as H1. pose proof (Hbit 1%Z ltac:(lia)) as H2.
    rewrite <- Heq, Z.land_spec, Z.pow2_bits_eqb in H1, H2 by lia.
    apply andb_prop in H1 as [H1 _], H2 as [H2 _]. apply Z.eqb_eq in H1, H2. lia.
Qed.

Section Mux.
Context `{RegexpPkg} {Handler : Type}.
Notation node := (@node _ Handler).
Notation endpoint := (@endpoint Handler).

(** * The multiplexer *)

Record Mux := MkMux { tree : node }.

Definition NewMux : Mux := MkMux empty_node.

Definition handle (mt : method_table) (mx : Mux) (method : Z) (pat : gostring) (h : option Handler)
  : Mux * option route_error :=
  match pat with
  | "/"%char :: _ =>
      let '(t, oe) := InsertRoute mt (tree mx) method pat h in (MkMux t, oe)
  | _ => (mx, Some (ErrPatternSlash pat))
  end.

Definition handleWithActions (mt : method_table) (mx : Mux) (method : Z) (pat : gostring)
    (acts : option Actions) (h : option Handler) : Mux * option route_error :=
  match pat with
  | "/"%char :: _ =>
      let '(t, oe) := InsertRouteWithActions mt (tree mx) method pat acts h in (MkMux t, oe)
  | _ => (mx, Some (ErrPatternSlash pat))
  end.

Definition AddEndpoint (mt : method_table) (mx : Mux) (method pat : gostring) (h : option Handler)
  : Mux * option route_error :=
  match methodMap mt !! to_upper method with
  | None => (mx, Some (ErrMethodNotSupported method))
  | Some m => handle mt mx m pat h
  end.

Definition AddEndpointWithActions (mt : method_table) (mx : Mux) (method pat : gostring)
    (acts : option Actions) (h : option Handler) : Mux * option route_error :=
  match methodMap mt !! to_upper method with
  | None => (mx, Some (ErrMethodNotSupported method))
  | Some m => handleWithActions mt mx m pat acts h
  end.

Definition Routes (mt : method_table) (mx : Mux) : list (@Route Handler) := routes mt (tree mx).

(** [Find]; the branch for sub-routers is never taken since no node has them. *)
Definition Find (mt : method_table) (mx : Mux) (rctx : Context) (method path : gostring)
  : outcome (Context * option Handler) :=
  match methodMap mt !! method with
  | None => Ret (rctx, None)
  | Some m =>
      '(rctx, r) <-! FindRoute mt (tree mx) rctx m path ;;
      Ret (rctx, match r with Some (_, _, h) => h | None => None end)
  end.

Definition FindWithActions (mt : method_table) (mx : Mux) (rctx : Context) (method path : gostring)
  : outcome (Context * option Handler * option Actions) :=
  match methodMap mt !! method with
  | None => Ret (rctx, None, None)
  | Some m =>
      '(rctx, r) <-! FindRouteWithActions mt (tree mx) rctx m path ;;
      Ret (rctx, match r with Some (_, h, _) => h | None => None end,
           match r with Some (_, _, a) => a | None => None end)
  end.

(** [nextRoutePath]. *)
Definition nextRoutePath (rctx : Context) : gostring :=
  let keys := Keys (routeParams rctx) in
  match last keys, Values (routeParams rctx) !! (length keys - 1) with
  | Some k, Some v => if k =?s "*" then "/"%char :: v else "/"
  | _, _ => "/"
  end.

(** * The specification: a table of routes *)

Notation route_table := (gmap (list item * Z) endpoint).

(** One registration: method, pattern, actions, handler. *)
Record registration := Registration {
  reg_method : gostring; reg_pattern : gostring;
  reg_actions : option Actions; reg_handler : option Handler
}.

Definition compiles_b (i : item) : bool :=
  match i with IRegexp r _ => bool_decide (is_Some (regexp_Compile r)) | _ => true end.

(** The table after a registration; [None] is a refusal. *)
Definition spec_add (mt : method_table) (tbl : route_table) (rg : registration)
  : option route_table :=
  match methodMap mt !! to_upper (reg_method rg), reg_pattern rg with
  | Some m, "/"%char :: _ =>
      match items (reg_pattern rg), patParamKeys (reg_pattern rg) with
      | Ok its, Ok keys =>
          if forallb compiles_b its
          then Some (<[(its, m) := MkEndpoint (reg_handler rg) (reg_pattern rg) (reg_actions rg) keys]> tbl)
          else None
      | _, _ => None
      end
  | _, _ => None
  end.

Definition spec_run (mt : method_table) (regs : list registration) : route_table :=
  fold_left (λ tbl rg, default tbl (spec_add mt tbl rg)) regs ∅.

(** The multiplexer after a sequence of registrations, refused ones included. *)
Definition mux_add (mt : method_table) (mx : Mux) (rg : registration) : Mux * option route_error :=
  AddEndpointWithActions mt mx (reg_method rg) (reg_pattern rg) (reg_actions rg) (reg_handler rg).

Definition mux_run (mt : method_table) (regs : list registration) : Mux :=
  fold_left (λ mx rg, (mux_add mt mx rg).1) regs NewMux.

(** The refinement relation. *)
Definition refines (mx : Mux) (tbl : route_table) : Prop :=
  wf (tree mx) ∧ ∀ its m, sem (tree mx) its !! m = tbl !! (its, m).

(** What every entry of the table satisfies. *)
Definition entry_ok (its : list item) (ep : endpoint) : Prop :=
  items (pattern ep) = Ok its ∧ patParamKeys (pattern ep) = Ok (paramKeys ep)
  ∧ Forall compiles its ∧ its ≠ [].

(** * Refinement *)

Lemma compiles_b_spec its : forallb compiles_b its = true ↔ Forall compiles its.
Proof.
  induction its as [|i its IH]; simpl; [split; auto; constructor|].
  rewrite andb_true_iff, IH, Forall_cons. f_equiv.
  destruct i; simpl; try done. apply bool_decide_eq_true.
Qed.

(** Registration in the tree, for a method with a single bit. *)
Lemma insertRoute_post mt k m (n : node) pat acts h :
  table_ok mt → methodMap mt !! k = Some m → wf n →
  let r := insertRoute mt n m pat acts h in
  wf r.1 ∧
  match items pat, patParamKeys pat with
  | Ok its, Ok keys =>
      if forallb compiles_b its then
        r.2 = None ∧ ∀ js m', sem r.1 js !! m' =
          if decide ((js, m') = (its, m)) then Some (MkEndpoint h pat acts keys) else sem n js !! m'
      else is_Some r.2 ∧ ∀ js, sem r.1 js = sem n js
  | _, _ => is_Some r.2 ∧ ∀ js, sem r.1 js = sem n js
  end.
Proof.
  intros Hok Hk Hwf. destruct (table_bit mt k m Hok Hk) as [Hstub Hall].
  unfold insertRoute, setEndpoint. rewrite Hstub, Hall.
  destruct (patParamKeys pat) as [keys|e] eqn:Hkeys.
  - destruct (patParamKeys_items _ _ Hkeys) as [its Hits]. rewrite Hits.
    destruct (insertRoute_loop_post (λ eps, <[m := MkEndpoint h pat acts keys]> eps) None
                (S (length pat)) n pat Hwf ltac:(lia)) as (Hwf' & _ & Hor).
    unfold upd_endpoints in *. split; [exact Hwf'|].
    destruct Hor as [(its' & [Hits' Hc] & Hr & Hup)|(e & Hr & Hno & Hsem)].
    + assert (its' = its) as -> by congruence. rewrite (proj2 (compiles_b_spec its) Hc).
      split; [exact Hr|]. intros js m'. rewrite (Hup js).
      repeat case_decide; simplify_eq; try done.
      * by rewrite lookup_insert_eq.
      * rewrite lookup_insert_ne; [done|]. congruence.
    + destruct (forallb compiles_b its) eqn:Hc.
      * exfalso. apply (Hno its). split; [done|]. by apply compiles_b_spec.
      * split; [by rewrite Hr|exact Hsem].
  - destruct (insertRoute_loop_post (λ eps, eps) (Some e)
                (S (length pat)) n pat Hwf ltac:(lia)) as (Hwf' & _ & Hor).
    unfold upd_endpoints in *. split; [exact Hwf'|].
    assert (is_Some (insertRoute_loop (S (length pat)) n pat
              (λ n, (set_endpoints n (Some (default ∅ (n_endpoints n))), Some e))).2 ∧
            ∀ js, sem (insertRoute_loop (S (length pat)) n pat
              (λ n, (set_endpoints n (Some (default ∅ (n_endpoints n))), Some e))).1 js = sem n js)
      as Hgoal; [|by destruct (items pat)].
    destruct Hor as [(its' & _ & Hr & Hup)|(e' & Hr & _ & Hsem)].
    + split; [by rewrite Hr|]. intros js. rewrite (Hup js). by case_decide.
    + split; [by rewrite Hr|exact Hsem].
Qed.

Lemma mux_add_refines mt mx tbl rg :
  table_ok mt → refines mx tbl →
  refines (mux_add mt mx rg).1 (default tbl (spec_add mt tbl rg))
  ∧ ((mux_add mt mx rg).2 = None ↔ is_Some (spec_add mt tbl rg)).
Proof.
  intros Hok [Hwf Hsem]. unfold mux_add, AddEndpointWithActions, spec_add.
  destruct (methodMap mt !! to_upper (reg_method rg)) as [m|] eqn:Hm;
    [|by split; [|split; [|intros [? ?]]]].
  unfold handleWithActions, InsertRouteWithActions.
  destruct (reg_pattern rg) as [|c pat] eqn:Hpat; [by split; [|split; [|intros [? ?]]]|].
  destruct (decide (c = "/"%char)) as [->|Hc].
  - destruct (insertRoute_post mt _ m (tree mx) ("/"%char :: pat) (reg_actions rg) (reg_handler rg)
                Hok Hm Hwf) as [Hwf' Hpost].
    destruct (insertRoute _ _ _ _ _ _) as [t oe] eqn:Hins. simpl in Hwf', Hpost.
    destruct (items ("/"%char :: pat)) as [its|] eqn:Hits; simpl;
      [destruct (patParamKeys ("/"%char :: pat)) as [keys|] eqn:Hkeys; simpl;
        [destruct (forallb compiles_b its) eqn:Hcb|]|].
    2-4: destruct Hpost as [[? ->] Hs]; (split; [|by split; [|intros [? ?]]]);
      (split; [done|]); intros; simpl; by rewrite Hs.
    destruct Hpost as [-> Hs]. split; [|by split].
    split; [done|]. intros js m'. simpl. rewrite Hs. case_decide as E.
    + simplify_eq. by rewrite lookup_insert_eq.
    + by rewrite lookup_insert_ne, Hsem by congruence.
  - assert (∀ (A : Type) (x y : A), match c :: pat with "/"%char :: _ => x | _ => y end = y) as Hne.
    { intros. repeat (case_match; try done). }
    rewrite !Hne. by split; [|split; [|intros [? ?]]].
Qed.

Lemma NewMux_refines : refines NewMux ∅.
Proof.
  assert (@bare _ Handler empty_node) as Hb by (split; [done|by intros []]).
  split; [by apply bare_wf|]. intros its m. cbn [tree NewMux]. by rewrite (bare_sem _ its Hb).
Qed.

Lemma mux_run_snoc mt regs rg :
  mux_run mt (regs ++ [rg]) = (mux_add mt (mux_run mt regs) rg).1.
Proof. unfold mux_run. by rewrite fold_left_app. Qed.

Lemma spec_run_snoc mt regs rg :
  spec_run mt (regs ++ [rg]) = default (spec_run mt regs) (spec_add mt (spec_run mt regs) rg).
Proof. unfold spec_run. by rewrite fold_left_app. Qed.

Lemma mux_run_spec mt regs : table_ok mt → refines (mux_run mt regs) (spec_run mt regs).
Proof.
  intros Hok. induction regs as [|rg regs IH] using rev_ind; [apply NewMux_refines|].
  rewrite mux_run_snoc, spec_run_snoc. by apply mux_add_refines.
Qed.

Lemma spec_run_entries mt regs its m ep :
  spec_run mt regs !! (its, m) = Some ep → entry_ok its ep.
Proof.
  induction regs as [|rg regs IH] using rev_ind; [done|]. rewrite spec_run_snoc.
  unfold spec_add. destruct (methodMap mt !! _) as [m'|]; [|done].
  destruct (reg_pattern rg) as [|c pat] eqn:Hpat; [done|]. rewrite <- Hpat.
  assert (items (reg_pattern rg) = Ok [] → c ≠ "/"%char) as Hne.
  { rewrite Hpat. intros Hi ->. rewrite items_cons in Hi by done. by inv_bind Hi. }
  destruct (decide (c = "/"%char)) as [->|Hc].
  2:{ by destruct c as [[] [] [] [] [] [] [] []]. }
  destruct (items (reg_pattern rg)) as [its'|] eqn:Hi; [|done].
  destruct (patParamKeys (reg_pattern rg)) as [keys|] eqn:Hk; [|done].
  destruct (forallb compiles_b its') eqn:Hcb; [|done]. simpl.
  rewrite lookup_insert_Some. intros [[[= -> ->] <-]|[_ ?]]; [|auto].
  split; [done|]. split; [done|]. split; [by apply compiles_b_spec|]. naive_solver.
Qed.

(** * Lookup *)

(** The search of a multiplexer that refines a table of entries. *)
Lemma find_record_post mt mx tbl rctx m path :
  refines mx tbl → (∀ its ep, tbl !! (its, m) = Some ep → entry_ok its ep) →
  ∃ rctx' r, find_record mt (tree mx) rctx m path = Ret (rctx', r) ∧
  match r with
  | None => URLParams rctx' = URLParams rctx
  | Some (_, ep) =>
      ∃ its vs, tbl !! (its, m) = Some ep ∧ is_Some (handler ep) ∧ imatch its path vs
        ∧ URLParams rctx' = MkRouteParams (Keys (URLParams rctx) ++ paramKeys ep)
                              (Values (URLParams rctx) ++ vs)
        ∧ length vs = length (paramKeys ep)
  end.
Proof.
  intros [Hwf Hsem] Hent. unfold find_record.
  set (rctx0 := MkContext _ _ _ _ _ _ _).
  pose proof (findRoute_post mt m (tree mx) rctx0 path Hwf) as [Hfr Hr].
  destruct (findRoute _ _ _ _ _) as [rctx1 [rn|]]; simpl in *.
  - destruct Hr as (its & vs & ep & Hs & Hh & He & Hm & Hp). rewrite He.
    rewrite Hsem in Hs. destruct (Hent _ _ Hs) as (Hit & Hk & _ & _).
    destruct Hfr as (_ & Hup & _). simpl in Hup.
    assert (∃ rp rps, (if is_empty (pattern ep) then (routePattern rctx1, RoutePatterns rctx1)
              else (pattern ep, RoutePatterns rctx1 ++ [pattern ep])) = (rp, rps)) as (rp & rps & ->)
      by (case_match; eauto).
    eexists _, _. split; [done|]. simpl. exists its, vs.
    split; [done|]. split; [done|]. split; [done|]. rewrite Hp, Hup. split; [done|].
    rewrite (imatch_length _ _ _ Hm). symmetry. by eapply patParamKeys_length.
  - eexists _, _. split; [done|]. by destruct Hfr as (_ & Hup & _).
Qed.

(** An entry of the table is one of the registrations. *)
Lemma spec_run_registered mt regs its m ep :
  spec_run mt regs !! (its, m) = Some ep →
  ∃ rg, rg ∈ regs ∧ handler ep = reg_handler rg ∧ actions ep = reg_actions rg
    ∧ pattern ep = reg_pattern rg ∧ methodMap mt !! to_upper (reg_method rg) = Some m.
Proof.
  induction regs as [|rg regs IH] using rev_ind; [done|]. rewrite spec_run_snoc.
  setoid_rewrite elem_of_app. unfold spec_add.
  destruct (methodMap mt !! to_upper (reg_method rg)) as [m'|] eqn:Hm; [|intros (? & ? & ?)%IH; eauto].
  intros Hl.
  assert (spec_run mt regs !! (its, m) = Some ep
          ∨ ∃ keys, m' = m ∧ ep = MkEndpoint (reg_handler rg) (reg_pattern rg) (reg_actions rg) keys) as [Ho|Ho].
  { revert Hl. repeat case_match; simpl; auto. rewrite lookup_insert_Some.
    intros [[[= -> ->] <-]|[_ ?]]; eauto. }
  - destruct (IH Ho) as (rg' & ? & ?). eauto.
  - destruct Ho as (keys & -> & ->). exists rg. split; [right; by apply list_elem_of_singleton|].
    by split_and!.
Qed.

(** A context whose parameters are those of a pattern, with the values that a path
    gives them. *)
Definition captured (pattern path : gostring) (keys vs : list gostring) (rctx : Context) : Prop :=
  ∃ its, items pattern = Ok its ∧ imatch its path vs
    ∧ patParamKeys pattern = Ok keys ∧ length keys = length vs
    ∧ URLParams rctx = MkRouteParams keys vs.

(** The search with actions: it returns, and a handler it finds comes from a
    registration for the method whose pattern matches the path; the context has the
    parameters of the pattern. *)
Lemma FindWithActions_registered mt regs method path :
  table_ok mt →
  ∃ rctx h a, FindWithActions mt (mux_run mt regs) NewRouteContext method path = Ret (rctx, h, a) ∧
  match h with
  | None => a = None
  | Some h =>
      ∃ rg m keys vs, rg ∈ regs ∧ reg_handler rg = Some h ∧ reg_actions rg = a
        ∧ methodMap mt !! method = Some m ∧ methodMap mt !! to_upper (reg_method rg) = Some m
        ∧ captured (reg_pattern rg) path keys vs rctx
  end.
Proof.
  intros Hok. unfold FindWithActions, FindRouteWithActions.
  destruct (methodMap mt !! method) as [m|]; [|by eexists _, None, None].
  destruct (find_record_post mt _ _ NewRouteContext m path (mux_run_spec mt regs Hok)
              (λ its, spec_run_entries mt regs its m)) as (rctx1 & r & -> & Hr). simpl.
  destruct r as [[rn ep]|]; simpl; [|by eexists _, None, None].
  destruct Hr as (its & vs & Ht & [h Hh] & Hm & Hu & Hl). rewrite Hh.
  destruct (spec_run_registered _ _ _ _ _ Ht) as (rg & Hin & Hrh & Hra & Hrp & Hmm).
  destruct (spec_run_entries _ _ _ _ _ Ht) as (Hi & Hk & _).
  eexists _, _, _. split; [done|]. exists rg, m, (paramKeys ep), vs. rewrite <- Hrh, <- Hra, <- Hrp.
  split_and!; [done..|]. by exists its.
Qed.

(** The search without actions, likewise. *)
Lemma Find_registered mt regs method path :
  table_ok mt →
  ∃ rctx h, Find mt (mux_run mt regs) NewRouteContext method path = Ret (rctx, h) ∧
  ∀ h', h = Some h' →
    ∃ rg m keys vs, rg ∈ regs ∧ reg_handler rg = Some h'
      ∧ methodMap mt !! method = Some m ∧ methodMap mt !! to_upper (reg_method rg) = Some m
      ∧ captured (reg_pattern rg) path keys vs rctx.
Proof.
  intros Hok. destruct (FindWithActions_registered mt regs method path Hok) as (rctx & h & a & Hf & Hh).
  exists rctx, h. split.
  - revert Hf. unfold Find, FindWithActions, FindRoute, FindRouteWithActions.
    destruct (methodMap mt !! method) as [m|]; [|by intros [= <- <- _]].
    destruct (find_record _ _ _ _ _) as [[rctx1 [[rn ep]|]]|]; simpl; [|by intros [= <- <- _]|done].
    by intros [= <- <- _].
  - intros h' ->. destruct Hh as (rg & m & keys & vs & ? & ? & _ & ?). eauto 10.
Qed.

(** The parameters of a context as [AllURLParams] reads them. *)
Lemma AllURLParams_loop_balanced keys vals params :
  length keys = length vals →
  AllURLParams_loop keys vals params = Ret (list_to_map (reverse (zip keys vals)) ∪ params).
Proof.
  revert vals params; induction keys as [|k keys IH]; intros [|v vals] params Hlen; simplify_eq/=.
  - by rewrite (left_id_L ∅ (∪)).
  - rewrite IH by done. f_equal. rewrite reverse_cons, list_to_map_app. simpl.
    rewrite <- (assoc_L (∪)). f_equal. by rewrite insert_union_singleton_l, insert_empty.
Qed.

Lemma captured_params pattern path keys vs rctx :
  captured pattern path keys vs rctx → AllURLParams (Some rctx) = Ret (Some (list_to_map (zip keys vs))).
Proof.
  intros (its & _ & _ & Hk & Hl & Hu). unfold AllURLParams. rewrite Hu. cbn [Keys Values].
  rewrite AllURLParams_loop_balanced by done. cbn [obind]. rewrite (right_id_L ∅ (∪)). do 2 f_equal.
  apply list_to_map_proper; [|apply reverse_Permutation].
  rewrite fmap_reverse, fst_zip by lia. rewrite (reverse_Permutation keys). by eapply patParamKeys_NoDup.
Qed.
End Mux.
