(* ===== verification/RouterSpec.v ===== *)
(** The properties of the router: refinement of the table of routes, soundness
    and completeness of lookup, static routes, and the safety of the recorded
    parameters; with a concrete router for the witnesses. *)
From S2P Require Import Prelude GoStrings RouterPattern RouterTree RouterInv RouterInsert RouterFind RouterMux.

Section Spec.
Context `{RegexpPkg} {Handler : Type}.
Notation endpoint := (@endpoint Handler).

(** C1: after any sequence of registrations, refused ones included, the radix
    tree satisfies its invariant and stands for exactly the table of routes
    the accepted registrations build; a registration is refused exactly when
    the method is unknown, the pattern does not start with '/', does not
    parse, repeats a parameter or has a regexp that does not compile. *)
Theorem mux_run_refines (mt : method_table) (regs : list (@registration Handler)) :
  table_ok mt →
  refines (mux_run mt regs) (spec_run mt regs)
  ∧ ∀ rg, (mux_add mt (mux_run mt regs) rg).2 = None
          ↔ is_Some (spec_add mt (spec_run mt regs) rg).
Proof.
  intros Hok. pose proof (mux_run_spec mt regs Hok) as Hr.
  split; [done|]. intros rg. by apply mux_add_refines.
Qed.

(** C9: a handler returned by [Find] is registered for the method under a
    pattern that matches the path; the parameters added to the context are the
    keys of that pattern with the values captured, one for each key, and a
    non-empty value of a regexp parameter is accepted by the regexp. *)
Theorem Find_sound mt (regs : list (@registration Handler)) rctx method path rctx' h :
  table_ok mt →
  Find mt (mux_run mt regs) rctx method path = Ret (rctx', Some h) →
  ∃ m its vs ep,
    methodMap mt !! method = Some m ∧ spec_run mt regs !! (its, m) = Some ep
    ∧ handler ep = Some h ∧ items (pattern ep) = Ok its ∧ imatch its path vs
    ∧ URLParams rctx' = MkRouteParams (Keys (URLParams rctx) ++ paramKeys ep)
                          (Values (URLParams rctx) ++ vs)
    ∧ length vs = length (paramKeys ep) ∧ NoDup (paramKeys ep).
Proof.
  intros Hok. unfold Find, FindRoute. destruct (methodMap mt !! method) as [m|]; [|discriminate].
  destruct (find_record_post mt _ _ rctx m path (mux_run_spec mt regs Hok)
              (λ its, spec_run_entries mt regs its m)) as (rctx1 & r & -> & Hr). simpl.
  destruct r as [[rn ep]|]; simpl; [|discriminate]. intros [= <- Hh].
  destruct Hr as (its & vs & Ht & _ & Hm & Hu & Hl).
  destruct (spec_run_entries _ _ _ _ _ Ht) as (Hi & Hk & _).
  exists m, its, vs, ep. repeat split; eauto with apifw.
Qed.

(** C12: a path that matches a registered pattern of the method canonically
    (each parameter's value cut at its tail, without '/', and for a regexp
    non-empty and accepted) finds a handler, in any context. *)
Theorem Find_complete mt (regs : list (@registration Handler)) rctx method m its ep path vs :
  table_ok mt → methodMap mt !! method = Some m →
  spec_run mt regs !! (its, m) = Some ep → is_Some (handler ep) → cmatch its path vs →
  ∃ rctx' h, Find mt (mux_run mt regs) rctx method path = Ret (rctx', Some h).
Proof.
  intros Hok Hm Ht Hh Hc. destruct (mux_run_spec mt regs Hok) as [Hwf Hsem].
  destruct (spec_run_entries _ _ _ _ _ Ht) as (_ & _ & _ & Hne).
  destruct (find_record_post mt _ _ rctx m path (conj Hwf Hsem)
              (λ its, spec_run_entries mt regs its m)) as (rctx1 & r & Hf & Hr).
  unfold Find, FindRoute. rewrite Hm, Hf. simpl.
  destruct r as [[rn ep']|]; simpl.
  - destruct Hr as (its' & vs' & _ & [h ->] & _). eauto.
  - exfalso. unfold find_record in Hf.
    edestruct (findRoute_finds mt m (tree (mux_run mt regs)) its ep path vs) as (c & n & E);
      [done|done|by rewrite Hsem|done|done|].
    rewrite E in Hf. repeat case_match; simplify_eq.
Qed.

(** C25: a static pattern is found by its own path with its own handler and
    actions and without parameters, whatever parameters, regexps or catch-all
    routes are registered beside it. *)
Theorem FindWithActions_static mt (regs : list (@registration Handler)) method m p ep :
  table_ok mt → methodMap mt !! method = Some m → static_pat p →
  spec_run mt regs !! (chars p, m) = Some ep → is_Some (handler ep) →
  ∃ rctx', FindWithActions mt (mux_run mt regs) NewRouteContext method p
           = Ret (rctx', handler ep, actions ep)
           ∧ URLParams rctx' = MkRouteParams [] [] ∧ methodNotAllowed rctx' = false.
Proof.
  intros Hok Hm Hp Ht Hh. destruct (mux_run_spec mt regs Hok) as [Hwf Hsem].
  destruct (spec_run_entries _ _ _ _ _ Ht) as (Hi & Hk & _ & Hne).
  unfold FindWithActions, FindRouteWithActions, find_record. rewrite Hm.
  set (rctx0 := MkContext _ _ _ _ _ _ _).
  destruct (findRoute_static mt m (tree (mux_run mt regs)) p ep rctx0)
    as (n & -> & He); [done|by destruct p|by rewrite Hsem|done|]. rewrite He. simpl.
  assert (paramKeys ep = []) as ->.
  { apply nil_length_inv. rewrite (patParamKeys_length _ _ _ Hk Hi).
    clear. induction p as [|c p IH]; [done|]. simpl. by rewrite filter_cons_False. }
  case_match; eexists; split; try done; split; done.
Qed.

(** [Find] never panics, and on a context whose parameters are balanced
    (each key has a value) it leaves them balanced, so that [AllURLParams]
    does not index out of range and returns the recorded pairs. *)
Theorem Find_params_safe mt (regs : list (@registration Handler)) rctx method path :
  table_ok mt → length (Keys (URLParams rctx)) = length (Values (URLParams rctx)) →
  ∃ rctx' h, Find mt (mux_run mt regs) rctx method path = Ret (rctx', h)
    ∧ length (Keys (URLParams rctx')) = length (Values (URLParams rctx'))
    ∧ AllURLParams (Some rctx')
      = Ret (Some (list_to_map (reverse (zip (Keys (URLParams rctx')) (Values (URLParams rctx')))))).
Proof.
  intros Hok Hbal.
  assert (∃ rctx' h, Find mt (mux_run mt regs) rctx method path = Ret (rctx', h)
    ∧ length (Keys (URLParams rctx')) = length (Values (URLParams rctx'))) as (rctx' & h & Hf & Hb).
  { unfold Find, FindRoute. destruct (methodMap mt !! method) as [m|]; [|eauto].
    destruct (find_record_post mt _ _ rctx m path (mux_run_spec mt regs Hok)
                (λ its, spec_run_entries mt regs its m)) as (rctx1 & r & -> & Hr). simpl.
    destruct r as [[rn ep]|]; eexists _, _; (split; [done|]); simpl.
    - destruct Hr as (its & vs & _ & _ & _ & -> & Hl). simpl. rewrite !length_app. lia.
    - by rewrite Hr. }
  exists rctx', h. split; [done|]. split; [done|]. simpl.
  rewrite AllURLParams_loop_balanced by done. simpl. by rewrite (right_id_L ∅ (∪)).
Qed.
End Spec.

(** Registering methods keeps the table's invariant: every method has a
    bit of its own below 2^64, and [mALL] is the union of the bits. *)
Theorem RegisterMethod_ok (methods : list gostring) :
  table_ok (fold_left (λ mt m, (RegisterMethod mt m).1) methods default_methods).
Proof.
  generalize default_methods, default_methods_ok.
  induction methods as [|m methods IH]; intros mt Hok; simpl; [done|].
  by apply IH, RegisterMethod_table_ok.
Qed.

(** * A concrete router *)

(** A regexp package that knows the one pattern [^[0-9]+$]. *)
Definition digits_regexp : RegexpPkg := {|
  regex := unit;
  regexp_Compile p := if p =?s "^[0-9]+$" then Some () else None;
  regexp_MatchString _ s := negb (is_empty s) && forallb is_digit s
|}.

Definition sample_regs : list (@registration nat) :=
  [ Registration "GET" "/users/{id}" None (Some 1);
    Registration "get" "/users/me" (Some (MkActions "block" "log_only")) (Some 2);
    Registration "GET" "/orders/{n:[0-9]+}/items" None (Some 3);
    Registration "GET" "/files/*" None (Some 4);
    Registration "GET" "/users/{id}/{id}" None (Some 5);
    Registration "PUT" "/users/{name}" None (Some 6) ].

(** The search of a pattern that is registered finds it and reports an error. *)
Lemma pattern_found_with_error :
  findPattern (tree (mux_run (H := digits_regexp) default_methods sample_regs)) "/users/me"
  = Ret (true, unknown_node_type).
Proof. by vm_compute. Qed.

Lemma mux_run_refines_witness :
  refines (mux_run (H := digits_regexp) default_methods sample_regs)
    (spec_run (H := digits_regexp) default_methods sample_regs)
  ∧ size (spec_run (H := digits_regexp) default_methods sample_regs) = 5.
Proof.
  split; [|by vm_compute].
  apply (mux_run_refines (H := digits_regexp) default_methods sample_regs), default_methods_ok.
Defined.

Lemma Find_sound_witness :
  ∃ m its vs ep, methodMap default_methods !! str "GET" = Some m
    ∧ spec_run (H := digits_regexp) default_methods sample_regs !! (its, m) = Some ep
    ∧ handler ep = Some 3 ∧ imatch (H := digits_regexp) its "/orders/42/items" vs.
Proof.
  destruct (Find_sound (H := digits_regexp) default_methods sample_regs NewRouteContext "GET"
              "/orders/42/items" (MkContext [] (MkRouteParams [str "n"] [str "42"])
                 (MkRouteParams [str "n"] [str "42"]) "/orders/{n:[0-9]+}/items"
                 [str "/orders/{n:[0-9]+}/items"] false []) 3)
    as (m & its & vs & ep & Hm & Ht & Hh & _ & Hi & _);
    [apply default_methods_ok|vm_compute; reflexivity|eauto 10].
Defined.

Lemma Find_complete_witness :
  ∃ rctx' h, Find (H := digits_regexp) default_methods (mux_run (H := digits_regexp) default_methods sample_regs)
               NewRouteContext "GET" "/users/7" = Ret (rctx', Some h).
Proof.
  eapply (Find_complete (H := digits_regexp) default_methods sample_regs NewRouteContext "GET"
            mGET (chars "/users/" ++ [IParam "/"]) _ "/users/7" [str "7"]);
    [apply default_methods_ok|vm_compute; reflexivity|vm_compute; reflexivity|by eexists|].
  simpl. repeat apply cm_char.
  apply (cm_param (H := digits_regexp) "/"%char [] ["7"%char] [] []); [done| | |constructor].
  - split; [|by right]. by apply (bool_decide_unpack _).
  - by apply (bool_decide_unpack _).
Defined.

Lemma FindWithActions_static_witness :
  ∃ rctx', FindWithActions (H := digits_regexp) default_methods
             (mux_run (H := digits_regexp) default_methods sample_regs)
             NewRouteContext "GET" "/users/me"
           = Ret (rctx', Some 2, Some (MkActions "block" "log_only"))
           ∧ URLParams rctx' = MkRouteParams [] [] ∧ methodNotAllowed rctx' = false.
Proof.
  apply (FindWithActions_static (H := digits_regexp) default_methods sample_regs "GET" mGET
           "/users/me" (MkEndpoint (Some 2) "/users/me" (Some (MkActions "block" "log_only")) []));
    [apply default_methods_ok|vm_compute; reflexivity| |vm_compute; reflexivity|by eexists].
  by apply (bool_decide_unpack _).
Defined.

Lemma Find_params_safe_witness :
  ∃ rctx' h, Find (H := digits_regexp) default_methods
               (mux_run (H := digits_regexp) default_methods sample_regs)
               NewRouteContext "PUT" "/users/bob" = Ret (rctx', h)
    ∧ length (Keys (URLParams rctx')) = length (Values (URLParams rctx')).
Proof.
  destruct (Find_params_safe (H := digits_regexp) default_methods sample_regs NewRouteContext
              "PUT" "/users/bob" default_methods_ok eq_refl) as (c & h & Hf & Hb & _).
  eauto.
Defined.

(** A path with an empty segment reaches a regexp route although the regexp
    does not accept the empty string: after the loop over the regexp nodes the
    last of them is visited with the value "". *)
Example regexp_param_empty :
  let regs := [Registration "GET" "/{id:[0-9]+}/x" None (Some 1)] in
  regexp_MatchString (RegexpPkg := digits_regexp) () [] = false ∧
  match Find (H := digits_regexp) default_methods (mux_run (H := digits_regexp) default_methods regs)
          NewRouteContext "GET" "//x" with
  | Ret (rctx, h) => h = Some 1 ∧ Context_URLParam rctx "id" = Ret []
  | Panic => False
  end.
Proof. vm_compute. done. Qed.

(** A refused registration leaves a leaf without endpoints: the path is then
    reported as known for other methods. *)
Example refused_registration_leaf :
  let mx := mux_run (H := digits_regexp) default_methods
              [Registration "GET" "/{a}/{a}" None (Some 1)] in
  (mux_add (H := digits_regexp) default_methods NewMux
     (Registration "GET" "/{a}/{a}" None (Some 1))).2 = Some (ErrDuplicateKey "/{a}/{a}" "a") ∧
  match Find (H := digits_regexp) default_methods mx NewRouteContext "GET" "/x/y" with
  | Ret (rctx, h) => h = None ∧ methodNotAllowed rctx = true
  | Panic => False
  end.
Proof. vm_compute. done. Qed.
