(* ===== verification/Values.v ===== *)
(** Data shared by the validator (internal/platform/validator): dynamically
    typed values ([any]), parse errors, the part of an OpenAPI schema the
    decoders read, and the operations on [map[string]any].

    Schemas are trees: references are resolved, and a recursive schema stands
    for its unfolding. *)
From S2P Require Import Prelude GoStrings.

(** The floating-point part of strconv, and [==] on float64. *)
Class FloatPkg := {
  float64 : Type;
  ParseFloat : gostring → result num_error float64;
  float_eqb : float64 → float64 → bool
}.

(** The methods of kin-openapi's [Types] (a possibly nil list of type names)
    that the sources call, with their documented behaviour. *)
Class TypesPkg := {
  types_Is : option (list gostring) → gostring → bool;
  types_Slice : option (list gostring) → list gostring;
  types_Permits : option (list gostring) → gostring → bool;
  types_Is_spec t ty : types_Is t ty = true ↔ t = Some [ty];
  types_Slice_spec t : types_Slice t = default [] t
}.

(** The methods as kin-openapi documents them. *)
#[export] Instance default_types : TypesPkg.
Proof.
  refine {|
    types_Is t ty := bool_decide (t = Some [ty]);
    types_Slice t := default [] t;
    types_Permits t ty := match t with None => true | Some l => bool_decide (ty ∈ l) end
  |}.
  - intros. apply bool_decide_eq_true.
  - done.
Defined.

(** * Schemas *)

(** [openapi3.Schema], the fields the modelled code reads. *)
Inductive schema := MkSchema
  (sc_Type : option (list gostring)) (sc_Format sc_Pattern : gostring)
  (sc_Items : option schema)
  (sc_Properties : list (gostring * schema))
  (sc_AdditionalHas : option bool) (sc_AdditionalSchema : option schema)
  (sc_AllOf sc_AnyOf sc_OneOf : list schema)
  (sc_Not : option schema)
  (sc_Required : list gostring).

Definition s_Type (s : schema) := let 'MkSchema t _ _ _ _ _ _ _ _ _ _ _ := s in t.
Definition s_Format (s : schema) := let 'MkSchema _ f _ _ _ _ _ _ _ _ _ _ := s in f.
Definition s_Pattern (s : schema) := let 'MkSchema _ _ p _ _ _ _ _ _ _ _ _ := s in p.
Definition s_Items (s : schema) := let 'MkSchema _ _ _ i _ _ _ _ _ _ _ _ := s in i.
Definition s_Properties (s : schema) := let 'MkSchema _ _ _ _ p _ _ _ _ _ _ _ := s in p.
Definition s_AdditionalHas (s : schema) := let 'MkSchema _ _ _ _ _ h _ _ _ _ _ _ := s in h.
Definition s_AdditionalSchema (s : schema) := let 'MkSchema _ _ _ _ _ _ a _ _ _ _ _ := s in a.
Definition s_AllOf (s : schema) := let 'MkSchema _ _ _ _ _ _ _ a _ _ _ _ := s in a.
Definition s_AnyOf (s : schema) := let 'MkSchema _ _ _ _ _ _ _ _ a _ _ _ := s in a.
Definition s_OneOf (s : schema) := let 'MkSchema _ _ _ _ _ _ _ _ _ o _ _ := s in o.
Definition s_Not (s : schema) := let 'MkSchema _ _ _ _ _ _ _ _ _ _ n _ := s in n.
Definition s_Required (s : schema) := let 'MkSchema _ _ _ _ _ _ _ _ _ _ _ r := s in r.

(** A schema with a type and a format only. *)
Definition type_schema (ty format : gostring) : schema :=
  MkSchema (Some [ty]) format [] None [] None None [] [] [] None [].
Definition array_schema (items : schema) : schema :=
  MkSchema (Some [str "array"]) [] [] (Some items) [] None None [] [] [] None [].
Definition object_schema (props : list (gostring * schema)) : schema :=
  MkSchema (Some [str "object"]) [] [] None props None None [] [] [] None [].

(** [openapi3.SerializationMethod]. *)
Record SerializationMethod := MkSM { sm_Style : gostring; sm_Explode : bool }.

(** * Maps *)

Section Assoc.
Context {A : Type}.
Implicit Types (m : list (gostring * A)).

(** A Go map is an association list with at most one entry for a key; the order
    of the list stands for the iteration order. *)
Fixpoint obj_get (k : gostring) m : option A :=
  match m with
  | [] => None
  | (k', v) :: m' => if k =?s k' then Some v else obj_get k m'
  end.

Fixpoint obj_set (k : gostring) (v : A) m : list (gostring * A) :=
  match m with
  | [] => [(k, v)]
  | (k', v') :: m' => if k =?s k' then (k', v) :: m' else (k', v') :: obj_set k v m'
  end.

Lemma obj_get_set k k' v m :
  obj_get k (obj_set k' v m) = if k =?s k' then Some v else obj_get k m.
Proof.
  induction m as [|[k1 v1] m IH]; simpl; [done|].
  destruct (k' =?s k1) eqn:E1; simpl.
  - apply eqb_str_true in E1 as ->. by destruct (k =?s k1).
  - rewrite IH. destruct (k =?s k1) eqn:E2; [|done]. apply eqb_str_true in E2 as ->.
    destruct (k1 =?s k') eqn:E3; [|done]. apply eqb_str_true in E3 as ->.
    by rewrite eqb_str_refl in E1.
Qed.

Lemma obj_get_set_eq k v m : obj_get k (obj_set k v m) = Some v.
Proof. by rewrite obj_get_set, eqb_str_refl. Qed.

Lemma obj_get_set_ne k k' v m : k ≠ k' → obj_get k (obj_set k' v m) = obj_get k m.
Proof. intros H%eqb_str_false. by rewrite obj_get_set, H. Qed.

Lemma obj_get_elem k m : is_Some (obj_get k m) ↔ k ∈ m.*1.
Proof.
  induction m as [|[k1 v1] m IH]; simpl.
  - rewrite is_Some_alt, elem_of_nil. done.
  - rewrite elem_of_cons. destruct (k =?s k1) eqn:E.
    + apply eqb_str_true in E as ->. split; [auto|eauto].
    + apply eqb_str_false in E. rewrite IH. naive_solver.
Qed.

Lemma obj_set_keys k v m : k ∈ m.*1 → (obj_set k v m).*1 = m.*1.
Proof.
  induction m as [|[k1 v1] m IH]; [by intros ?%not_elem_of_nil|]. cbn [obj_set].
  rewrite fmap_cons, elem_of_cons. destruct (k =?s k1) eqn:E; [done|].
  apply eqb_str_false in E. intros [?|?]; [done|]. rewrite fmap_cons. by rewrite IH.
Qed.

Lemma obj_set_keys_new k v m : k ∉ m.*1 → obj_set k v m = m ++ [(k, v)].
Proof.
  induction m as [|[k1 v1] m IH]; simpl; [done|]. rewrite elem_of_cons.
  intros Hn. destruct (k =?s k1) eqn:E; [apply eqb_str_true in E; naive_solver|].
  by rewrite IH by naive_solver.
Qed.

Lemma obj_set_NoDup k v m : NoDup m.*1 → NoDup (obj_set k v m).*1.
Proof.
  intros Hnd. destruct (decide (k ∈ m.*1)) as [Hin|Hn].
  - by rewrite obj_set_keys.
  - rewrite obj_set_keys_new, fmap_app by done. apply NoDup_app. split; [done|].
    split; [|apply NoDup_singleton]. simpl. set_solver.
Qed.

(** The map built by inserting pairs with distinct keys is the list of pairs. *)
Lemma obj_set_fold m m0 :
  NoDup (m0 ++ m).*1 → fold_left (λ acc kv, obj_set kv.1 kv.2 acc) m m0 = m0 ++ m.
Proof.
  revert m0. induction m as [|[k v] m IH]; intros m0 Hnd; simpl; [by rewrite app_nil_r|].
  rewrite obj_set_keys_new.
  - rewrite IH, <- app_assoc by (by rewrite <- app_assoc). done.
  - rewrite fmap_app in Hnd. simpl in Hnd. apply NoDup_app in Hnd as (_ & Hd & _).
    intros Hin. apply (Hd _ Hin). left.
Qed.
End Assoc.

(** * Values *)

Section Values.
Context `{FloatPkg}.

(** The dynamic values ([any]) the decoders build.  A nil [map[string]any] and
    a nil [[]any] stored in an [any] are not the nil interface. *)
Inductive value :=
| VNil
| VNilMap
| VNilArr
| VStr (s : gostring)
| VInt32 (z : Z)
| VInt64 (z : Z)
| VFloat (f : float64)
| VBool (b : bool)
| VNumber (s : gostring)
| VArr (l : list value)
| VObj (m : list (gostring * value)).

(** [v == nil] on the interface. *)
Definition is_nil (v : value) : bool := match v with VNil => true | _ => false end.

(** [isNilValue]. *)
Definition isNilValue (v : value) : bool :=
  match v with VNil | VNilMap | VNilArr => true | _ => false end.

(** [reflect.DeepEqual], for [isEqual]. *)
Fixpoint isEqual (v1 v2 : value) {struct v1} : bool :=
  match v1, v2 with
  | VNil, VNil | VNilMap, VNilMap | VNilArr, VNilArr => true
  | VStr a, VStr b | VNumber a, VNumber b => a =?s b
  | VInt32 a, VInt32 b | VInt64 a, VInt64 b => (a =? b)%Z
  | VFloat a, VFloat b => float_eqb a b
  | VBool a, VBool b => Bool.eqb a b
  | VArr a, VArr b =>
      (fix go (l1 l2 : list value) :=
         match l1, l2 with
         | [], [] => true
         | x :: l1', y :: l2' => isEqual x y && go l1' l2'
         | _, _ => false
         end) a b
  | VObj a, VObj b =>
      Nat.eqb (length a) (length b) &&
      (fix go (l1 : list (gostring * value)) :=
         match l1 with
         | [] => true
         | (k, x) :: l1' =>
             match obj_get k b with Some y => isEqual x y && go l1' | None => false end
         end) a
  | _, _ => false
  end.

(** [ParseErrorKind]. *)
Inductive ParseErrorKind := KindOther | KindUnsupportedFormat | KindInvalidFormat.

(** The reasons the errors carry; the arguments are those of the message. *)
Inductive reason :=
| RNone
| RPrefix (prefix : gostring)
| RProps (valueDelim propDelim : gostring)
| RArrayIndexes
| RSliceMap (key : gostring) (e : num_error)
| RInvalidObject
| RNotPrimitive
| RInvalid (typ : gostring)
| RNonPrimitiveType (typ : gostring)
| RUnsupportedCT (mediaType : gostring).

(** What [defaultContentParameterDecoder] refuses. *)
Inductive content_error := CMultipleValues (loc : gostring) | CNoContent | CManyTypes | CNoSchema.

(** The prefixes of the errors wrapped by [fmt.Errorf]. *)
Inductive label := LItem (i : gostring) | LProperty (path : gostring) | LPart (name : gostring).

(** Errors: a [*ParseError] with its cause and path, one of the errors made
    by [errors.New] and [fmt.Errorf], an error of strconv ([NumError] is its
    [Err] field), or an error of a library with its text.  The fields
    [ExpectedType] and [ValueStr] of [ParseError] are never set. *)
Inductive error :=
| ParseError (kind : ParseErrorKind) (val : value) (rs : reason) (cause : option error)
    (path : list gostring)
| NumError (e : num_error)
| ErrStrconv (fn num : gostring) (e : num_error)
| ErrSerialization (sm : SerializationMethod)
| ErrAnyOf (param : gostring)
| ErrOneOf (param : gostring)
| ErrOneOfMatched (n : nat)
| ErrNot
| ErrUnsupportedDecoder
| ErrUnsupportedIn (loc : gostring)
| ErrUnsupportedContentIn (loc : gostring)
| ErrMissing (param : gostring)
| ErrContent (c : content_error) (param : gostring)
| ErrUnmarshal (param : gostring)
| ErrSchemaOfBody (prop : option gostring)
| ErrUndefinedPart (name : gostring)
| ErrQuery (query : gostring)
| ErrConflict (name : gostring)
| ErrLib (msg : gostring)
| ErrItem (l : label) (e : error).

Definition is_parse_error (e : error) : bool :=
  match e with ParseError _ _ _ _ _ => true | _ => false end.

(** A [*ParseError] at [path], or the error wrapped by [fmt.Errorf]: the form
    in which the decoders report an error of a part. *)
Definition wrap_error (l : label) (path : list gostring) (e : error) : error :=
  if is_parse_error e then ParseError KindOther VNil RNone (Some e) path else ErrItem l e.

(** [ParseError.RootCause]. *)
Fixpoint RootCause (e : error) : option error :=
  match e with
  | ParseError _ _ _ (Some (ParseError _ _ _ _ _ as c)) _ => RootCause c
  | ParseError _ _ _ c _ => c
  | _ => None
  end.

(** [ParseError.Path]: the path of the cause first. *)
Fixpoint Path (e : error) : list gostring :=
  match e with
  | ParseError _ _ _ (Some c) path => Path c ++ path
  | ParseError _ _ _ None path => path
  | _ => []
  end.
End Values.
