(* ===== verification/URLValues.v ===== *)
(** What the validator uses of [sort], [net/url] and [net/http]: ordered
    strings, [url.Values] with its query encoding, header values and cookies. *)
From S2P Require Import Prelude GoStrings Values.

(** * Ordered strings *)

(** Comparison of strings, byte by byte. *)
Fixpoint str_leb (a b : gostring) : bool :=
  match a, b with
  | [], _ => true
  | _ :: _, [] => false
  | c :: a', d :: b' =>
      if (byte_val c <? byte_val d)%Z then true
      else if (byte_val d <? byte_val c)%Z then false
      else str_leb a' b'
  end.

Definition str_le (a b : gostring) : Prop := str_leb a b = true.
#[export] Instance str_le_dec : RelDecision str_le.
Proof. intros a b. unfold str_le. apply _. Defined.

(** [sort.Strings]. *)
Definition sort_strings (l : list gostring) : list gostring := merge_sort str_le l.

Lemma sort_strings_perm l : sort_strings l ≡ₚ l.
Proof. apply merge_sort_Permutation. Qed.

(** * Query strings *)

(** [url.Values]. *)
Notation url_Values := (list (gostring * list gostring)).

Definition Values_Get (q : url_Values) (k : gostring) : gostring :=
  match obj_get k q with Some (v :: _) => v | _ => [] end.
Definition Values_Add (q : url_Values) (k v : gostring) : url_Values :=
  obj_set k (default [] (obj_get k q) ++ [v]) q.

(** Bytes [url.QueryEscape] keeps. *)
Definition is_unreserved (c : ascii) : bool :=
  is_digit c
  || ((97 <=? byte_val (byte_lower c))%Z && (byte_val (byte_lower c) <=? 122)%Z)
  || bool_decide (c ∈ str "-_.~").

Definition hex_digit (n : Z) : ascii :=
  ascii_of_N (Z.to_N (if (n <? 10)%Z then 48 + n else 55 + n)).

Definition escape_byte (c : ascii) : gostring :=
  if is_unreserved c then [c]
  else if bool_decide (c = " "%char) then ["+"%char]
  else ["%"%char; hex_digit (byte_val c / 16); hex_digit (byte_val c mod 16)].

Definition query_escape (s : gostring) : gostring := concat (map escape_byte s).

Definition encode_pair (kv : gostring * gostring) : gostring :=
  query_escape kv.1 ++ "="%char :: query_escape kv.2.

(** The pairs of the values of the keys [ks], in order. *)
Definition pairs_of (q : url_Values) (ks : list gostring) : list (gostring * gostring) :=
  concat (map (λ k, map (pair k) (default [] (obj_get k q))) ks).

(** [Values.Encode]: sorted by key. *)
Definition Values_Encode (q : url_Values) : gostring :=
  join (map encode_pair (pairs_of q (sort_strings q.*1))) "&".

(** [URL.Query]: pairs that cannot be parsed are dropped. *)
Fixpoint add_pairs (l : list (option (option (gostring * gostring)))) (q : url_Values) : url_Values :=
  match l with
  | [] => q
  | Some (Some (k, v)) :: l' => add_pairs l' (Values_Add q k v)
  | _ :: l' => add_pairs l' q
  end.

Definition URL_Query (rawQuery : gostring) : url_Values :=
  add_pairs (map parse_pair (split rawQuery "&")) [].

(** ** The encoding is read back *)

(** A property of all bytes is decided by enumeration. *)
Definition all_bytes : list ascii := map (λ n, ascii_of_N (N.of_nat n)) (seq 0 256).

Lemma all_bytes_spec (P : ascii → bool) :
  forallb P all_bytes = true → ∀ c, P c = true.
Proof.
  intros HP c. rewrite forallb_forall in HP. apply HP, in_map_iff. exists (N.to_nat (N_of_ascii c)).
  rewrite N2Nat.id. split; [apply ascii_N_embedding|]. apply in_seq. pose proof (N_ascii_bounded c). lia.
Qed.

Definition escape_ok (c : ascii) : bool :=
  forallb (λ d, negb (bool_decide (d ∈ ["&"%char; "="%char; ";"%char]))) (escape_byte c)
  && bool_decide (query_unescape (escape_byte c) = Some [c]).

Lemma escape_byte_ok c : escape_ok c = true.
Proof. revert c. apply all_bytes_spec. by vm_compute. Qed.

Lemma escape_byte_unescape c t :
  query_unescape (escape_byte c ++ t) = cons c <$> query_unescape t.
Proof.
  pose proof (escape_byte_ok c) as Hc. unfold escape_ok in Hc.
  apply andb_true_iff in Hc as [_ Hc%bool_decide_eq_true]. revert Hc. unfold escape_byte.
  destruct (is_unreserved c); [|destruct (bool_decide (c = " "%char))]; cbn [query_unescape app].
  - destruct (bool_decide (c = "%"%char)); [done|]. simpl. intros [= ->]. by destruct (query_unescape t).
  - simpl. intros [= ->]. by destruct (query_unescape t).
  - simpl. repeat case_match; try done. simpl. intros [= ->]. by destruct (query_unescape t).
Qed.

Lemma query_unescape_escape s : query_unescape (query_escape s) = Some s.
Proof.
  induction s as [|c s IH]; [done|]. unfold query_escape in *. cbn [map concat].
  by rewrite escape_byte_unescape, IH.
Qed.

Lemma query_escape_sep s d : d ∈ ["&"%char; "="%char; ";"%char] → d ∉ query_escape s.
Proof.
  intros Hd. induction s as [|c s IH]; [apply not_elem_of_nil|]. unfold query_escape in *.
  cbn [map concat]. rewrite elem_of_app. intros [Hin|Hin]; [|by apply IH].
  pose proof (escape_byte_ok c) as Hc. unfold escape_ok in Hc. apply andb_true_iff in Hc as [Hc _].
  rewrite forallb_forall in Hc. apply list_elem_of_In, Hc in Hin.
  apply negb_true_iff, bool_decide_eq_false in Hin. done.
Qed.

Lemma encode_pair_sep kv d : d ∈ ["&"%char; ";"%char] → d ∉ encode_pair kv.
Proof.
  intros Hd. unfold encode_pair. rewrite elem_of_app, elem_of_cons.
  assert (d ∈ ["&"%char; "="%char; ";"%char]) as Hd' by set_solver.
  intros [H|[->|H]]; [by eapply query_escape_sep|set_solver|by eapply query_escape_sep].
Qed.

Lemma parse_encode_pair kv : parse_pair (encode_pair kv) = Some (Some kv).
Proof.
  unfold parse_pair. rewrite bool_decide_false by (apply encode_pair_sep; set_solver).
  unfold encode_pair. destruct kv as [k v]. cbn [fst snd].
  rewrite index_byte_app by (apply query_escape_sep; set_solver).
  assert (is_empty (query_escape k ++ "="%char :: query_escape v) = false) as ->
    by (by destruct (query_escape k)).
  rewrite take_app_length, cons_middle, app_assoc, drop_app_length' by (rewrite length_app; simpl; lia).
  by rewrite !query_unescape_escape.
Qed.

(** The values of a key among the pairs that were parsed. *)
Fixpoint values_of (k : gostring) (l : list (gostring * gostring)) : list gostring :=
  match l with
  | [] => []
  | (k', v) :: l' => if k =?s k' then v :: values_of k l' else values_of k l'
  end.

Lemma values_of_app k l1 l2 : values_of k (l1 ++ l2) = values_of k l1 ++ values_of k l2.
Proof.
  induction l1 as [|[k' v] l1 IH]; simpl; [done|]. destruct (k =?s k'); simpl; by rewrite IH.
Qed.

Lemma add_pairs_get k l q :
  default [] (obj_get k (add_pairs (map (λ kv, Some (Some kv)) l) q))
  = default [] (obj_get k q) ++ values_of k l.
Proof.
  revert q. induction l as [|[k' v] l IH]; intros q; simpl; [by rewrite app_nil_r|].
  rewrite IH. unfold Values_Add. rewrite obj_get_set.
  destruct (k =?s k') eqn:E; [|done]. apply eqb_str_true in E as ->. simpl. by rewrite <- app_assoc.
Qed.

Lemma Values_Add_nonempty q k v :
  Forall (λ kv, kv.2 ≠ []) q → Forall (λ kv, kv.2 ≠ []) (Values_Add q k v).
Proof.
  intros Hq. unfold Values_Add. generalize (default [] (obj_get k q)) as vs. intros vs.
  induction Hq as [|[k' v'] q Hk Hq IH']; simpl.
  - constructor; [|constructor]. simpl. by destruct vs.
  - destruct (k =?s k'); constructor; simpl; auto. by destruct vs.
Qed.

Lemma add_pairs_nonempty l q :
  Forall (λ kv, kv.2 ≠ []) q → Forall (λ kv, kv.2 ≠ []) (add_pairs l q).
Proof.
  revert q. induction l as [|[[[k v]|]|] l IH]; intros q Hq; simpl; auto.
  by apply IH, Values_Add_nonempty.
Qed.

Lemma pairs_of_values k q ks :
  NoDup ks → values_of k (pairs_of q ks) = if bool_decide (k ∈ ks) then default [] (obj_get k q) else [].
Proof.
  induction 1 as [|k' ks Hn Hnd IH]; [done|]. unfold pairs_of in *. cbn [map concat].
  rewrite values_of_app, IH.
  assert (∀ vs, values_of k (map (pair k') vs) = if k =?s k' then vs else []) as ->.
  { induction vs as [|v vs IHv]; simpl; [by destruct (k =?s k')|]. rewrite IHv. by destruct (k =?s k'). }
  destruct (k =?s k') eqn:E.
  - apply eqb_str_true in E as ->. rewrite !bool_decide_false, bool_decide_true by set_solver.
    by rewrite app_nil_r.
  - apply eqb_str_false in E. rewrite !(bool_decide_ext (k ∈ k' :: ks) (k ∈ ks)) by set_solver. done.
Qed.

Lemma split_encoded l :
  map parse_pair (split (join (map encode_pair l) "&") "&")
  = match l with [] => [Some None] | _ => map (λ kv, Some (Some kv)) l end.
Proof.
  destruct l as [|kv l]; [done|]. change (str "&") with ["&"%char]. rewrite split_join.
  - rewrite map_map. apply map_ext, parse_encode_pair.
  - done.
  - apply Forall_map, Forall_forall. intros x _. apply encode_pair_sep. set_solver.
Qed.

(** The query string written by [Encode] has the values it was made from. *)
Lemma URL_Query_Encode q k :
  NoDup q.*1 → Forall (λ kv, kv.2 ≠ []) q → obj_get k (URL_Query (Values_Encode q)) = obj_get k q.
Proof.
  intros Hnd Hne. unfold URL_Query, Values_Encode. rewrite split_encoded.
  set (l := pairs_of q (sort_strings q.*1)).
  assert (default [] (obj_get k (add_pairs (map (λ kv, Some (Some kv)) l) [])) = default [] (obj_get k q)) as Hd.
  { rewrite add_pairs_get. unfold l. rewrite pairs_of_values.
    - simpl. case_bool_decide as Hin; [done|]. rewrite sort_strings_perm, <- obj_get_elem in Hin.
      destruct (obj_get k q); [|done]. naive_solver.
    - by rewrite sort_strings_perm. }
  assert (∀ q' : url_Values, Forall (λ kv, kv.2 ≠ []) q' → obj_get k q' = match default [] (obj_get k q') with [] => None | vs => Some vs end) as Hform.
  { clear. induction 1 as [|[k' [|v vs]] q Hk Hq IH]; simpl; [done|done|]. destruct (k =?s k'); done. }
  rewrite (Hform q Hne). destruct l as [|kv l'] eqn:El.
  - simpl in Hd |- *. by rewrite <- Hd.
  - rewrite (Hform (add_pairs _ _)) by apply add_pairs_nonempty, Forall_nil_2. by rewrite Hd.
Qed.

(** [Values.Add] keeps one entry for a key, and no empty entry. *)
Lemma Values_Add_NoDup q k v : NoDup q.*1 → NoDup (Values_Add q k v).*1.
Proof. apply obj_set_NoDup. Qed.

Lemma add_pairs_NoDup l q : NoDup q.*1 → NoDup (add_pairs l q).*1.
Proof.
  revert q. induction l as [|[[[k v]|]|] l IH]; intros q Hq; simpl; auto. by apply IH, Values_Add_NoDup.
Qed.

Lemma URL_Query_NoDup s : NoDup (URL_Query s).*1.
Proof. apply add_pairs_NoDup, NoDup_nil_2. Qed.
Lemma URL_Query_nonempty s : Forall (λ kv, kv.2 ≠ []) (URL_Query s).
Proof. apply add_pairs_nonempty, Forall_nil_2. Qed.

(** * Headers and cookies *)

Notation http_Header := (gmap gostring (list gostring)).

Definition Header_Add (h : http_Header) (k v : gostring) : http_Header :=
  let k := CanonicalHeaderKey k in <[k := default [] (h !! k) ++ [v]]> h.

(** Cookies of a request, in order.  [AddCookie] writes the cookie to the header,
    from which it is read back: the bytes that are not allowed in a value are
    dropped, and a cookie whose name is not a token is not read. *)
Definition cookie_byte_ok (c : ascii) : bool :=
  (32 <=? byte_val c)%Z && (byte_val c <? 127)%Z
  && negb (bool_decide (c ∈ ["034"%char; ";"%char; "\"%char])).
Definition cookie_name (name : gostring) : gostring :=
  map (λ c, if bool_decide (c ∈ ["010"%char; "013"%char]) then "-"%char else c) name.

Definition AddCookie (cookies : list (gostring * gostring)) (name v : gostring)
  : list (gostring * gostring) :=
  let name := cookie_name name in
  if negb (is_empty name) && forallb is_token name
  then cookies ++ [(name, List.filter cookie_byte_ok v)] else cookies.
