(* ===== verification/Messages.v ===== *)
(** The texts of the errors of the decoders: [ParseError.Error] of
    internal/platform/validator/req_resp_decoder.go and the messages made with
    [fmt.Errorf].  The API mode classifies errors by their texts. *)
From S2P Require Import Prelude GoStrings Values URLValues.

(** The formatting of quoted strings and of floats, and the text of the error of
    [url.ParseQuery]. *)
Class FmtPkg `{FloatPkg} := {
  quote : gostring → gostring;
  sprint_float : float64 → gostring;
  sprint_float4 : float64 → gostring;
  query_error : gostring → gostring
}.

Section Messages.
Context `{FmtPkg}.

Definition sprint_bool (b : bool) : gostring := if b then "true" else "false".

(** The verb [%v]. *)
Fixpoint sprint (v : value) : gostring :=
  match v with
  | VNil => "<nil>"
  | VNilMap => "map[]"
  | VNilArr => "[]"
  | VStr s | VNumber s => s
  | VInt32 z | VInt64 z => itoa z
  | VFloat f => sprint_float f
  | VBool b => sprint_bool b
  | VArr l => "["%char :: join (map sprint l) " " ++ "]"
  | VObj m =>
      let texts := map (λ kv, (kv.1, sprint kv.2)) m in
      str "map[" ++ join (map (λ k, k ++ ":"%char :: default [] (obj_get k texts)) (sort_strings m.*1)) " "
      ++ "]"
  end.

Definition num_error_text (e : num_error) : gostring :=
  match e with ErrSyntax => "invalid syntax" | ErrRange => "value out of range" end.

Definition strconv_text (fn num : gostring) (e : num_error) : gostring :=
  str "strconv." ++ fn ++ ": parsing " ++ quote num ++ ": " ++ num_error_text e.

Definition double_quote : ascii := "034"%char.

(** The [Reason] fields. *)
Definition reason_text (r : reason) : gostring :=
  match r with
  | RNone => []
  | RPrefix prefix => str "a value must be prefixed with " ++ quote prefix
  | RProps valueDelim propDelim =>
      str "a value must be a list of object's properties in format " ++ double_quote :: "name"
      ++ valueDelim ++ str "value" ++ double_quote :: str " separated by " ++ propDelim
  | RArrayIndexes => "array items must be set with indexes"
  | RSliceMap k e =>
      str "could not convert value map to array: array indexes must be integers: "
      ++ strconv_text "Atoi" k e
  | RInvalidObject => "invalid param object"
  | RNotPrimitive => "path is not convertible to primitive"
  | RInvalid typ => str "an invalid " ++ typ
  | RNonPrimitiveType typ => str "schema has non primitive type " ++ typ
  | RUnsupportedCT mediaType => str "unsupported content type " ++ quote mediaType
  end.

Definition content_error_text (c : content_error) (param : gostring) : gostring :=
  match c with
  | CMultipleValues loc => loc ++ str " parameter " ++ quote param ++ " cannot have multiple values"
  | CNoContent => str "parameter " ++ quote param ++ " expected to have content"
  | CManyTypes => str "multiple content types for parameter " ++ quote param
  | CNoSchema => str "parameter " ++ quote param ++ " has no content schema"
  end.

Definition label_text (l : label) : gostring :=
  match l with
  | LItem i => str "item " ++ i
  | LProperty path => str "property " ++ quote path
  | LPart name => str "part " ++ name
  end.

(** [ParseError.innerError] and the [Error] methods: the path is written once,
    by the outermost [ParseError]. *)
Fixpoint error_text (inner : bool) (e : error) : gostring :=
  match e with
  | ParseError _ v r cause _ =>
      let body :=
        join ((if is_nil v then [] else [str "value " ++ sprint v])
              ++ (if is_empty (reason_text r) then [] else [reason_text r])
              ++ match cause with Some c => [error_text true c] | None => [] end) ": " in
      if inner then body
      else match Path e with
           | [] => body
           | p => join [str "path " ++ join p "."; body] ": "
           end
  | NumError e => num_error_text e
  | ErrStrconv fn num e => strconv_text fn num e
  | ErrSerialization sm =>
      str "invalid serialization method: style=" ++ quote (sm_Style sm) ++ ", explode="
      ++ sprint_bool (sm_Explode sm)
  | ErrAnyOf param => str "decoding anyOf for parameter " ++ quote param ++ " failed"
  | ErrOneOf param => str "decoding oneOf failed: " ++ quote param ++ " is required"
  | ErrOneOfMatched n => str "decoding oneOf failed: " ++ itoa (Z.of_nat n) ++ " schemas matched"
  | ErrNot => "not implemented: decoding 'not'"
  | ErrUnsupportedDecoder => "unsupported decoder"
  | ErrUnsupportedIn loc => str "unsupported parameter's 'in': " ++ loc
  | ErrUnsupportedContentIn loc => str "unsupported parameter.in: " ++ quote loc
  | ErrMissing param => str "parameter " ++ quote param ++ " is required, but missing"
  | ErrContent c param => content_error_text c param
  | ErrUnmarshal param => str "error unmarshaling parameter " ++ quote param
  | ErrSchemaOfBody None => "unsupported schema of request body"
  | ErrSchemaOfBody (Some prop) => str "unsupported schema of request body's property " ++ quote prop
  | ErrUndefinedPart name => str "part " ++ name ++ ": undefined"
  | ErrQuery query => query_error query
  | ErrConflict name => str "conflicting values for property " ++ quote name
  | ErrLib msg => msg
  | ErrItem l e => label_text l ++ ": " ++ error_text false e
  end.

Definition Error (e : error) : gostring := error_text false e.
End Messages.
