(* ===== verification/ParamDecoder.v ===== *)
(** Decoding of parameters (internal/platform/validator/req_resp_decoder.go):
    primitives, arrays and objects of the serialization styles for path, query,
    header and cookie parameters.

    A dereference of a nil schema and a failed type assertion are panics.  The
    order in which Go iterates a map is the order of the list that stands for
    the map. *)
From S2P Require Import Prelude GoStrings Values.

Section Decoder.
Context `{FloatPkg} `{TypesPkg}.

(** A computation with Go's (value, error) results, that may panic. *)
Notation comp A := (outcome (result error A)).

Definition cbind {A B} (c : comp A) (k : A → comp B) : comp B :=
  r <-! c ;; match r with Ok a => k a | Err e => Ret (Err e) end.

(** * Primitives *)

Definition invalid_format (raw typ : gostring) (e : num_error) : error :=
  ParseError KindInvalidFormat (VStr raw) (RInvalid typ) (Some (NumError e)) [].

Definition parsePrimitiveCase (raw : gostring) (sc : schema) (typ : gostring) : result error value :=
  if typ =?s "integer" then
    if s_Format sc =?s "int32" then
      match parse_int 0 32 raw with
      | Err e => Err (invalid_format raw typ e)
      | Ok v => Ok (VInt32 v)
      end
    else
      match parse_int 0 64 raw with
      | Err e => Err (invalid_format raw typ e)
      | Ok v => Ok (VInt64 v)
      end
  else if typ =?s "number" then
    match ParseFloat raw with
    | Err e => Err (invalid_format raw typ e)
    | Ok v => Ok (VFloat v)
    end
  else if typ =?s "boolean" then
    match parse_bool raw with
    | None => Err (invalid_format raw typ ErrSyntax)
    | Some v => Ok (VBool v)
    end
  else if typ =?s "string" then Ok (VStr raw)
  else Err (ParseError KindOther (VStr raw) (RNonPrimitiveType typ) None []).

(** The loop over the types of the schema: the first that parses, or the last
    error. *)
Fixpoint parse_types (raw : gostring) (sc : schema) (typs : list gostring)
    (acc : result error value) : result error value :=
  match typs with
  | [] => acc
  | typ :: typs' =>
      match parsePrimitiveCase raw sc typ with
      | Ok v => Ok v
      | Err e => parse_types raw sc typs' (Err e)
      end
  end.

Definition parsePrimitive (raw : gostring) (sc : option schema) : comp value :=
  if is_empty raw then Ret (Ok VNil)
  else match sc with
       | None => Panic
       | Some sc => Ret (parse_types raw sc (types_Slice (s_Type sc)) (Ok VNil))
       end.

(** * Arrays *)

(** The loop of [parseArray]; an item that is nil makes the array nil. *)
Fixpoint parse_items (parse : gostring → comp value) (i : Z) (raw : list gostring)
    (acc : list value) : comp (list value) :=
  match raw with
  | [] => Ret (Ok acc)
  | v :: raw' =>
      r <-! parse v ;;
      match r with
      | Err e => Ret (Err (wrap_error (LItem (itoa i)) [itoa i] e))
      | Ok item =>
          if is_nil item then Ret (Ok [])
          else parse_items parse (i + 1) raw' (acc ++ [item])
      end
  end.

Definition parseArray (raw : list gostring) (sc : schema) : comp (list value) :=
  parse_items (λ v, parsePrimitive v (s_Items sc)) 0 raw [].

(** [urlValuesDecoder.parseValue]. *)
Fixpoint parseValue (v : gostring) (sc : schema) {struct sc} : comp value :=
  let 'MkSchema _ _ _ _ _ _ _ allOf anyOf oneOf not _ := sc in
  match allOf, anyOf, oneOf with
  | _ :: _, _, _ =>
      (fix go (l : list schema) (val : value) : comp value :=
         match l with
         | [] => Ret (Ok val)
         | sr :: l' =>
             r <-! parseValue v sr ;;
             match r with
             | Err e => Ret (Err e)
             | Ok val => if is_nil val then Ret (Ok val) else go l' val
             end
         end) allOf VNil
  | [], _ :: _, _ =>
      (fix go (l : list schema) (err : option error) : comp value :=
         match l with
         | [] => Ret (match err with Some e => Err e | None => Ok VNil end)
         | sr :: l' =>
             r <-! parseValue v sr ;;
             match r with
             | Ok val => Ret (Ok val)
             | Err e => go l' (Some e)
             end
         end) anyOf None
  | [], [], _ :: _ =>
      (fix go (l : list schema) (val : value) (isMatched : nat) : comp value :=
         match l with
         | [] => Ret (if Nat.eqb isMatched 1 then Ok val else Err (ErrOneOfMatched isMatched))
         | sr :: l' =>
             r <-! parseValue v sr ;;
             match r with
             | Ok val => go l' val (S isMatched)
             | Err _ => go l' val isMatched
             end
         end) oneOf VNil 0
  | [], [], [] =>
      match not with
      | Some _ => Ret (Err ErrNot)
      | None => parsePrimitive v (Some sc)
      end
  end.

(** [urlValuesDecoder.parseArray]. *)
Definition url_parseArray (raw : list gostring) (sc : schema) : comp (list value) :=
  parse_items (λ v, match s_Items sc with None => Panic | Some it => parseValue v it end) 0 raw [].

(** * Objects *)

(** The loop of [propsFromString] when the delimiters are equal: names at even
    positions, values at odd ones. *)
Fixpoint pair_up (pairs : list gostring) (props : list (gostring * gostring))
  : list (gostring * gostring) :=
  match pairs with
  | k :: v :: pairs' => pair_up pairs' (obj_set k v props)
  | _ => props
  end.

Fixpoint split_props (pairs : list gostring) (valueDelim : gostring)
    (props : list (gostring * gostring)) : option (list (gostring * gostring)) :=
  match pairs with
  | [] => Some props
  | item :: pairs' =>
      match split item valueDelim with
      | [k; v] => split_props pairs' valueDelim (obj_set k v props)
      | _ => None
      end
  end.

Definition propsFromString (src propDelim valueDelim : gostring)
  : result error (list (gostring * gostring)) :=
  let pairs := split src propDelim in
  let err := ParseError KindInvalidFormat (VStr src) (RProps valueDelim propDelim) None [] in
  if propDelim =?s valueDelim then
    if Nat.odd (length pairs) then Err err else Ok (pair_up pairs [])
  else match split_props pairs valueDelim [] with Some props => Ok props | None => Err err end.

(** [deepGet]: a value that is not a map ends the walk, whatever keys are left. *)
Fixpoint deepGet (m : list (gostring * value)) (keys : list gostring) : option value :=
  match keys with
  | [] => Some (VObj m)
  | key :: keys' =>
      match obj_get key m with
      | None => None
      | Some (VObj m') => deepGet m' keys'
      | Some val => Some val
      end
  end.

(** [deepSet]: the assertion that an intermediate value is a map can fail. *)
Fixpoint deepSet (m : list (gostring * value)) (keys : list gostring) (v : value)
  : outcome (list (gostring * value)) :=
  match keys with
  | [] => Panic
  | [key] => Ret (obj_set key v m)
  | key :: keys' =>
      match default (VObj []) (obj_get key m) with
      | VObj m' => m'' <-! deepSet m' keys' v ;; Ret (obj_set key (VObj m'') m)
      | _ => Panic
      end
  end.

(** [urlDecoderDelimiter]. *)
Definition urlDecoderDelimiter : ascii := "031"%char.

(** The indexes of [sliceMapToSlice]. *)
Fixpoint atoi_keys (m : list (gostring * value)) : result (gostring * num_error) (list Z) :=
  match m with
  | [] => Ok []
  | (k, _) :: m' =>
      match atoi k with
      | Err e => Err (k, e)
      | Ok i => l <-? atoi_keys m' ;; Ok (i :: l)
      end
  end.

(** [sliceMapToSlice]: nil is put where an index below the largest is missing. *)
Definition sliceMapToSlice (m : list (gostring * value))
  : result (gostring * num_error) (list value) :=
  keys <-? atoi_keys m ;;
  let max := fold_left (λ max k, if (max <? k)%Z then k else max) keys (-1)%Z in
  Ok (map (λ i, default VNil (obj_get (itoa (Z.of_nat i)) m)) (seq 0 (Z.to_nat (max + 1)))).

Definition handlePropParseError (path : list gostring) (e : error) : error :=
  wrap_error (LProperty (join path ["."%char])) path e.

(** The merge of one result into the map of [buildFromSchemas]: [inl] is a
    result to return, [inr] the map so far. *)
Definition merge_result (val : value) (resultMap : list (gostring * value))
  : value + list (gostring * value) :=
  match val with
  | VNil => inr resultMap
  | VObj m => inr (fold_left (λ acc kv, obj_set kv.1 kv.2 acc) m resultMap)
  | VNilMap | VNilArr | VArr [] => inr resultMap
  | v => inl v
  end.

(** [buildResObj] and [buildFromSchemas].  The loops over items, properties and
    schemas are local. *)
Fixpoint buildResObj (params : list (gostring * value)) (sc : schema)
    (parentKeys : list gostring) (key : gostring) {struct sc} : comp value :=
  let 'MkSchema typ format pat items props has addit allOf anyOf oneOf not required := sc in
  let mapKeys := if is_empty key then parentKeys else parentKeys ++ [key] in
  let fromSchemas :=
    (fix go (l : list schema) (resultMap : list (gostring * value)) : comp value :=
       match l with
       | [] => Ret (Ok match resultMap with [] => VNil | _ => VObj resultMap end)
       | s :: l' =>
           r <-! buildResObj params s parentKeys key ;;
           match r with
           | Err _ => go l' resultMap
           | Ok val =>
               match merge_result val resultMap with
               | inl v => Ret (Ok v)
               | inr resultMap => go l' resultMap
               end
           end
       end) in
  if types_Is typ "array" then
    match deepGet params mapKeys with
    | None => Ret (Ok VNil)
    | Some (VObj t) =>
        match sliceMapToSlice t with
        | Err (k, e) => Ret (Err (ParseError KindInvalidFormat VNil (RSliceMap k e) None mapKeys))
        | Ok arr =>
            (fix go (i : nat) (n : nat) (acc : list value) : comp value :=
               match n with
               | 0 => Ret (Ok (VArr acc))
               | S n' =>
                   match items with
                   | None => Panic
                   | Some it =>
                       r <-! buildResObj params it mapKeys (itoa (Z.of_nat i)) ;;
                       match r with
                       | Err e => Ret (Err e)
                       | Ok v => go (S i) n' (acc ++ [v])
                       end
                   end
               end) 0 (length arr) []
        end
    | Some _ => Ret (Err (ParseError KindInvalidFormat VNil RArrayIndexes None mapKeys))
    end
  else if types_Is typ "object" then
    match deepGet params mapKeys with
    | Some (VObj objectParams) =>
        cbind
          ((fix go (l : list (gostring * schema)) (resultMap : list (gostring * value))
             : comp (list (gostring * value)) :=
              match l with
              | [] => Ret (Ok resultMap)
              | (k, propSchema) :: l' =>
                  r <-! buildResObj params propSchema mapKeys k ;;
                  match r with
                  | Err e => Ret (Err e)
                  | Ok v => go l' (if is_nil v then resultMap else obj_set k v resultMap)
                  end
              end) props [])
          (λ resultMap,
             match addit with
             | None => Ret (Ok (VObj resultMap))
             | Some additPropsSchema =>
                 (fix go (l : list (gostring * value)) (resultMap : list (gostring * value))
                    : comp value :=
                    match l with
                    | [] => Ret (Ok (VObj resultMap))
                    | (k, _) :: l' =>
                        r <-! buildResObj params additPropsSchema mapKeys k ;;
                        match r with
                        | Err e => Ret (Err e)
                        | Ok v => go l' (if is_nil v then resultMap else obj_set k v resultMap)
                        end
                    end) objectParams resultMap
             end)
    | pp => Ret (Ok (default VNil pp))
    end
  else match anyOf, oneOf, allOf with
  | _ :: _, _, _ => fromSchemas anyOf []
  | [], _ :: _, _ => fromSchemas oneOf []
  | [], [], _ :: _ => fromSchemas allOf []
  | [], [], [] =>
      match deepGet params mapKeys with
      | None => Ret (Ok VNil)
      | Some (VStr v) =>
          r <-! parsePrimitive v (Some sc) ;;
          Ret match r with
              | Err e => Err (handlePropParseError mapKeys e)
              | Ok prim => Ok prim
              end
      | Some val => Ret (Err (ParseError KindInvalidFormat val RNotPrimitive None mapKeys))
      end
  end.

(** The loop of [makeObject] over the properties, in iteration order. *)
Fixpoint set_props (props : list (gostring * gostring)) (mobj : list (gostring * value))
  : comp (list (gostring * value)) :=
  match props with
  | [] => Ret (Ok mobj)
  | (kk, v) :: props' =>
      let keys := split kk [urlDecoderDelimiter] in
      if contains v [urlDecoderDelimiter]
      then Ret (Err (ParseError KindInvalidFormat VNil RArrayIndexes None keys))
      else m <-! deepSet mobj keys (VStr v) ;; set_props props' m
  end.

Definition makeObject (props : list (gostring * gostring)) (sc : schema)
  : comp (list (gostring * value)) :=
  cbind (set_props props []) (λ mobj,
  cbind (buildResObj mobj sc [] []) (λ r,
  Ret match r with
      | VObj result => Ok result
      | _ => Err (ParseError KindOther VNilMap RInvalidObject None [])
      end)).

(** * The four sources of parameters *)

(** Results of the decoding methods: value, whether the parameter is supplied,
    error. *)
Notation dres A := (outcome (A * bool * option error)).
Notation obj := (list (gostring * value)).

(** [(nil, false, nil)] and the like. *)
Definition ret3 {A} (v : A) (found : bool) (e : option error) : dres A := Ret (v, found, e).

(** The last lines of the methods: [val, err := ...; return val, ok, err]. *)
Definition finish {A} (zero : A) (found : bool) (c : comp A) : dres A :=
  r <-! c ;;
  match r with Ok v => ret3 v found None | Err e => ret3 zero found (Some e) end.

(** [cutPrefix]. *)
Definition cutPrefix (raw prefix : gostring) : result error gostring :=
  if is_empty prefix then Ok raw
  else if has_prefix raw prefix then Ok (drop (length prefix) raw)
  else Err (ParseError KindInvalidFormat (VStr raw) (RPrefix prefix) None []).

(** The interface [valueDecoder], with what the type switch of [decodeValue]
    asks of its implementations: whether it is the query decoder, and whether
    the parameter is present. *)
Record valueDecoder := {
  DecodePrimitive : gostring → SerializationMethod → schema → dres value;
  DecodeArray : gostring → SerializationMethod → schema → dres (list value);
  DecodeObject : gostring → SerializationMethod → schema → dres (option obj);
  dec_is_query : bool;
  dec_has : gostring → bool
}.

(** ** Path parameters *)

Section Path.
Context (pathParams : gmap gostring gostring).

(** The value of the parameter without [prefix]: a missing or empty value is
    reported as not supplied. *)
Definition path_source {A} (zero : A) (param prefix : gostring) (k : gostring → comp A) : dres A :=
  match pathParams !! param with
  | None | Some [] => ret3 zero false None
  | Some raw =>
      match cutPrefix raw prefix with
      | Err e => ret3 zero true (Some e)
      | Ok src => finish zero true (k src)
      end
  end.

Definition matrix_prefix (param : gostring) : gostring := ";"%char :: param ++ ["="%char].

Definition path_DecodePrimitive (param : gostring) (sm : SerializationMethod) (sc : schema)
  : dres value :=
  let style := sm_Style sm in
  let decode prefix := path_source VNil param prefix (λ src, parsePrimitive src (Some sc)) in
  if style =?s "simple" then decode []
  else if style =?s "label" then decode "."
  else if style =?s "matrix" then decode (matrix_prefix param)
  else ret3 VNil false (Some (ErrSerialization sm)).

(** The prefix and the delimiter of [DecodeArray]. *)
Definition path_array_delims (param : gostring) (sm : SerializationMethod)
  : option (gostring * gostring) :=
  let style := sm_Style sm in
  if style =?s "simple" then Some ([], str ",")
  else if style =?s "label" then Some (str ".", if sm_Explode sm then str "." else str ",")
  else if style =?s "matrix" then
    Some (matrix_prefix param, if sm_Explode sm then matrix_prefix param else str ",")
  else None.

Definition path_DecodeArray (param : gostring) (sm : SerializationMethod) (sc : schema)
  : dres (list value) :=
  match path_array_delims param sm with
  | None => ret3 [] false (Some (ErrSerialization sm))
  | Some (prefix, delim) => path_source [] param prefix (λ src, parseArray (split src delim) sc)
  end.

(** The prefix and the two delimiters of [DecodeObject]. *)
Definition path_object_delims (param : gostring) (sm : SerializationMethod)
  : option (gostring * gostring * gostring) :=
  let style := sm_Style sm in
  if style =?s "simple" then Some ([], str ",", if sm_Explode sm then str "=" else str ",")
  else if style =?s "label" then
    if sm_Explode sm then Some (str ".", str ".", str "=") else Some (str ".", str ",", str ",")
  else if style =?s "matrix" then
    if sm_Explode sm then Some (str ";", str ";", str "=")
    else Some (matrix_prefix param, str ",", str ",")
  else None.

Definition path_DecodeObject (param : gostring) (sm : SerializationMethod) (sc : schema)
  : dres (option obj) :=
  match path_object_delims param sm with
  | None => ret3 None false (Some (ErrSerialization sm))
  | Some (prefix, propsDelim, valueDelim) =>
      path_source None param prefix (λ src,
        match propsFromString src propsDelim valueDelim with
        | Err e => Ret (Err e)
        | Ok props => cbind (makeObject props sc) (λ o, Ret (Ok (Some o)))
        end)
  end.

Definition pathParamDecoder : valueDecoder := {|
  DecodePrimitive := path_DecodePrimitive;
  DecodeArray := path_DecodeArray;
  DecodeObject := path_DecodeObject;
  dec_is_query := false;
  dec_has param := bool_decide (is_Some (pathParams !! param))
|}.
End Path.

(** ** Query parameters *)

(** The groups of [\[(.*?)\]] in a key: from each '[' the shortest run up to a
    ']' on the same line. *)
Fixpoint up_to_bracket (s : gostring) : option (gostring * gostring) :=
  match s with
  | [] => None
  | c :: s' =>
      if bool_decide (c = "]"%char) then Some ([], s')
      else if bool_decide (c = "010"%char) then None
      else match up_to_bracket s' with
           | Some (inner, rest) => Some (c :: inner, rest)
           | None => None
           end
  end.

Fixpoint find_brackets (fuel : nat) (s : gostring) : list gostring :=
  match fuel, s with
  | S f, c :: s' =>
      if bool_decide (c = "["%char) then
        match up_to_bracket s' with
        | Some (inner, rest) => inner :: find_brackets f rest
        | None => find_brackets f s'
        end
      else find_brackets f s'
  | _, _ => []
  end.

Section Query.
Context (values : list (gostring * list gostring)).

Definition url_DecodePrimitive (param : gostring) (sm : SerializationMethod) (sc : schema)
  : dres value :=
  if negb (sm_Style sm =?s "form") then ret3 VNil false (Some (ErrSerialization sm))
  else
    match obj_get param values with
    | None => ret3 VNil false None
    | Some [] => ret3 VNil true None
    | Some (v :: _) =>
        if bool_decide (s_Type sc = None) && negb (is_empty (s_Pattern sc))
        then ret3 (VStr v) true None
        else finish VNil true (parsePrimitive v (Some sc))
    end.

Definition url_DecodeArray (param : gostring) (sm : SerializationMethod) (sc : schema)
  : dres (list value) :=
  let style := sm_Style sm in
  if style =?s "deepObject" then ret3 [] false (Some (ErrSerialization sm))
  else
    match obj_get param values with
    | None => ret3 [] false None
    | Some [] => ret3 [] true None
    | Some ((v :: _) as vs) =>
        let delim :=
          if style =?s "form" then str "," else if style =?s "spaceDelimited" then str " "
          else if style =?s "pipeDelimited" then str "|" else [] in
        finish [] true (url_parseArray (if sm_Explode sm then vs else split v delim) sc)
    end.

(** The [propsFn] of style "form"; [None] is a nil map. *)
Definition form_props (param : gostring) (sm : SerializationMethod)
  : comp (option (list (gostring * gostring))) :=
  match values with
  | [] => Ret (Ok None)
  | _ =>
      if sm_Explode sm then
        (fix go (l : list (gostring * list gostring)) (props : list (gostring * gostring)) :=
           match l with
           | [] => Ret (Ok (Some props))
           | (_, []) :: _ => Panic
           | (key, v :: _) :: l' => go l' (obj_set key v props)
           end) values []
      else
        match obj_get param values with
        | None | Some [] => Ret (Ok None)
        | Some (v :: _) =>
            Ret match propsFromString v "," "," with Ok p => Ok (Some p) | Err e => Err e end
        end
  end.

(** The [propsFn] of style "deepObject". *)
Fixpoint deep_props (param : gostring) (l : list (gostring * list gostring))
    (props : list (gostring * gostring)) : list (gostring * gostring) :=
  match l with
  | [] => props
  | (key, vs) :: l' =>
      if has_prefix key (param ++ ["["%char]) then
        match find_brackets (length key) key with
        | [] => deep_props param l' props
        | kk =>
            deep_props param l'
              (obj_set (join kk [urlDecoderDelimiter]) (join vs [urlDecoderDelimiter]) props)
        end
      else deep_props param l' props
  end.

(** Whether a property of the schema was given. *)
Definition props_found (sc : schema) (props : list (gostring * gostring)) (val : obj) : bool :=
  existsb (λ ps : gostring * schema,
    bool_decide (is_Some (obj_get ps.1 props))
    || ((types_Permits (s_Type sc) "array" || types_Permits (s_Type sc) "object")
        && existsb (λ kv : gostring * gostring,
             bool_decide (is_Some (deepGet val (split kv.1 [urlDecoderDelimiter])))) props))
    (s_Properties sc).

Definition url_DecodeObject (param : gostring) (sm : SerializationMethod) (sc : schema)
  : dres (option obj) :=
  let style := sm_Style sm in
  if negb (style =?s "form") && negb (style =?s "deepObject")
  then ret3 None false (Some (ErrSerialization sm))
  else
    r <-! (if style =?s "form" then form_props param sm
           else Ret (Ok match deep_props param values [] with [] => None | p => Some p end)) ;;
    match r with
    | Err e => ret3 None false (Some e)
    | Ok None => ret3 None false None
    | Ok (Some props) =>
        r <-! makeObject props sc ;;
        match r with
        | Err e => ret3 None false (Some e)
        | Ok val => ret3 (Some val) (props_found sc props val) None
        end
    end.

Definition urlValuesDecoder : valueDecoder := {|
  DecodePrimitive := url_DecodePrimitive;
  DecodeArray := url_DecodeArray;
  DecodeObject := url_DecodeObject;
  dec_is_query := true;
  dec_has param := bool_decide (is_Some (obj_get param values))
|}.
End Query.

(** ** Header parameters *)

Section Header.
Context (header : gmap gostring (list gostring)).

(** The first value of the header, or the answer for a missing one. *)
Definition header_source {A} (zero : A) (param : gostring) (k : gostring → comp A) : dres A :=
  match header !! CanonicalHeaderKey param with
  | None => ret3 zero false None
  | Some [] => ret3 zero true None
  | Some (raw :: _) => finish zero true (k raw)
  end.

Definition header_DecodePrimitive (param : gostring) (sm : SerializationMethod) (sc : schema)
  : dres value :=
  if negb (sm_Style sm =?s "simple") then ret3 VNil false (Some (ErrSerialization sm))
  else header_source VNil param (λ raw, parsePrimitive raw (Some sc)).

Definition header_DecodeArray (param : gostring) (sm : SerializationMethod) (sc : schema)
  : dres (list value) :=
  if negb (sm_Style sm =?s "simple") then ret3 [] false (Some (ErrSerialization sm))
  else header_source [] param (λ raw, parseArray (split raw ",") sc).

Definition header_DecodeObject (param : gostring) (sm : SerializationMethod) (sc : schema)
  : dres (option obj) :=
  if negb (sm_Style sm =?s "simple") then ret3 None false (Some (ErrSerialization sm))
  else
    let valueDelim := if sm_Explode sm then str "=" else str "," in
    header_source None param (λ raw,
      match propsFromString raw "," valueDelim with
      | Err e => Ret (Err e)
      | Ok props => cbind (makeObject props sc) (λ o, Ret (Ok (Some o)))
      end).

Definition headerParamDecoder : valueDecoder := {|
  DecodePrimitive := header_DecodePrimitive;
  DecodeArray := header_DecodeArray;
  DecodeObject := header_DecodeObject;
  dec_is_query := false;
  dec_has param := bool_decide (is_Some (header !! CanonicalHeaderKey param))
|}.
End Header.

(** ** Cookie parameters *)

Section Cookie.
Context (cookies : list (gostring * gostring)).

(** [http.Request.Cookie]: the first cookie of the name, or [ErrNoCookie]. *)
Definition cookie_source {A} (zero : A) (param : gostring) (k : gostring → comp A) : dres A :=
  match obj_get param cookies with
  | None => ret3 zero false None
  | Some raw => finish zero true (k raw)
  end.

Definition cookie_DecodePrimitive (param : gostring) (sm : SerializationMethod) (sc : schema)
  : dres value :=
  if negb (sm_Style sm =?s "form") then ret3 VNil false (Some (ErrSerialization sm))
  else cookie_source VNil param (λ raw, parsePrimitive raw (Some sc)).

Definition cookie_DecodeArray (param : gostring) (sm : SerializationMethod) (sc : schema)
  : dres (list value) :=
  if negb (sm_Style sm =?s "form") || sm_Explode sm
  then ret3 [] false (Some (ErrSerialization sm))
  else cookie_source [] param (λ raw, parseArray (split raw ",") sc).

Definition cookie_DecodeObject (param : gostring) (sm : SerializationMethod) (sc : schema)
  : dres (option obj) :=
  if negb (sm_Style sm =?s "form") || sm_Explode sm
  then ret3 None false (Some (ErrSerialization sm))
  else cookie_source None param (λ raw,
    match propsFromString raw "," "," with
    | Err e => Ret (Err e)
    | Ok props => cbind (makeObject props sc) (λ o, Ret (Ok (Some o)))
    end).

Definition cookieParamDecoder : valueDecoder := {|
  DecodePrimitive := cookie_DecodePrimitive;
  DecodeArray := cookie_DecodeArray;
  DecodeObject := cookie_DecodeObject;
  dec_is_query := false;
  dec_has param := bool_decide (is_Some (obj_get param cookies))
|}.
End Cookie.

(** * Values of a schema *)

(** [decodeValue]; a nil map returned by [DecodeObject] becomes a non-nil [any]. *)
Fixpoint decodeValue (dec : valueDecoder) (param : gostring) (sm : SerializationMethod)
    (sc : schema) (required : bool) {struct sc} : dres value :=
  let 'MkSchema typ format pat items props has addit allOf anyOf oneOf not req := sc in
  match allOf, anyOf, oneOf with
  | _ :: _, _, _ =>
      (fix go (l : list schema) (val : value) (found : bool) (err : option error) : dres value :=
         match l with
         | [] => ret3 val found err
         | sr :: l' =>
             '(val, f, err) <-! decodeValue dec param sm sr required ;;
             if is_nil val || bool_decide (err ≠ None) then ret3 val (found || f) err
             else go l' val (found || f) err
         end) allOf VNil false None
  | [], _ :: _, _ =>
      (fix go (l : list schema) (found : bool) : dres value :=
         match l with
         | [] => ret3 VNil found (if required then Some (ErrAnyOf param) else None)
         | sr :: l' =>
             '(val, f, _) <-! decodeValue dec param sm sr required ;;
             if is_nil val then go l' (found || f) else ret3 val (found || f) None
         end) anyOf false
  | [], [], _ :: _ =>
      (fix go (l : list schema) (val : value) (isMatched : nat) (found : bool) : dres value :=
         match l with
         | [] =>
             if Nat.leb 1 isMatched then ret3 val found None
             else ret3 VNil found (if required then Some (ErrOneOf param) else None)
         | sr :: l' =>
             '(v, f, _) <-! decodeValue dec param sm sr required ;;
             if is_nil v then go l' val isMatched (found || f)
             else go l' v (S isMatched) (found || f)
         end) oneOf VNil 0 false
  | [], [], [] =>
      match not with
      | Some _ => ret3 VNil false (Some ErrNot)
      | None =>
          match typ with
          | Some _ =>
              if types_Is typ "array" then
                '(res, b, e) <-! DecodeArray dec param sm sc ;;
                ret3 (match res with [] => VNil | _ => VArr res end) b e
              else if types_Is typ "object" then
                '(res, b, e) <-! DecodeObject dec param sm sc ;;
                ret3 (match res with None => VNilMap | Some o => VObj o end) b e
              else DecodePrimitive dec param sm sc
          | None =>
              if dec_is_query dec && negb (is_empty pat)
              then DecodePrimitive dec param sm sc
              else ret3 VNil (dec_has dec param) None
          end
      end
  end.

(** * Parameters *)

(** [openapi3.Parameter]: [p_sm] is the answer of its [SerializationMethod]
    method, [p_json] the schema of the media type [Content.Get("application/json")]
    answers, and [p_content] the number of entries of the content map. *)
Record ParameterSpec := MkParameter {
  p_Name : gostring;
  p_In : gostring;
  p_Required : bool;
  p_AllowEmptyValue : bool;
  p_Schema : option schema;
  p_content : option nat;
  p_json : option (option schema);
  p_sm : result error SerializationMethod;
  p_Explode : option bool
}.

(** The parts of the request the decoders read: [in_Query] is the answer of
    [GetQueryParams]. *)
Record RequestInput := MkInput {
  in_PathParams : gmap gostring gostring;
  in_Query : list (gostring * list gostring);
  in_Header : gmap gostring (list gostring);
  in_Cookies : list (gostring * gostring)
}.

Definition decodeStyledParameter (param : ParameterSpec) (input : RequestInput) : dres value :=
  match p_sm param with
  | Err e => ret3 VNil false (Some e)
  | Ok sm =>
      let decode dec :=
        match p_Schema param with
        | None => Panic
        | Some sc => decodeValue dec (p_Name param) sm sc (p_Required param)
        end in
      if p_In param =?s "path" then
        if bool_decide (in_PathParams input = ∅) then ret3 VNil false None
        else decode (pathParamDecoder (in_PathParams input))
      else if p_In param =?s "query" then
        match in_Query input with
        | [] => ret3 VNil false None
        | q => decode (urlValuesDecoder q)
        end
      else if p_In param =?s "header" then decode (headerParamDecoder (in_Header input))
      else if p_In param =?s "cookie" then decode (cookieParamDecoder (in_Cookies input))
      else ret3 VNil false (Some (ErrUnsupportedIn (p_In param)))
  end.

(** [json.Unmarshal] into an [any]; [None] is an error. *)
Context (json_Unmarshal : gostring → option value).

(** The [unmarshal] closure: text that is not JSON is kept when the schema is
    not an object. *)
Definition content_unmarshal (param encoded : gostring) (sc : option schema) : result error value :=
  match json_Unmarshal encoded, sc with
  | Some v, _ => Ok v
  | None, Some sc => if types_Is (s_Type sc) "object" then Err (ErrUnmarshal param) else Ok (VStr encoded)
  | None, None => Err (ErrUnmarshal param)
  end.

Fixpoint unmarshal_all (param : gostring) (values : list gostring) (items : option schema)
    (acc : list value) : result error value :=
  match values with
  | [] => Ok (VArr acc)
  | v :: values' =>
      item <-? content_unmarshal param v items ;; unmarshal_all param values' items (acc ++ [item])
  end.

Definition defaultContentParameterDecoder (param : ParameterSpec) (values : list gostring)
  : comp (value * schema) :=
  let fail c := Ret (Err (ErrContent c (p_Name param))) in
  if Nat.ltb 1 (length values) && negb (p_In param =?s "query")
  then fail (CMultipleValues (p_In param))
  else
    match p_content param, p_json param with
    | None, _ => fail CNoContent
    | Some 1, None => fail CNoSchema
    | Some 1, Some None => Panic
    | Some 1, Some (Some sc) =>
        Ret match values with
            | [v] => x <-? content_unmarshal (p_Name param) v (Some sc) ;; Ok (x, sc)
            | _ => x <-? unmarshal_all (p_Name param) values (s_Items sc) [] ;; Ok (x, sc)
            end
    | Some _, _ => fail CManyTypes
    end.

(** [decodeContentParameter] with the default decoder: value, schema, found. *)
Definition decodeContentParameter (param : ParameterSpec) (input : RequestInput)
  : outcome (option (value * schema) * bool * option error) :=
  let name := p_Name param in
  let go (paramValues : option (list gostring)) :=
    match paramValues with
    | None => Ret (None, false, if p_Required param then Some (ErrMissing name) else None)
    | Some vs =>
        r <-! defaultContentParameterDecoder param vs ;;
        Ret match r with
            | Ok r => (Some r, true, None)
            | Err e => (None, true, Some e)
            end
    end in
  if p_In param =?s "path" then go ((λ v, [v]) <$> in_PathParams input !! name)
  else if p_In param =?s "query" then go (obj_get name (in_Query input))
  else if p_In param =?s "header" then go (in_Header input !! CanonicalHeaderKey name)
  else if p_In param =?s "cookie" then go ((λ v, [v]) <$> obj_get name (in_Cookies input))
  else Ret (None, false, Some (ErrUnsupportedContentIn (p_In param))).
End Decoder.
