(* ===== verification/ParamDecoderSpec.v ===== *)
(** Properties of the parameter decoders: round trips of the serialization
    styles, widths of integers, reading and writing nested objects, and where
    decoding panics or gives a value up. *)
From S2P Require Import Prelude GoStrings Values ParamDecoder.

(** * Separators *)

Lemma split_aux_skip sep w s : split_aux sep (length w) (w ++ s) = split_aux sep 0 s.
Proof. induction w as [|c w IH]; [done|]. apply IH. Qed.

(** A separator is found again when its first byte is not in the items. *)
Lemma split_join_sep c w l :
  l ≠ [] → Forall (λ x, c ∉ x) l → split (join l (c :: w)) (c :: w) = l.
Proof.
  intros Hne Hall; unfold split.
  assert (Hone : ∀ x, c ∉ x → split_aux (c :: w) 0 x = [x]).
  { induction x as [|d x IH]; intros Hn; simpl; [done|]. rewrite elem_of_cons in Hn.
    rewrite IH by naive_solver. by rewrite bool_decide_false by naive_solver. }
  assert (Happ : ∀ x s, c ∉ x →
    split_aux (c :: w) 0 (x ++ (c :: w) ++ s) = x :: split_aux (c :: w) 0 s).
  { intros x s. induction x as [|d x IH]; intros Hn.
    - simpl. rewrite bool_decide_true by done. rewrite has_prefix_app. simpl.
      by rewrite Nat.sub_0_r, split_aux_skip.
    - rewrite elem_of_cons in Hn. specialize (IH ltac:(naive_solver)). simpl in *.
      rewrite bool_decide_false by naive_solver. simpl. by rewrite IH. }
  induction Hall as [|x l Hx Hall IH]; [done|]. destruct l as [|y l].
  - by apply Hone.
  - rewrite join_cons2, Happ by done. f_equal. by apply IH.
Qed.

(** Numerals consist of digits and a sign. *)
Lemma format_digits_chars f n tl c :
  c ∈ format_digits f n tl → c ∈ tl ∨ is_digit c = true.
Proof.
  revert n tl. induction f as [|f IH]; intros n tl; simpl; [auto|].
  assert (is_digit (ascii_of_N (Z.to_N (48 + n mod 10))) = true) as Hd.
  { assert (0 ≤ n mod 10 < 10)%Z as Hm by (apply Z.mod_pos_bound; lia).
    unfold is_digit, byte_val. rewrite N_ascii_embedding by lia.
    rewrite Z2N.id by lia. apply andb_true_intro. split; apply Z.leb_le; lia. }
  case_match.
  - rewrite elem_of_cons. intros [->|]; auto.
  - intros [Hin|]%IH; auto. rewrite elem_of_cons in Hin. destruct Hin as [->|]; auto.
Qed.

Lemma itoa_chars z c : c ∈ itoa z → c = "-"%char ∨ is_digit c = true.
Proof.
  unfold itoa. case_match.
  - rewrite elem_of_cons. intros [|[?%not_elem_of_nil|]%format_digits_chars]; auto.
  - intros [?%not_elem_of_nil|]%format_digits_chars; auto.
Qed.

Lemma itoa_nonempty z : itoa z ≠ [].
Proof.
  unfold itoa. case_match; [done|].
  destruct (format_digits_head (S (Z.to_nat (Z.log2 z))) z []) as (m & ds & -> & _); try lia; [|done].
  apply lt_pow10_log2. lia.
Qed.

(** A byte that is neither a digit nor a minus sign is not in a numeral. *)
Lemma itoa_sep c z : is_digit c = false → c ≠ "-"%char → c ∉ itoa z.
Proof. intros Hd Hm [?|?]%itoa_chars; congruence. Qed.

Section Spec.
Context `{FloatPkg} `{TypesPkg}.

(** * Primitives *)

Lemma parse_integer_case raw format :
  parse_types raw (type_schema "integer" format) [str "integer"] (Ok VNil) =
  if format =?s "int32"
  then match parse_int 0 32 raw with
       | Ok v => Ok (VInt32 v) | Err e => Err (invalid_format raw "integer" e) end
  else match parse_int 0 64 raw with
       | Ok v => Ok (VInt64 v) | Err e => Err (invalid_format raw "integer" e) end.
Proof.
  simpl. unfold parsePrimitiveCase. rewrite eqb_str_refl. simpl.
  destruct (format =?s "int32"); repeat case_match; simplify_eq/=; done.
Qed.

Lemma parsePrimitive_nonempty raw sc :
  raw ≠ [] → parsePrimitive raw (Some sc) = Ret (parse_types raw sc (default [] (s_Type sc)) (Ok VNil)).
Proof. intros Hne. unfold parsePrimitive. destruct raw; [done|]. simpl. by rewrite types_Slice_spec. Qed.

Lemma parsePrimitive_itoa z :
  (- 2 ^ 63 ≤ z < 2 ^ 63)%Z →
  parsePrimitive (itoa z) (Some (type_schema "integer" [])) = Ret (Ok (VInt64 z)).
Proof.
  intros Hz. rewrite parsePrimitive_nonempty by apply itoa_nonempty. simpl s_Type. simpl default.
  rewrite parse_integer_case. rewrite (proj2 (eqb_str_false [] _)) by done.
  rewrite parse_int_itoa; auto; lia.
Qed.

Lemma parsePrimitive_string s :
  s ≠ [] → parsePrimitive s (Some (type_schema "string" [])) = Ret (Ok (VStr s)).
Proof. intros Hs. by rewrite parsePrimitive_nonempty by done. Qed.

(** * Arrays *)

Lemma parse_items_ok (parse : gostring → outcome (result error value)) i raw acc vs :
  Forall2 (λ x v, parse x = Ret (Ok v) ∧ is_nil v = false) raw vs →
  parse_items parse i raw acc = Ret (Ok (acc ++ vs)).
Proof.
  intros Hall. revert i acc. induction Hall as [|x v raw vs [Hp Hv] Hall IH]; intros i acc; simpl.
  - by rewrite app_nil_r.
  - rewrite Hp. simpl. rewrite Hv. rewrite IH. by rewrite <- app_assoc.
Qed.

(** After an empty item nothing is looked at: the array is given up without an
    error. *)
Lemma parse_items_empty (parse : gostring → outcome (result error value)) i pre vs post acc :
  Forall2 (λ x v, parse x = Ret (Ok v) ∧ is_nil v = false) pre vs →
  parse [] = Ret (Ok VNil) →
  parse_items parse i (pre ++ [] :: post) acc = Ret (Ok []).
Proof.
  intros Hall Hnil. revert i acc. induction Hall as [|x v pre vs [Hp Hv] Hall IH]; intros i acc; simpl.
  - by rewrite Hnil.
  - rewrite Hp. simpl. rewrite Hv. apply IH.
Qed.

(** A list with the prefix and the delimiter of the decoder is read back. *)
Lemma path_array_delimited pathParams param sm prefix delim (zs : list Z) :
  path_array_delims param sm = Some (prefix, delim) → zs ≠ [] →
  Forall (λ z, - 2 ^ 63 ≤ z < 2 ^ 63)%Z zs →
  pathParams !! param = Some (prefix ++ join (map itoa zs) delim) →
  path_DecodeArray pathParams param sm (array_schema (type_schema "integer" []))
  = Ret (map VInt64 zs, true, None).
Proof.
  intros Hd Hne Hz Hp. unfold path_DecodeArray, path_source. rewrite Hd, Hp.
  assert (∃ c w, delim = c :: w ∧ is_digit c = false ∧ c ≠ "-"%char) as (c & w & -> & Hc & Hm).
  { unfold path_array_delims, matrix_prefix in Hd.
    repeat case_match; simplify_eq/=; eexists _, _; repeat split; done. }
  assert (prefix ++ join (map itoa zs) (c :: w) ≠ []) as Hne'.
  { intros E. apply app_eq_nil in E as [_ E]. destruct zs as [|z zs]; [done|]. simpl in E.
    destruct (map itoa zs).
    - by apply itoa_nonempty in E.
    - by apply app_eq_nil in E as [?%itoa_nonempty _]. }
  destruct (prefix ++ _) as [|x s] eqn:E; [done|]. rewrite <- E.
  assert (cutPrefix (prefix ++ join (map itoa zs) (c :: w)) prefix = Ok (join (map itoa zs) (c :: w))) as ->.
  { unfold cutPrefix. destruct prefix; [done|]. simpl is_empty. cbv iota.
    by rewrite has_prefix_app, drop_app_length. }
  rewrite split_join_sep; [|by destruct zs|].
  - unfold parseArray, finish. rewrite (parse_items_ok _ _ _ _ (map VInt64 zs)); [done|].
    apply Forall2_fmap, Forall_Forall2_diag. eapply Forall_impl; [exact Hz|].
    intros z Hzz. split; [by apply parsePrimitive_itoa|done].
  - apply Forall_map, Forall_forall. intros z _. by apply itoa_sep.
Qed.

(** The serialization of a path array that OpenAPI describes: "3,4,5" (simple),
    ".3,4,5" and exploded ".3.4.5" (label), ";ids=3,4,5" and exploded
    ";ids=3;ids=4;ids=5" (matrix). *)
Inductive path_style := Simple | Label | Matrix.

Definition style_name (st : path_style) : gostring :=
  match st with Simple => "simple" | Label => "label" | Matrix => "matrix" end.

Definition encode_array (st : path_style) (explode : bool) (name : gostring) (items : list gostring) : gostring :=
  match st, explode with
  | Simple, _ => join items ","
  | Label, false => str "." ++ join items ","
  | Label, true => concat (map (λ x, str "." ++ x) items)
  | Matrix, false => str ";" ++ name ++ str "=" ++ join items ","
  | Matrix, true => concat (map (λ x, str ";" ++ name ++ str "=" ++ x) items)
  end.

Lemma concat_prefixed (p : gostring) items :
  items ≠ [] → concat (map (λ x, p ++ x) items) = p ++ join items p.
Proof.
  induction items as [|x items IH]; intros Hne; [done|]. simpl. destruct items as [|y items]; [by rewrite !app_nil_r|].
  rewrite IH by done. simpl. by rewrite !app_assoc.
Qed.

(** C26: every style of path arrays is read back: a non-empty list of 64-bit integers
    in the serialization of the style, simple, label or matrix, exploded or not,
    decodes to the list. *)
Theorem path_array_roundtrip pathParams param st explode (zs : list Z) :
  zs ≠ [] → Forall (λ z, - 2 ^ 63 ≤ z < 2 ^ 63)%Z zs →
  pathParams !! param = Some (encode_array st explode param (map itoa zs)) →
  path_DecodeArray pathParams param (MkSM (style_name st) explode) (array_schema (type_schema "integer" []))
  = Ret (map VInt64 zs, true, None).
Proof.
  intros Hne Hz Hp. assert (map itoa zs ≠ []) as Hne' by (by destruct zs).
  destruct (path_array_delims param (MkSM (style_name st) explode)) as [[prefix delim]|] eqn:Hd;
    [|by destruct st, explode].
  eapply path_array_delimited; [done..|]. rewrite Hp. f_equal.
  assert (∀ x, str ";" ++ param ++ str "=" ++ x = matrix_prefix param ++ x) as Hm.
  { intros x. unfold matrix_prefix. simpl. by rewrite <- app_assoc. }
  destruct st, explode; injection Hd as <- <-; unfold encode_array; try done.
  - by rewrite (concat_prefixed (str ".")).
  - rewrite (map_ext _ _ Hm). by rewrite concat_prefixed.
Qed.

(** An integer parameter has the width of its format: a text that is
    accepted is empty (and gives nil), or gives a 32-bit integer for "int32" and
    a 64-bit one for any other format. *)
Theorem integer_width raw format v :
  parsePrimitive raw (Some (type_schema "integer" format)) = Ret (Ok v) →
  (raw = [] ∧ v = VNil)
  ∨ (format = "int32" ∧ ∃ z, v = VInt32 z ∧ - 2 ^ 31 ≤ z < 2 ^ 31)%Z
  ∨ (format ≠ "int32" ∧ ∃ z, v = VInt64 z ∧ - 2 ^ 63 ≤ z < 2 ^ 63)%Z.
Proof.
  destruct raw as [|c raw]; [simpl; intros [= <-]; auto|].
  rewrite parsePrimitive_nonempty by done. simpl s_Type. simpl default.
  rewrite parse_integer_case. destruct (format =?s "int32") eqn:Hf; intros Hp; right.
  - left. apply eqb_str_true in Hf. split; [done|].
    destruct (parse_int 0 32 (c :: raw)) as [z|] eqn:Hi; [|discriminate Hp]. injection Hp as <-.
    apply parse_int_bound in Hi; [|lia..]. eauto.
  - right. apply eqb_str_false in Hf. split; [done|].
    destruct (parse_int 0 64 (c :: raw)) as [z|] eqn:Hi; [|discriminate Hp]. injection Hp as <-.
    apply parse_int_bound in Hi; [|lia..]. eauto.
Qed.

(** * Nested objects *)

Definition is_map (v : value) : bool := match v with VObj _ => true | _ => false end.

Lemma deepSet_cons2 m k k' ks v :
  deepSet m (k :: k' :: ks) v =
  match default (VObj []) (obj_get k m) with
  | VObj m' => m'' <-! deepSet m' (k' :: ks) v ;; Ret (obj_set k (VObj m'') m)
  | _ => Panic
  end.
Proof. done. Qed.

Lemma deepGet_cons m k ks :
  deepGet m (k :: ks) =
  match obj_get k m with Some (VObj m') => deepGet m' ks | r => r end.
Proof. simpl. by destruct (obj_get k m) as [[]|]. Qed.

Lemma deepSet_get m keys s m' :
  deepSet m keys (VStr s) = Ret m' → deepGet m' keys = Some (VStr s).
Proof.
  revert m m'. induction keys as [|k keys IH]; intros m m'; [discriminate|].
  destruct keys as [|k' keys].
  - intros [= <-]. simpl. by rewrite obj_get_set_eq.
  - cbn [deepSet]. destruct (default _ _) eqn:Hd; try discriminate.
    intros Hs. apply obind_Ret in Hs as (m1 & Hs & [= <-]).
    cbn [deepGet]. rewrite obj_get_set_eq. by apply (IH m0).
Qed.

(** Writing a nested property and reading it back gives the value, and
    the properties under other names are unchanged. *)
Theorem deepSet_deepGet m keys s m' :
  deepSet m keys (VStr s) = Ret m' →
  deepGet m' keys = Some (VStr s) ∧
  ∀ k ks, Some k ≠ head keys → deepGet m' (k :: ks) = deepGet m (k :: ks).
Proof.
  intros Hs. split; [by eapply deepSet_get|]. intros k ks Hk.
  assert (obj_get k m' = obj_get k m) as Hg; [|cbn [deepGet]; by rewrite Hg].
  destruct keys as [|k1 [|k2 keys]]; [discriminate| |].
  - injection Hs as <-. apply obj_get_set_ne. simpl in Hk. congruence.
  - cbn [deepSet] in Hs. destruct (default _ _); try discriminate.
    apply obind_Ret in Hs as (m1 & _ & [= <-]). apply obj_get_set_ne. simpl in Hk. congruence.
Qed.

(** [deepSet] panics exactly when the path runs through a value that is not
    a map (or is empty). *)
Theorem deepSet_panic m keys v :
  deepSet m keys v = Panic ↔
  keys = [] ∨ ∃ x, deepGet m (removelast keys) = Some x ∧ is_map x = false.
Proof.
  revert m. induction keys as [|k keys IH]; intros m; [simpl; naive_solver|].
  destruct keys as [|k' keys].
  - simpl. split; [discriminate|]. intros [?|(x & [= <-] & ?)]; done.
  - change (removelast (k :: k' :: keys)) with (k :: removelast (k' :: keys)).
    rewrite deepSet_cons2, deepGet_cons.
    destruct (obj_get k m) as [[]|] eqn:Hg; cbv beta iota delta [from_option id]; try (split; [intros _; right; eauto|done]).
    + rewrite obind_Panic, IH. naive_solver.
    + rewrite obind_Panic, IH. split.
      * intros [[?|(x & Hx & Hm)]|(a & _ & ?)]; [done| |done]. exfalso.
        destruct (removelast (k' :: keys)); simpl in Hx; by simplify_eq.
      * intros [?|(x & ? & _)]; done.
Qed.

(** * Objects *)

(** The text of an object in a style with delimiters [pd] and [vd]. *)
Definition encode_props (pd vd : ascii) (kvs : list (gostring * gostring)) : gostring :=
  if bool_decide (pd = vd)
  then join (concat (map (λ kv, [kv.1; kv.2]) kvs)) [pd]
  else join (map (λ kv, kv.1 ++ vd :: kv.2) kvs) [pd].

(** Names and values without delimiters. *)
Definition clean (pd vd : ascii) (x : gostring) : Prop :=
  x ≠ [] ∧ pd ∉ x ∧ vd ∉ x ∧ urlDecoderDelimiter ∉ x.

Lemma pair_up_concat kvs acc :
  pair_up (concat (map (λ kv, [kv.1; kv.2]) kvs)) acc = fold_left (λ acc kv, obj_set kv.1 kv.2 acc) kvs acc.
Proof. revert acc. induction kvs as [|[k v] kvs IH]; intros acc; simpl; [done|]. apply IH. Qed.

Lemma split_props_map vd kvs acc :
  Forall (λ kv, vd ∉ kv.1 ∧ vd ∉ kv.2) kvs →
  split_props (map (λ kv, kv.1 ++ vd :: kv.2) kvs) [vd] acc
  = Some (fold_left (λ acc kv, obj_set kv.1 kv.2 acc) kvs acc).
Proof.
  intros Hall. revert acc. induction Hall as [|[k v] kvs [Hk Hv] Hall IH]; intros acc; simpl; [done|].
  simpl in Hk, Hv. unfold split. rewrite split_aux_app_sep, split_aux_no_sep by done. apply IH.
Qed.

Lemma propsFromString_encode pd vd kvs :
  kvs ≠ [] → NoDup kvs.*1 →
  Forall (λ kv, clean pd vd kv.1 ∧ clean pd vd kv.2) kvs →
  propsFromString (encode_props pd vd kvs) [pd] [vd] = Ok kvs.
Proof.
  intros Hne Hnd Hall. unfold propsFromString, encode_props.
  assert (fold_left (λ acc kv, obj_set kv.1 kv.2 acc) kvs [] = kvs) as Hfold by (by rewrite obj_set_fold).
  destruct (decide (pd = vd)) as [->|Hpv].
  - rewrite bool_decide_true, eqb_str_refl by done. rewrite split_join.
    + rewrite pair_up_concat, Hfold.
      assert (Nat.odd (length (concat (map (λ kv : gostring * gostring, [kv.1; kv.2]) kvs))) = false) as ->;
        [|done]. clear. induction kvs as [|kv kvs IH]; [done|]. simpl. by rewrite Nat.odd_succ_succ.
    + by destruct kvs.
    + clear -Hall. induction Hall as [|kv kvs [(_ & Hk & _) (_ & Hv & _)] Hall IH]; simpl;
        repeat constructor; done.
  - rewrite bool_decide_false by done. rewrite (proj2 (eqb_str_false [pd] [vd])) by congruence.
    rewrite split_join.
    + rewrite split_props_map, Hfold; [done|]. eapply Forall_impl; [exact Hall|].
      intros kv [(_ & _ & ? & _) (_ & _ & ? & _)]. done.
    + by destruct kvs.
    + apply Forall_map. eapply Forall_impl; [exact Hall|].
      intros kv [(_ & Hk & _) (_ & Hv & _)]. rewrite elem_of_app, elem_of_cons. naive_solver.
Qed.

Lemma contains_single_false c s : c ∉ s → contains s [c] = false.
Proof.
  intros Hn. unfold contains. apply bool_decide_eq_false.
  assert (index_str s [c] = None) as ->; [|by intros [? ?]].
  induction s as [|d s IH]; [done|]. rewrite elem_of_cons in Hn. cbn [index_str has_prefix].
  rewrite bool_decide_false by naive_solver. simpl. by rewrite IH by naive_solver.
Qed.

Lemma set_props_flat kvs m :
  NoDup (m.*1 ++ kvs.*1) →
  Forall (λ kv, urlDecoderDelimiter ∉ kv.1 ∧ urlDecoderDelimiter ∉ kv.2) kvs →
  set_props kvs m = Ret (Ok (m ++ map (λ kv, (kv.1, VStr kv.2)) kvs)).
Proof.
  intros Hnd Hall. revert m Hnd. induction Hall as [|[k v] kvs [Hk Hv] Hall IH]; intros m Hnd.
  - by rewrite app_nil_r.
  - simpl in Hk, Hv. cbn [set_props]. rewrite contains_single_false by done.
    unfold split. rewrite split_aux_no_sep by done. cbn [deepSet obind].
    rewrite fmap_cons in Hnd. simpl in Hnd.
    rewrite obj_set_keys_new.
    + rewrite IH.
      * simpl. by rewrite <- app_assoc.
      * rewrite fmap_app. simpl. by rewrite <- app_assoc.
    + apply NoDup_app in Hnd as (_ & Hd & _). intros Hin. apply (Hd _ Hin). left.
Qed.

(** The object built from flat string properties by a schema that has them. *)
Lemma buildResObj_flat params kvs :
  Forall (λ kv, kv.1 ≠ [] ∧ kv.2 ≠ [] ∧ obj_get kv.1 params = Some (VStr kv.2)) kvs → NoDup kvs.*1 →
  buildResObj params (object_schema (map (λ kv, (kv.1, type_schema "string" [])) kvs)) [] []
  = Ret (Ok (VObj (map (λ kv, (kv.1, VStr kv.2)) kvs))).
Proof.
  intros Hall Hnd. unfold object_schema. cbn [buildResObj is_empty].
  assert (types_Is (Some [str "object"]) "array" = false) as Ha.
  { apply not_true_is_false. rewrite types_Is_spec. by intros [=]. }
  assert (types_Is (Some [str "object"]) "object" = true) as Ho by (by apply types_Is_spec).
  assert (types_Is (Some [str "string"]) "array" = false) as Hsa.
  { apply not_true_is_false. rewrite types_Is_spec. by intros [=]. }
  assert (types_Is (Some [str "string"]) "object" = false) as Hso.
  { apply not_true_is_false. rewrite types_Is_spec. by intros [=]. }
  rewrite Ha, Ho. cbn [deepGet].
  match goal with |- cbind (?g _ []) _ = _ => set (go := g) end.
  assert (∀ acc, NoDup (acc.*1 ++ kvs.*1) →
    go (map (λ kv, (kv.1, type_schema "string" [])) kvs) acc
    = Ret (Ok (acc ++ map (λ kv, (kv.1, VStr kv.2)) kvs))) as Hgo.
  2:{ rewrite (Hgo []) by done. done. }
  clear Hnd. induction Hall as [|[k v] kvs (Hk & Hv & Hg) Hall IH]; intros acc Hnd.
  - simpl. by rewrite app_nil_r.
  - simpl in Hk, Hv, Hg. cbn [map fst]. unfold go at 1. fold go.
    assert (buildResObj params (type_schema "string" []) [] k = Ret (Ok (VStr v))) as ->.
    { unfold type_schema. cbn [buildResObj]. rewrite Hsa, Hso.
      destruct k as [|c k]; [done|]. cbn [is_empty deepGet app]. rewrite Hg.
      fold (type_schema "string" []). by rewrite parsePrimitive_string. }
    cbn [obind is_nil]. rewrite fmap_cons in Hnd. simpl in Hnd.
    rewrite obj_set_keys_new.
    + rewrite IH.
      * simpl. by rewrite <- app_assoc.
      * rewrite fmap_app. simpl. by rewrite <- app_assoc.
    + apply NoDup_app in Hnd as (_ & Hd & _). intros Hin. apply (Hd _ Hin). left.
Qed.

Lemma obj_get_NoDup {A} (m : list (gostring * A)) k v :
  NoDup m.*1 → (k, v) ∈ m → obj_get k m = Some v.
Proof.
  induction m as [|[k1 v1] m IH]; [by intros _ ?%not_elem_of_nil|].
  rewrite fmap_cons, NoDup_cons, elem_of_cons. intros [Hn Hnd] [[= -> ->]|Hin]; simpl.
  - by rewrite eqb_str_refl.
  - destruct (k =?s k1) eqn:E; [|by apply IH]. apply eqb_str_true in E as ->.
    destruct Hn. apply list_elem_of_fmap. by exists (k1, v).
Qed.

Lemma makeObject_flat kvs pd vd :
  NoDup kvs.*1 → Forall (λ kv, clean pd vd kv.1 ∧ clean pd vd kv.2) kvs →
  makeObject kvs (object_schema (map (λ kv, (kv.1, type_schema "string" [])) kvs))
  = Ret (Ok (map (λ kv, (kv.1, VStr kv.2)) kvs)).
Proof.
  intros Hnd Hall. unfold makeObject. rewrite set_props_flat; [|done|].
  - cbn [cbind obind app]. rewrite buildResObj_flat; [done| |done].
    apply Forall_forall. intros [k v] Hin. rewrite Forall_forall in Hall.
    destruct (Hall _ Hin) as [(Hk & _) (Hv & _)]. split; [done|]. split; [done|].
    simpl. apply obj_get_NoDup.
    + rewrite <- list_fmap_compose. exact Hnd.
    + apply list_elem_of_fmap. by exists (k, v).
  - eapply Forall_impl; [exact Hall|]. intros kv [(_ & _ & _ & ?) (_ & _ & _ & ?)]. done.
Qed.

(** Every style of path objects is read back: properties with distinct
    names, printed with the delimiters of the style, decode to the object, for
    the styles simple, label and matrix, exploded or not. *)
Theorem path_object_roundtrip pathParams param sm prefix pd vd kvs :
  path_object_delims param sm = Some (prefix, [pd], [vd]) →
  kvs ≠ [] → NoDup kvs.*1 → Forall (λ kv, clean pd vd kv.1 ∧ clean pd vd kv.2) kvs →
  pathParams !! param = Some (prefix ++ encode_props pd vd kvs) →
  path_DecodeObject pathParams param sm
    (object_schema (map (λ kv, (kv.1, type_schema "string" [])) kvs))
  = Ret (Some (map (λ kv, (kv.1, VStr kv.2)) kvs), true, None).
Proof.
  intros Hd Hne Hnd Hall Hp. unfold path_DecodeObject, path_source. rewrite Hd, Hp.
  pose proof (propsFromString_encode pd vd kvs Hne Hnd Hall) as Hprops.
  assert (cutPrefix (prefix ++ encode_props pd vd kvs) prefix = Ok (encode_props pd vd kvs)) as Hcut.
  { unfold cutPrefix. destruct prefix; [done|]. simpl is_empty. cbv iota.
    by rewrite has_prefix_app, drop_app_length. }
  assert (encode_props pd vd kvs ≠ []) as Henc.
  { intros E. rewrite E in Hprops. unfold propsFromString in Hprops. simpl in Hprops.
    destruct kvs as [|[k v] kvs]; [done|].
    by destruct ([pd] =?s [vd]). }
  destruct (prefix ++ encode_props pd vd kvs) as [|x s] eqn:E.
  { by apply app_eq_nil in E as [_ ?]. }
  rewrite Hcut, Hprops. rewrite (makeObject_flat kvs pd vd) by done. done.
Qed.

(** * Values that are given up *)

(** In a comma-separated query array everything after an empty item is
    ignored: whatever follows, the decoded value is nil and there is no error. *)
Theorem query_array_after_empty values param (zs : list Z) xs required :
  obj_get param values = Some [join (map itoa zs ++ [] :: xs) ","] →
  Forall (λ z, - 2 ^ 63 ≤ z < 2 ^ 63)%Z zs → Forall (λ x, ","%char ∉ x) xs →
  decodeValue (urlValuesDecoder values) param (MkSM "form" false)
    (array_schema (type_schema "integer" [])) required
  = Ret (VNil, true, None).
Proof.
  intros Hg Hz Hs. unfold decodeValue, array_schema. fold (array_schema (type_schema "integer" [])).
  assert (types_Is (Some [str "array"]) "array" = true) as -> by (by apply types_Is_spec).
  cbn [DecodeArray urlValuesDecoder]. unfold url_DecodeArray. rewrite Hg.
  rewrite (proj2 (eqb_str_false _ _)) by done. rewrite eqb_str_refl. cbn [sm_Explode].
  change (str ",") with [","%char]. rewrite split_join_sep.
  - unfold url_parseArray, finish. rewrite (parse_items_empty _ _ _ (map VInt64 zs)); [done| |done].
    apply Forall2_fmap, Forall_Forall2_diag. eapply Forall_impl; [exact Hz|].
    intros z Hzz. split; [by apply (parsePrimitive_itoa z)|done].
  - by destruct (map itoa zs).
  - apply Forall_app. split; [|constructor; [apply not_elem_of_nil|done]].
    apply Forall_map, Forall_forall. intros z _. by apply itoa_sep.
Qed.

(** The array built for one index [n] has [n + 1] items, for every index of
    64 bits: its size is not bounded by the size of the request. *)
Theorem sliceMapToSlice_size n v :
  (0 ≤ n < 2 ^ 63)%Z →
  ∃ l, sliceMapToSlice [(itoa n, v)] = Ok l ∧ length l = Z.to_nat (n + 1)
       ∧ l !! Z.to_nat n = Some v ∧ ∀ i, i < Z.to_nat n → l !! i = Some VNil.
Proof.
  intros Hn. unfold sliceMapToSlice. cbn [atoi_keys]. unfold atoi.
  rewrite parse_int_itoa; [|auto|lia|lia]. cbn [rbind fold_left].
  destruct (Z.ltb_spec (-1) n); [|lia]. eexists. split; [done|].
  assert (∀ i, i < Z.to_nat (n + 1) →
    map (λ i, default VNil (obj_get (itoa (Z.of_nat i)) [(itoa n, v)])) (seq 0 (Z.to_nat (n + 1))) !! i
    = Some (default VNil (obj_get (itoa (Z.of_nat i)) [(itoa n, v)]))) as Hlk.
  { intros i Hi. rewrite list_lookup_fmap, lookup_seq_lt by done. done. }
  split; [by rewrite length_map, length_seq|]. split.
  - rewrite Hlk by lia. rewrite Z2Nat.id by lia. simpl. by rewrite eqb_str_refl.
  - intros i Hi. rewrite Hlk by lia. simpl. rewrite (proj2 (eqb_str_false _ _)); [done|].
    intros E. apply (f_equal (parse_int 10 64)) in E.
    rewrite !parse_int_itoa in E; [|auto|lia|lia..]. injection E as E. lia.
Qed.
End Spec.

(** * Witnesses *)

(** Decimal floating-point numbers are not needed by the witnesses: no text is
    a float. *)
Definition no_floats : FloatPkg := {|
  float64 := Empty_set;
  ParseFloat _ := Err ErrSyntax;
  float_eqb _ _ := true
|}.

Lemma path_array_roundtrip_witness :
  path_DecodeArray (H := no_floats) {[ str "ids" := str ";ids=1;ids=-20;ids=300" ]} "ids"
    (MkSM "matrix" true) (array_schema (type_schema "integer" []))
  = Ret (map (VInt64 (H := no_floats)) [1; -20; 300]%Z, true, None).
Proof.
  apply (path_array_roundtrip (H := no_floats) {[ str "ids" := str ";ids=1;ids=-20;ids=300" ]}
           "ids" Matrix true [1; -20; 300]%Z);
    [done|repeat constructor; lia|by vm_compute].
Defined.

Lemma integer_width_witness :
  VInt32 (H := no_floats) 2147483647 = VInt32 2147483647 ∧
  (∃ z, VInt32 (H := no_floats) 2147483647 = VInt32 z ∧ - 2 ^ 31 ≤ z < 2 ^ 31)%Z.
Proof.
  destruct (integer_width (H := no_floats) "2147483647" "int32" (VInt32 2147483647))
    as [[? _]|[[_ Hz]|[Hf _]]]; [by vm_compute|done|by split|by destruct Hf].
Defined.

Lemma deepSet_deepGet_witness :
  deepGet (H := no_floats) [(str "a", VObj [(str "b", VStr "1")])] [str "a"; str "b"] = Some (VStr "1").
Proof.
  apply (deepSet_deepGet (H := no_floats) [] [str "a"; str "b"] "1"); by vm_compute.
Defined.

Lemma path_object_roundtrip_witness :
  path_DecodeObject (H := no_floats) {[ str "p" := str ".role=admin.name=bob" ]} "p" (MkSM "label" true)
    (object_schema [(str "role", type_schema "string" []); (str "name", type_schema "string" [])])
  = Ret (Some [(str "role", VStr (H := no_floats) "admin"); (str "name", VStr "bob")], true, None).
Proof.
  apply (path_object_roundtrip (H := no_floats) {[ str "p" := str ".role=admin.name=bob" ]} "p"
           (MkSM "label" true) "." "."%char "="%char
           [(str "role", str "admin"); (str "name", str "bob")]);
    [done|done| | |by vm_compute].
  - by apply (bool_decide_unpack _).
  - repeat constructor; by apply (bool_decide_unpack _).
Defined.

Lemma query_array_after_empty_witness :
  decodeValue (H := no_floats) (urlValuesDecoder [(str "ids", [str "7,,DROP TABLE"])]) "ids"
    (MkSM "form" false) (array_schema (type_schema "integer" [])) true
  = Ret (VNil, true, None).
Proof.
  apply (query_array_after_empty (H := no_floats) [(str "ids", [str "7,,DROP TABLE"])] "ids"
           [7%Z] [str "DROP TABLE"] true);
    [by vm_compute|repeat constructor; lia|].
  repeat constructor; by apply (bool_decide_unpack _).
Defined.

Lemma sliceMapToSlice_size_witness :
  ∃ l, sliceMapToSlice (H := no_floats) [(str "3", VStr "x")] = Ok l ∧ length l = 4.
Proof.
  destruct (sliceMapToSlice_size (H := no_floats) 3 (VStr "x")) as (l & Hl & Hlen & _); [lia|].
  exists l. split; [exact Hl|exact Hlen].
Defined.

(** A deepObject parameter given both as a value and as an object: one order of
    the map iteration panics, the other overwrites. *)
Example deep_object_conflict :
  let p := str "a" in let q := str "a" ++ urlDecoderDelimiter :: str "b" in
  set_props (H := no_floats) [(p, str "1"); (q, str "2")] [] = Panic
  ∧ set_props (H := no_floats) [(q, str "2"); (p, str "1")] [] = Ret (Ok [(p, VStr "1")])
  ∧ deep_props "o" [(str "o[a]", [str "1"]); (str "o[a][b]", [str "2"])] []
    = [(p, str "1"); (q, str "2")].
Proof. vm_compute. done. Qed.

(** Integers are read with base detection: a leading zero is octal. *)
Example integer_octal :
  let sc := Some (type_schema "integer" []) in
  parsePrimitive (H := no_floats) "010" sc = Ret (Ok (VInt64 8))
  ∧ parsePrimitive (H := no_floats) "0x1F" sc = Ret (Ok (VInt64 31))
  ∧ (∃ e, parsePrimitive (H := no_floats) "08" sc = Ret (Err e)).
Proof. vm_compute. eauto. Qed.
