(* ===== verification/BodyDecoder.v ===== *)
(** Decoding of bodies (internal/platform/validator/req_resp_decoder.go and
    internal.go): the registry of decoders by media type and suffix, and the
    decoders of each format.

    The parsers the decoders call (fastjson, mxj, yaml.v3, mime, multipart,
    archive/zip and encoding/csv) are parameters: what they return for a body. *)
From S2P Require Import Prelude GoStrings Values ParamDecoder.

(** [parseMediaType]: media type and suffix of a content type. *)
Definition parseMediaType (contentType : gostring) : gostring * gostring :=
  let mediaType :=
    match index_byte contentType ";" with
    | Some i => trim_space (take i contentType)
    | None => contentType
    end in
  let mtSubtype := match index_byte mediaType "/" with Some i => drop (i + 1) mediaType | None => [] end in
  let suffix := match last_index_byte mtSubtype "+" with Some i => drop i mtSubtype | None => [] end in
  (mediaType, suffix).

(** [Contains]. *)
Definition Contains {A} `{EqDecision A} (elems : list A) (v : A) : bool :=
  existsb (λ s, bool_decide (v = s)) elems.

(** * The registry *)

(** The built-in decoders, and the ones registered by clients. *)
Inductive decoder_name :=
| jsonBodyDecoder | xmlBodyDecoder | yamlBodyDecoder | csvBodyDecoder | plainBodyDecoder
| zipFileBodyDecoder | FileBodyDecoder | urlencodedBodyDecoder | multipartBodyDecoder.
#[export] Instance decoder_name_eq_dec : EqDecision decoder_name.
Proof. solve_decision. Defined.

Notation registry := (gmap gostring decoder_name).

Definition RegisteredBodyDecoder (reg : registry) (contentType : gostring) : option decoder_name :=
  reg !! contentType.

Definition RegisterBodyDecoder (reg : registry) (contentType : gostring) (d : option decoder_name)
  : outcome registry :=
  match contentType, d with
  | _ :: _, Some d => Ret (<[contentType := d]> reg)
  | _, _ => Panic
  end.

Definition RegisterBodyDecoderSuffix (reg : registry) (suffix : gostring) (d : option decoder_name)
  : outcome registry :=
  match suffix, d with
  | _ :: _, Some d => Ret (<[suffix := d]> reg)
  | _, _ => Panic
  end.

Definition UnregisterBodyDecoder (reg : registry) (contentType : gostring) : outcome registry :=
  match contentType with [] => Panic | _ => Ret (delete contentType reg) end.

(** The registrations of [init]. *)
Definition init_registrations : list (gostring * decoder_name) :=
  [(str "+json", jsonBodyDecoder); (str "+xml", xmlBodyDecoder); (str "+yaml", yamlBodyDecoder);
   (str "+csv", csvBodyDecoder); (str "+plain", plainBodyDecoder); (str "+zip", zipFileBodyDecoder);
   (str "image/png", FileBodyDecoder); (str "image/jpeg", FileBodyDecoder);
   (str "image/gif", FileBodyDecoder); (str "image/webp", FileBodyDecoder);
   (str "image/avif", FileBodyDecoder); (str "image/heic", FileBodyDecoder);
   (str "image/heif", FileBodyDecoder); (str "image/bmp", FileBodyDecoder);
   (str "image/tiff", FileBodyDecoder); (str "image/svg+xml", FileBodyDecoder);
   (str "application/json", jsonBodyDecoder); (str "application/xml", xmlBodyDecoder);
   (str "application/json-patch+json", jsonBodyDecoder);
   (str "application/octet-stream", FileBodyDecoder);
   (str "application/problem+json", jsonBodyDecoder);
   (str "application/x-www-form-urlencoded", urlencodedBodyDecoder);
   (str "application/x-yaml", yamlBodyDecoder); (str "application/yaml", yamlBodyDecoder);
   (str "application/zip", zipFileBodyDecoder); (str "multipart/form-data", multipartBodyDecoder);
   (str "text/csv", csvBodyDecoder); (str "text/plain", plainBodyDecoder)].

Fixpoint register_all (reg : registry) (l : list (gostring * decoder_name)) : outcome registry :=
  match l with
  | [] => Ret reg
  | (ct, d) :: l' => reg <-! RegisterBodyDecoder reg ct (Some d) ;; register_all reg l'
  end.

Definition init_registry : outcome registry := register_all ∅ init_registrations.

Section Body.
Context `{FloatPkg} `{TypesPkg}.
Notation comp A := (outcome (result error A)).

Definition getBodyDecoder (reg : registry) (mediaType suffix : gostring) : result error decoder_name :=
  let by_type :=
    match reg !! mediaType with
    | Some d => Ok d
    | None => Err (ParseError KindUnsupportedFormat VNil (RUnsupportedCT mediaType) None [])
    end in
  match suffix with
  | [] => by_type
  | _ => match reg !! suffix with Some d => Ok d | None => by_type end
  end.

(** * JSON values *)

(** What fastjson parses, and [convertToMap].  The entries of an object are in
    the order of the text and may repeat a key. *)
Inductive fjson :=
| JObject (l : list (gostring * fjson))
| JArray (l : list fjson)
| JNumber (s : gostring)
| JString (s : gostring)
| JBool (b : bool)
| JNull.

Fixpoint convertToMap (v : fjson) : value :=
  match v with
  | JObject l =>
      VObj ((fix go (l : list (gostring * fjson)) (m : list (gostring * value)) :=
               match l with
               | [] => m
               | (k, x) :: l' => go l' (obj_set k (convertToMap x) m)
               end) l [])
  | JArray l =>
      match l with [] => VNilArr | _ => VArr (map convertToMap l) end
  | JNumber s => VNumber s
  | JString s => VStr s
  | JBool b => VBool b
  | JNull => VNil
  end.

(** * The decoders *)

(** A part of a multipart body: form name, header, content. *)
Record part := MkPart {
  pt_name : gostring;
  pt_header : gmap gostring (list gostring);
  pt_body : gostring
}.

(** The parsers of the libraries; an error is its text. *)
Record parsers := MkParsers {
  fastjson_Parse : gostring → result gostring fjson;
  mxj_NewMapXml : gostring → result gostring value;
  yaml_Decode : gostring → result gostring value;
  csv_Read : gostring → result gostring (list (list gostring));
  (** Files of an archive, each as the sequence of its reads, or the error of
      [zip.NewReader], of [Open] or of [Read]. *)
  zip_files : gostring → result gostring (list (list gostring));
  mime_ParseMediaType : gostring → result gostring (gmap gostring gostring);
  (** The parts for a boundary that can be read, in order, and the error that
      ends them, [None] for [io.EOF]. *)
  multipart_parts : gostring → gostring → list part * option gostring
}.
Context (lib : parsers).

Definition invalid_body (e : error) : error := ParseError KindInvalidFormat VNil RNone (Some e) [].

(** The result of a parser, its error wrapped or not. *)
Definition lib_parsed {A} (r : result gostring A) : result error A :=
  match r with Ok a => Ok a | Err msg => Err (invalid_body (ErrLib msg)) end.
Definition lib_result {A} (r : result gostring A) : result error A :=
  match r with Ok a => Ok a | Err msg => Err (ErrLib msg) end.

(** [header.Get]. *)
Definition header_Get (h : gmap gostring (list gostring)) (k : gostring) : gostring :=
  match h !! CanonicalHeaderKey k with Some (v :: _) => v | _ => [] end.

(** [csvBodyDecoder]: the records joined again. *)
Definition csv_join (records : list (list gostring)) : gostring :=
  concat (map (λ r, join r "," ++ ["010"%char]) records).

(** The read loop of [zipFileBodyDecoder]: one buffer of 256 bytes for all
    reads, appended whole after each read. *)
Definition zip_buffer_size : nat := 256.

Definition zip_read (buffer chunk : gostring) : gostring := chunk ++ drop (length chunk) buffer.

Fixpoint zip_loop (buffer : gostring) (chunks : list gostring) (content : gostring)
  : gostring * gostring :=
  match chunks with
  | [] => (buffer, content)
  | chunk :: chunks' =>
      let buffer := zip_read buffer chunk in
      zip_loop buffer chunks' (if is_empty chunk then content else content ++ buffer)
  end.

Fixpoint zip_content (buffer : gostring) (files : list (list gostring)) (content : gostring)
  : gostring :=
  match files with
  | [] => content
  | f :: files' =>
      let '(buffer, content) := zip_loop buffer f content in zip_content buffer files' content
  end.

(** [multipartPartBodyDecoder]: a part without content type. *)
Definition multipartPartBodyDecoder (data : gostring) (sc : schema) : result error value :=
  if types_Is (s_Type sc) "integer" || types_Is (s_Type sc) "number" then
    match ParseFloat data with Ok f => Ok (VFloat f)
    | Err e => Err (invalid_body (ErrStrconv "ParseFloat" data e)) end
  else if types_Is (s_Type sc) "boolean" then
    match parse_bool data with Some b => Ok (VBool b)
    | None => Err (invalid_body (ErrStrconv "ParseBool" data ErrSyntax)) end
  else Ok (VStr data).

(** The check of the properties in [urlencodedBodyDecoder]. *)
Fixpoint urlencoded_props_ok (props : list (gostring * schema)) : comp unit :=
  match props with
  | [] => Ret (Ok ())
  | (name, p) :: props' =>
      if types_Is (s_Type p) "object" then Ret (Err (ErrSchemaOfBody (Some name)))
      else if types_Is (s_Type p) "array" then
        match s_Items p with
        | None => Panic
        | Some it =>
            let t := s_Type it in
            if types_Is t "string" || types_Is t "integer" || types_Is t "number" || types_Is t "boolean"
            then urlencoded_props_ok props' else Ret (Err (ErrSchemaOfBody (Some name)))
        end
      else urlencoded_props_ok props'
  end.

(** [url.ParseQuery]: [None] when a pair is malformed. *)
Fixpoint parse_query_loop (pairs : list gostring) (m : list (gostring * list gostring))
  : option (list (gostring * list gostring)) :=
  match pairs with
  | [] => Some m
  | kv :: pairs' =>
      match parse_pair kv with
      | None => None
      | Some None => parse_query_loop pairs' m
      | Some (Some (k, v)) =>
          parse_query_loop pairs' (obj_set k (default [] (obj_get k m) ++ [v]) m)
      end
  end.
Definition ParseQuery (query : gostring) : option (list (gostring * list gostring)) :=
  parse_query_loop (split query "&") [].

(** [decodeProperty]; [encFn] gives the serialization method of a property. *)
Definition decodeProperty (dec : valueDecoder) (name : gostring) (prop : schema)
    (encFn : gostring → SerializationMethod) : outcome (value * bool * option error) :=
  decodeValue dec name (encFn name) prop false.

(** The loop over the properties of one schema in [decodeSchemaConstructs]. *)
Fixpoint decode_props (dec : valueDecoder) (encFn : gostring → SerializationMethod)
    (props : list (gostring * schema)) (obj : list (gostring * value))
  : comp (list (gostring * value)) :=
  match props with
  | [] => Ret (Ok obj)
  | (name, prop) :: props' =>
      '(val, _, err) <-! decodeProperty dec name prop encFn ;;
      match err with
      | Some _ => decode_props dec encFn props' obj
      | None =>
          match obj_get name obj with
          | Some existing =>
              if isEqual existing val then decode_props dec encFn props' (obj_set name val obj)
              else Ret (Err (ErrConflict name))
          | None => decode_props dec encFn props' (obj_set name val obj)
          end
      end
  end.

(** [decodeSchemaConstructs] for one schema, and for a list. *)
Fixpoint decode_construct (dec : valueDecoder) (encFn : gostring → SerializationMethod)
    (sc : schema) (obj : list (gostring * value)) {struct sc} : comp (list (gostring * value)) :=
  let 'MkSchema _ _ _ _ props _ _ allOf anyOf oneOf _ _ := sc in
  let go :=
    (fix go (l : list schema) (obj : list (gostring * value)) : comp (list (gostring * value)) :=
       match l with
       | [] => Ret (Ok obj)
       | s :: l' => cbind (decode_construct dec encFn s obj) (go l')
       end) in
  cbind (go allOf obj) (λ obj,
  cbind (go anyOf obj) (λ obj,
  cbind (go oneOf obj) (λ obj,
  decode_props dec encFn props obj))).

Fixpoint decodeSchemaConstructs (dec : valueDecoder) (encFn : gostring → SerializationMethod)
    (schemas : list schema) (obj : list (gostring * value)) : comp (list (gostring * value)) :=
  match schemas with
  | [] => Ret (Ok obj)
  | s :: l' => cbind (decode_construct dec encFn s obj) (decodeSchemaConstructs dec encFn l')
  end.

Definition urlencoded_decode (body : gostring) (sc : schema) (encFn : gostring → SerializationMethod)
  : comp value :=
  if negb (types_Is (s_Type sc) "object") then Ret (Err (ErrSchemaOfBody None))
  else
    cbind (urlencoded_props_ok (s_Properties sc)) (λ _,
    match ParseQuery body with
    | None => Ret (Err (ErrQuery body))
    | Some values =>
        let dec := urlValuesDecoder values in
        cbind (decodeSchemaConstructs dec encFn (s_AllOf sc) []) (λ obj,
        cbind (decodeSchemaConstructs dec encFn (s_AnyOf sc) obj) (λ obj,
        cbind (decodeSchemaConstructs dec encFn (s_OneOf sc) obj) (λ obj,
        cbind (decodeSchemaConstructs dec encFn [sc] obj) (λ obj, Ret (Ok (VObj obj))))))
    end).

(** The schema of a part in [multipartBodyDecoder]: [Ok None] is a part to skip
    ([additionalProperties: true]). *)
Definition part_undefined (name : gostring) : error :=
  ParseError KindOther VNil RNone (Some (ErrUndefinedPart name)) [].

Definition part_schema (sc : schema) (name : gostring) : comp (option schema) :=
  match s_AllOf sc with
  | (_ :: _) as allOf =>
      match fold_left (λ acc sr, match acc with Some s => Some s | None => obj_get name (s_Properties sr) end)
              allOf None with
      | Some s => Ret (Ok (Some s))
      | None => Ret (Err (part_undefined name))
      end
  | [] =>
      let found (s : schema) : comp (option schema) :=
        if types_Is (s_Type s) "array"
        then match s_Items s with Some it => Ret (Ok (Some it)) | None => Panic end
        else Ret (Ok (Some s)) in
      match obj_get name (s_Properties sc) with
      | Some s => found s
      | None =>
          match s_AdditionalHas sc with
          | Some true => Ret (Ok None)
          | Some false => Ret (Err (part_undefined name))
          | None =>
              match s_AdditionalSchema sc with
              | None => Ret (Err (part_undefined name))
              | Some a =>
                  match obj_get name (s_Properties a) with
                  | Some s => found s
                  | None => Ret (Err (part_undefined name))
                  end
              end
          end
      end
  end.

(** The properties the object is made from. *)
Definition all_properties (sc : schema) : list (gostring * schema) :=
  let add := fold_left (λ acc kv, obj_set kv.1 kv.2 acc) in
  let one acc s :=
    let acc := add (s_Properties s) acc in
    match s_AdditionalSchema s with Some a => add (s_Properties a) acc | None => acc end in
  match s_AllOf sc with
  | [] => one [] sc
  | allOf => fold_left one allOf []
  end.

(** The object made from the values of the parts. *)
Definition parts_object (sc : schema) (values : list (gostring * list value))
  : list (gostring * value) :=
  fold_left (λ obj np,
    match obj_get np.1 values with
    | None | Some [] => obj
    | Some ((v :: _) as vv) =>
        obj_set np.1 (if types_Is (s_Type np.2) "array" then VArr vv else v) obj
    end) (all_properties sc) [].

(** [parsePrimitive(value.(string), valueSchema)] for a part without content
    type or with "text/plain": the assertion fails when the part was decoded
    to something else. *)
Definition part_primitive (val : value) (sc : schema) : comp value :=
  match val with
  | VStr s => parsePrimitive s (Some sc)
  | _ => Panic
  end.

(** The loop of [multipartBodyDecoder] over the parts; [dec] decodes the body
    of a part. *)
Section Parts.
Context (dec : gostring → gmap gostring (list gostring) → schema
               → (gostring → SerializationMethod) → comp (gostring * value))
  (sc : schema) (encFn : gostring → SerializationMethod) (eof : option gostring).

Fixpoint decode_parts (ps : list part) (values : list (gostring * list value)) : comp value :=
  match ps with
  | [] => Ret match eof with None => Ok (VObj (parts_object sc values)) | Some msg => Err (ErrLib msg) end
  | p :: ps' =>
      let name := pt_name p in
      cbind (part_schema sc name) (λ os,
      match os with
      | None => decode_parts ps' values
      | Some vs =>
          r <-! dec (pt_body p) (pt_header p) vs (λ _, encFn name) ;;
          match r with
          | Err e => Ret (Err (wrap_error (LPart name) [name] e))
          | Ok (_, val) =>
              let ct := header_Get (pt_header p) "Content-Type" in
              r <-! (if is_empty ct || (ct =?s "text/plain")
                     then part_primitive val vs else Ret (Ok val)) ;;
              match r with
              | Err e => Ret (Err (wrap_error (LPart name) [name] e))
              | Ok val =>
                  decode_parts ps' (obj_set name (default [] (obj_get name values) ++ [val]) values)
              end
          end
      end)
  end.
End Parts.

(** [decodeBody] and the decoders; [is_part] tells a multipart part, [fuel]
    bounds the nesting of multipart bodies. *)
Fixpoint decodeBody (fuel : nat) (reg : registry) (is_part : bool) (body : gostring)
    (header : gmap gostring (list gostring)) (sc : schema) (encFn : gostring → SerializationMethod)
  : comp (gostring * value) :=
  match fuel with
  | 0 => Ret (Err (ErrLib []))
  | S f =>
      let contentType := header_Get header "Content-Type" in
      if is_empty contentType && is_part then
        Ret (v <-? multipartPartBodyDecoder body sc ;; Ok ((parseMediaType "text/plain").1, v))
      else
        let '(mediaType, suffix) := parseMediaType contentType in
        match getBodyDecoder reg mediaType suffix with
        | Err e => Ret (Err e)
        | Ok d =>
            cbind
              match d with
              | plainBodyDecoder | FileBodyDecoder => Ret (Ok (VStr body))
              | jsonBodyDecoder =>
                  Ret (v <-? lib_parsed (fastjson_Parse lib body) ;; Ok (convertToMap v))
              | xmlBodyDecoder =>
                  Ret (lib_parsed (mxj_NewMapXml lib body))
              | yamlBodyDecoder =>
                  Ret (lib_parsed (yaml_Decode lib body))
              | csvBodyDecoder =>
                  Ret (rs <-? lib_result (csv_Read lib body) ;; Ok (VStr (csv_join rs)))
              | zipFileBodyDecoder =>
                  Ret (fs <-? lib_result (zip_files lib body) ;;
                       Ok (VStr (zip_content (repeat "000"%char zip_buffer_size) fs [])))
              | urlencodedBodyDecoder => urlencoded_decode body sc encFn
              | multipartBodyDecoder =>
                  if negb (types_Is (s_Type sc) "object") then Ret (Err (ErrSchemaOfBody None))
                  else
                    match mime_ParseMediaType lib contentType with
                    | Err msg => Ret (Err (ErrLib msg))
                    | Ok params =>
                        let '(parts, eof) :=
                          multipart_parts lib body (default [] (params !! str "boundary")) in
                        decode_parts (decodeBody f reg true) sc encFn eof parts []
                    end
              end
              (λ v, Ret (Ok (mediaType, v)))
        end
  end.
End Body.
