(* ===== verification/BodyDecoderSpec.v ===== *)
(** Properties of the body decoders: how deep multipart bodies are decoded,
    what JSON objects become, what a zip archive decodes to, and where a part
    of a form panics. *)
From S2P Require Import Prelude GoStrings Values ParamDecoder ParamDecoderSpec BodyDecoder.

Section Spec.
Context `{FloatPkg} `{TypesPkg} (lib : parsers).

(** * Termination *)

Lemma decode_parts_ext dec1 dec2 sc encFn eof ps values :
  (∀ p h s e, p ∈ ps → dec1 (pt_body p) h s e = dec2 (pt_body p) h s e) →
  decode_parts dec1 sc encFn eof ps values = decode_parts dec2 sc encFn eof ps values.
Proof.
  revert values. induction ps as [|p ps IH]; intros values Hd; [done|]. cbn [decode_parts].
  destruct (part_schema sc (pt_name p)) as [[os|e]|]; cbn [cbind obind]; try done.
  assert (∀ v : list (gostring * list value),
    decode_parts dec1 sc encFn eof ps v = decode_parts dec2 sc encFn eof ps v) as IH'.
  { intros v. apply IH. intros q ??? Hq. apply Hd. by right. }
  destruct os as [vs|]; [|apply IH']. rewrite Hd by left.
  destruct (dec2 _ _ _ _) as [[[mt val]|e]|]; cbn [obind]; try done.
  cbv zeta. match goal with |- obind ?c _ = _ => destruct c as [[v|e]|] end; cbn [obind]; try done.
Qed.

(** C38: decoding of a body terminates: when the parts of a multipart body are
    shorter than the body, any two amounts of fuel above the length of the
    body give the same result, so nested multipart bodies are decoded whole. *)
Theorem decodeBody_fuel f g reg is_part body header sc encFn :
  (∀ b bd p, p ∈ (multipart_parts lib b bd).1 → length (pt_body p) < length b) →
  length body < f → length body < g →
  decodeBody lib f reg is_part body header sc encFn = decodeBody lib g reg is_part body header sc encFn.
Proof.
  intros Hsh. revert g is_part body header sc encFn.
  induction f as [|f IH]; intros [|g] is_part body header sc encFn Hf Hg; try lia.
  cbn [decodeBody]. case_match; [done|].
  destruct (parseMediaType _) as [mt sfx]. destruct (getBodyDecoder _ _ _) as [d|]; [|done].
  destruct d; try done. f_equal. case_match; [done|].
  destruct (mime_ParseMediaType lib _) as [params|]; [|done].
  pose proof (Hsh body (default [] (params !! str "boundary"))) as Hs.
  destruct (multipart_parts lib body _) as [parts eof]. simpl in Hs.
  apply decode_parts_ext. intros p h s e Hp. specialize (Hs p Hp). apply IH; lia.
Qed.

(** * JSON *)

(** The loop of [convertToMap] over the entries of an object. *)
Fixpoint convert_entries (l : list (gostring * fjson)) (m : list (gostring * value))
  : list (gostring * value) :=
  match l with
  | [] => m
  | (k, x) :: l' => convert_entries l' (obj_set k (convertToMap x) m)
  end.

Lemma convertToMap_object l : convertToMap (JObject l) = VObj (convert_entries l []).
Proof. reflexivity. Qed.

Lemma convert_entries_get l m k :
  obj_get k (convert_entries l m) =
  match obj_get k (reverse l) with Some x => Some (convertToMap x) | None => obj_get k m end.
Proof.
  revert m. induction l as [|[k1 x] l IH]; intros m; [done|]. cbn [convert_entries].
  rewrite IH, reverse_cons.
  assert (∀ l', obj_get k (l' ++ [(k1, x)]) =
    match obj_get k l' with Some y => Some y | None => if k =?s k1 then Some x else None end) as ->.
  { induction l' as [|[k2 y] l' IH']; simpl; [done|]. destruct (k =?s k2); [done|apply IH']. }
  destruct (obj_get k (reverse l)); [done|]. rewrite obj_get_set. by destruct (k =?s k1).
Qed.

Lemma convert_entries_NoDup l m : NoDup m.*1 → NoDup (convert_entries l m).*1.
Proof.
  revert m. induction l as [|[k x] l IH]; intros m Hnd; [done|].
  cbn [convert_entries]. by apply IH, obj_set_NoDup.
Qed.

(** A JSON object becomes a map with one entry for a key, the value of a
    repeated key being that of its last entry. *)
Theorem convertToMap_last_wins l :
  ∃ m, convertToMap (JObject l) = VObj m ∧ NoDup m.*1 ∧
  ∀ k, obj_get k m = convertToMap <$> obj_get k (reverse l).
Proof.
  exists (convert_entries l []). split; [apply convertToMap_object|].
  split; [apply convert_entries_NoDup, NoDup_nil_2|]. intros k.
  rewrite convert_entries_get. by destruct (obj_get k (reverse l)).
Qed.

(** * Zip archives *)

Lemma zip_read_length buffer chunk :
  length chunk ≤ length buffer → length (zip_read buffer chunk) = length buffer.
Proof. intros. unfold zip_read. rewrite length_app, length_drop. lia. Qed.

Lemma zip_loop_length buffer chunks content :
  Forall (λ c, length c ≤ length buffer) chunks →
  length (zip_loop buffer chunks content).1 = length buffer ∧
  length (zip_loop buffer chunks content).2
  = length content + length buffer * length (filter (λ c, c ≠ []) chunks).
Proof.
  revert buffer content. induction chunks as [|c chunks IH]; intros buffer content Hall; cbn [zip_loop].
  - simpl. split; [done|]. lia.
  - cbv zeta. inversion_clear Hall as [|? ? Hc Hall']. pose proof (zip_read_length _ _ Hc) as Hl.
    destruct (IH (zip_read buffer c) (if is_empty c then content else content ++ zip_read buffer c))
      as [H1 H2]; [by rewrite Hl|]. rewrite H1, H2, Hl. split; [done|].
    destruct c as [|x c]; cbn [is_empty].
    + rewrite filter_cons_False by naive_solver. lia.
    + rewrite filter_cons_True by done. rewrite length_app, Hl. simpl. lia.
Qed.

(** The text a zip archive decodes to has 256 bytes for every non-empty
    read of a file, whatever the sizes of the files. *)
Theorem zip_content_length buffer files content :
  length buffer = zip_buffer_size →
  Forall (Forall (λ c, length c ≤ zip_buffer_size)) files →
  length (zip_content buffer files content)
  = length content + zip_buffer_size * length (filter (λ c, c ≠ []) (concat files)).
Proof.
  intros Hb Hall. revert buffer content Hb.
  induction Hall as [|f files Hf Hall IH]; intros buffer content Hb; cbn [zip_content].
  - simpl. lia.
  - rewrite <- Hb in Hf. pose proof (zip_loop_length buffer f content Hf) as [H1 H2].
    destruct (zip_loop buffer f content) as [buffer' content']. simpl in H1, H2.
    rewrite IH by lia. cbn [concat]. rewrite filter_app, length_app, H2, Hb, Nat.mul_add_distr_l. lia.
Qed.

(** * Forms *)

(** A part of a form without content type whose property is an integer or
    a number panics when its text is a number: it is decoded to a float and
    then asserted to be a string. *)
Theorem multipart_number_panics f reg body header sc encFn params p rest eof ty x :
  getBodyDecoder reg (parseMediaType (header_Get header "Content-Type")).1
    (parseMediaType (header_Get header "Content-Type")).2 = Ok multipartBodyDecoder →
  s_Type sc = Some [str "object"] → s_AllOf sc = [] →
  mime_ParseMediaType lib (header_Get header "Content-Type") = Ok params →
  multipart_parts lib body (default [] (params !! str "boundary")) = (p :: rest, eof) →
  pt_header p !! str "Content-Type" = None →
  obj_get (pt_name p) (s_Properties sc) = Some (type_schema ty []) →
  ty = "integer" ∨ ty = "number" → ParseFloat (pt_body p) = Ok x →
  decodeBody lib (S (S f)) reg false body header sc encFn = Panic.
Proof.
  intros Hdec Hty Hall Hmime Hparts Hct Hprop Ht Hx. cbn [decodeBody].
  rewrite andb_false_r. destruct (parseMediaType _) as [mt sfx]. simpl in Hdec. rewrite Hdec.
  assert (types_Is (s_Type sc) "object" = true) as -> by (by rewrite types_Is_spec).
  cbn [negb]. rewrite Hmime, Hparts. cbn [decode_parts]. unfold part_schema. rewrite Hall, Hprop.
  assert (types_Is (s_Type (type_schema ty [])) "array" = false) as ->.
  { apply not_true_is_false. rewrite types_Is_spec. simpl. destruct Ht as [-> | ->]; by intros [=]. }
  cbn [cbind obind]. cbn [decodeBody].
  assert (header_Get (pt_header p) "Content-Type" = []) as ->.
  { unfold header_Get. change (CanonicalHeaderKey "Content-Type") with (str "Content-Type"). by rewrite Hct. }
  cbn [is_empty andb]. unfold multipartPartBodyDecoder.
  assert (types_Is (s_Type (type_schema ty [])) "integer" || types_Is (s_Type (type_schema ty [])) "number" = true) as ->.
  { apply orb_true_iff. rewrite !types_Is_spec. simpl. destruct Ht as [-> | ->]; auto. }
  by rewrite Hx.
Qed.
End Spec.

(** * Witnesses *)

(** A library in which every body of a form has the one part [n=5], and one
    number is known. *)
Definition five : FloatPkg := {|
  float64 := unit;
  ParseFloat s := if s =?s "5" then Ok () else Err ErrSyntax;
  float_eqb _ _ := true
|}.

Definition form_params : gmap gostring gostring := {[ str "boundary" := str "b" ]}.

Definition form_lib : parsers (H := five) := {|
  fastjson_Parse _ := Err []; mxj_NewMapXml _ := Err []; yaml_Decode _ := Err []; csv_Read _ := Err [];
  zip_files _ := Err [];
  mime_ParseMediaType _ := Ok form_params;
  multipart_parts body _ :=
    if Nat.ltb 1 (length body) then ([MkPart "n" ∅ "5"], None) else ([], None)
|}.

Definition form_header : gmap gostring (list gostring) :=
  {[ str "Content-Type" := [str "multipart/form-data; boundary=b"] ]}.

Definition default_registry : gmap gostring decoder_name := list_to_map (reverse init_registrations).

Lemma decodeBody_fuel_witness :
  decodeBody (H := five) form_lib 10 default_registry false "form" form_header
    (object_schema [(str "n", type_schema "string" [])]) (λ _, MkSM "form" true)
  = decodeBody (H := five) form_lib 6 default_registry false "form" form_header
    (object_schema [(str "n", type_schema "string" [])]) (λ _, MkSM "form" true).
Proof.
  apply (decodeBody_fuel (H := five) form_lib); [|simpl; lia|simpl; lia].
  intros b bd p. unfold form_lib, multipart_parts. destruct (Nat.ltb_spec 1 (length b)); simpl.
  - intros ->%list_elem_of_singleton. simpl. lia.
  - by intros ?%not_elem_of_nil.
Defined.

Lemma zip_content_length_witness :
  length (zip_content (repeat "000"%char zip_buffer_size) [[str "hi"]; [str "a"; str "b"]] [])
  = 0 + zip_buffer_size * 3.
Proof.
  apply (zip_content_length (repeat "000"%char zip_buffer_size) [[str "hi"]; [str "a"; str "b"]] []);
    [done|].
  repeat constructor; unfold zip_buffer_size; simpl; lia.
Defined.

Lemma multipart_number_panics_witness :
  decodeBody (H := five) form_lib 2 default_registry false "form" form_header
    (object_schema [(str "n", type_schema "integer" [])]) (λ _, MkSM "form" true) = Panic.
Proof.
  eapply (multipart_number_panics (H := five) form_lib 0 default_registry "form" form_header
            (object_schema [(str "n", type_schema "integer" [])]) (λ _, MkSM "form" true)
            form_params (MkPart "n" ∅ "5") [] None "integer" ());
    [vm_compute; reflexivity|reflexivity|reflexivity
    |unfold form_lib, mime_ParseMediaType; reflexivity|unfold form_lib, multipart_parts; reflexivity
    |vm_compute; reflexivity|vm_compute; reflexivity|left; reflexivity|vm_compute; reflexivity].
Defined.

(** The registrations never panic, and give this registry. *)
Example init_registry_ok : init_registry = Ret default_registry.
Proof.
  assert (match init_registry with Ret r => bool_decide (r = default_registry) | Panic => false end
          = true) as E by (vm_compute; reflexivity).
  destruct init_registry as [r|]; [|discriminate]. apply bool_decide_eq_true in E as ->. done.
Qed.

(** The suffix of a media type wins over the media type itself: SVG images are
    decoded as XML although they are registered as files. *)
Example svg_decoded_as_xml :
  default_registry !! str "image/svg+xml" = Some FileBodyDecoder ∧
  (let '(mt, sfx) := parseMediaType "image/svg+xml" in
   getBodyDecoder (H := five) default_registry mt sfx) = Ok xmlBodyDecoder.
Proof. vm_compute. split; reflexivity. Qed.
