(* ===== verification/Validate.v ===== *)
(** Validation of requests and responses against the specification
    (internal/platform/validator: validate_request.go, validate_response.go,
    req_resp_encoder.go).

    The validator changes the request it checks: it reads the body and puts it
    back, and it writes the defaults of missing parameters and properties, so
    the request is threaded through the checks.  What kin-openapi does (schema
    visiting, choice of a media type, texts of its errors) is a parameter. *)
From S2P Require Import Prelude GoStrings Values URLValues Messages ParamDecoder BodyDecoder.

Section Errors.
Context `{FloatPkg}.

(** [openapi3.SchemaError]: [se_pointer] and [se_msg] are the answers of
    [JSONPointer] and [Error]. *)
Record SchemaError := MkSchemaError {
  se_SchemaField : gostring;
  se_pointer : list gostring;
  se_Schema : schema;
  se_Value : value;
  se_Reason : gostring;
  se_msg : gostring
}.

(** [openapi3.MediaType] and [openapi3.RequestBody]; [mt_Encoding] is the
    serialization method the encoding of a property gives. *)
Record MediaType := MkMediaType {
  mt_Schema : option schema;
  mt_Encoding : gostring → SerializationMethod
}.

Notation Content := (list (gostring * MediaType)).

Record RequestBodySpec := MkRequestBody {
  rb_Required : bool;
  rb_Content : Content
}.

(** Errors of the validation. *)
Inductive verr :=
| EDecode (e : error)
| ESchema (e : SchemaError)
| EMulti (l : list verr)
| EInvalidRequired
| EInvalidEmptyValue
| EFilterInvalidRequired
| EAuthenticationServiceMissing
| ESchemeNotDeclared (name : gostring)
| EParameterIsMissing (field msg : gostring)
| ELib (msg : gostring)
| ERequest (parameter : option ParameterSpec) (body : option RequestBodySpec) (reason : gostring)
    (err : option verr)
| EResponse (reason : gostring) (err : option verr)
| ESecurity (srs : list (list (gostring * list gostring))) (errs : list verr).

(** Options of [VisitJSON]. *)
Record visit_opts := MkVisit {
  vo_MultiErrors : bool;
  vo_AsRequest : bool;
  vo_AsResponse : bool;
  vo_DefaultsSet : bool;
  vo_DisableReadOnly : bool
}.

(** The fields and methods of [openapi3.Schema] that only the validator uses.
    [VisitJSON] gives the error, or the value with the defaults it set and
    whether it set any. *)
Class SchemaPkg := {
  s_Default : schema → value;
  s_Max : schema → option float64;
  s_Min : schema → option float64;
  s_Ref : schema → gostring;
  s_Title : schema → gostring;
  schema_IsEmpty : option schema → outcome bool;
  VisitJSON : visit_opts → schema → value → result verr (value * bool);
  content_Get : Content → gostring → option MediaType
}.
End Errors.
Notation Content := (list (gostring * MediaType)).

Section Validate.
Context `{FmtPkg} `{TypesPkg} `{!SchemaPkg}.
Context (lib : parsers) (reg : registry) (json_Unmarshal : gostring → option value).

(** * Encoding of bodies *)

Notation encoders := (gmap gostring (value → result gostring gostring)).

Definition encodeBody (bodyEncoders : encoders) (body : value) (mediaType : gostring)
  : result verr gostring :=
  match bodyEncoders !! mediaType with
  | None => Err (EDecode (ParseError KindUnsupportedFormat VNil (RUnsupportedCT mediaType) None []))
  | Some encoder => match encoder body with Ok data => Ok data | Err msg => Err (ELib msg) end
  end.

Definition RegisterBodyEncoder (bodyEncoders : encoders) (contentType : gostring)
    (encoder : option (value → result gostring gostring)) : outcome encoders :=
  match contentType, encoder with
  | _ :: _, Some enc => Ret (<[contentType := enc]> bodyEncoders)
  | _, _ => Panic
  end.

Definition UnregisterBodyEncoder (bodyEncoders : encoders) (contentType : gostring) : outcome encoders :=
  match contentType with [] => Panic | _ => Ret (delete contentType bodyEncoders) end.

Definition RegisteredBodyEncoder (bodyEncoders : encoders) (contentType : gostring) :=
  bodyEncoders !! contentType.

Context (bodyEncoders : encoders).

(** * Requests *)

(** A body reader: [http.NoBody] or nil, one that gives its data, or one that
    fails. *)
Inductive reader := NoBody | Data (s : gostring) | Failing (msg : gostring).

(** [http.Request]: [rq_Input] holds the path parameters and the query values
    computed before the validation, and the header and cookies. *)
Record request := MkRequest {
  rq_Method : gostring;
  rq_RawQuery : gostring;
  rq_Input : RequestInput;
  rq_Body : reader;
  rq_ContentLength : Z;
  rq_GetBody : option (result gostring reader)
}.

Definition set_RawQuery (q : gostring) (rq : request) : request :=
  let '(MkRequest m _ i b cl gb) := rq in MkRequest m q i b cl gb.
Definition set_Input (i : RequestInput) (rq : request) : request :=
  let '(MkRequest m q _ b cl gb) := rq in MkRequest m q i b cl gb.
Definition set_Body (b : reader) (rq : request) : request :=
  let '(MkRequest m q i _ cl gb) := rq in MkRequest m q i b cl gb.
Definition set_Header (h : http_Header) (rq : request) : request :=
  let i := rq_Input rq in set_Input (MkInput (in_PathParams i) (in_Query i) h (in_Cookies i)) rq.
Definition set_Cookies (c : list (gostring * gostring)) (rq : request) : request :=
  let i := rq_Input rq in set_Input (MkInput (in_PathParams i) (in_Query i) (in_Header i) c) rq.

(** The request with the body [data], from [GetBody] too. *)
Definition put_body (data : gostring) (rq : request) : request :=
  let '(MkRequest m q i _ _ _) := rq in
  MkRequest m q i (Data data) (Z.of_nat (length data)) (Some (Ok (Data data))).

(** A check: the request after it, and its error. *)
Notation check := (outcome (request * option verr)).
Definition accept (rq : request) : check := Ret (rq, None).
Definition refuse (rq : request) (e : verr) : check := Ret (rq, Some e).

(** [openapi3.SecurityScheme]. *)
Record SecurityScheme := MkScheme {
  ss_Type : gostring;
  ss_Scheme : gostring;
  ss_In : gostring;
  ss_Name : gostring
}.

(** [openapi3filter.Options]. *)
Record Options := MkOptions {
  o_MultiError : bool;
  o_SkipSettingDefaults : bool;
  o_ExcludeRequestQueryParams : bool;
  o_ExcludeRequestBody : bool;
  o_ExcludeReadOnlyValidations : bool;
  o_IncludeResponseStatus : bool;
  o_ExcludeResponseBody : bool;
  o_AuthenticationFunc : option (request → gostring → SecurityScheme → list gostring → option verr)
}.

(** * Parameters *)

(** [populateDefaultQueryParameters] with [appendToQueryValues] and [joinValues]. *)
Definition appendToQueryValues (q : url_Values) (parameterName : gostring) (v : list value) : url_Values :=
  fold_left (λ q i, Values_Add q parameterName (sprint i)) v q.

Definition joinValues (values : list value) (sep : gostring) : gostring := join (map sprint values) sep.

Definition populateDefaultQueryParameters (q : url_Values) (parameterName : gostring) (v : value)
    (explode : bool) : url_Values :=
  let arr t :=
    if explode then appendToQueryValues q parameterName t
    else Values_Add q parameterName (joinValues t ",") in
  match v with
  | VArr t => arr t
  | VNilArr => arr []
  | _ => Values_Add q parameterName (sprint v)
  end.

(** The default of a schema: that of the first of its [allOf] that has one, or
    its own. *)
Definition default_value (sc : schema) : value :=
  match find_index (λ s, negb (is_nil (s_Default s))) (s_AllOf sc) with
  | Some i => match s_AllOf sc !! i with Some s => s_Default s | None => s_Default sc end
  | None => s_Default sc
  end.

(** The default written to the request.  Cookies and headers are kept apart: the default
    of a header parameter named Cookie does not change the cookies. *)
Definition set_default (param : ParameterSpec) (v : value) (rq : request) : request :=
  let i := rq_Input rq in
  if p_In param =?s "query" then
    set_RawQuery (Values_Encode (populateDefaultQueryParameters (URL_Query (rq_RawQuery rq))
                    (p_Name param) v (default false (p_Explode param)))) rq
  else if p_In param =?s "header" then set_Header (Header_Add (in_Header i) (p_Name param) (sprint v)) rq
  else if p_In param =?s "cookie" then set_Cookies (AddCookie (in_Cookies i) (p_Name param) (sprint v)) rq
  else rq.

Definition param_error (param : ParameterSpec) (reason : gostring) (e : verr) : verr :=
  ERequest (Some param) None reason (Some e).

Definition verr_required_text : gostring := "value is required but missing".
Definition verr_empty_text : gostring := "empty value is not allowed".

(** The decoding at the start of [ValidateParameter]: value, schema, found. *)
Definition decode_parameter (param : ParameterSpec) (rq : request)
  : outcome (result error (value * option schema * bool)) :=
  match p_content param with
  | Some _ =>
      '(r, found, err) <-! decodeContentParameter json_Unmarshal param (rq_Input rq) ;;
      Ret match err with
          | Some e => Err e
          | None => Ok (match r with Some (v, sc) => (v, Some sc, found) | None => (VNil, None, found) end)
          end
  | None =>
      '(v, found, err) <-! decodeStyledParameter param (rq_Input rq) ;;
      Ret match err with Some e => Err e | None => Ok (v, p_Schema param, found) end
  end.

(** The checks after the decoding. *)
Definition check_parameter (o : Options) (param : ParameterSpec) (rq : request) (v : value)
    (sc : option schema) (found : bool) : check :=
  if p_Required param && negb found
  then refuse rq (param_error param verr_required_text EInvalidRequired)
  else if isNilValue v then
    e <-! schema_IsEmpty sc ;;
    if e && found then accept rq
    else if negb (p_AllowEmptyValue param) && found
    then refuse rq (param_error param verr_empty_text EInvalidEmptyValue)
    else accept rq
  else
    match sc with
    | None => accept rq
    | Some sc =>
        match VisitJSON (MkVisit (o_MultiError o) false false false false) sc v with
        | Err e => refuse rq (param_error param [] e)
        | Ok _ => accept rq
        end
    end.

Definition ValidateParameter (o : Options) (param : ParameterSpec) (rq : request) : check :=
  match p_Schema param, p_content param with
  | None, None => accept rq
  | _, _ =>
      r <-! decode_parameter param rq ;;
      match r with
      | Err e => refuse rq (param_error param [] (EDecode e))
      | Ok (v, sc, found) =>
          match sc with
          | Some s =>
              if negb (o_SkipSettingDefaults o) && is_nil v then
                let d := default_value s in
                check_parameter o param (if is_nil d then rq else set_default param d rq) d sc found
              else check_parameter o param rq v sc found
          | None => check_parameter o param rq v sc found
          end
      end
  end.

(** * Bodies *)

(** [getSchemaIdentifier] and [prependSpaceIfNeeded]. *)
Definition getSchemaIdentifier (sc : schema) : gostring :=
  let id := trim_space (s_Ref sc) in if is_empty id then trim_space (s_Title sc) else id.
Definition prependSpaceIfNeeded (s : gostring) : gostring :=
  match s with [] => [] | _ => " "%char :: s end.

Definition body_error (rb : RequestBodySpec) (reason : gostring) (e : option verr) : verr :=
  ERequest None (Some rb) reason e.

(** The data of the body, and the request with the body put back. *)
Definition read_body (rq : request) : result gostring (gostring * request) :=
  match rq_Body rq with
  | NoBody => Ok ([], rq)
  | Failing msg => Err msg
  | Data data =>
      match rq_GetBody rq with
      | Some (Ok b) => Ok (data, set_Body b rq)
      | _ => Ok (data, put_body data rq)
      end
  end.

(** [decodeBody] of a whole body: the fuel exceeds the length of the body. *)
Definition decode_body (data : gostring) (h : http_Header) (sc : schema) (mt : MediaType) :=
  decodeBody lib (S (length data)) reg false data h sc (mt_Encoding mt).

(** The validation of a decoded body, and the body with the defaults. *)
Definition check_body (o : Options) (rb : RequestBodySpec) (sc : schema) (rq : request)
    (mediaType : gostring) (v : value) : request * option verr :=
  let opts := MkVisit (o_MultiError o) true false (negb (o_SkipSettingDefaults o))
                (o_ExcludeReadOnlyValidations o) in
  match VisitJSON opts sc v with
  | Err e =>
      (rq, Some (body_error rb
             (str "doesn't match schema " ++ prependSpaceIfNeeded (getSchemaIdentifier sc)) (Some e)))
  | Ok (v', defaultsSet) =>
      if negb (o_SkipSettingDefaults o) && defaultsSet then
        match encodeBody bodyEncoders v' mediaType with
        | Err e => (rq, Some (body_error rb "rewriting failed" (Some e)))
        | Ok data => (put_body data rq, None)
        end
      else (rq, None)
  end.

Definition ValidateRequestBody (o : Options) (rb : RequestBodySpec) (rq : request) : check :=
  match read_body rq with
  | Err msg => refuse rq (body_error rb "reading failed" (Some (ELib msg)))
  | Ok ([], rq) =>
      if rb_Required rb then refuse rq (body_error rb [] (Some EFilterInvalidRequired)) else accept rq
  | Ok (data, rq) =>
      match rb_Content rb with
      | [] => accept rq
      | content =>
          let inputMIME := header_Get (in_Header (rq_Input rq)) "Content-Type" in
          match content_Get content inputMIME with
          | None =>
              refuse rq (body_error rb
                (str "header Content-Type has unexpected value " ++ quote inputMIME) None)
          | Some mt =>
              match mt_Schema mt with
              | None => accept rq
              | Some sc =>
                  r <-! decode_body data (in_Header (rq_Input rq)) sc mt ;;
                  match r with
                  | Err e => refuse rq (body_error rb "failed to decode request body" (Some (EDecode e)))
                  | Ok (mediaType, v) => Ret (check_body o rb sc rq mediaType v)
                  end
              end
          end
      end
  end.

(** * Security *)

(** A security requirement: the scopes of each scheme. *)
Notation SecurityRequirement := (list (gostring * list gostring)).

(** The loop over the schemes, by name; [schemes] are the declared ones. *)
Fixpoint check_schemes (f : request → gostring → SecurityScheme → list gostring → option verr)
    (schemes : list (gostring * SecurityScheme)) (sr : SecurityRequirement) (rq : request)
    (names : list gostring) : option verr :=
  match names with
  | [] => None
  | name :: names' =>
      match obj_get name schemes with
      | None => Some (ERequest None None [] (Some (ESchemeNotDeclared name)))
      | Some scheme =>
          match f rq name scheme (default [] (obj_get name sr)) with
          | Some e => Some e
          | None => check_schemes f schemes sr rq names'
          end
      end
  end.

Definition validateSecurityRequirement (o : Options) (schemes : list (gostring * SecurityScheme))
    (rq : request) (sr : SecurityRequirement) : option verr :=
  match o_AuthenticationFunc o with
  | None => Some EAuthenticationServiceMissing
  | Some f => check_schemes f schemes sr rq (sort_strings sr.*1)
  end.

(** The errors of all the requirements, or [None] when one is met. *)
Fixpoint security_loop (o : Options) (schemes : list (gostring * SecurityScheme)) (rq : request)
    (srs : list SecurityRequirement) (errs : list verr) : option (list verr) :=
  match srs with
  | [] => Some errs
  | sr :: srs' =>
      match validateSecurityRequirement o schemes rq sr with
      | Some e => security_loop o schemes rq srs' (errs ++ [e])
      | None => None
      end
  end.

Definition ValidateSecurityRequirements (o : Options) (schemes : list (gostring * SecurityScheme))
    (rq : request) (srs : list SecurityRequirement) : option verr :=
  match srs with [] => None | _ => ESecurity srs <$> security_loop o schemes rq srs [] end.

(** * Requests *)

(** [openapi3.Header]: a parameter of a response. *)
Record HeaderSpec := MkHeader {
  h_Schema : option schema;
  h_Required : bool;
  h_sm : result error SerializationMethod
}.

(** [openapi3.Response]. *)
Record ResponseSpec := MkResponse {
  rs_Headers : list (gostring * HeaderSpec);
  rs_Content : Content
}.

(** [routers.Route] with what the validator reads of its operation, its path
    item and its specification.  [op_Status] and [op_Default] are the answers of
    the methods [Status] and [Default] of the responses, of which there are
    [op_Len]; the inner option is a reference that is not resolved. *)
Record Route := MkRoute {
  rt_PathParameters : list ParameterSpec;
  op_Parameters : list ParameterSpec;
  op_RequestBody : option RequestBodySpec;
  op_Security : option (list SecurityRequirement);
  doc_Security : list SecurityRequirement;
  doc_SecuritySchemes : list (gostring * SecurityScheme);
  op_Len : nat;
  op_Status : Z → option (option ResponseSpec);
  op_Default : option (option ResponseSpec)
}.

(** [Parameters.GetByInAndName]. *)
Definition overridden (l : list ParameterSpec) (p : ParameterSpec) : bool :=
  existsb (λ q, (p_In q =?s p_In p) && (p_Name q =?s p_Name p)) l.

(** The checks of [ValidateRequest], in order. *)
Definition request_checks (o : Options) (rt : Route) : list (request → check) :=
  let security := match op_Security rt with Some s => s | None => doc_Security rt end in
  (λ rq, Ret (rq, ValidateSecurityRequirements o (doc_SecuritySchemes rt) rq security))
  :: map (ValidateParameter o)
       (List.filter (λ p, negb (overridden (op_Parameters rt) p)) (rt_PathParameters rt))
  ++ map (ValidateParameter o)
       (List.filter (λ p, negb (o_ExcludeRequestQueryParams o && (p_In p =?s "query"))) (op_Parameters rt))
  ++ match op_RequestBody rt with
     | Some rb => if o_ExcludeRequestBody o then [] else [ValidateRequestBody o rb]
     | None => []
     end.

(** Running them: without [MultiError] the first error is the result, with it
    the errors are collected. *)
Fixpoint run_checks (multi : bool) (l : list (request → check)) (rq : request) (me : list verr) : check :=
  match l with
  | [] => Ret (rq, match me with [] => None | _ => Some (EMulti me) end)
  | c :: l' =>
      '(rq, err) <-! c rq ;;
      match err with
      | None => run_checks multi l' rq me
      | Some e => if multi then run_checks multi l' rq (me ++ [e]) else refuse rq e
      end
  end.

Definition ValidateRequest (o : Options) (rt : Route) (rq : request) : check :=
  run_checks (o_MultiError o) (request_checks o rt) rq [].

(** * Responses *)

(** [openapi3filter.ResponseValidationInput]; the body is not nil. *)
Record response := MkResponseInput {
  ri_Method : gostring;
  ri_Status : Z;
  ri_Header : http_Header;
  ri_Body : reader
}.

Definition validateResponseHeader (o : Options) (headerName : gostring) (h : HeaderSpec)
    (header : http_Header) : outcome (option verr) :=
  let fail pre post e := Ret (Some (EResponse (pre ++ quote headerName ++ post) e)) in
  match h_sm h with
  | Err e => fail (str "unable to get header ") (str " serialization method") (Some (EDecode e))
  | Ok sm =>
      match h_Schema h with
      | None => Panic
      | Some sc =>
          '(v, found, err) <-! decodeValue (headerParamDecoder header) headerName sm sc (h_Required h) ;;
          match err with
          | Some e => fail (str "unable to decode header ") (str " value") (Some (EDecode e))
          | None =>
              if found then
                match VisitJSON (MkVisit (o_MultiError o) false false false false) sc v with
                | Err e => fail (str "response header ") (str " doesn't match schema") (Some e)
                | Ok _ => Ret None
                end
              else if h_Required h then fail (str "response header ") (str " missing") None
              else Ret None
          end
      end
  end.

Fixpoint response_headers (o : Options) (rs : ResponseSpec) (header : http_Header)
    (names : list gostring) : outcome (option verr) :=
  match names with
  | [] => Ret None
  | name :: names' =>
      match obj_get name (rs_Headers rs) with
      | None => Panic
      | Some h =>
          err <-! validateResponseHeader o name h header ;;
          match err with Some e => Ret (Some e) | None => response_headers o rs header names' end
      end
  end.

(** The body of a response: its schema is known. *)
Definition response_body (o : Options) (mt : MediaType) (sc : schema) (ri : response)
  : outcome (option verr) :=
  match ri_Body ri with
  | Failing msg => Ret (Some (EResponse "failed to read response body" (Some (ELib msg))))
  | (NoBody | Data _) as b =>
      let data := match b with Data d => d | _ => [] end in
      r <-! decode_body data (ri_Header ri) sc mt ;;
      match r with
      | Err e => Ret (Some (EResponse "failed to decode response body" (Some (EDecode e))))
      | Ok (_, v) =>
          match VisitJSON (MkVisit (o_MultiError o) false true false false) sc v with
          | Err e =>
              Ret (Some (EResponse (str "response body doesn't match schema"
                     ++ prependSpaceIfNeeded (getSchemaIdentifier sc)) (Some e)))
          | Ok _ => Ret None
          end
      end
  end.

Definition ValidateResponse (o : Options) (rt : Route) (ri : response) : outcome (option verr) :=
  if ri_Method ri =?s "HEAD" then Ret None
  else
    match op_Len rt with
    | 0 => Ret None
    | S _ =>
        match (match op_Status rt (ri_Status ri) with Some r => Some r | None => op_Default rt end) with
        | None =>
            Ret (if o_IncludeResponseStatus o then Some (EResponse "status is not supported" None) else None)
        | Some None => Ret (Some (EResponse "response has not been resolved" None))
        | Some (Some rs) =>
            let names := List.filter (λ k, negb (k =?s "Content-Type")) (rs_Headers rs).*1 in
            err <-! response_headers o rs (ri_Header ri) (sort_strings names) ;;
            match err with
            | Some e => Ret (Some e)
            | None =>
                match o_ExcludeResponseBody o, rs_Content rs with
                | true, _ | _, [] => Ret None
                | false, content =>
                    let inputMIME := header_Get (ri_Header ri) "Content-Type" in
                    match content_Get content inputMIME with
                    | None =>
                        Ret (Some (EResponse
                          (str "response header Content-Type has unexpected value: " ++ quote inputMIME) None))
                    | Some mt =>
                        match mt_Schema mt with
                        | None => Ret None
                        | Some sc => response_body o mt sc ri
                        end
                    end
                end
            end
        end
    end.
End Validate.
