(* ===== verification/ValidateSpec.v ===== *)
(** Properties of the validation of requests: what an accepted request
    satisfies, what is left of its body, and what the defaults do to it. *)
From S2P Require Import Prelude GoStrings Values URLValues Messages ParamDecoder ParamDecoderSpec BodyDecoder BodyDecoderSpec Validate.

Section Spec.
Context `{FmtPkg} `{TypesPkg} `{!SchemaPkg}.
Context (lib : parsers) (reg : registry) (json_Unmarshal : gostring → option value)
  (bodyEncoders : gmap gostring (value → result gostring gostring)).
Implicit Types (o : Options) (rq : request) (rt : Route).

Notation ValidateParameter := (ValidateParameter json_Unmarshal).
Notation decode_parameter := (decode_parameter json_Unmarshal).
Notation ValidateRequestBody := (ValidateRequestBody lib reg bodyEncoders).
Notation request_checks := (request_checks lib reg json_Unmarshal bodyEncoders).
Notation ValidateRequest := (ValidateRequest lib reg json_Unmarshal bodyEncoders).
Notation decode_body := (decode_body lib reg).

(** * Security requirements *)

(** A requirement is met: every scheme is declared and authenticates the
    request with the scopes of the requirement. *)
Definition requirement_met o (schemes : list (gostring * SecurityScheme)) rq
    (sr : list (gostring * list gostring)) : Prop :=
  ∃ f, o_AuthenticationFunc o = Some f ∧
  ∀ name, name ∈ sr.*1 → ∃ scheme, obj_get name schemes = Some scheme ∧
    f rq name scheme (default [] (obj_get name sr)) = None.

Lemma check_schemes_None f schemes sr rq names :
  check_schemes f schemes sr rq names = None ↔
  ∀ name, name ∈ names → ∃ scheme, obj_get name schemes = Some scheme ∧
    f rq name scheme (default [] (obj_get name sr)) = None.
Proof.
  induction names as [|name names IH]; simpl; [split; [intros _ n Hn; by apply elem_of_nil in Hn|done]|].
  setoid_rewrite elem_of_cons. destruct (obj_get name schemes) as [scheme|] eqn:E; [|naive_solver].
  destruct (f rq name scheme _) eqn:Ef; [naive_solver|]. rewrite IH. naive_solver.
Qed.

Lemma validateSecurityRequirement_None o schemes rq sr :
  validateSecurityRequirement o schemes rq sr = None ↔ requirement_met o schemes rq sr.
Proof.
  unfold validateSecurityRequirement, requirement_met.
  destruct (o_AuthenticationFunc o) as [f|]; [|naive_solver].
  rewrite check_schemes_None. setoid_rewrite sort_strings_perm. naive_solver.
Qed.

Lemma security_loop_None o schemes rq srs errs :
  security_loop o schemes rq srs errs = None ↔ ∃ sr, sr ∈ srs ∧ requirement_met o schemes rq sr.
Proof.
  revert errs. induction srs as [|sr srs IH]; intros errs; simpl.
  - split; [done|]. intros (sr & Hsr%elem_of_nil & _). done.
  - setoid_rewrite elem_of_cons. setoid_rewrite <- validateSecurityRequirement_None.
    setoid_rewrite <- validateSecurityRequirement_None in IH.
    destruct (validateSecurityRequirement o schemes rq sr) eqn:E; [rewrite IH|]; naive_solver.
Qed.

Lemma security_None o schemes rq srs :
  ValidateSecurityRequirements o schemes rq srs = None ↔
  srs = [] ∨ ∃ sr, sr ∈ srs ∧ requirement_met o schemes rq sr.
Proof.
  unfold ValidateSecurityRequirements. destruct srs as [|sr srs]; [naive_solver|].
  rewrite fmap_None, security_loop_None. naive_solver.
Qed.

(** The security requirements accept a request exactly when there are none
    or one of them is met: all its schemes are declared and authenticate the
    request.  Without an authentication function no requirement is met. *)
Theorem ValidateSecurityRequirements_spec o schemes rq srs :
  ValidateSecurityRequirements o schemes rq srs = None ↔
  srs = [] ∨ ∃ sr, sr ∈ srs ∧ requirement_met o schemes rq sr.
Proof. apply security_None. Qed.

(** * Sequences of checks *)

Notation check := (outcome (request * option verr)).

(** A run of checks that all accept. *)
Inductive passes : list (request → check) → request → request → Prop :=
| passes_nil rq : passes [] rq rq
| passes_cons c l rq rq1 rq2 : c rq = Ret (rq1, None) → passes l rq1 rq2 → passes (c :: l) rq rq2.

Lemma run_checks_collected multi l rq me rq' :
  run_checks multi l rq me = Ret (rq', None) → me = [].
Proof.
  revert rq me. induction l as [|c l IH]; intros rq me; simpl; [destruct me; naive_solver|].
  intros Hr. inv_bind Hr. destruct x as [rq1 [e|]]; [|by eapply IH].
  destruct multi; [|done]. apply IH in Hr. by destruct me.
Qed.

Lemma run_checks_passes multi l rq rq' :
  run_checks multi l rq [] = Ret (rq', None) ↔ passes l rq rq'.
Proof.
  revert rq. induction l as [|c l IH]; intros rq; simpl.
  - split; [intros [= <-]; constructor|]. inversion 1; by subst.
  - split.
    + intros Hr. inv_bind Hr. destruct x as [rq1 [e|]].
      * destruct multi; [|done]. by apply run_checks_collected in Hr.
      * apply IH in Hr. by econstructor.
    + inversion 1 as [|? ? ? rq1 ? Hc Hl]; subst. rewrite Hc. simpl. by apply IH.
Qed.

(** An invariant of the request that every accepting check preserves. *)
Lemma passes_invariant {A} (f : request → A) l rq rq' :
  (∀ c rq1 rq2, c ∈ l → c rq1 = Ret (rq2, None) → f rq2 = f rq1) → passes l rq rq' → f rq' = f rq.
Proof.
  intros Hf Hp. induction Hp as [|c l rq rq1 rq2 Hc _ IH]; [done|].
  rewrite IH; [apply (Hf c); [left|done]|]. intros c' ??? . apply Hf. by right.
Qed.

Lemma passes_app l1 l2 rq rq' :
  passes (l1 ++ l2) rq rq' → ∃ rq1, passes l1 rq rq1 ∧ passes l2 rq1 rq'.
Proof.
  revert rq. induction l1 as [|c l1 IH]; intros rq Hp; [eexists; split; [constructor|done]|].
  inversion Hp as [|? ? ? rq1 ? Hc Hl]; subst. destruct (IH _ Hl) as (rq2 & ? & ?).
  exists rq2. split; [by econstructor|done].
Qed.

Lemma run_checks_multi_head l rq me e rq' err :
  run_checks true l rq (e :: me) = Ret (rq', err) → ∃ es, err = Some (EMulti (e :: es)).
Proof.
  revert rq me. induction l as [|c l IH]; intros rq me; simpl; [naive_solver|].
  intros Hr. inv_bind Hr. destruct x as [rq1 [e1|]]; by eapply IH.
Qed.

Lemma run_checks_multi_first l rq rq' e :
  run_checks true l rq [] = Ret (rq', Some e) →
  ∃ e1 es rq1, e = EMulti (e1 :: es) ∧ run_checks false l rq [] = Ret (rq1, Some e1).
Proof.
  revert rq. induction l as [|c l IH]; intros rq; simpl; [done|].
  intros ([rq1 [e1|]] & Hc & Hr)%obind_Ret; rewrite Hc; simpl.
  - apply run_checks_multi_head in Hr as [es [= ->]]. by exists e1, es, rq1.
  - by apply IH.
Qed.

(** Collecting the errors does not change the verdict: what is accepted
    when all errors are collected is accepted, with the same request, when
    the first error ends the validation, and the first of the collected errors
    is then the error. *)
Theorem run_checks_first l rq rq' err :
  run_checks true l rq [] = Ret (rq', err) →
  match err with
  | None => run_checks false l rq [] = Ret (rq', None)
  | Some e => ∃ e1 es rq1, e = EMulti (e1 :: es) ∧ run_checks false l rq [] = Ret (rq1, Some e1)
  end.
Proof.
  destruct err as [e|]; [|rewrite !run_checks_passes; done]. apply run_checks_multi_first.
Qed.

(** * Parameters *)

(** What a check of a parameter leaves of the request. *)
Lemma set_default_frame param v rq :
  in_PathParams (rq_Input (set_default param v rq)) = in_PathParams (rq_Input rq) ∧
  in_Query (rq_Input (set_default param v rq)) = in_Query (rq_Input rq) ∧
  rq_Body (set_default param v rq) = rq_Body rq ∧
  rq_GetBody (set_default param v rq) = rq_GetBody rq ∧
  rq_ContentLength (set_default param v rq) = rq_ContentLength rq.
Proof. unfold set_default. destruct rq. by repeat case_match. Qed.

Lemma check_parameter_frame o param rq v sc found rq' err :
  check_parameter o param rq v sc found = Ret (rq', err) → rq' = rq.
Proof.
  unfold check_parameter, refuse, accept. case_match; [naive_solver|].
  case_match; [|repeat case_match; naive_solver].
  intros Hr. inv_bind Hr. repeat case_match; naive_solver.
Qed.

Definition frame (rq : request) :=
  (in_PathParams (rq_Input rq), in_Query (rq_Input rq), rq_Body rq, rq_GetBody rq, rq_ContentLength rq).

Lemma ValidateParameter_frame o param rq rq' err :
  ValidateParameter o param rq = Ret (rq', err) → frame rq' = frame rq.
Proof.
  unfold Validate.ValidateParameter, refuse, accept.
  destruct (p_Schema param) as [s|] eqn:Es, (p_content param) as [n|] eqn:Ec; [| | |naive_solver];
    intros ([[[v sc] found]|e] & _ & Hr)%obind_Ret; try (by injection Hr as <- _);
    destruct sc as [sc|]; [destruct (_ && _)| |destruct (_ && _)| |destruct (_ && _)|];
    apply check_parameter_frame in Hr as ->; try done;
    (destruct (is_nil _); [done|]); unfold frame;
    destruct (set_default_frame param (default_value sc) rq) as (-> & -> & -> & -> & ->); done.
Qed.

(** The value a parameter is checked with: the default stands for a missing one. *)
Definition effective o (sc : option schema) (v : value) : value :=
  match sc with
  | Some s => if negb (o_SkipSettingDefaults o) && is_nil v then default_value s else v
  | None => v
  end.

(** A parameter conforms to its specification: it is decoded, it is present when
    it is required, an empty value is allowed, and any other value matches the
    schema. *)
Definition param_conforms o (p : ParameterSpec) rq : Prop :=
  (p_Schema p = None ∧ p_content p = None) ∨
  ∃ v sc found, decode_parameter p rq = Ret (Ok (v, sc, found)) ∧
    (p_Required p = true → found = true) ∧
    if isNilValue (effective o sc v)
    then found = true → p_AllowEmptyValue p = true ∨ schema_IsEmpty sc = Ret true
    else ∀ s, sc = Some s →
         ∃ r, VisitJSON (MkVisit (o_MultiError o) false false false false) s (effective o sc v) = Ok r.

Lemma check_parameter_accepts o p rq v sc found rq' :
  check_parameter o p rq v sc found = Ret (rq', None) →
  (p_Required p = true → found = true) ∧
  if isNilValue v
  then found = true → p_AllowEmptyValue p = true ∨ schema_IsEmpty sc = Ret true
  else ∀ s, sc = Some s → ∃ r, VisitJSON (MkVisit (o_MultiError o) false false false false) s v = Ok r.
Proof.
  unfold check_parameter, refuse, accept.
  destruct (p_Required p && negb found) eqn:Er; [done|]. intros Hr. split.
  { intros Hreq. rewrite Hreq in Er. by destruct found. }
  destruct (isNilValue v).
  - apply obind_Ret in Hr as (e & He & Hr). intros ->. rewrite He.
    destruct e; [by right|]. destruct (p_AllowEmptyValue p); [by left|done].
  - intros s ->. destruct (VisitJSON _ s v); [eauto|done].
Qed.

Lemma ValidateParameter_accepts o p rq rq' :
  ValidateParameter o p rq = Ret (rq', None) → param_conforms o p rq.
Proof.
  unfold Validate.ValidateParameter, param_conforms, refuse, accept.
  destruct (p_Schema p) as [s|] eqn:Es, (p_content p) as [n|] eqn:Ec; [| | |by left];
    intros ([[[v sc] found]|e] & Hd & Hr)%obind_Ret; try done; right;
    exists v, sc, found; (split; [done|]);
    (destruct sc as [sc|]; simpl; [destruct (_ && _)|]);
    by apply check_parameter_accepts in Hr.
Qed.

(** [decodeValue] reads the request by the name of the parameter only. *)
Lemma decodeValue_local dec1 dec2 param :
  (∀ sm sc, DecodePrimitive dec1 param sm sc = DecodePrimitive dec2 param sm sc) →
  (∀ sm sc, DecodeArray dec1 param sm sc = DecodeArray dec2 param sm sc) →
  (∀ sm sc, DecodeObject dec1 param sm sc = DecodeObject dec2 param sm sc) →
  dec_is_query dec1 = dec_is_query dec2 → dec_has dec1 param = dec_has dec2 param →
  ∀ sc sm required, decodeValue dec1 param sm sc required = decodeValue dec2 param sm sc required.
Proof.
  intros Hp Ha Ho Hq Hh. fix IH 1. intros [typ format pat items props has addit allOf anyOf oneOf not req] sm required.
  destruct allOf as [|s allOf]; [destruct anyOf as [|s anyOf]; [destruct oneOf as [|s oneOf]|]|];
    simpl; [by rewrite Ha, Ho, Hp, Hq, Hh|..]; rewrite (IH s);
    (destruct (decodeValue dec2 param sm s required) as [[[v f] e]|]; [simpl|done]).
  - destruct (is_nil v);
      (match goal with |- ?F oneOf ?x ?n ?g = ?G oneOf ?x ?n ?g =>
         enough (∀ y m b, F oneOf y m b = G oneOf y m b) as Hgo by apply Hgo end);
      (induction oneOf as [|s' l IHl]; intros w n g; [done|]); rewrite (IH s');
      (destruct (decodeValue dec2 param sm s' required) as [[[w' g'] e']|]; [simpl|done]);
      destruct (is_nil w'); apply IHl.
  - destruct (is_nil v); [|done]. revert f. induction anyOf as [|s' l IHl]; intros f; [done|]. rewrite (IH s').
    destruct (decodeValue dec2 param sm s' required) as [[[w' g'] e']|]; [simpl|done].
    destruct (is_nil w'); [apply IHl|done].
  - destruct (_ || _); [done|]. revert v f e. induction allOf as [|s' l IHl]; intros v f e; [done|]. rewrite (IH s').
    destruct (decodeValue dec2 param sm s' required) as [[[w' g'] e']|]; [simpl|done].
    destruct (_ || _); [done|apply IHl].
Qed.
(** The default of [q] is written where [p] is read: the header of the same canonical
    name, or the cookie of the same name.  The query that is read is not the one the
    defaults are written to, and path parameters have no defaults. *)
Definition writes (q p : ParameterSpec) : bool :=
  (p_In q =?s p_In p)
  && ((p_In p =?s "header") && (CanonicalHeaderKey (p_Name q) =?s CanonicalHeaderKey (p_Name p))
      || (p_In p =?s "cookie") && (cookie_name (p_Name q) =?s p_Name p)).

(** What a parameter is decoded from. *)
Lemma decode_parameter_source p rq1 rq2 :
  in_PathParams (rq_Input rq1) = in_PathParams (rq_Input rq2) → in_Query (rq_Input rq1) = in_Query (rq_Input rq2) →
  (p_In p = "header" →
     in_Header (rq_Input rq1) !! CanonicalHeaderKey (p_Name p) = in_Header (rq_Input rq2) !! CanonicalHeaderKey (p_Name p)) →
  (p_In p = "cookie" → obj_get (p_Name p) (in_Cookies (rq_Input rq1)) = obj_get (p_Name p) (in_Cookies (rq_Input rq2))) →
  decode_parameter p rq1 = decode_parameter p rq2.
Proof.
  intros Hp Hq Hh Hc. unfold Validate.decode_parameter, decodeContentParameter, decodeStyledParameter.
  rewrite Hp, Hq. destruct (p_In p =?s "header") eqn:Eh; [|destruct (p_In p =?s "cookie") eqn:Ec; [|done]].
  - apply eqb_str_true in Eh. specialize (Hh Eh). rewrite Hh, Eh. simpl.
    destruct (p_content p), (p_sm p), (p_Schema p); try done. f_equal.
    apply decodeValue_local; try done; intros; unfold headerParamDecoder, header_DecodePrimitive, header_DecodeArray,
      header_DecodeObject, header_source; simpl; by rewrite Hh.
  - apply eqb_str_true in Ec. specialize (Hc Ec). rewrite Hc, Ec. simpl.
    destruct (p_content p), (p_sm p), (p_Schema p); try done. f_equal.
    apply decodeValue_local; try done; intros; unfold cookieParamDecoder, cookie_DecodePrimitive, cookie_DecodeArray,
      cookie_DecodeObject, cookie_source; simpl; by rewrite Hc.
Qed.

Lemma obj_get_snoc_ne {A} k k' (v : A) m : k ≠ k' → obj_get k (m ++ [(k', v)]) = obj_get k m.
Proof.
  intros Hne%eqb_str_false. induction m as [|[k1 v1] m IH]; simpl; [by rewrite Hne|].
  by destruct (k =?s k1).
Qed.

(** The default of a parameter does not reach the others. *)
Lemma set_default_local q p v rq :
  writes q p = false → decode_parameter p (set_default q v rq) = decode_parameter p rq.
Proof.
  intros Hw. apply decode_parameter_source; [by apply set_default_frame..| |]; intros Hin;
    revert Hw; unfold writes, set_default; rewrite Hin;
    destruct (p_In q =?s "query"); try (by destruct rq);
    destruct (p_In q =?s "header"); try (by destruct rq);
    destruct (p_In q =?s "cookie"); try (by destruct rq);
    destruct rq as [? ? [? ? ? cookies] ? ? ?]; simpl; rewrite ?orb_false_r.
  1,2: intros Hne%eqb_str_false; unfold Header_Add; by rewrite lookup_insert_ne.
  intros Hne. unfold AddCookie. destruct (_ && _); [|done]. apply obj_get_snoc_ne.
  intros Heq. by rewrite <- Heq, eqb_str_refl in Hne.
Qed.

Lemma ValidateParameter_local o q p rq rq' err :
  writes q p = false → ValidateParameter o q rq = Ret (rq', err) → decode_parameter p rq' = decode_parameter p rq.
Proof.
  intros Hw. unfold Validate.ValidateParameter, refuse, accept.
  destruct (p_Schema q) as [s|], (p_content q) as [n|]; [| | |naive_solver];
    intros ([[[v sc] found]|e] & _ & Hr)%obind_Ret; try (by injection Hr as <- _);
    destruct sc as [sc|]; [destruct (_ && _)| |destruct (_ && _)| |destruct (_ && _)|];
    apply check_parameter_frame in Hr as ->; try done;
    (destruct (is_nil _); [done|by apply set_default_local]).
Qed.

(** * Bodies *)

(** A body conforms: it is there when it is required, its media type is declared,
    and it is decoded to a value that matches the schema. *)
Definition body_conforms o (rb : RequestBodySpec) (data : gostring) (h : http_Header) : Prop :=
  (data = [] ∧ rb_Required rb = false) ∨
  data ≠ [] ∧
  (rb_Content rb = [] ∨
   ∃ mt, content_Get (rb_Content rb) (header_Get h "Content-Type") = Some mt ∧
   ∀ sc, mt_Schema mt = Some sc → ∃ m v r, decode_body data h sc mt = Ret (Ok (m, v)) ∧
     VisitJSON (MkVisit (o_MultiError o) true false (negb (o_SkipSettingDefaults o))
                  (o_ExcludeReadOnlyValidations o)) sc v = Ok r).

Definition body_data rq : gostring := match rq_Body rq with Data d => d | _ => [] end.

Lemma read_body_ok rq data rq' :
  read_body rq = Ok (data, rq') →
  data = body_data rq ∧ rq_Input rq' = rq_Input rq ∧ (∀ msg, rq_Body rq ≠ Failing msg).
Proof.
  unfold read_body, body_data. destruct rq as [m q i b cl gb]; simpl.
  destruct b; simpl; intros; simplify_eq; try done.
  destruct gb as [[b|]|]; simplify_eq; simpl; done.
Qed.

Lemma ValidateRequestBody_accepts o rb rq rq' :
  ValidateRequestBody o rb rq = Ret (rq', None) →
  body_conforms o rb (body_data rq) (in_Header (rq_Input rq)) ∧ (∀ msg, rq_Body rq ≠ Failing msg).
Proof.
  unfold Validate.ValidateRequestBody, body_conforms, refuse, accept.
  destruct (read_body rq) as [[data rq1]|] eqn:Hrd; [|done].
  apply read_body_ok in Hrd as (<- & Hi & Hf). intros Hr. split; [|done].
  destruct data as [|c data]; [left; by destruct (rb_Required rb)|]. right. split; [done|].
  destruct (rb_Content rb) as [|ct cts]; [by left|]. right.
  rewrite Hi in Hr. destruct (content_Get _ _) as [mt|]; [|done]. exists mt. split; [done|].
  intros sc Hsc. rewrite Hsc in Hr. apply obind_Ret in Hr as ([[m v]|e] & Hd & Hr); [|done].
  exists m, v. unfold check_body in Hr. destruct (VisitJSON _ sc v) as [r|]; [|done].
  exists r. done.
Qed.

Lemma ValidateRequestBody_input o rb rq rq' err :
  ValidateRequestBody o rb rq = Ret (rq', err) → rq_Input rq' = rq_Input rq.
Proof.
  unfold Validate.ValidateRequestBody, refuse, accept.
  destruct (read_body rq) as [[data rq1]|] eqn:Hrd; [|naive_solver].
  apply read_body_ok in Hrd as (_ & <- & _). intros Hr. destruct data as [|c data]; [case_match; naive_solver|].
  destruct (rb_Content rb); [naive_solver|]. destruct (content_Get _ _) as [mt|]; [|naive_solver].
  destruct (mt_Schema mt) as [sc|]; [|naive_solver].
  apply obind_Ret in Hr as ([[m v]|e] & _ & Hr); [|naive_solver]. unfold check_body in Hr.
  destruct (VisitJSON _ sc v) as [[v' ds]|]; [|naive_solver].
  destruct (_ && _); [|naive_solver]. destruct (encodeBody _ _ _); [|naive_solver].
  injection Hr as <- _. by destruct rq1.
Qed.

Lemma ValidateParameter_skip o param rq rq' err :
  o_SkipSettingDefaults o = true → ValidateParameter o param rq = Ret (rq', err) → rq' = rq.
Proof.
  intros Ho. unfold Validate.ValidateParameter, refuse, accept. rewrite Ho. cbn [negb andb].
  destruct (p_Schema param), (p_content param); [| | |naive_solver];
    intros ([[[v sc] found]|e] & _ & Hr)%obind_Ret; [|naive_solver| |naive_solver| |naive_solver];
    destruct sc; by apply check_parameter_frame in Hr.
Qed.

(** * Accepted requests *)

(** The parameters [ValidateRequest] checks. *)
Definition checked o rt (p : ParameterSpec) : Prop :=
  (p ∈ rt_PathParameters rt ∧ overridden (op_Parameters rt) p = false) ∨
  (p ∈ op_Parameters rt ∧ (o_ExcludeRequestQueryParams o = false ∨ p_In p ≠ "query")).

Lemma elem_of_List_filter {A} (f : A → bool) (x : A) l : x ∈ List.filter f l ↔ x ∈ l ∧ f x = true.
Proof. rewrite !list_elem_of_In. apply filter_In. Qed.

(** The checks of the parameters, which are all of them but the first (security)
    and the last (body). *)
Lemma request_checks_params o rt :
  ∃ ps, request_checks o rt =
    (λ rq, Ret (rq, ValidateSecurityRequirements o (doc_SecuritySchemes rt) rq
                      (default (doc_Security rt) (op_Security rt))))
    :: map (ValidateParameter o) ps
    ++ match op_RequestBody rt with
       | Some rb => if o_ExcludeRequestBody o then [] else [ValidateRequestBody o rb]
       | None => []
       end
  ∧ ∀ p, checked o rt p ↔ p ∈ ps.
Proof.
  eexists (_ ++ _). unfold Validate.request_checks. rewrite map_app, <- app_assoc.
  split; [by destruct (op_Security rt)|]. intros p.
  rewrite elem_of_app, !elem_of_List_filter, negb_true_iff. unfold checked.
  assert ((negb (o_ExcludeRequestQueryParams o && (p_In p =?s "query")) = true
           ↔ o_ExcludeRequestQueryParams o = false ∨ p_In p ≠ "query")) as Hx; [|tauto].
  rewrite negb_true_iff, andb_false_iff, <- eqb_str_false. done.
Qed.

(** A parameter that is accepted conforms in the request as it was received, when
    nothing else writes where it is read. *)
Lemma passes_param o ps p rq rq' :
  o_SkipSettingDefaults o = true ∨ (∀ q, q ∈ ps → writes q p = true → q = p) →
  p ∈ ps → passes (map (ValidateParameter o) ps) rq rq' → param_conforms o p rq.
Proof.
  intros Hw Hp. assert (∀ r, decode_parameter p r = decode_parameter p rq → param_conforms o p r → param_conforms o p rq) as Hsame.
  { intros r Hd. unfold param_conforms. by rewrite Hd. }
  enough (∀ r, decode_parameter p r = decode_parameter p rq →
    passes (map (ValidateParameter o) ps) r rq' → param_conforms o p rq) as Hgen by (by apply Hgen).
  induction ps as [|q ps IH]; [by apply elem_of_nil in Hp|].
  intros r Hr Hl. inversion Hl as [|? ? ? r1 ? Hc Hl1]; subst.
  assert (q = p ∨ p ∈ ps ∧ decode_parameter p r1 = decode_parameter p r) as [->|[Hin Hd]].
  { apply elem_of_cons in Hp as [<-|Hin]; [by left|]. destruct Hw as [Ho|Hw].
    - right. split; [done|]. by apply ValidateParameter_skip in Hc as ->.
    - destruct (writes q p) eqn:E; [left; apply Hw; [left|done]|right].
      split; [done|]. by apply (ValidateParameter_local _ _ _ _ _ _ E Hc). }
  - apply (Hsame r Hr). by eapply ValidateParameter_accepts.
  - apply (IH) with (r := r1); [|done|congruence|done].
    destruct Hw as [Ho|Hw]; [by left|right]. intros q' Hq'. apply Hw. by right.
Qed.

(** C4: an accepted request conforms to the specification: a security
    requirement is met (if there is any); every declared parameter that is not
    overridden or excluded is decoded from the request as it was received, present
    when required, and it, or its default when it is missing, matches its schema; and
    the body is present when required, of a declared media type, and matches its
    schema.  For header and cookie parameters the clause needs that no other
    parameter has the same canonical header name (the same cookie name), or that no
    defaults are written: the default of the other one would be read instead. *)
Theorem ValidateRequest_accepted o rt rq rq' :
  ValidateRequest o rt rq = Ret (rq', None) →
  (let srs := default (doc_Security rt) (op_Security rt) in
   srs = [] ∨ ∃ sr, sr ∈ srs ∧ requirement_met o (doc_SecuritySchemes rt) rq sr) ∧
  (∀ p, checked o rt p →
     o_SkipSettingDefaults o = true ∨ (∀ q, checked o rt q → writes q p = true → q = p) →
     param_conforms o p rq) ∧
  (∀ rb, op_RequestBody rt = Some rb → o_ExcludeRequestBody o = false →
     body_conforms o rb (body_data rq) (in_Header (rq_Input rq')) ∧ ∀ msg, rq_Body rq ≠ Failing msg).
Proof.
  unfold Validate.ValidateRequest. rewrite run_checks_passes.
  destruct (request_checks_params o rt) as (ps & -> & Hps). intros Hp.
  inversion Hp as [|? ? ? rq1 ? Hs Hp1]; subst. injection Hs as <- Hs.
  apply passes_app in Hp1 as (rq2 & Hpar & Hbody).
  split; [by apply security_None|]. split.
  - intros p Hck Hin. eapply passes_param; [|by apply Hps|done].
    destruct Hin as [Ho|Hw]; [by left|right]. intros q Hq. by apply Hw, Hps.
  - intros rb Hrb Ho. rewrite Hrb, Ho in Hbody. inversion Hbody as [|? ? ? r2 ? Hb Hn]; subst.
    inversion Hn; subst. pose proof (ValidateRequestBody_input _ _ _ _ _ Hb) as ->.
    assert (frame rq2 = frame rq) as [= _ _ Hbd _ _].
    { revert Hpar. apply passes_invariant. intros c r1 r3 Hc%list_elem_of_In Hr.
      apply in_map_iff in Hc as (p & <- & _). by eapply ValidateParameter_frame. }
    unfold body_data. rewrite <- Hbd. by apply ValidateRequestBody_accepts in Hb.
Qed.

(** * The body after the validation *)

(** The body, its length and [GetBody] agree. *)
Definition body_consistent rq : Prop :=
  match rq_Body rq with
  | Data d =>
      rq_ContentLength rq = Z.of_nat (length d) ∧
      (rq_GetBody rq = None ∨ rq_GetBody rq = Some (Ok (Data d)))
  | _ => True
  end.

Lemma put_body_consistent d rq : body_consistent (put_body d rq).
Proof. destruct rq. by split; [|right]. Qed.

Lemma read_body_consistent rq data rq' :
  body_consistent rq → read_body rq = Ok (data, rq') →
  body_consistent rq' ∧ body_data rq' = data.
Proof.
  unfold read_body. destruct (rq_Body rq) as [|d|] eqn:Hb; intros Hc Hr.
  - injection Hr as <- <-. split; [done|]. unfold body_data. by rewrite Hb.
  - unfold body_consistent in Hc. rewrite Hb in Hc. destruct Hc as [Hl [Hg|Hg]]; rewrite Hg in Hr.
    + injection Hr as <- <-. split; [apply put_body_consistent|by destruct rq].
    + injection Hr as <- <-. unfold body_consistent. destruct rq; simpl in *. auto.
  - done.
Qed.

(** The value of the body with the defaults of its schema, and the media type that
    decoded it, when defaults are set and the schema has some that are missing. *)
Definition defaulted o rb rq : option (gostring * value) :=
  match body_data rq, rb_Content rb with
  | [], _ | _, [] => None
  | data, content =>
      mt ← content_Get content (header_Get (in_Header (rq_Input rq)) "Content-Type");
      sc ← mt_Schema mt;
      match decode_body data (in_Header (rq_Input rq)) sc mt with
      | Ret (Ok (m, v)) =>
          match VisitJSON (MkVisit (o_MultiError o) true false (negb (o_SkipSettingDefaults o))
                             (o_ExcludeReadOnlyValidations o)) sc v with
          | Ok (v', true) => if o_SkipSettingDefaults o then None else Some (m, v')
          | _ => None
          end
      | _ => None
      end
  end.


(** * Defaults in the query *)

(** The default of a missing query parameter is added to the query string,
    and every other parameter of the query keeps its values. *)
Theorem set_default_query param v rq k :
  p_In param = "query" → (∀ l, v ≠ VArr l) → v ≠ VNilArr →
  obj_get k (URL_Query (rq_RawQuery (set_default param v rq))) =
  if k =?s p_Name param
  then Some (default [] (obj_get k (URL_Query (rq_RawQuery rq))) ++ [sprint v])
  else obj_get k (URL_Query (rq_RawQuery rq)).
Proof.
  intros Hin Ha Hn. unfold set_default. rewrite Hin. rewrite eqb_str_refl.
  assert (populateDefaultQueryParameters (URL_Query (rq_RawQuery rq)) (p_Name param) v
            (default false (p_Explode param))
          = Values_Add (URL_Query (rq_RawQuery rq)) (p_Name param) (sprint v)) as ->.
  { destruct v; try done. by destruct (Ha l). }
  assert (∀ q, rq_RawQuery (set_RawQuery q rq) = q) as -> by (by destruct rq).
  rewrite URL_Query_Encode.
  - unfold Values_Add. rewrite obj_get_set. destruct (k =?s p_Name param) eqn:E; [|done].
    by apply eqb_str_true in E as ->.
  - apply Values_Add_NoDup, URL_Query_NoDup.
  - apply Values_Add_nonempty, URL_Query_nonempty.
Qed.

(** * Optional parameters with content *)

(** A request without an optional parameter that is described by a content
    makes the validation of the parameter panic, when [IsEmpty] of a nil schema
    does: the schema of such a parameter is known only when it is found. *)
Theorem missing_content_panics o param rq n :
  schema_IsEmpty None = Panic → p_content param = Some n → p_Required param = false →
  p_In param = "query" → obj_get (p_Name param) (in_Query (rq_Input rq)) = None →
  ValidateParameter o param rq = Panic.
Proof.
  intros He Hc Hreq Hin Hq. unfold Validate.ValidateParameter, Validate.decode_parameter, decodeContentParameter.
  rewrite Hc, Hin, Hq, Hreq. simpl.
  destruct (p_Schema param); unfold check_parameter; rewrite Hreq; simpl; by rewrite He.
Qed.
End Spec.

(** * Witnesses *)

(** Formatting for the witnesses, and schemas that check the type only. *)
#[local] Existing Instance no_floats.

#[local] Instance plain_fmt : FmtPkg := {|
  quote s := double_quote :: s ++ [double_quote];
  sprint_float _ := []; sprint_float4 _ := []; query_error q := q
|}.

Definition type_matches (sc : schema) (v : value) : bool :=
  match v with
  | VInt64 _ | VInt32 _ => types_Is (s_Type sc) "integer"
  | VStr _ => types_Is (s_Type sc) "string"
  | VObj _ => types_Is (s_Type sc) "object"
  | _ => false
  end.

#[local] Instance typed_schemas : SchemaPkg := {|
  s_Default _ := VNil; s_Max _ := None; s_Min _ := None; s_Ref _ := []; s_Title _ := [];
  schema_IsEmpty s := match s with Some s => Ret (bool_decide (s_Type s = None)) | None => Panic end;
  VisitJSON _ s v := if type_matches s v then Ok (v, false) else Err (ELib "type");
  content_Get c mime := obj_get (parseMediaType mime).1 c
|}.

Definition no_lib : parsers := {|
  fastjson_Parse _ := Ok (JObject []); mxj_NewMapXml _ := Err []; yaml_Decode _ := Err [];
  csv_Read _ := Err []; zip_files _ := Err []; mime_ParseMediaType _ := Err [];
  multipart_parts _ _ := ([], None)
|}.

Definition plain_options : Options :=
  MkOptions false false false false false false false (Some (λ _ _ _ _, None)).

Definition pet_id : ParameterSpec :=
  MkParameter "id" "path" true false (Some (type_schema "integer" [])) None None
    (Ok (MkSM "simple" false)) None.

Definition pet_body : RequestBodySpec :=
  MkRequestBody true [(str "application/json",
    MkMediaType (Some (object_schema [])) (λ _, MkSM "form" true))].

Definition pet_route : Route :=
  MkRoute [] [pet_id] (Some pet_body) None [[(str "key", [])]]
    [(str "key", MkScheme "apiKey" [] "header" "X-Key")] 0 (λ _, None) None.

Definition pet_header : http_Header := {[ str "Content-Type" := [str "application/json"] ]}.
Definition pet_input : RequestInput := MkInput {[ str "id" := str "7" ]} [] pet_header [].
Definition pet_request : request := MkRequest "POST" [] pet_input (Data "{}") 2 None.

Definition pet_validate :=
  ValidateRequest no_lib default_registry (λ _, None) ∅ plain_options pet_route pet_request.

Lemma pet_accepted : ∃ rq', pet_validate = Ret (rq', None).
Proof. eexists. vm_compute. reflexivity. Qed.

Lemma run_checks_first_witness :
  run_checks false [λ rq, Ret (rq, Some EInvalidRequired); λ rq, Ret (rq, Some EInvalidEmptyValue)]
    pet_request [] = Ret (pet_request, Some EInvalidRequired).
Proof.
  destruct (run_checks_first
    [λ rq, Ret (rq, Some EInvalidRequired); λ rq, Ret (rq, Some EInvalidEmptyValue)]
    pet_request pet_request (Some (EMulti [EInvalidRequired; EInvalidEmptyValue])))
    as (e1 & es & rq1 & He & Hr); [reflexivity|].
  injection He as <- _. cbn in Hr |- *. reflexivity.
Defined.

Lemma ValidateRequest_accepted_witness :
  param_conforms (λ _, None) plain_options pet_id pet_request ∧
  ∃ h, body_conforms no_lib default_registry plain_options pet_body "{}" h.
Proof.
  destruct pet_accepted as [rq' Hr].
  destruct (ValidateRequest_accepted no_lib default_registry (λ _, None) ∅ plain_options pet_route
              pet_request rq' Hr) as (_ & Hp & Hb).
  split; [apply Hp; [right; split; [left|by left]|right]|].
  { intros q [[Hq _]|[Hq _]] _; [by apply elem_of_nil in Hq|by apply list_elem_of_singleton in Hq]. }
  eexists. apply (Hb pet_body); reflexivity.
Defined.


Definition limit_param : ParameterSpec :=
  MkParameter "limit" "query" false false (Some (type_schema "integer" [])) None None
    (Ok (MkSM "form" true)) None.

Lemma set_default_query_witness :
  obj_get "limit" (URL_Query (rq_RawQuery (set_default limit_param (VInt64 10)
    (set_RawQuery "a%20b=c%26d" pet_request)))) = Some [str "10"] ∧
  obj_get "a b" (URL_Query (rq_RawQuery (set_default limit_param (VInt64 10)
    (set_RawQuery "a%20b=c%26d" pet_request)))) = Some [str "c&d"].
Proof. split; rewrite set_default_query; by vm_compute. Defined.

Definition filter_param : ParameterSpec :=
  MkParameter "filter" "query" false false None (Some 1) (Some (Some (object_schema [])))
    (Ok (MkSM "form" true)) None.

Lemma missing_content_panics_witness :
  ValidateParameter (λ _, None) plain_options filter_param pet_request = Panic.
Proof. apply (missing_content_panics (λ _, None) plain_options filter_param pet_request 1); reflexivity. Defined.
