(* ===== verification/Unknown.v ===== *)
(** Detection of parameters the specification does not declare
    (internal/platform/validator/unknown_parameters_request.go). *)
From S2P Require Import Prelude GoStrings Values URLValues Messages ParamDecoder BodyDecoder Validate.

Section Unknown.
Context `{FmtPkg} `{TypesPkg} `{!SchemaPkg}.
Context (lib : parsers) (reg : registry).

Definition maxJSONArrayDepth : nat := 32.
Definition maxJSONArrayElements : nat := 10000.

(** [RequestParameterDetails] and [RequestUnknownParameterError]. *)
Record RequestParameterDetails := MkDetails {
  pd_Name : gostring;
  pd_Placeholder : gostring;
  pd_Type : gostring
}.

Record RequestUnknownParameterError := MkUnknown {
  up_Parameters : list RequestParameterDetails;
  up_Message : gostring
}.

(** The errors of the detection. *)
Inductive uerr := UMaxDepthExceeded | UDecodingFailed | UDecode (e : error).

(** [identifyData] on a text: a string or a byte slice. *)
Definition identify_text (s : gostring) : gostring :=
  match atoi s with
  | Ok _ => "integer"
  | Err _ => match ParseFloat s with Ok _ => "float" | Err _ => "string" end
  end.

(** [identifyData]: [json.Number], the integers of the decoders and the other
    types are none of the cases. *)
Definition identifyData (v : value) : gostring :=
  match v with
  | VStr s => identify_text s
  | VFloat _ => "float"
  | _ => "unknown"
  end.

Definition body_detail (name : gostring) (v : value) : RequestParameterDetails :=
  MkDetails name "body" (identifyData v).

(** The loop over the entries of an object; [props] are the properties of the
    schema, [None] when the media type has no schema. *)
Fixpoint unknown_entries (props : option (list (gostring * schema))) (m : list (gostring * value))
  : outcome (list RequestParameterDetails) :=
  match m with
  | [] => Ret []
  | (name, v) :: m' =>
      match props with
      | None => Panic
      | Some ps =>
          rest <-! unknown_entries props m' ;;
          Ret match obj_get name ps with Some _ => rest | None => body_detail name v :: rest end
      end
  end.

(** [findUnknownParamsInJSONBody]. *)
Fixpoint findUnknownParamsInJSONBody (decodedBody : value) (props : option (list (gostring * schema)))
    (depth : nat) : outcome (result uerr (list RequestParameterDetails)) :=
  if Nat.ltb maxJSONArrayDepth depth then Ret (Err UMaxDepthExceeded)
  else
    match decodedBody with
    | VNilArr => Ret (Ok [])
    | VArr l =>
        (fix go (l : list value) (n : nat) (acc : list RequestParameterDetails) :=
           match l, n with
           | [], _ | _, 0 => Ret (Ok acc)
           | v :: l', S n' =>
               r <-! findUnknownParamsInJSONBody v props (S depth) ;;
               match r with
               | Err e => Ret (Err e)
               | Ok found => go l' n' (acc ++ found)
               end
           end) l maxJSONArrayElements []
    | VNilMap => Ret (Ok [])
    | VObj m => found <-! unknown_entries props m ;; Ret (Ok found)
    | _ => Ret (Err UDecodingFailed)
    end.

(** What fasthttp gives of a request. *)
Record fast_request := MkFast {
  fr_QueryArgs : list (gostring * gostring);
  fr_PostArgs : list (gostring * gostring);
  fr_Body : gostring;
  fr_ContentType : gostring
}.

(** [specParams]: the keys of the declared parameters. *)
Definition specParams (rt : Route) : list gostring :=
  map (λ p, p_Name p ++ p_In p) (rt_PathParameters rt ++ op_Parameters rt).

(** The callback on the query arguments. *)
Definition query_known (spec : list gostring) (key : gostring) : bool :=
  match index_byte key "[" with
  | Some (S i) => bool_decide (take (S i) key ++ str "query" ∈ spec)
  | _ => false
  end
  || bool_decide (key ++ str "query" ∈ spec).

Definition ErrUnknownQueryParameter : gostring := "query parameter not defined in the OpenAPI specification".
Definition ErrUnknownBodyParameter : gostring := "body parameter not defined in the OpenAPI specification".

Definition unknown_query (spec : list gostring) (args : list (gostring * gostring))
  : list RequestParameterDetails :=
  map (λ kv, MkDetails kv.1 "query" (identify_text kv.2))
    (List.filter (λ kv, negb (query_known spec kv.1)) args).

(** A group of unknown parameters, when there are any. *)
Definition group (msg : gostring) (l : list RequestParameterDetails) : list RequestUnknownParameterError :=
  match l with [] => [] | _ => [MkUnknown l msg] end.

(** [decodeBody] with the schema of a media type that may have none: only the
    decoders of forms read it. *)
Definition decode_any (data : gostring) (h : http_Header) (mt : MediaType)
  : outcome (result error (gostring * value)) :=
  let decode sc := decodeBody lib (S (length data)) reg false data h sc (mt_Encoding mt) in
  match mt_Schema mt with
  | Some sc => decode sc
  | None =>
      let '(mediaType, suffix) := parseMediaType (header_Get h "Content-Type") in
      match getBodyDecoder reg mediaType suffix with
      | Ok (urlencodedBodyDecoder | multipartBodyDecoder) => Panic
      | _ => decode (type_schema [] [])
      end
  end.

(** The names in the header of a CSV text. *)
Definition csv_titles (s : gostring) : list gostring :=
  match split s ["010"%char] with row :: _ => split row "," | [] => [] end.

(** The unknown entries of a decoded XML document: names are compared in lower
    case. *)
Definition xml_entries (propKeys : list gostring) (m : list (gostring * value))
  : list RequestParameterDetails :=
  map (λ kv, body_detail kv.1 kv.2)
    (List.filter (λ kv, negb (Contains propKeys (to_lower kv.1))) m).

Definition xml_unknown (ps : list (gostring * schema)) (m : list (gostring * value))
  : list RequestParameterDetails :=
  let propKeys := map (λ kv, to_lower kv.1) ps in
  match m with
  | [(_, VObj params)] => xml_entries propKeys params
  | [_] => []
  | _ => xml_entries propKeys m
  end.

(** The unknown parameters of a decoded body. *)
Definition unknown_body (mt : MediaType) (postArgs : list (gostring * gostring)) (mediaType : gostring)
    (v : value) : outcome (result uerr (list RequestParameterDetails)) :=
  let '(mType, suffix) := parseMediaType mediaType in
  let props := s_Properties <$> mt_Schema mt in
  if (mType =?s "text/plain") || (suffix =?s "+plain") then Ret (Ok [])
  else if (mType =?s "text/csv") || (suffix =?s "+csv") then
    match v with
    | VStr s =>
        match props with
        | None => Panic
        | Some ps =>
            Ret (Ok (map (λ rName, body_detail rName v)
                       (List.filter (λ rName, negb (bool_decide (is_Some (obj_get rName ps)))) (csv_titles s))))
        end
    | _ => Ret (Err UDecodingFailed)
    end
  else if mType =?s "application/x-www-form-urlencoded" then
    match v with
    | VObj paramList =>
        Ret (Ok (map (λ kv, MkDetails kv.1 "body" (identify_text kv.2))
                   (List.filter (λ kv, negb (bool_decide (is_Some (obj_get kv.1 paramList)))) postArgs)))
    | VNilMap => Ret (Ok (map (λ kv, MkDetails kv.1 "body" (identify_text kv.2)) postArgs))
    | _ => Ret (Err UDecodingFailed)
    end
  else if (mType =?s "application/json") || (mType =?s "multipart/form-data") || (suffix =?s "+json") then
    findUnknownParamsInJSONBody v props 0
  else if (mType =?s "application/xml") || (suffix =?s "+xml") then
    match props with
    | None => Panic
    | Some ps =>
        match v with
        | VObj m => Ret (Ok (xml_unknown ps m))
        | VNilMap => Ret (Ok [])
        | _ => Ret (Err UDecodingFailed)
        end
    end
  else Ret (Err UDecodingFailed).

Definition ValidateUnknownRequestParameters (rt : Route) (fr : fast_request) (header : http_Header)
  : outcome (list RequestUnknownParameterError * option uerr) :=
  let found := group ErrUnknownQueryParameter (unknown_query (specParams rt) (fr_QueryArgs fr)) in
  match op_RequestBody rt with
  | None => Ret (found, None)
  | Some rb =>
      match rb_Content rb, fr_Body fr with
      | [], _ | _, [] => Ret (found, None)
      | content, body =>
          match content_Get content (fr_ContentType fr) with
          | None => Ret (found, None)
          | Some mt =>
              r <-! decode_any body header mt ;;
              match r with
              | Err e => Ret (found, Some (UDecode e))
              | Ok (mediaType, v) =>
                  r <-! unknown_body mt (fr_PostArgs fr) mediaType v ;;
                  Ret match r with
                      | Err e => (found, Some e)
                      | Ok l => (found ++ group ErrUnknownBodyParameter l, None)
                      end
              end
          end
      end
  end.
End Unknown.
