(* ===== verification/UnknownSpec.v ===== *)
(** Properties of the detection of unknown parameters: it reports exactly the
    parameters that are not declared, among those it looks at. *)
From S2P Require Import Prelude GoStrings Values URLValues Messages ParamDecoder ParamDecoderSpec BodyDecoder BodyDecoderSpec Validate Unknown.

Section Spec.
Context `{FmtPkg} `{TypesPkg} `{!SchemaPkg}.

(** * Query parameters *)

Definition valid_in (loc : gostring) : Prop :=
  loc ∈ [str "path"; str "query"; str "header"; str "cookie"].

(** A query parameter of this name is declared. *)
Definition declared (rt : Route) (name : gostring) : Prop :=
  ∃ p, p ∈ rt_PathParameters rt ++ op_Parameters rt ∧ p_Name p = name ∧ p_In p = "query".

(** The keys of [specParams] tell the locations apart. *)
Lemma spec_key (name key loc : gostring) :
  valid_in loc → name ++ loc = key ++ str "query" → name = key ∧ loc = "query".
Proof.
  unfold valid_in. rewrite !elem_of_cons, elem_of_nil.
  assert (∀ (a b : gostring) (c : ascii), a ++ [c] = key ++ str "query" → c = "y"%char) as Hlast.
  { intros a b c E. change (str "query") with (str "quer" ++ ["y"%char]) in E.
    rewrite app_assoc in E. by apply app_inj_tail in E as [_ ->]. }
  intros [->|[->|[->|[->|[]]]]] E.
  - change (str "path") with (str "pat" ++ ["h"%char]) in E. rewrite app_assoc in E.
    by apply Hlast in E; [|exact []].
  - by apply app_inv_tail in E.
  - change (str "header") with (str "heade" ++ ["r"%char]) in E. rewrite app_assoc in E.
    by apply Hlast in E; [|exact []].
  - change (str "cookie") with (str "cooki" ++ ["e"%char]) in E. rewrite app_assoc in E.
    by apply Hlast in E; [|exact []].
Qed.

Lemma specParams_query rt name :
  Forall (λ p, valid_in (p_In p)) (rt_PathParameters rt ++ op_Parameters rt) →
  name ++ str "query" ∈ specParams rt ↔ declared rt name.
Proof.
  intros Hv. unfold specParams, declared. rewrite list_elem_of_fmap. split.
  - intros (p & E & Hp). rewrite Forall_forall in Hv. exists p. split; [done|].
    symmetry in E. by apply spec_key in E; [|apply Hv].
  - intros (p & Hp & <- & E). exists p. by rewrite E.
Qed.

(** The query parameters that are reported are exactly the arguments whose
    name is not declared as a query parameter, nor the part of the name before
    a bracket. *)
Theorem unknown_query_exact rt args d :
  Forall (λ p, valid_in (p_In p)) (rt_PathParameters rt ++ op_Parameters rt) →
  d ∈ unknown_query (specParams rt) args ↔
  ∃ k v, (k, v) ∈ args ∧ d = MkDetails k "query" (identify_text v) ∧
    ¬ declared rt k ∧ ∀ i, index_byte k "[" = Some (S i) → ¬ declared rt (take (S i) k).
Proof.
  intros Hv. unfold unknown_query. rewrite list_elem_of_fmap.
  assert (∀ k, negb (query_known (specParams rt) k) = true ↔
    ¬ declared rt k ∧ ∀ i, index_byte k "[" = Some (S i) → ¬ declared rt (take (S i) k)) as Hk.
  { intros k. unfold query_known. rewrite negb_true_iff, orb_false_iff, bool_decide_eq_false.
    rewrite specParams_query by done.
    destruct (index_byte k "[") as [[|i]|]; [naive_solver| |naive_solver].
    rewrite bool_decide_eq_false, specParams_query by done. naive_solver. }
  split.
  - intros ([k v] & -> & Hin). apply list_elem_of_In, filter_In in Hin as [Hin Hf].
    apply Hk in Hf. exists k, v. by rewrite list_elem_of_In.
  - intros (k & v & Hin & -> & Hf%Hk). exists (k, v). split; [done|].
    apply list_elem_of_In, filter_In. by rewrite <- list_elem_of_In.
Qed.

(** * JSON bodies *)

(** The objects the detection looks at: those in the first elements of arrays. *)
Inductive examined : value → list (gostring * value) → Prop :=
| examined_obj m : examined (VObj m) m
| examined_arr l v m :
    v ∈ take maxJSONArrayElements l → examined v m → examined (VArr l) m.

(** The nesting of arrays in the examined part. *)
Inductive nested : nat → value → Prop :=
| nested_here v : nested 0 v
| nested_arr n l v : v ∈ take maxJSONArrayElements l → nested n v → nested (S n) (VArr l).

Lemma unknown_entries_spec ps m :
  ∃ l, unknown_entries (Some ps) m = Ret l ∧
  ∀ d, d ∈ l ↔ ∃ name v, (name, v) ∈ m ∧ obj_get name ps = None ∧ d = body_detail name v.
Proof.
  induction m as [|[name v] m (l & Hl & IH)]; simpl.
  - exists []. split; [done|]. intros d. split; [by intros ?%elem_of_nil|].
    intros (? & ? & Hn & _). by apply elem_of_nil in Hn.
  - rewrite Hl. simpl. eexists. split; [done|]. intros d. setoid_rewrite elem_of_cons.
    destruct (obj_get name ps) eqn:E; [rewrite IH; naive_solver|]. rewrite elem_of_cons, IH. naive_solver.
Qed.

(** The loop over the elements of an array. *)
Fixpoint find_elements (props : option (list (gostring * schema))) (depth : nat) (l : list value)
    (acc : list RequestParameterDetails) : outcome (result uerr (list RequestParameterDetails)) :=
  match l with
  | [] => Ret (Ok acc)
  | v :: l' =>
      r <-! findUnknownParamsInJSONBody v props depth ;;
      match r with Err e => Ret (Err e) | Ok found => find_elements props depth l' (acc ++ found) end
  end.

Lemma find_arr l props depth :
  findUnknownParamsInJSONBody (VArr l) props depth =
  if Nat.ltb maxJSONArrayDepth depth then Ret (Err UMaxDepthExceeded)
  else find_elements props (S depth) (take maxJSONArrayElements l) [].
Proof.
  cbn [findUnknownParamsInJSONBody]. destruct (Nat.ltb _ _); [done|].
  generalize maxJSONArrayElements as n, (@nil RequestParameterDetails) as acc.
  induction l as [|v l IH]; intros n acc; [by rewrite take_nil|].
  destruct n as [|n]; [done|]. cbn [take find_elements].
  destruct (findUnknownParamsInJSONBody v props (S depth)) as [[f|e]|]; cbn [obind]; auto.
Qed.

(** Induction on values that reaches the elements of arrays. *)
Lemma value_arr_ind (P : value → Prop) :
  (∀ v, (∀ l, v ≠ VArr l) → P v) → (∀ l, Forall P l → P (VArr l)) → ∀ v, P v.
Proof.
  intros Hb Ha. fix IH 1. intros v.
  destruct v; try (apply Hb; intros; discriminate). apply Ha. induction l; constructor; auto.
Qed.

Lemma take_elem {A} (x : A) n l : x ∈ take n l → x ∈ l.
Proof. intros (i & Hi & _)%elem_of_take. by eapply list_elem_of_lookup_2. Qed.

Lemma find_elements_Ok ps depth l acc found :
  find_elements (Some ps) depth l acc = Ret (Ok found) →
  ∃ fs, Forall2 (λ v f, findUnknownParamsInJSONBody v (Some ps) depth = Ret (Ok f)) l fs ∧
        found = acc ++ concat fs.
Proof.
  revert acc. induction l as [|v l IH]; intros acc; simpl.
  - intros [= <-]. exists []. split; [constructor|]. by rewrite app_nil_r.
  - intros ([f|e] & Hf & Hr)%obind_Ret; [|done]. apply IH in Hr as (fs & Hfs & ->).
    exists (f :: fs). split; [by constructor|]. by rewrite <- app_assoc.
Qed.

Lemma find_Ok_depth ps depth v found :
  findUnknownParamsInJSONBody v (Some ps) depth = Ret (Ok found) → depth ≤ maxJSONArrayDepth.
Proof.
  intros Hf. destruct (Nat.ltb_spec maxJSONArrayDepth depth) as [Hlt|]; [|done].
  exfalso. apply Nat.ltb_lt in Hlt. destruct v; cbn [findUnknownParamsInJSONBody] in Hf; by rewrite Hlt in Hf.
Qed.

Lemma find_exact ps v depth found :
  findUnknownParamsInJSONBody v (Some ps) depth = Ret (Ok found) →
  ∀ d, d ∈ found ↔ ∃ m name w, examined v m ∧ (name, w) ∈ m ∧ obj_get name ps = None
                               ∧ d = body_detail name w.
Proof.
  revert depth found. induction v as [v Hv|l IH] using value_arr_ind; intros depth found Hf d.
  - pose proof (find_Ok_depth _ _ _ _ Hf) as Hd%Nat.ltb_ge.
    assert (∀ m, examined v m → v = VObj m) as Hex.
    { inversion 1; subst; [done|]. by destruct (Hv l). }
    destruct v; cbn [findUnknownParamsInJSONBody] in Hf; rewrite Hd in Hf; try done.
    1-2: injection Hf as <-; rewrite elem_of_nil; split; [done|];
         intros (m & ? & ? & Hm%Hex & _); done.
    + by destruct (Hv l).
    + destruct (unknown_entries_spec ps m) as (l & Hl & Hspec). rewrite Hl in Hf. injection Hf as <-.
      rewrite Hspec. split.
      * intros (name & w & ?). exists m, name, w. split; [constructor|done].
      * intros (m' & name & w & Hm%Hex & ?). injection Hm as <-. eauto.
  - pose proof (find_Ok_depth _ _ _ _ Hf) as Hd%Nat.ltb_ge. rewrite find_arr, Hd in Hf.
    apply find_elements_Ok in Hf as (fs & Hfs & ->). simpl. rewrite Forall_forall in IH. split.
    + intros (f & Hff & Hdf)%list_elem_of_In%in_concat. apply list_elem_of_In in Hff, Hdf.
      apply list_elem_of_lookup in Hff as [i Hi]. destruct (Forall2_lookup_r _ _ _ _ _ Hfs Hi) as (v & Hvi & Hf).
      apply list_elem_of_lookup_2 in Hvi. rewrite (IH v) in Hdf; [|by eapply take_elem|done].
      destruct Hdf as (m & name & w & Hm & ?). exists m, name, w. split; [by econstructor|done].
    + intros (m & name & w & Hm & Hrest). inversion Hm as [|? v ? Hv Hm']; subst.
      apply list_elem_of_lookup in Hv as [i Hi]. destruct (Forall2_lookup_l _ _ _ _ _ Hfs Hi) as (f & Hfi & Hf).
      apply list_elem_of_In, in_concat. exists f. apply list_elem_of_lookup_2 in Hfi, Hi.
      rewrite <- !list_elem_of_In. split; [done|].
      rewrite (IH v); [|by eapply take_elem|done]. by exists m, name, w.
Qed.

(** C20: the parameters reported in a JSON body are exactly the entries, of the
    objects it looks at, whose name is not a property of the schema. *)
Theorem findUnknown_exact ps v found d :
  findUnknownParamsInJSONBody v (Some ps) 0 = Ret (Ok found) →
  d ∈ found ↔ ∃ m name w, examined v m ∧ (name, w) ∈ m ∧ obj_get name ps = None
                          ∧ d = body_detail name w.
Proof. intros Hf. by apply (find_exact ps v 0). Qed.

Lemma find_nested ps v depth found n :
  findUnknownParamsInJSONBody v (Some ps) depth = Ret (Ok found) → nested n v →
  n + depth ≤ maxJSONArrayDepth.
Proof.
  intros Hf Hn. revert depth found Hf. induction Hn as [v|n l v Hv Hn IH]; intros depth found Hf.
  - by apply find_Ok_depth in Hf.
  - pose proof (find_Ok_depth _ _ _ _ Hf) as Hd%Nat.ltb_ge. rewrite find_arr, Hd in Hf.
    apply find_elements_Ok in Hf as (fs & Hfs & _). apply list_elem_of_lookup in Hv as [i Hi].
    destruct (Forall2_lookup_l _ _ _ _ _ Hfs Hi) as (f & _ & Hf). apply IH in Hf. lia.
Qed.

(** A body accepted by the detection nests arrays at most 32 deep in the
    part that is looked at: deeper bodies are refused instead of recursing. *)
Theorem findUnknown_depth ps v found n :
  findUnknownParamsInJSONBody v (Some ps) 0 = Ret (Ok found) → nested n v → n ≤ maxJSONArrayDepth.
Proof. intros Hf Hn. pose proof (find_nested _ _ _ _ _ Hf Hn). lia. Qed.

(** Elements of an array after the first ten thousand are not looked at:
    whatever they hold, the answer is the same. *)
Theorem findUnknown_truncates props depth l1 l2 l3 :
  length l1 = maxJSONArrayElements →
  findUnknownParamsInJSONBody (VArr (l1 ++ l2)) props depth
  = findUnknownParamsInJSONBody (VArr (l1 ++ l3)) props depth.
Proof. intros Hl. by rewrite !find_arr, !take_app_length' by done. Qed.
End Spec.

(** * Witnesses *)

#[local] Existing Instance no_floats.

Definition limit_route : Route :=
  MkRoute [] [MkParameter "limit" "query" false false (Some (type_schema "integer" [])) None None
                (Ok (MkSM "form" true)) None]
    None None [] [] 0 (λ _, None) None.

Lemma unknown_query_exact_witness :
  MkDetails "debug" "query" "integer"
  ∈ unknown_query (specParams limit_route) [(str "limit", str "x"); (str "debug", str "1")].
Proof.
  apply (unknown_query_exact limit_route); [by repeat constructor|].
  exists "debug", "1". split; [right; left|]. split; [by vm_compute|]. split; [|by intros i ?].
  intros (p & Hp & Hn & _). apply list_elem_of_singleton in Hp as ->. by vm_compute in Hn.
Defined.

Lemma findUnknown_exact_witness :
  body_detail "b" (VStr "2") ∈ [body_detail "b" (VStr "2")] ↔
  ∃ m name w, examined (VArr [VObj [(str "a", VStr "1"); (str "b", VStr "2")]]) m ∧ (name, w) ∈ m
    ∧ obj_get name [(str "a", type_schema "string" [])] = None
    ∧ body_detail "b" (VStr "2") = body_detail name w.
Proof. apply (findUnknown_exact [(str "a", type_schema "string" [])]). by vm_compute. Defined.

Lemma findUnknown_depth_witness : 1 ≤ maxJSONArrayDepth.
Proof.
  apply (findUnknown_depth [] (VArr [VObj []]) [] 1); [by vm_compute|].
  by apply (nested_arr 0 _ (VObj [])); [left|constructor].
Defined.

Lemma findUnknown_truncates_witness :
  findUnknownParamsInJSONBody (VArr (repeat (VObj []) maxJSONArrayElements ++ [VObj [(str "evil", VNil)]]))
    (Some []) 0
  = findUnknownParamsInJSONBody (VArr (repeat (VObj []) maxJSONArrayElements ++ [])) (Some []) 0.
Proof. apply (findUnknown_truncates (Some []) 0). apply repeat_length. Defined.
