(* ===== verification/APIErrors.v ===== *)
(** Errors of the API mode (internal/platform/validator/api_mode_errors.go and
    pkg/APIMode/validator): how an error of the validation becomes a list of
    errors with codes.

    The texts of the errors of kin-openapi are parameters, with the documented
    form of the text of a [RequestError]. *)
From S2P Require Import Prelude GoStrings Values URLValues Messages ParamDecoder BodyDecoder Validate.

(** [FieldTypeError] and [ValidationError]. *)
Record FieldTypeError := MkField {
  ft_Name : gostring;
  ft_ExpectedType : gostring;
  ft_Pattern : gostring;
  ft_CurrentValue : gostring
}.

Record ValidationError := MkValidationError {
  ve_Message : gostring;
  ve_Code : gostring;
  ve_SchemaVersion : gostring;
  ve_SchemaID : option Z;
  ve_Fields : list gostring;
  ve_FieldsDetails : list FieldTypeError
}.

Definition verror_of (code msg : gostring) (fields : list gostring) (details : list FieldTypeError)
  : ValidationError := MkValidationError msg code [] None fields details.

(** The codes for a parameter that is missing, or has an invalid value, by its
    location. *)
Definition missed_code (loc : gostring) : gostring :=
  if loc =?s "path" then "required_path_parameter_missed"
  else if loc =?s "query" then "required_query_parameter_missed"
  else if loc =?s "cookie" then "required_cookie_parameter_missed"
  else if loc =?s "header" then "required_header_missed"
  else [].
Definition invalid_code (loc : gostring) : gostring :=
  if loc =?s "path" then "required_path_parameter_invalid_value"
  else if loc =?s "query" then "required_query_parameter_invalid_value"
  else if loc =?s "cookie" then "required_cookie_parameter_invalid_value"
  else if loc =?s "header" then "required_header_invalid_value"
  else [].

Section APIErrors.
Context `{FmtPkg} `{TypesPkg} `{!SchemaPkg}.

(** The [Error] methods of kin-openapi, the text of its [ErrInvalidRequired],
    and the lookup of a property: [Some None] is a reference. *)
Class FilterPkg := {
  RequestError_Error : option (gostring * gostring) → bool → gostring → option gostring → gostring;
  MultiError_Error : list gostring → gostring;
  SecurityError_Error : list gostring → gostring;
  ResponseError_Error : gostring → option gostring → gostring;
  filter_required_text : gostring;
  properties_JSONLookup : schema → gostring → option (option schema);
  (** A parameter: its name and location, then the cause, which a reason with
      the same text does not repeat. *)
  RequestError_param n l b r t :
    r = [] ∨ r = t →
    RequestError_Error (Some (n, l)) b r (Some t)
    = str "parameter " ++ quote n ++ str " in " ++ l ++ str " has an error: " ++ t
}.
Context `{!FilterPkg}.

(** The text of an error. *)
Fixpoint verr_text (e : verr) : gostring :=
  match e with
  | EDecode e => Error e
  | ESchema e => se_msg e
  | EMulti l => MultiError_Error (map verr_text l)
  | EInvalidRequired => verr_required_text
  | EInvalidEmptyValue => verr_empty_text
  | EFilterInvalidRequired => filter_required_text
  | EAuthenticationServiceMissing => "missing AuthenticationFunc"
  | ESchemeNotDeclared name => str "security scheme " ++ quote name ++ " is not declared"
  | EParameterIsMissing _ msg => msg
  | ELib msg => msg
  | ERequest param body reason err =>
      RequestError_Error ((λ p, (p_Name p, p_In p)) <$> param) (bool_decide (is_Some body)) reason
        (match err with Some e => Some (verr_text e) | None => None end)
  | EResponse reason err =>
      ResponseError_Error reason (match err with Some e => Some (verr_text e) | None => None end)
  | ESecurity _ errs => SecurityError_Error (map verr_text errs)
  end.

(** [errors.Is(err, ErrInvalidRequired) || errors.Is(err, ErrInvalidEmptyValue)]. *)
Fixpoint is_missing (e : verr) : bool :=
  match e with
  | EInvalidRequired | EInvalidEmptyValue => true
  | EMulti l => existsb is_missing l
  | ERequest _ _ _ (Some e) | EResponse _ (Some e) => is_missing e
  | _ => false
  end.

(** [err.Err.( *ParseError)]. *)
Definition is_parse_err (cause : option verr) : bool :=
  match cause with Some (EDecode e) => is_parse_error e | _ => false end.

(** [checkParseErr]: the fields it copies are never set. *)
Definition checkParseErr (p : ParameterSpec) (cause : option verr) : option FieldTypeError :=
  if is_parse_err cause then Some (MkField (p_Name p) [] [] []) else None.

(** The pattern of the details of a schema error; the bound is dereferenced. *)
Definition error_pattern (se : SchemaError) : outcome gostring :=
  if se_SchemaField se =?s "maximum" then
    match s_Max (se_Schema se) with Some m => Ret (str "<=" ++ sprint_float4 m) | None => Panic end
  else if se_SchemaField se =?s "minimum" then
    match s_Min (se_Schema se) with Some m => Ret (str ">=" ++ sprint_float4 m) | None => Panic end
  else if se_SchemaField se =?s "pattern" then Ret (s_Pattern (se_Schema se))
  else Ret [].

(** The details for each type of a schema. *)
Definition type_details (name : gostring) (sc : schema) : list FieldTypeError :=
  map (λ t, MkField name t [] []) (types_Slice (s_Type sc)).

Definition value_details (name : gostring) (se : SchemaError) : outcome (list FieldTypeError) :=
  match types_Slice (s_Type (se_Schema se)) with
  | [] => Ret []
  | types =>
      pat <-! error_pattern se ;;
      Ret (map (λ t, MkField name t pat (sprint (se_Value se))) types)
  end.

Definition ErrMissedRequiredParameters : gostring := "required parameters missed".

(** [checkRequiredFields]. *)
Definition checkRequiredFields (p : ParameterSpec) (cause : option verr) (se : SchemaError)
  : outcome (list ValidationError) :=
  if se_SchemaField se =?s "required" then
    Ret (map (λ f, verror_of (missed_code (p_In p)) ErrMissedRequiredParameters [f]
                     (type_details (p_Name p) (se_Schema se))) (se_pointer se))
  else
    match checkParseErr p cause with
    | Some _ => Ret []
    | None =>
        details <-! value_details (p_Name p) se ;;
        Ret [verror_of (invalid_code (p_In p)) (se_msg se) [p_Name p] details]
    end.

(** The schema errors of a cause: one, or those of a [MultiError]. *)
Definition schema_errors (cause : option verr) : list SchemaError :=
  match cause with
  | Some (EMulti l) => omap (λ e, match e with ESchema se => Some se | _ => None end) l
  | Some (ESchema se) => [se]
  | _ => []
  end.

(** Loops that append the errors of each element. *)
Fixpoint concat_mapM {A B} (f : A → outcome (list B)) (l : list A) : outcome (list B) :=
  match l with
  | [] => Ret []
  | x :: l' => a <-! f x ;; b <-! concat_mapM f l' ;; Ret (a ++ b)
  end.

(** The errors of a parameter. *)
Definition param_errors (p : ParameterSpec) (e : verr) (cause : option verr)
  : outcome (list ValidationError) :=
  r1 <-! (if is_missing e then
            match p_Schema p with
            | None => Panic
            | Some sc => Ret [verror_of (missed_code (p_In p)) (verr_text e) [p_Name p]
                                (type_details (p_Name p) sc)]
            end
          else Ret []) ;;
  r2 <-! (if has_suffix (verr_text e) "invalid syntax" then
            let d1 := match checkParseErr p cause with Some d => [d] | None => [] end in
            let d2 := match cause with
                      | Some (ESchema se) =>
                          if se_SchemaField se =?s "pattern" then
                            map (λ t, MkField (p_Name p) t (s_Pattern (se_Schema se)) (sprint (se_Value se)))
                              (types_Slice (s_Type (se_Schema se)))
                          else []
                      | _ => []
                      end in
            Ret [verror_of (invalid_code (p_In p)) (verr_text e) [p_Name p] (d1 ++ d2)]
          else Ret []) ;;
  r3 <-! concat_mapM (checkRequiredFields p cause) (schema_errors cause) ;;
  Ret (r1 ++ r2 ++ r3).

(** The types of the property a required error is about. *)
Definition property_details (se : SchemaError) (f : gostring) : outcome (list FieldTypeError) :=
  match properties_JSONLookup (se_Schema se) f with
  | None => Ret []
  | Some None => Panic
  | Some (Some sc) => Ret (type_details f sc)
  end.

Definition body_missed_code : gostring := "required_body_parameter_missed".
Definition body_invalid_code : gostring := "required_body_parameter_invalid_value".

(** The loop over the fields of a required error in a [MultiError]: one response
    is shared by the iterations, its fields are set and its details grow. *)
Fixpoint shared_response (se : SchemaError) (fields : list gostring) (r : ValidationError)
  : outcome ValidationError :=
  match fields with
  | [] => Ret r
  | f :: fields' =>
      d <-! property_details se f ;;
      shared_response se fields'
        (verror_of (ve_Code r) (se_msg se) [f] (ve_FieldsDetails r ++ d))
  end.

(** Every element points to the one response. *)
Definition multi_required (se : SchemaError) : outcome (list ValidationError) :=
  r <-! shared_response se (se_pointer se) (verror_of body_missed_code [] [] []) ;;
  Ret (repeat r (length (se_pointer se))).

(** Outside a [MultiError] each field has a response of its own. *)
Definition single_required (se : SchemaError) : outcome (list ValidationError) :=
  concat_mapM (λ f, d <-! property_details se f ;; Ret [verror_of body_missed_code (se_msg se) [f] d])
    (se_pointer se).

Definition body_invalid (cause : option verr) (se : SchemaError) : outcome (list ValidationError) :=
  concat_mapM (λ f,
    d <-! (if is_parse_err cause then Ret [MkField f [] [] []] else value_details f se) ;;
    Ret [verror_of body_invalid_code (se_msg se) [f] d]) (se_pointer se).

(** The errors of a body that does not match its schema. *)
Definition body_schema_errors (cause : option verr) : outcome (list ValidationError) :=
  let required := match cause with Some (EMulti _) => multi_required | _ => single_required end in
  concat_mapM (λ se, if se_SchemaField se =?s "required" then required se else body_invalid cause se)
    (schema_errors cause).

Definition unsupported_prefix : gostring :=
  "request body has an error: failed to decode request body: unsupported content type".
Definition content_type_prefix : gostring :=
  "request body has an error: header Content-Type has unexpected value".

(** The errors of a body that is missing, has another content type or cannot be
    parsed; a content type without decoder is not a validation error. *)
Definition body_responses (rb : RequestBodySpec) (e : verr) (cause : option verr)
  : result verr (list ValidationError) :=
  let missed := if rb_Required rb && bool_decide (verr_text <$> cause = Some verr_required_text)
                then [verror_of "required_body_missed" "required body is missing" [] []] else [] in
  if has_prefix (verr_text e) unsupported_prefix then Err e
  else
    Ok (missed ++ if is_parse_err cause || has_prefix (verr_text e) content_type_prefix
                  then [verror_of "required_body_parse_error" (verr_text e) [] []] else []).

(** The errors of the security requirements. *)
Definition security_responses (errs : list verr) : list ValidationError :=
  map (λ err,
    match err with
    | EParameterIsMissing field msg => verror_of "required_security_requirements_failed" msg [field] []
    | _ => verror_of "required_security_requirements_failed" (verr_text err) [] []
    end) errs.

(** An error without a response is unknown. *)
Definition or_unknown (e : verr) (l : list ValidationError) : list ValidationError :=
  match l with [] => [verror_of "unknown_validation_error" (verr_text e) [] []] | _ => l end.

(** [GetErrorResponse]: the errors, or the error that is not a validation error. *)
Definition GetErrorResponse (e : verr) : outcome (result verr (list ValidationError)) :=
  match e with
  | ERequest param body reason cause =>
      r1 <-! match param with Some p => param_errors p e cause | None => Ret [] end ;;
      match r1 with
      | _ :: _ => Ret (Ok r1)
      | [] =>
          r2 <-! body_schema_errors cause ;;
          Ret match body with
              | None => Ok (or_unknown e r2)
              | Some rb => r3 <-? body_responses rb e cause ;; Ok (or_unknown e (r2 ++ r3))
              end
      end
  | ESecurity _ errs => Ret (Ok (or_unknown e (security_responses errs)))
  | _ => Ret (Ok (or_unknown e []))
  end.
End APIErrors.
