(* ===== verification/APIMode.v ===== *)
(** Validation of a request in API mode
    (internal/platform/validator/api_mode_validate_request.go) and the
    decompression of bodies (internal/platform/web/response.go). *)
From S2P Require Import Prelude GoStrings Values URLValues Messages ParamDecoder BodyDecoder Validate Unknown APIErrors.

(** * Compressed bodies *)

(** What fasthttp and flate do with a compressed body. *)
Inductive unzip_error := ErrHeader | UnzipError (msg : gostring).
Record decompressor := MkDecompressor {
  BodyUncompressed : gostring → gostring → result unzip_error gostring;
  flate_reader : gostring → reader
}.

Definition supportedEncodings : list gostring := [str "gzip"; str "deflate"; str "br"].
Definition ErrContentEncodingUnsupported : gostring := "unsupported Content-Encoding".

(** [GetDecompressedRequestBody] and [GetDecompressedResponseBody]. *)
Definition GetDecompressedBody (d : decompressor) (body contentEncoding : gostring)
  : result gostring reader :=
  match contentEncoding with
  | [] => Ok (Data body)
  | _ =>
      if Contains supportedEncodings contentEncoding then
        match BodyUncompressed d contentEncoding body with
        | Ok data => Ok (Data data)
        | Err ErrHeader =>
            if contentEncoding =?s "deflate" then Ok (flate_reader d body)
            else Err (str "zlib: invalid header")
        | Err (UnzipError msg) => Err msg
        end
      else Err ErrContentEncodingUnsupported
  end.

Section APIMode.
Context `{FmtPkg} `{TypesPkg} `{!SchemaPkg} `{!FilterPkg}.
Context (lib : parsers) (reg : registry) (json_Unmarshal : gostring → option value)
  (bodyEncoders : gmap gostring (value → result gostring gostring)).

(** * Security *)

(** The texts of [ErrAuthHeaderMissed] and [ErrAPITokenMissed]. *)
Definition ErrAuthHeaderMissed : gostring := "missing Authorization header".
Definition ErrAPITokenMissed : gostring := "missing API keys for authorization".

Definition auth_missing (rq : request) (prefix what : gostring) : option verr :=
  let bHeader := header_Get (in_Header (rq_Input rq)) "Authorization" in
  if is_empty bHeader || negb (has_prefix (to_lower bHeader) prefix)
  then Some (EParameterIsMissing "Authorization"
               (ErrAuthHeaderMissed ++ ": " ++ what ++ " authentication is required"))
  else None.

Definition key_missing (scheme : SecurityScheme) (missing : bool) (what : gostring) : option verr :=
  if missing
  then Some (EParameterIsMissing (ss_Name scheme)
               (ErrAPITokenMissed ++ ": missing " ++ ss_Name scheme ++ " " ++ what))
  else None.

(** The authentication function of [apiModeSecurityRequirementsOptions]: the
    credentials are there, whatever they are. *)
Definition api_authentication (rq : request) (name : gostring) (scheme : SecurityScheme)
    (scopes : list gostring) : option verr :=
  if ss_Type scheme =?s "http" then
    if ss_Scheme scheme =?s "basic" then auth_missing rq "basic " "basic"
    else if ss_Scheme scheme =?s "bearer" then auth_missing rq "bearer " "bearer"
    else None
  else if ss_Type scheme =?s "apiKey" then
    if ss_In scheme =?s "header" then
      key_missing scheme (is_empty (header_Get (in_Header (rq_Input rq)) (ss_Name scheme))) "header"
    else if ss_In scheme =?s "query" then
      key_missing scheme (is_empty (Values_Get (URL_Query (rq_RawQuery rq)) (ss_Name scheme)))
        "query parameter"
    else if ss_In scheme =?s "cookie" then
      key_missing scheme (bool_decide (obj_get (ss_Name scheme) (in_Cookies (rq_Input rq)) = None)) "cookie"
    else None
  else None.

Definition apiModeSecurityRequirementsOptions : Options :=
  MkOptions true false false false false false false (Some api_authentication).

(** * The validation *)

(** Why no list of validation errors is returned.  A panic of the Go runtime is
    recovered into an error. *)
Inductive api_error :=
| RequestContextError (msg : gostring)
| DecompressionError (msg : gostring)
| UnsupportedContentType (e : verr)
| UnknownDetectionError (e : uerr)
| RecoveredPanic.

(** The request as fasthttp has it: [af_Request] is the answer of
    [ConvertRequest], whose query values are those of its URL. *)
Record api_request := MkAPIRequest {
  af_Request : result gostring request;
  af_PathParams : gmap gostring gostring;
  af_ContentEncoding : gostring;
  af_fast : fast_request
}.

(** The goroutines recover from panics and leave their results nil. *)
Definition recovered {A} (dflt : A) (c : outcome A) : A := match c with Ret a => a | Panic => dflt end.

(** The responses to the errors of the request validation. *)
Fixpoint error_responses (errs : list verr) (acc : list ValidationError)
  : outcome (result api_error (list ValidationError)) :=
  match errs with
  | [] => Ret (Ok acc)
  | e :: errs' =>
      r <-! GetErrorResponse e ;;
      match r with
      | Err e => Ret (Err (UnsupportedContentType e))
      | Ok l => error_responses errs' (acc ++ l)
      end
  end.

Definition validation_errors (err : option verr) : list verr :=
  match err with
  | None => []
  | Some (EMulti l) => l
  | Some e => [e]
  end.

(** The errors for the unknown parameters. *)
Definition unknown_responses (l : list RequestUnknownParameterError) : list ValidationError :=
  concat (map (λ u, map (λ f, verror_of "unknown_parameter_found" (up_Message u) [pd_Name f] [])
                      (up_Parameters u)) l).

(** [errors.As(err, &parseError)]: the chain of a decoding error has a
    [*ParseError]. *)
Fixpoint has_parse_error (e : error) : bool :=
  match e with
  | ParseError _ _ _ _ _ => true
  | ErrItem _ e => has_parse_error e
  | _ => false
  end.

Definition tolerated (e : uerr) : bool :=
  match e with UDecode e => has_parse_error e | _ => false end.

(** The net/http request that is validated: its body is decompressed, the path
    parameters come from the router and the query values from the URL. *)
Definition prepare (d : decompressor) (ar : api_request) (parametersNumberInPath : Z)
  : result api_error request :=
  match af_Request ar with
  | Err msg => Err (RequestContextError msg)
  | Ok rq =>
      let body :=
        match af_ContentEncoding ar with
        | [] => Ok (rq_Body rq)
        | enc => GetDecompressedBody d (fr_Body (af_fast ar)) enc
        end in
      match body with
      | Err msg => Err (DecompressionError msg)
      | Ok b =>
          let i := rq_Input rq in
          let pathParams := if (0 <? parametersNumberInPath)%Z then af_PathParams ar else ∅ in
          Ok (set_Body b (set_Input
                (MkInput pathParams (URL_Query (rq_RawQuery rq)) (in_Header i) (in_Cookies i)) rq))
      end
  end.

(** The two goroutines. *)
Definition request_goroutine (rt : Route) (rq : request) : option verr :=
  recovered None
    ('(_, err) <-! ValidateRequest lib reg json_Unmarshal bodyEncoders
                     apiModeSecurityRequirementsOptions rt rq ;; Ret err).

Definition unknown_goroutine (rt : Route) (ar : api_request) (rq : request)
    (unknownParametersDetection : bool) : list RequestUnknownParameterError * option uerr :=
  if unknownParametersDetection
  then recovered ([], None)
         (ValidateUnknownRequestParameters lib reg rt (af_fast ar) (in_Header (rq_Input rq)))
  else ([], None).

Definition APIModeValidateRequest (d : decompressor) (ar : api_request) (rt : Route)
    (unknownParametersDetection : bool) (parametersNumberInPath : Z)
  : result api_error (list ValidationError) :=
  rq <-? prepare d ar parametersNumberInPath ;;
  let valReqErrors := request_goroutine rt rq in
  let '(upResults, valUPReqErrors) := unknown_goroutine rt ar rq unknownParametersDetection in
  recovered (Err RecoveredPanic)
    (r <-! error_responses (validation_errors valReqErrors) [] ;;
     Ret (respErrors <-? r ;;
          match valUPReqErrors with
          | Some e =>
              if tolerated e then Ok (respErrors ++ unknown_responses upResults)
              else Err (UnknownDetectionError e)
          | None => Ok (respErrors ++ unknown_responses upResults)
          end)).
End APIMode.
