(* ===== verification/APIModeSpec.v ===== *)
(** Properties of the API mode: which requests it accepts, and which errors it
    reports for the others. *)
From S2P Require Import Prelude GoStrings Values URLValues Messages ParamDecoder ParamDecoderSpec BodyDecoder BodyDecoderSpec Validate ValidateSpec Unknown APIErrors APIMode.

Section Spec.
Context `{FmtPkg} `{TypesPkg} `{!SchemaPkg} `{!FilterPkg}.
Context (lib : parsers) (reg : registry) (json_Unmarshal : gostring → option value)
  (bodyEncoders : gmap gostring (value → result gostring gostring)).

Notation ValidateRequest := (ValidateRequest lib reg json_Unmarshal bodyEncoders).
Notation APIModeValidateRequest := (APIModeValidateRequest lib reg json_Unmarshal bodyEncoders).

(** * Every error is reported *)

Lemma or_unknown_nonempty e l : or_unknown e l ≠ [].
Proof. by destruct l. Qed.

Lemma GetErrorResponse_nonempty e l : GetErrorResponse e = Ret (Ok l) → l ≠ [].
Proof.
  destruct e; cbn [GetErrorResponse]; try (intros Hl; injection Hl as <-; (done || apply or_unknown_nonempty)).
  intros (r1 & _ & Hr)%obind_Ret. destruct r1; [|by injection Hr as <-].
  apply obind_Ret in Hr as (r2 & _ & Hr). destruct body; [|injection Hr as <-; apply or_unknown_nonempty].
  injection Hr as Hr. inv_bind Hr. injection Hr as <-. apply or_unknown_nonempty.
Qed.

Lemma error_responses_acc errs acc l :
  error_responses errs acc = Ret (Ok l) → ∃ l', l = acc ++ l' ∧ (errs ≠ [] → l' ≠ []).
Proof.
  revert acc. induction errs as [|e errs IH]; intros acc; simpl.
  - intros [= <-]. exists []. by rewrite app_nil_r.
  - intros ([l1|] & Hl1 & Hr)%obind_Ret; [|done]. apply IH in Hr as (l' & -> & _).
    exists (l1 ++ l'). rewrite app_assoc. split; [done|]. intros _.
    apply GetErrorResponse_nonempty in Hl1. by destruct l1.
Qed.

Lemma api_validation_error rt rq rq' e :
  ValidateRequest apiModeSecurityRequirementsOptions rt rq = Ret (rq', Some e) →
  validation_errors (Some e) ≠ [].
Proof. by intros (e1 & es & _ & -> & _)%run_checks_multi_first. Qed.

Lemma group_nonempty msg l : Forall (λ u, up_Parameters u ≠ []) (group msg l).
Proof. destruct l; simpl; [constructor|]. by constructor. Qed.

Lemma unknown_nonempty rt fr h up err :
  ValidateUnknownRequestParameters lib reg rt fr h = Ret (up, err) → Forall (λ u, up_Parameters u ≠ []) up.
Proof.
  pose proof group_nonempty as Hg. unfold ValidateUnknownRequestParameters.
  destruct (op_RequestBody rt) as [rb|]; [|by intros [= <- _]].
  destruct (rb_Content rb), (fr_Body fr); try (by intros [= <- _]).
  destruct (content_Get _ _) as [mt|]; [|by intros [= <- _]].
  intros ([[m v]|e] & _ & Hr)%obind_Ret; [|by injection Hr as <- _].
  apply obind_Ret in Hr as ([found|e] & _ & Hr); injection Hr as <- _; [by apply Forall_app|done].
Qed.

Lemma unknown_responses_nil l :
  Forall (λ u, up_Parameters u ≠ []) l → unknown_responses l = [] ↔ l = [].
Proof. intros [|u l' Hu _]; [done|]. unfold unknown_responses. simpl. by destruct (up_Parameters u). Qed.

(** The detection of unknown parameters has nothing to report: it is off, it panics, or
    it finds none; its own error counts unless it is a [ParseError]. *)
Definition nothing_unknown (detection : bool) rt (ar : api_request) rq : Prop :=
  detection = true →
  match ValidateUnknownRequestParameters lib reg rt (af_fast ar) (in_Header (rq_Input rq)) with
  | Panic => True
  | Ret (up, err) => up = [] ∧ ∀ e, err = Some e → tolerated e = true
  end.

(** C14: the API mode reports no error for a request exactly when the request can be
    read, its validation returns no error or panics, and, with the detection of
    unknown parameters, that finds none or panics.  So every error is reported, but
    a [ParseError] of the detection alone, and a panic lets the request pass. *)
Theorem api_accepts d ar rt detection n :
  APIModeValidateRequest d ar rt detection n = Ok [] ↔
  ∃ rq, prepare d ar n = Ok rq ∧ nothing_unknown detection rt ar rq ∧
    (ValidateRequest apiModeSecurityRequirementsOptions rt rq = Panic ∨
     ∃ rq', ValidateRequest apiModeSecurityRequirementsOptions rt rq = Ret (rq', None)).
Proof.
  unfold APIMode.APIModeValidateRequest. destruct (prepare d ar n) as [rq|]; cbn [rbind];
    [|split; [discriminate|by intros (? & ? & _)]].
  destruct (unknown_goroutine lib reg rt ar rq detection) as [up ue] eqn:Hu.
  assert (nothing_unknown detection rt ar rq ↔ unknown_responses up = [] ∧ ∀ e, ue = Some e → tolerated e = true) as Hn.
  { revert Hu. unfold unknown_goroutine, nothing_unknown. destruct detection; [|by intros [= <- <-]].
    destruct (ValidateUnknownRequestParameters _ _ _ _ _) as [[up' ue']|] eqn:Hv; simpl; intros [= <- <-].
    - rewrite (unknown_responses_nil up') by (by eapply unknown_nonempty). naive_solver.
    - naive_solver. }
  transitivity (request_goroutine lib reg json_Unmarshal bodyEncoders rt rq = None ∧ nothing_unknown detection rt ar rq).
  - rewrite Hn. destruct (request_goroutine lib reg json_Unmarshal bodyEncoders rt rq) as [e|] eqn:Hg.
    + split; [|naive_solver]. intros Hr. exfalso. revert Hr.
      assert (validation_errors (Some e) ≠ []) as Hne.
      { revert Hg. unfold request_goroutine. destruct (ValidateRequest _ rt rq) as [[rq' err]|] eqn:Hv; [|done].
        simpl. intros [= ->]. by eapply api_validation_error. }
      destruct (error_responses (validation_errors (Some e)) []) as [[l|]|] eqn:Hr; cbn; [|done|done].
      apply error_responses_acc in Hr as (l' & -> & Hl'). simpl. specialize (Hl' Hne).
      destruct ue as [e'|]; [destruct (tolerated e'); [|done]|]; by destruct l'.
    + simpl. destruct ue as [e|]; [destruct (tolerated e) eqn:Ht|]; naive_solver congruence.
  - unfold request_goroutine. destruct (ValidateRequest _ rt rq) as [[rq' err]|] eqn:Hv; simpl; split.
    + intros [-> ?]. exists rq. eauto.
    + intros (rq0 & [= <-] & ? & [Hx|[rq'' Hx]]); [congruence|]. rewrite Hv in Hx. by injection Hx.
    + intros [_ ?]. exists rq. eauto.
    + intros (rq0 & [= <-] & ? & _). eauto.
Qed.

(** * The texts of decoding errors *)

Lemma join_last (l : list gostring) (x sep : gostring) : ∃ pre, join (l ++ [x]) sep = pre ++ x.
Proof.
  induction l as [|y l [pre IH]]; [by exists []|]. simpl. destruct l as [|z l]; simpl in *.
  - exists (y ++ sep). by rewrite <- app_assoc.
  - exists (y ++ sep ++ pre). rewrite IH. by rewrite <- !app_assoc.
Qed.

Lemma inner_text_suffix e ne :
  is_parse_error e = true → RootCause e = Some (NumError ne) →
  ∃ pre, error_text true e = pre ++ num_error_text ne.
Proof.
  revert e. fix IH 1. intros e Hp Hr. destruct e as [k v r c path| | | | | | | | | | | | | | | | | | |]; try done.
  assert (∃ c', c = Some c' ∧ ∃ pre, error_text true c' = pre ++ num_error_text ne) as (c' & -> & pre & Hc).
  { destruct c as [c|]; [|done]. exists c. split; [done|].
    destruct (is_parse_error c) eqn:Ec.
    - apply IH; [done|]. by destruct c.
    - exists []. destruct c; try done; by simplify_eq/=. }
  cbn [error_text]. rewrite !app_assoc.
  destruct (join_last ((if is_nil v then [] else [str "value " ++ sprint v])
              ++ (if is_empty (reason_text r) then [] else [reason_text r])) (error_text true c') ": ")
    as [pre' ->].
  exists (pre' ++ pre). by rewrite Hc, <- app_assoc.
Qed.

Lemma Error_suffix e ne :
  is_parse_error e = true → RootCause e = Some (NumError ne) →
  ∃ pre, Error e = pre ++ num_error_text ne.
Proof.
  intros Hp Hr. destruct (inner_text_suffix e ne Hp Hr) as [pre Hi]. unfold Error.
  destruct e as [k v r c path| | | | | | | | | | | | | | | | | | |]; try done.
  cbn [error_text] in Hi |- *. destruct (Path _) as [|p ps]; [by exists pre|].
  destruct (join_last [str "path " ++ join (p :: ps) "."]
    (join ((if is_nil v then [] else [str "value " ++ sprint v])
              ++ (if is_empty (reason_text r) then [] else [reason_text r])
              ++ match c with Some c => [error_text true c] | None => [] end) ": ") ": ") as [pre' Hj].
  exists (pre' ++ pre). rewrite <- app_assoc, <- Hi. exact Hj.
Qed.

Lemma has_suffix_app s t x : length x ≤ length t → has_suffix (s ++ t) x = has_suffix t x.
Proof.
  intros Hl. unfold has_suffix. rewrite reverse_app.
  assert (length (reverse x) ≤ length (reverse t)) as Hl' by (by rewrite !length_reverse).
  revert Hl'. generalize (reverse x) as p, (reverse t) as u. induction p as [|c p IH]; intros [|e u]; simpl; try done.
  - lia.
  - intros. rewrite IH by lia. done.
Qed.

(** A parameter whose text cannot be read as a number, or is not a boolean,
    is reported with the code of an invalid value of its location, wherever in
    the parameter the text is; a number that is out of range is reported as an
    unknown error. *)
Theorem number_error_code p e ne :
  is_parse_error e = true → RootCause e = Some (NumError ne) →
  let err := param_error p [] (EDecode e) in
  GetErrorResponse err =
  Ret (Ok [match ne with
           | ErrSyntax => verror_of (invalid_code (p_In p)) (verr_text err) [p_Name p]
                            [MkField (p_Name p) [] [] []]
           | ErrRange => verror_of "unknown_validation_error" (verr_text err) [] []
           end]).
Proof.
  intros Hp Hr err. destruct (Error_suffix e ne Hp Hr) as [pre Ht].
  assert (has_suffix (verr_text err) "invalid syntax"
          = match ne with ErrSyntax => true | ErrRange => false end) as Hs.
  { unfold err, param_error. cbn [verr_text fmap option_fmap option_map].
    rewrite RequestError_param, Ht by auto. rewrite !app_assoc.
    destruct ne; (rewrite has_suffix_app; [by vm_compute|simpl; lia]). }
  unfold err, param_error in *. cbn [GetErrorResponse].
  unfold param_errors. cbn [is_missing obind]. rewrite Hs.
  unfold checkParseErr, is_parse_err. rewrite Hp. by destruct ne.
Qed.

(** A required parameter that is missing, or has an empty value that is not
    allowed, is reported with the code of its location and the types of its
    schema; if the parameter is described by a content instead of a schema,
    the construction of the report panics. *)
Theorem missing_param_report p e :
  e = EInvalidRequired ∨ e = EInvalidEmptyValue →
  let err := param_error p (verr_text e) e in
  GetErrorResponse err =
  match p_Schema p with
  | Some sc => Ret (Ok [verror_of (missed_code (p_In p)) (verr_text err) [p_Name p]
                          (type_details (p_Name p) sc)])
  | None => Panic
  end.
Proof.
  intros He err.
  assert (has_suffix (verr_text err) "invalid syntax" = false) as Hs.
  { unfold err, param_error. cbn [verr_text fmap option_fmap option_map].
    rewrite RequestError_param by auto. rewrite !app_assoc.
    destruct He as [-> | ->]; (rewrite has_suffix_app; [by vm_compute|simpl; lia]). }
  unfold err, param_error in *. cbn [GetErrorResponse].
  unfold param_errors. cbn [is_missing]. rewrite Hs.
  destruct He as [-> | ->]; cbn [is_missing]; by destruct (p_Schema p).
Qed.

(** * Required properties of a body *)

Lemma shared_response_fields se fields r r' f :
  shared_response se fields r = Ret r' → last fields = Some f → ve_Fields r' = [f].
Proof.
  revert r. induction fields as [|g fields IH]; intros r; simpl; [done|].
  intros (d & _ & Hr)%obind_Ret. destruct fields as [|h fields].
  - intros [= ->]. simpl in Hr. by injection Hr as <-.
  - by eapply IH.
Qed.

(** When the errors are collected, the reports for a missing required
    property all name the last element of its path: the elements of the list
    are one shared response. *)
Theorem multi_required_shared se l f :
  multi_required se = Ret l → last (se_pointer se) = Some f →
  length l = length (se_pointer se) ∧ Forall (λ r, ve_Fields r = [f]) l.
Proof.
  intros (r & Hr & [= <-])%obind_Ret Hl. split; [apply repeat_length|].
  apply Forall_forall. intros r' ->%list_elem_of_In%repeat_spec. by eapply shared_response_fields.
Qed.

(** * Compressed bodies *)

Lemma prepare_body d ar n rq data :
  af_ContentEncoding ar ≠ [] →
  GetDecompressedBody d (fr_Body (af_fast ar)) (af_ContentEncoding ar) = Ok (Data data) →
  prepare d ar n = Ok rq → rq_Body rq = Data data.
Proof.
  unfold prepare. destruct (af_Request ar) as [r|]; [|done].
  destruct (af_ContentEncoding ar); [done|]. intros _ ->. intros [= <-]. by destruct r.
Qed.

(** The parameters of a compressed JSON body are validated but never
    searched for unknown ones: the detection reads the bytes before the
    decompression, and its failure to parse them is tolerated, so only unknown
    query parameters are reported. *)
Theorem compressed_unknown_ignored d ar rt n rq rb mt sc data msg :
  af_ContentEncoding ar ≠ [] →
  GetDecompressedBody d (fr_Body (af_fast ar)) (af_ContentEncoding ar) = Ok (Data data) →
  prepare d ar n = Ok rq →
  op_RequestBody rt = Some rb → rb_Content rb ≠ [] → fr_Body (af_fast ar) ≠ [] →
  content_Get (rb_Content rb) (fr_ContentType (af_fast ar)) = Some mt → mt_Schema mt = Some sc →
  (let '(mediaType, suffix) := parseMediaType (header_Get (in_Header (rq_Input rq)) "Content-Type") in
   getBodyDecoder reg mediaType suffix) = Ok jsonBodyDecoder →
  fastjson_Parse lib (fr_Body (af_fast ar)) = Err msg →
  rq_Body rq = Data data ∧
  APIModeValidateRequest d ar rt true n =
  (l <-? APIModeValidateRequest d ar rt false n ;;
   Ok (l ++ unknown_responses
              (group ErrUnknownQueryParameter (unknown_query (specParams rt) (fr_QueryArgs (af_fast ar)))))).
Proof.
  intros Hce Hz Hp Hrb Hc Hb Hg Hsc Hdec Hj. split; [by eapply prepare_body|].
  assert (unknown_goroutine lib reg rt ar rq true =
    (group ErrUnknownQueryParameter (unknown_query (specParams rt) (fr_QueryArgs (af_fast ar))),
     Some (UDecode (invalid_body (ErrLib msg))))) as Hu.
  { unfold unknown_goroutine, ValidateUnknownRequestParameters. rewrite Hrb.
    destruct (rb_Content rb) as [|ct cts]; [done|]. rewrite Hg.
    unfold decode_any. rewrite Hsc. revert Hb Hj. generalize (fr_Body (af_fast ar)) as body.
    intros [|c body] Hb Hj; [done|]. cbn [decodeBody length]. rewrite andb_false_r.
    destruct (parseMediaType _) as [mt' sfx]. rewrite Hdec, Hj. done. }
  unfold APIMode.APIModeValidateRequest. rewrite Hp. cbn [rbind]. rewrite Hu.
  unfold unknown_goroutine. destruct (error_responses _ _) as [[l|]|]; cbn; [|done|done].
  by rewrite app_nil_r.
Qed.
End Spec.

(** * Witnesses *)

#[local] Existing Instances no_floats plain_fmt typed_schemas.

#[local] Instance plain_filter : FilterPkg.
Proof.
  refine {|
    RequestError_Error p _ r t :=
      match p with
      | Some (n, l) => str "parameter " ++ quote n ++ str " in " ++ l ++ str " has an error: " ++ default r t
      | None => str "request body has an error: " ++ r ++ default [] t
      end;
    MultiError_Error l := join l " | "; SecurityError_Error l := join l ", ";
    ResponseError_Error r t := r ++ default [] t;
    filter_required_text := verr_required_text;
    properties_JSONLookup s f := Some <$> obj_get f (s_Properties s)
  |}.
  done.
Defined.

(** An operation with an optional query parameter described by a content, and a
    body that must be an object. *)
Definition filter_route : Route :=
  MkRoute [] [filter_param] (Some pet_body) None [] [] 0 (λ _, None) None.

Definition no_unzip : decompressor := {|
  BodyUncompressed enc b := Ok (str "{}"); flate_reader b := Data b
|}.

Definition bad_body_request : api_request :=
  MkAPIRequest (Ok (MkRequest "POST" [] pet_input NoBody 0 None)) ∅ []
    (MkFast [] [] [] "application/json").

Definition api_validate :=
  APIModeValidateRequest no_lib default_registry (λ _, None) ∅ no_unzip.

(** The required body is missing, and the request passes. *)
Lemma api_accepts_witness :
  api_validate bad_body_request filter_route true 0 = Ok [].
Proof.
  apply (api_accepts no_lib default_registry (λ _, None) ∅ no_unzip bad_body_request filter_route true 0).
  eexists. split; [vm_compute; reflexivity|]. split; [|left; vm_compute; reflexivity].
  intros _. vm_compute. split; [reflexivity|intros e He; discriminate He].
Defined.

Lemma number_error_code_witness :
  GetErrorResponse (param_error limit_param [] (EDecode
    (ParseError KindOther VNil RNone (Some (invalid_format "x" "integer" ErrSyntax)) [str "0"])))
  = Ret (Ok [verror_of "required_query_parameter_invalid_value"
               (verr_text (param_error limit_param [] (EDecode
                 (ParseError KindOther VNil RNone (Some (invalid_format "x" "integer" ErrSyntax)) [str "0"]))))
               [str "limit"] [MkField "limit" [] [] []]]).
Proof.
  apply (number_error_code limit_param
    (ParseError KindOther VNil RNone (Some (invalid_format "x" "integer" ErrSyntax)) [str "0"]) ErrSyntax);
    reflexivity.
Defined.

Lemma missing_param_report_witness :
  GetErrorResponse (param_error filter_param verr_required_text EInvalidRequired) = Panic.
Proof. apply (missing_param_report filter_param EInvalidRequired). by left. Defined.

Definition missing_name : SchemaError :=
  MkSchemaError "required" [str "user"; str "name"]
    (object_schema [(str "name", type_schema "string" [])]) (VObj []) "property is missing" "property is missing".

Lemma multi_required_shared_witness :
  ∃ l, multi_required missing_name = Ret l ∧ length l = 2 ∧ Forall (λ r, ve_Fields r = [str "name"]) l.
Proof.
  assert (∃ l, multi_required missing_name = Ret l) as [l Hl] by (eexists; reflexivity).
  exists l. split; [done|]. apply (multi_required_shared missing_name l (str "name")); done.
Defined.

(** A compressed body: the bytes are not JSON, what they stand for is. *)
Definition strict_lib : parsers := {|
  fastjson_Parse b := if b =?s "{}" then Ok (JObject []) else Err (str "invalid JSON");
  mxj_NewMapXml _ := Err []; yaml_Decode _ := Err [];
  csv_Read _ := Err []; zip_files _ := Err []; mime_ParseMediaType _ := Err [];
  multipart_parts _ _ := ([], None)
|}.

Definition zipped_request : api_request :=
  MkAPIRequest (Ok pet_request) {[ str "id" := str "7" ]} "gzip"
    (MkFast [(str "debug", str "1")] [] "zzz" "application/json").

Lemma compressed_unknown_ignored_witness :
  APIModeValidateRequest strict_lib default_registry (λ _, None) ∅ no_unzip zipped_request pet_route true 1
  = (l <-? APIModeValidateRequest strict_lib default_registry (λ _, None) ∅ no_unzip zipped_request
             pet_route false 1 ;;
     Ok (l ++ unknown_responses
                (group ErrUnknownQueryParameter (unknown_query (specParams pet_route) [(str "debug", str "1")])))).
Proof.
  eapply (compressed_unknown_ignored strict_lib default_registry (λ _, None) ∅ no_unzip zipped_request
            pet_route 1 _ pet_body); try (vm_compute; reflexivity); try discriminate.
Defined.
