(* ===== verification/NetIP.v ===== *)
(** IP addresses: the parts of Go's [net] and [net/netip] packages the program
    uses to read, print and enumerate them, and [net.SplitHostPort]. *)
From S2P Require Import Prelude GoStrings.

(** * Parsing *)

(** [parseIPv4Fields]: [val], [digLen] and the fields read so far; [prev] is
    the previous byte. *)
Fixpoint parseIPv4_loop (s : gostring) (prev : option ascii) (val : Z) (digLen : nat) (fields : list Z)
  : option (list Z) :=
  match s with
  | [] => if decide (length fields = 3) then Some (fields ++ [val]) else None
  | c :: s' =>
      if is_digit c then
        if bool_decide (digLen = 1) && (val =? 0)%Z then None
        else
          let val := (val * 10 + (byte_val c - 48))%Z in
          if (255 <? val)%Z then None else parseIPv4_loop s' (Some c) val (S digLen) fields
      else if bool_decide (c = "."%char) then
        match prev, s' with
        | None, _ | _, [] | Some "."%char, _ => None
        | Some _, _ :: _ =>
            if decide (length fields = 3) then None
            else parseIPv4_loop s' (Some c) 0 0 (fields ++ [val])
        end
      else None
  end.
Definition parseIPv4Fields (s : gostring) : option (list Z) := parseIPv4_loop s None 0 0 [].

(** The hexadecimal group at the start of [s]: its value, its length and the
    rest; [None] when it has more than four digits. *)
Fixpoint hex_group (s : gostring) (off : nat) (acc : Z) : option (Z * nat * gostring) :=
  match s with
  | [] => Some (acc, off, [])
  | c :: s' =>
      match hex_val c with
      | None => Some (acc, off, s)
      | Some d => if decide (3 < off) then None else hex_group s' (S off) (acc * 16 + d)
      end
  end.

(** The loop of [parseIPv6]: [ip] are the bytes read so far and [ellipsis] the
    position of [::]; the result is both with the rest of the string. *)
Fixpoint parseIPv6_loop (fuel : nat) (s : gostring) (ip : list Z) (ellipsis : option nat)
  : option (list Z * option nat * gostring) :=
  match fuel with
  | 0 => Some (ip, ellipsis, s)
  | S f =>
      if decide (16 ≤ length ip) then Some (ip, ellipsis, s) else
      match hex_group s 0 0 with
      | None | Some (_, 0, _) => None
      | Some (acc, S _, rest) =>
          let ip2 := ip ++ [acc / 256; acc mod 256]%Z in
          match rest with
          | [] => Some (ip2, ellipsis, [])
          | c :: s' =>
              if bool_decide (c = "."%char) then
                if decide (ellipsis = None ∧ length ip ≠ 12) then None
                else if decide (16 < length ip + 4) then None
                else
                  match parseIPv4Fields s with
                  | None => None
                  | Some fields => Some (ip ++ fields, ellipsis, [])
                  end
              else if bool_decide (c = ":"%char) then
                match s' with
                | [] => None
                | c' :: s'' =>
                    if bool_decide (c' = ":"%char) then
                      match ellipsis, s'' with
                      | Some _, _ => None
                      | None, [] => Some (ip2, Some (length ip2), [])
                      | None, _ => parseIPv6_loop f s'' ip2 (Some (length ip2))
                      end
                    else parseIPv6_loop f s' ip2 ellipsis
                end
              else None
          end
      end
  end.

(** The bytes of an address, with the zeros of [::]. *)
Definition parseIPv6 (s : gostring) : option (list Z) :=
  let '(ellipsis, s') :=
    match s with
    | ":"%char :: ":"%char :: s' => (Some 0, s')
    | _ => (None, s)
    end in
  match ellipsis, s' with
  | Some _, [] => Some (replicate 16 0%Z)
  | _, _ =>
      match parseIPv6_loop 8 s' [] ellipsis with
      | Some (ip, el, []) =>
          if decide (length ip < 16) then
            match el with
            | None => None
            | Some e => Some (take e ip ++ replicate (16 - length ip) 0%Z ++ drop e ip)
            end
          else match el with Some _ => None | None => Some ip end
      | _ => None
      end
  end.

(** * Addresses *)

(** [netip.Addr] without zone: 4 or 16 bytes. *)
Inductive Addr := Addr4 (bytes : list Z) | Addr6 (bytes : list Z).

(** [ParseAddr]: the first ['.'], [':'] or ['%'] decides; no zone is accepted by
    the callers, so a ['%'] is an error. *)
Definition ParseAddr (s : gostring) : option Addr :=
  if bool_decide ("%"%char ∈ s) then None
  else
    match List.filter (λ c, bool_decide (c = "."%char) || bool_decide (c = ":"%char)) s with
    | "."%char :: _ => Addr4 <$> parseIPv4Fields s
    | ":"%char :: _ => Addr6 <$> parseIPv6 s
    | _ => None
    end.

Definition v4InV6Prefix : list Z := replicate 10 0%Z ++ [255; 255]%Z.
Definition As16 (a : Addr) : list Z :=
  match a with Addr4 b => v4InV6Prefix ++ b | Addr6 b => b end.

(** [net.ParseIP]: always 16 bytes. *)
Definition ParseIP (s : gostring) : option (list Z) := As16 <$> ParseAddr s.

(** * Printing *)

Definition dotted (b : list Z) : gostring := join (map itoa b) ".".

Fixpoint hex_digits (fuel : nat) (n : Z) (acc : gostring) : gostring :=
  match fuel with
  | 0 => acc
  | S f =>
      let d := (n mod 16)%Z in
      let c := ascii_of_N (Z.to_N (if (d <? 10)%Z then 48 + d else 87 + d)) in
      if (n <? 16)%Z then c :: acc else hex_digits f (n / 16) (c :: acc)
  end.
Definition hex (n : Z) : gostring := hex_digits 4 n [].

(** The eight groups of an IPv6 address. *)
Fixpoint groups (b : list Z) : list Z :=
  match b with
  | x :: y :: b' => (x * 256 + y)%Z :: groups b'
  | _ => []
  end.

Fixpoint zero_run (g : list Z) : nat :=
  match g with 0%Z :: g' => S (zero_run g') | _ => 0 end.

(** The longest run of at least two zero groups, the first one of that length:
    its start and its length. *)
Fixpoint longest_run (i : nat) (g : list Z) (best : option (nat * nat)) : option (nat * nat) :=
  match g with
  | [] => best
  | _ :: g' =>
      let l := zero_run g in
      longest_run (S i) g'
        (if decide (2 ≤ l ∧ (match best with Some (_, n) => n | None => 0 end) < l)
         then Some (i, l) else best)
  end.

Definition print6 (b : list Z) : gostring :=
  let g := groups b in
  match longest_run 0 g None with
  | None => join (map hex g) ":"
  | Some (i, l) => join (map hex (take i g)) ":" ++ "::" ++ join (map hex (drop (i + l) g)) ":"
  end.

(** [Addr.String]: an IPv4 address mapped to IPv6 keeps its prefix. *)
Definition Addr_String (a : Addr) : gostring :=
  match a with
  | Addr4 b => dotted b
  | Addr6 b =>
      if bool_decide (take 12 b = v4InV6Prefix) then "::ffff:" ++ dotted (drop 12 b) else print6 b
  end.

(** [IP.String] for 16 bytes. *)
Definition IP_String (ip : list Z) : gostring :=
  if bool_decide (take 12 ip = v4InV6Prefix) then dotted (drop 12 ip) else print6 ip.

(** * Prefixes *)

(** An address as a number of [bits] bits, and back. *)
Definition bits (a : Addr) : Z := match a with Addr4 _ => 32 | Addr6 _ => 128 end.
Definition addr_bytes (a : Addr) : list Z := match a with Addr4 b | Addr6 b => b end.
Definition addr_val (a : Addr) : Z := fold_left (λ v b, v * 256 + b)%Z (addr_bytes a) 0%Z.
Fixpoint val_bytes (n : nat) (v : Z) (acc : list Z) : list Z :=
  match n with 0 => acc | S n' => val_bytes n' (v / 256) ((v mod 256)%Z :: acc) end.
Definition addr_of (a : Addr) (v : Z) : Addr :=
  match a with Addr4 _ => Addr4 (val_bytes 4 v []) | Addr6 _ => Addr6 (val_bytes 16 v []) end.

(** [netip.ParsePrefix]. *)
Definition ParsePrefix (s : gostring) : result gostring (Addr * Z) :=
  match last_index_byte s "/"%char with
  | None => Err (str "no '/'")
  | Some i =>
      match ParseAddr (take i s) with
      | None => Err (str "unable to parse IP")
      | Some ip =>
          let bitsStr := drop (S i) s in
          let signed :=
            match bitsStr with
            | c :: _ :: _ => (byte_val c <? 49)%Z || (57 <? byte_val c)%Z
            | _ => false
            end in
          if signed then Err (str "bad bits after slash")
          else
            match atoi bitsStr with
            | Err _ => Err (str "bad bits after slash")
            | Ok n =>
                if (n <? 0)%Z || (bits ip <? n)%Z then Err (str "prefix length out of range")
                else Ok (ip, n)
            end
      end
  end.

(** [Prefix.Masked] and [Prefix.Contains]; [Addr.Next] is [None] after the last
    address, which no prefix contains. *)
Definition Masked (p : Addr * Z) : Addr * Z :=
  let '(a, n) := p in
  (addr_of a (Z.shiftl (Z.shiftr (addr_val a) (bits a - n)) (bits a - n)), n).

Definition same_family (a b : Addr) : bool :=
  match a, b with Addr4 _, Addr4 _ | Addr6 _, Addr6 _ => true | _, _ => false end.

Definition Prefix_Contains (p : Addr * Z) (a : Addr) : bool :=
  let '(b, n) := p in
  same_family a b && (Z.shiftr (Z.lxor (addr_val a) (addr_val b)) (bits b - n) =? 0)%Z.

Definition Addr_Next (a : Addr) : option Addr :=
  let v := (addr_val a + 1)%Z in
  if (v =? 2 ^ bits a)%Z then None else Some (addr_of a v).

(** * Hosts and ports *)

(** [net.SplitHostPort]. *)
Definition SplitHostPort (hostport : gostring) : result gostring (gostring * gostring) :=
  let err (why : gostring) := Err (str "address " ++ hostport ++ ": " ++ why) in
  match last_index_byte hostport ":"%char with
  | None => err "missing port in address"
  | Some i =>
      let finish (host : gostring) (j k : nat) :=
        if bool_decide ("["%char ∈ drop j hostport) then err "unexpected '[' in address"
        else if bool_decide ("]"%char ∈ drop k hostport) then err "unexpected ']' in address"
        else Ok (host, drop (S i) hostport) in
      match hostport with
      | "["%char :: _ =>
          match index_byte hostport "]"%char with
          | None => err "missing ']' in address"
          | Some e =>
              if decide (S e = length hostport) then err "missing port in address"
              else if decide (S e = i) then finish (take (e - 1) (drop 1 hostport)) 1 (S e)
              else
                match hostport !! (S e) with
                | Some ":"%char => err "too many colons in address"
                | _ => err "missing port in address"
                end
          end
      | _ =>
          let host := take i hostport in
          if bool_decide (":"%char ∈ host) then err "too many colons in address"
          else finish host 0 0
      end
  end.
