(* ===== verification/AccessLists.v ===== *)
(** The lists of allowed IP addresses and of denied tokens
    (internal/platform/allowiplist/allowiplist.go,
    internal/platform/denylist/denylist.go).  The cache that holds the entries
    is a library: an interface with its documented behaviour. *)
From S2P Require Import Prelude GoStrings NetIP.

(** * The cache *)

(** ristretto: a cache with a number of counters and a maximal cost.  It may
    drop an entry, and finds none that was not set. *)
Class CachePkg := {
  cache : Type;
  NewCache : Z → Z → result gostring cache;
  cache_Set : gostring → Z → cache → cache * bool;
  cache_Get : gostring → cache → bool;
  NewCache_Get n m c k : NewCache n m = Ok c → cache_Get k c = false;
  cache_Set_Get k cost c k' : cache_Get k' (cache_Set k cost c).1 = true → k' = k ∨ cache_Get k' c = true
}.

(** * Lines of a file *)

(** [bufio.Scanner]: the lines without their end, the last one only when it is
    not empty; a line that does not fit the buffer of 64 KiB ends the scan with an error. *)
Definition drop_cr (l : gostring) : gostring := trim_suffix l ["013"%char].

Fixpoint scan_lines (lines : list gostring) : list gostring * option gostring :=
  match lines with
  | [] | [[]] => ([], None)
  | l :: lines' =>
      if (65536 <=? Z.of_nat (length l))%Z then ([], Some (str "bufio.Scanner: token too long"))
      else let '(ls, err) := scan_lines lines' in (drop_cr l :: ls, err)
  end.
Definition scan (file : gostring) : list gostring * option gostring :=
  scan_lines (split file ["010"%char]).

Definition BufferItems : Z := 64.
Definition ElementCost : Z := 1.

(** * Allowed addresses *)

(** The loop of [getIPsFromCIDR]. *)
Fixpoint cidr_loop (fuel : nat) (p : Addr * Z) (addr : option Addr) (ips : list gostring) : list gostring :=
  match fuel, addr with
  | S f, Some a =>
      if Prefix_Contains p a then cidr_loop f p (Addr_Next a) (ips ++ [Addr_String a]) else ips
  | _, _ => ips
  end.

(** As many rounds as the prefix has addresses, and the one that leaves. *)
Definition cidr_fuel (p : Addr * Z) : nat := S (Z.to_nat (2 ^ (bits p.1 - p.2))).

Definition getIPsFromCIDR (subnet : gostring) : result gostring (list gostring) :=
  match ParsePrefix subnet with
  | Err e => Err e
  | Ok p =>
      let p := Masked p in
      let ips := cidr_loop (cidr_fuel p) p (Some p.1) [] in
      if decide (length ips ≤ 2) then Ok ips else Ok (take (length ips - 2) (drop 1 ips))
  end.

Section Lists.
Context `{CachePkg}.

(** [AllowedIPsType] and [DeniedTokens]. *)
Record entries := MkEntries { en_Cache : cache; en_ElementsNum : Z }.

(** The loop that loads the entries.  The percentage divides by the number of
    entries counted before. *)
Fixpoint load (totalEntries : Z) (keys : list gostring) (c : cache) (numOfElements counter10P : Z)
  : outcome cache :=
  match keys with
  | [] => Ret c
  | k :: keys' =>
      let '(c, ok) := cache_Set k ElementCost c in
      if ok then
        if (totalEntries =? 0)%Z then Panic
        else
          let numOfElements := (numOfElements + 1)%Z in
          let currentPercent := (numOfElements * 100 ÷ totalEntries)%Z in
          let tens := (currentPercent ÷ 10)%Z in
          load totalEntries keys' c numOfElements (if (counter10P <? tens)%Z then tens else counter10P)
      else load totalEntries keys' c numOfElements counter10P
  end.

Definition list_of (totalEntries itemCost : Z) (keys : list gostring)
  : outcome (result gostring (option entries)) :=
  let maxCost := (totalEntries * itemCost)%Z in
  match NewCache (maxCost * 10) maxCost with
  | Err e => Ret (Err e)
  | Ok c => c <-! load totalEntries keys c 0 0 ;; Ret (Ok (Some (MkEntries c totalEntries)))
  end.

(** The addresses of one line of the file. *)
Definition line_ips (line : gostring) : list gostring :=
  if is_empty line then []
  else if contains line "/" then
    match getIPsFromCIDR line with Ok ips => ips | Err _ => [] end
  else match ParseIP line with Some ip => [IP_String ip] | None => [] end.

(** [New] of package allowiplist; [os_Open] gives the content of the file. *)
Definition AllowIP_New (os_Open : gostring → result gostring gostring) (File : gostring)
  : outcome (result gostring (option entries)) :=
  match File with
  | [] => Ret (Ok None)
  | _ =>
      match os_Open File with
      | Err e => Ret (Err e)
      | Ok data =>
          let '(lines, err) := scan data in
          let ips := concat (map line_ips lines) in
          match err with
          | Some e => Ret (Err e)
          | None => list_of (Z.of_nat (length ips)) (56 + ElementCost) ips
          end
      end
  end.

(** * Denied tokens *)

(** [New] of package denylist: the lines are counted, then loaded without the
    white space around them. *)
Definition Denylist_New (os_Open : gostring → result gostring gostring) (File : gostring)
  : outcome (result gostring (option entries)) :=
  match File with
  | [] => Ret (Ok None)
  | _ =>
      match os_Open File with
      | Err e => Ret (Err e)
      | Ok data =>
          let '(lines, err) := scan data in
          let tokens := List.filter (λ l, negb (is_empty l)) lines in
          match err with
          | Some e => Ret (Err e)
          | None => list_of (Z.of_nat (length tokens)) 128 (map trim_space tokens)
          end
      end
  end.

(** * What the lists hold *)

Lemma load_Get total keys c n k c' x :
  load total keys c n k = Ret c' → cache_Get x c' = true → x ∈ keys ∨ cache_Get x c = true.
Proof.
  revert c n k. induction keys as [|key keys IH]; intros c n k; simpl; [intros [= <-]; auto|].
  pose proof (λ y, cache_Set_Get key ElementCost c y) as Hset.
  destruct (cache_Set key ElementCost c) as [c1 ok]; simpl in Hset.
  intros Hload Hget.
  assert (x ∈ keys ∨ cache_Get x c1 = true) as [Hx|Hx].
  { destruct ok; [|by eapply IH]. destruct (total =? 0)%Z; [done|by eapply IH]. }
  - left. by apply list_elem_of_further.
  - destruct (Hset _ Hx) as [->|]; [left; apply list_elem_of_here|by right].
Qed.

Lemma load_total total keys c n k :
  (total ≠ 0)%Z ∨ keys = [] → ∃ c', load total keys c n k = Ret c'.
Proof.
  intros Ht. revert c n k. induction keys as [|key keys IH]; intros c n k; simpl; [eauto|].
  destruct Ht as [Ht|]; [|done].
  destruct (cache_Set key ElementCost c) as [c1 []]; [|by apply IH; left].
  replace (total =? 0)%Z with false by (symmetry; by apply Z.eqb_neq). apply IH. by left.
Qed.

(** Every entry of a list is one of the keys, and building it does not panic. *)
Lemma list_of_Get total cost keys en x :
  list_of total cost keys = Ret (Ok (Some en)) →
  cache_Get x (en_Cache en) = true → x ∈ keys.
Proof.
  unfold list_of. destruct (NewCache _ _) as [c|e] eqn:Hc; [|done].
  intros (c' & Hl & [= <-])%obind_Ret Hx. simpl in Hx.
  destruct (load_Get _ _ _ _ _ _ _ Hl Hx) as [|H0]; [done|].
  by rewrite (NewCache_Get _ _ _ _ Hc) in H0.
Qed.

Lemma list_of_total cost keys : ∃ r, list_of (Z.of_nat (length keys)) cost keys = Ret r.
Proof.
  unfold list_of. destruct (NewCache _ _) as [c|e]; [|eauto].
  destruct (load_total (Z.of_nat (length keys)) keys c 0 0) as [c' ->]; [|simpl; eauto].
  destruct keys; [by right|left; simpl; lia].
Qed.

(** Loading the allow list ends, and what it holds are addresses of its file. *)
Lemma AllowIP_New_total os_Open File : ∃ r, AllowIP_New os_Open File = Ret r.
Proof.
  unfold AllowIP_New. destruct File as [|c f]; [by eexists|].
  destruct (os_Open (c :: f)) as [data|]; [|by eexists].
  destruct (scan data) as [lines [err|]]; [by eexists|]. apply list_of_total.
Qed.

Lemma AllowIP_New_Get os_Open File en x :
  AllowIP_New os_Open File = Ret (Ok (Some en)) → cache_Get x (en_Cache en) = true →
  ∃ data line, os_Open File = Ok data ∧ line ∈ (scan data).1 ∧ x ∈ line_ips line.
Proof.
  unfold AllowIP_New. destruct File as [|c f]; [done|].
  destruct (os_Open (c :: f)) as [data|] eqn:Ho; [|done].
  destruct (scan data) as [lines [err|]] eqn:Hs; [done|]. intros Hl Hx.
  pose proof (list_of_Get _ _ _ _ _ Hl Hx) as Hin.
  rewrite list_elem_of_In, in_concat in Hin. destruct Hin as (l & Hl' & Hin).
  apply in_map_iff in Hl' as (line & <- & Hline). exists data, line. rewrite Hs, !list_elem_of_In. done.
Qed.

Lemma AllowIP_New_None os_Open File : AllowIP_New os_Open File = Ret (Ok None) → File = [].
Proof.
  unfold AllowIP_New. destruct File as [|c f]; [done|]. destruct (os_Open (c :: f)) as [data|]; [|done].
  destruct (scan data) as [lines [err|]]; [done|]. unfold list_of. destruct (NewCache _ _); [|done].
  by intros (c' & _ & [=])%obind_Ret.
Qed.

Lemma AllowIP_New_num os_Open File en :
  AllowIP_New os_Open File = Ret (Ok (Some en)) →
  ∃ data, os_Open File = Ok data ∧ en_ElementsNum en = Z.of_nat (length (concat (map line_ips (scan data).1))).
Proof.
  unfold AllowIP_New. destruct File as [|c f]; [done|].
  destruct (os_Open (c :: f)) as [data|]; [|done]. exists data.
  destruct (scan data) as [lines [err|]]; [done|]. split; [done|]. simpl. unfold list_of in *.
  destruct (NewCache _ _); [|done].
  match goal with H : _ |- _ => apply obind_Ret in H as (c' & _ & Hen) end. by injection Hen as <-.
Qed.
End Lists.
