(* ===== verification/AccessListsSpec.v ===== *)
(** What the lists of addresses and tokens hold: the addresses of a subnet, and
    the round trip of addresses through their text. *)
From S2P Require Import Prelude GoStrings NetIP AccessLists.

(** * Valid addresses *)

Definition is_byte (b : Z) : Prop := (0 ≤ b < 256)%Z.
Definition addr_ok (a : Addr) : Prop :=
  length (addr_bytes a) = Z.to_nat (bits a / 8) ∧ Forall is_byte (addr_bytes a).

Lemma parseIPv4_loop_ok s prev val dl fields l :
  is_byte val → Forall is_byte fields → length fields ≤ 3 →
  parseIPv4_loop s prev val dl fields = Some l → length l = 4 ∧ Forall is_byte l.
Proof.
  unfold is_byte. revert prev val dl fields. induction s as [|c s IH]; intros prev val dl fields Hv Hf Hl; simpl.
  - case_decide as E; [|done]. intros [= <-]. rewrite length_app, E. split; [done|].
    apply Forall_app; split; [done|]. by constructor.
  - destruct (is_digit c) eqn:Hd.
    + case_match; [done|]. destruct (255 <? _)%Z eqn:Hb; [done|]. apply IH; [|done..].
      unfold is_digit in Hd. apply andb_prop in Hd as [?%Z.leb_le ?%Z.leb_le].
      apply Z.ltb_ge in Hb. lia.
    + repeat case_match; try done; (apply IH; [lia| |rewrite length_app; simpl; lia]);
        (apply Forall_app; split; [done|by constructor]).
Qed.

Lemma hex_val_range c d : hex_val c = Some d → (0 ≤ d < 16)%Z.
Proof. unfold hex_val. repeat case_match; intros [= <-]; lia. Qed.

Lemma hex_group_range s off acc v n rest :
  (0 ≤ acc < 16 ^ Z.of_nat off)%Z → off ≤ 4 → hex_group s off acc = Some (v, n, rest) → (0 ≤ v < 65536)%Z.
Proof.
  assert (∀ off acc, off ≤ 4 → (0 ≤ acc < 16 ^ Z.of_nat off)%Z → (0 ≤ acc < 65536)%Z) as Hmax.
  { intros o x Ho Hx. assert (16 ^ Z.of_nat o ≤ 16 ^ 4)%Z by (apply Z.pow_le_mono_r; lia). lia. }
  revert off acc. induction s as [|c s IH]; intros off acc Hacc Hoff; simpl.
  - intros [= <- <- <-]. by eapply Hmax.
  - destruct (hex_val c) as [d|] eqn:Hd.
    + case_decide; [done|]. apply IH; [|lia]. apply hex_val_range in Hd.
      rewrite Nat2Z.inj_succ, Z.pow_succ_r by lia. lia.
    + intros [= <- <- <-]. by eapply Hmax.
Qed.

Lemma parseIPv6_loop_ok fuel s ip el ip' el' rest :
  Forall is_byte ip → length ip ≤ 16 → Nat.Even (length ip) →
  (∀ e, el = Some e → e ≤ length ip) →
  parseIPv6_loop fuel s ip el = Some (ip', el', rest) →
  Forall is_byte ip' ∧ length ip' ≤ 16 ∧ (∀ e, el' = Some e → e ≤ length ip').
Proof.
  revert s ip el. induction fuel as [|f IH]; intros s ip el Hip Hlen Hev Hel; simpl.
  { intros [= <- <- <-]; auto. }
  case_decide as H16; [intros [= <- <- <-]; auto|].
  destruct (hex_group s 0 0) as [[[acc [|n]] r]|] eqn:Hh; try done.
  apply hex_group_range in Hh; [|simpl; lia..].
  set (ip2 := ip ++ _).
  assert (Forall is_byte ip2 ∧ length ip2 ≤ 16 ∧ Nat.Even (length ip2) ∧ length ip ≤ length ip2)
    as (H1 & H2 & H3 & H4).
  { unfold ip2. rewrite length_app; simpl. split_and!.
    - apply Forall_app; split; [done|]. pose proof (Z.mod_pos_bound acc 256 ltac:(lia)).
      pose proof (Z.div_lt_upper_bound acc 256 256 ltac:(lia) ltac:(lia)).
      pose proof (Z.div_pos acc 256 ltac:(lia) ltac:(lia)). unfold is_byte.
      repeat constructor; lia.
    - destruct Hev. lia.
    - destruct Hev as [m ->]. exists (S m). lia.
    - lia. }
  assert (∀ e, el = Some e → e ≤ length ip2) as Hel2 by (intros e ?%Hel; lia).
  clearbody ip2. intros Hr. repeat case_match; simplify_eq; eauto;
    try (eapply IH; [..|eassumption]; eauto; intros e; naive_solver lia).
  - rename select (parseIPv4Fields s = Some _) into Hfs.
    apply parseIPv4_loop_ok in Hfs as [Hl Hf]; [|unfold is_byte; lia|constructor|simpl; lia].
    rewrite length_app, Hl. split_and!; [by apply Forall_app|lia|]. intros e ?%Hel; lia.
  - split_and!; auto. intros e [= <-]; lia.
Qed.

Lemma parseIPv6_ok s l : parseIPv6 s = Some l → length l = 16 ∧ Forall is_byte l.
Proof.
  assert (∀ s' el, (∀ e, el = Some e → e = 0) →
    match parseIPv6_loop 8 s' [] el with
    | Some (ip, el, []) =>
        if decide (length ip < 16) then
          match el with
          | None => None
          | Some e => Some (take e ip ++ replicate (16 - length ip) 0%Z ++ drop e ip)
          end
        else match el with Some _ => None | None => Some ip end
    | _ => None
    end = Some l → length l = 16 ∧ Forall is_byte l) as Hgen.
  { intros s' el Hel Hr. destruct (parseIPv6_loop 8 s' [] el) as [[[ip el'] [|]]|] eqn:Hp; try done.
    apply parseIPv6_loop_ok in Hp as (Hip & Hlen & Hel'); [|constructor|simpl; lia|by exists 0|].
    2: { intros e ->%Hel. simpl. lia. }
    case_decide; destruct el' as [e|]; simplify_eq; [|split; [lia|done]].
    specialize (Hel' e eq_refl). rewrite !length_app, length_take, length_replicate, length_drop.
    split; [lia|]. rewrite !Forall_app. split_and!; [by apply Forall_take| |by apply Forall_drop].
    apply Forall_replicate. unfold is_byte; lia. }
  unfold parseIPv6.
  match goal with |- (let '(_, _) := ?x in _) = _ → _ => destruct x as [o g] eqn:E end.
  intros Hr. destruct o as [e|].
  - destruct g as [|c g].
    + injection Hr as <-. split; [done|]. apply (Forall_replicate _ 16). unfold is_byte; lia.
    + eapply (Hgen _ (Some e)); [|exact Hr]. intros ? [= <-]. repeat case_match; by simplify_eq.
  - by eapply (Hgen _ None).
Qed.

Lemma ParseAddr_ok s a : ParseAddr s = Some a → addr_ok a.
Proof.
  unfold ParseAddr, addr_ok. case_match; [done|]. intros Hr.
  assert ((∃ b, parseIPv4Fields s = Some b ∧ a = Addr4 b) ∨ (∃ b, parseIPv6 s = Some b ∧ a = Addr6 b))
    as [(b & Hb & ->)|(b & Hb & ->)].
  { repeat case_match; try done; apply fmap_Some in Hr; naive_solver. }
  - apply parseIPv4_loop_ok in Hb; [done|unfold is_byte; lia|constructor|simpl; lia].
  - by apply parseIPv6_ok in Hb.
Qed.

(** * Addresses as numbers *)

Lemma fold_val_bound l v :
  Forall is_byte l → (0 ≤ v)%Z →
  (v * 256 ^ Z.of_nat (length l) ≤ fold_left (λ v b, v * 256 + b) l v < (v + 1) * 256 ^ Z.of_nat (length l))%Z.
Proof.
  intros Hl. revert v. induction Hl as [|b l Hb _ IH]; intros v Hv; simpl; [lia|].
  rewrite Nat2Z.inj_succ, Z.pow_succ_r by lia. unfold is_byte in Hb. specialize (IH (v * 256 + b)%Z ltac:(lia)).
  pose proof (Z.pow_pos_nonneg 256 (Z.of_nat (length l)) ltac:(lia) ltac:(lia)). nia.
Qed.

Lemma addr_val_bound a : addr_ok a → (0 ≤ addr_val a < 2 ^ bits a)%Z.
Proof.
  intros [Hlen Hb]. pose proof (fold_val_bound (addr_bytes a) 0 Hb ltac:(lia)) as Hv.
  rewrite Hlen in Hv. unfold addr_val. revert Hv.
  replace (256 ^ Z.of_nat (Z.to_nat (bits a / 8)))%Z with (2 ^ bits a)%Z by (by destruct a). lia.
Qed.

Lemma fold_val_bytes n v acc x :
  (0 ≤ v < 256 ^ Z.of_nat n)%Z → (0 ≤ x)%Z →
  fold_left (λ v b, v * 256 + b)%Z (val_bytes n v acc) x
  = fold_left (λ v b, v * 256 + b)%Z acc (x * 256 ^ Z.of_nat n + v)%Z.
Proof.
  revert v acc x. induction n as [|n IH]; intros v acc x; [simpl; intros; f_equal; lia|].
  rewrite Nat2Z.inj_succ, Z.pow_succ_r by lia. intros Hv Hx. simpl.
  pose proof (Z.div_mod v 256 ltac:(lia)). pose proof (Z.mod_pos_bound v 256 ltac:(lia)).
  rewrite IH; [simpl; f_equal; lia| |done]. split; [apply Z.div_pos; lia|].
  apply Z.div_lt_upper_bound; lia.
Qed.

Lemma addr_val_of a v : (0 ≤ v < 2 ^ bits a)%Z → addr_val (addr_of a v) = v.
Proof.
  intros Hv. unfold addr_val. destruct a; cbn [bits addr_of addr_bytes] in *;
    (rewrite fold_val_bytes; [cbn [fold_left]; lia|exact Hv|lia]).
Qed.

Lemma bits_addr_of a v : bits (addr_of a v) = bits a.
Proof. by destruct a. Qed.
Lemma addr_of_of a v w : addr_of (addr_of a v) w = addr_of a w.
Proof. by destruct a. Qed.
Lemma same_family_of a v w : same_family (addr_of a v) (addr_of a w) = true.
Proof. by destruct a. Qed.

(** * The addresses of a subnet *)

Section Subnet.
Context (a : Addr) (n base : Z).
Let k : Z := (bits a - n)%Z.
Hypothesis Hn : (0 ≤ n ≤ bits a)%Z.
Hypothesis Hbase : (0 ≤ base ∧ base mod 2 ^ k = 0 ∧ base + 2 ^ k ≤ 2 ^ bits a)%Z.

Lemma contains_range v :
  (base ≤ v < 2 ^ bits a)%Z →
  Prefix_Contains (addr_of a base, n) (addr_of a v) = bool_decide (v < base + 2 ^ k)%Z.
Proof using Hbase Hn.
  intros Hv. unfold Prefix_Contains. rewrite same_family_of, bits_addr_of. simpl. fold k.
  assert (0 < 2 ^ k)%Z as Hk by (apply Z.pow_pos_nonneg; unfold k; lia).
  rewrite !addr_val_of by lia. rewrite Z.shiftr_lxor, !Z.shiftr_div_pow2 by (unfold k; lia).
  destruct Hbase as (Hb0 & Hb & _). apply Z.div_exact in Hb; [|lia].
  apply eq_bool_prop_intro. rewrite bool_decide_spec, Is_true_true, Z.eqb_eq, Z.lxor_eq_0_iff.
  split; intros E.
  - pose proof (Z.mod_pos_bound v _ Hk). pose proof (Z.div_mod v (2 ^ k) ltac:(lia)). nia.
  - symmetry. apply Z.div_unique with (v - base)%Z; [left; lia|]. lia.
Qed.

(** The loop gathers the texts of the addresses of the subnet, in order. *)
Lemma cidr_loop_range m fuel v ips :
  (base ≤ v)%Z → (v + Z.of_nat m = base + 2 ^ k)%Z → m < fuel →
  cidr_loop fuel (addr_of a base, n) (if (v =? 2 ^ bits a)%Z then None else Some (addr_of a v)) ips
  = ips ++ map (λ v, Addr_String (addr_of a v)) (seqZ v (Z.of_nat m)).
Proof using Hbase Hn.
  revert fuel v ips. induction m as [|m IH]; intros [|f] v ips Hv Hm Hf; try lia.
  - cbn [cidr_loop]. rewrite app_nil_r. destruct (v =? 2 ^ bits a)%Z eqn:E; [done|].
    apply Z.eqb_neq in E. rewrite contains_range by lia.
    by rewrite bool_decide_eq_false_2 by lia.
  - cbn [cidr_loop]. assert (v < 2 ^ bits a)%Z by lia.
    rewrite (proj2 (Z.eqb_neq v (2 ^ bits a)%Z)) by lia.
    rewrite contains_range, bool_decide_eq_true_2 by lia.
    unfold Addr_Next. rewrite bits_addr_of, addr_val_of, addr_of_of by lia.
    rewrite IH by lia. rewrite (seqZ_cons v) by lia. simpl. rewrite <- app_assoc. simpl.
    repeat f_equal; lia.
Qed.
End Subnet.

Lemma ParsePrefix_ok s a n : ParsePrefix s = Ok (a, n) → addr_ok a ∧ (0 ≤ n ≤ bits a)%Z.
Proof.
  unfold ParsePrefix. destruct (last_index_byte s "/"%char) as [i|]; [|done].
  destruct (ParseAddr (take i s)) as [ip|] eqn:Ha; [|done]. case_match; [done|].
  destruct (atoi _) as [m|]; [|done]. destruct ((m <? 0)%Z || (bits ip <? m)%Z) eqn:Hm; [done|].
  intros [= -> ->]. apply orb_false_elim in Hm as [?%Z.ltb_ge ?%Z.ltb_ge].
  split; [by eapply ParseAddr_ok|lia].
Qed.

(** The numbers of the addresses of a subnet that are kept: without the first
    and the last one when there are more than two. *)
Definition subnet_hosts (a : Addr) (n : Z) : list Z :=
  let size := (2 ^ (bits a - n))%Z in
  let base := (addr_val a / size * size)%Z in
  if (size <=? 2)%Z then seqZ base size else seqZ (base + 1) (size - 2).

Lemma getIPsFromCIDR_hosts s a n :
  ParsePrefix s = Ok (a, n) →
  getIPsFromCIDR s = Ok (map (λ v, Addr_String (addr_of a v)) (subnet_hosts a n)).
Proof.
  intros Hp. destruct (ParsePrefix_ok _ _ _ Hp) as [Hok Hn]. unfold getIPsFromCIDR. rewrite Hp.
  unfold subnet_hosts, Masked. set (k := (bits a - n)%Z). pose proof (addr_val_bound a Hok) as Hv.
  assert (0 < 2 ^ k)%Z as Hk by (apply Z.pow_pos_nonneg; unfold k; lia).
  assert (2 ^ bits a = 2 ^ k * 2 ^ n)%Z as Hpow
    by (rewrite <- Z.pow_add_r by (unfold k; lia); f_equal; unfold k; lia).
  rewrite Z.shiftl_mul_pow2, Z.shiftr_div_pow2 by (unfold k; lia).
  set (base := (addr_val a / 2 ^ k * 2 ^ k)%Z).
  assert (0 ≤ base ∧ base mod 2 ^ k = 0 ∧ base + 2 ^ k ≤ 2 ^ bits a)%Z as Hb.
  { unfold base. split_and!; [apply Z.mul_nonneg_nonneg; [apply Z.div_pos|]; lia|apply Z_mod_mult|].
    assert (addr_val a / 2 ^ k < 2 ^ n)%Z by (apply Z.div_lt_upper_bound; lia). nia. }
  cbv zeta. unfold cidr_fuel. cbn [fst snd]. rewrite bits_addr_of. fold k.
  pose proof (cidr_loop_range a n base Hn Hb (Z.to_nat (2 ^ k)) (S (Z.to_nat (2 ^ k))) base []
                ltac:(lia) ltac:(unfold k; lia) ltac:(lia)) as Hl.
  rewrite (proj2 (Z.eqb_neq base (2 ^ bits a)%Z)) in Hl by lia.
  rewrite Hl, app_nil_l, Z2Nat.id by lia. rewrite length_map, length_seqZ.
  destruct (2 ^ k <=? 2)%Z eqn:E; [apply Z.leb_le in E|apply Z.leb_gt in E].
  - by rewrite decide_True by lia.
  - rewrite decide_False by lia. f_equal. rewrite (seqZ_cons base) by lia.
    rewrite map_cons, skipn_cons, drop_0, firstn_map. f_equal.
    apply list_eq. intros i. destruct (decide (i < Z.to_nat (2 ^ k) - 2)).
    + rewrite lookup_take_lt by lia. rewrite !lookup_seqZ_lt by lia. f_equal; lia.
    + rewrite lookup_take_ge by lia. by rewrite lookup_seqZ_ge by lia.
Qed.

(** * IPv4 addresses and their texts *)

(** The digits of one field. *)
Fixpoint octet (ds : gostring) (val : Z) (digLen : nat) : option Z :=
  match ds with
  | [] => Some val
  | c :: ds' =>
      if is_digit c then
        if bool_decide (digLen = 1) && (val =? 0)%Z then None
        else let val := (val * 10 + (byte_val c - 48))%Z in
             if (255 <? val)%Z then None else octet ds' val (S digLen)
      else None
  end.

Lemma octet_loop ds prev val dl fields rest v :
  ds ≠ [] → octet ds val dl = Some v →
  ∃ c dl', is_digit c = true ∧
    parseIPv4_loop (ds ++ rest) prev val dl fields = parseIPv4_loop rest (Some c) v dl' fields.
Proof.
  revert prev val dl. induction ds as [|c ds IH]; intros prev val dl Hne Ho; [done|].
  simpl in *. destruct (is_digit c) eqn:Hc; [|done]. case_match; [done|].
  destruct (255 <? _)%Z; [done|]. destruct ds as [|c' ds].
  - injection Ho as <-. eauto.
  - apply IH; done.
Qed.

Lemma octet_itoa b : is_byte b → octet (itoa b) 0 0 = Some b ∧ itoa b ≠ [].
Proof.
  intros Hb.
  assert (Forall (λ b, octet (itoa b) 0 0 = Some b ∧ itoa b ≠ []) (seqZ 0 256)) as Hall.
  { apply Forall_forall. intros x Hx. apply (reflect_iff _ _ (bool_decide_reflect _)).
    assert (forallb (λ b, bool_decide (octet (itoa b) 0 0 = Some b ∧ itoa b ≠ [])) (seqZ 0 256) = true)
      as Hf by (vm_compute; reflexivity).
    rewrite forallb_forall in Hf. apply Hf. by apply list_elem_of_In. }
  rewrite Forall_forall in Hall. apply Hall. apply elem_of_seqZ. unfold is_byte in Hb. lia.
Qed.

Lemma dot_step c s fields v dl :
  is_digit c = true → length fields < 3 → s ≠ [] →
  parseIPv4_loop ("."%char :: s) (Some c) v dl fields = parseIPv4_loop s (Some "."%char) 0 0 (fields ++ [v]).
Proof.
  intros Hc Hl Hs. simpl. destruct s as [|d s]; [done|]. rewrite decide_False by lia.
  destruct c as [[] [] [] [] [] [] [] []]; try reflexivity; discriminate Hc.
Qed.

Lemma parse_dotted b1 b2 b3 b4 :
  is_byte b1 → is_byte b2 → is_byte b3 → is_byte b4 →
  parseIPv4Fields (dotted [b1; b2; b3; b4]) = Some [b1; b2; b3; b4].
Proof.
  intros [H1 N1]%octet_itoa [H2 N2]%octet_itoa [H3 N3]%octet_itoa [H4 N4]%octet_itoa.
  unfold dotted, parseIPv4Fields. simpl map. simpl join. simpl app.
  destruct (octet_loop _ None 0 0 [] (str "." ++ itoa b2 ++ str "." ++ itoa b3 ++ str "." ++ itoa b4) _ N1 H1)
    as (c1 & d1 & C1 & E1).
  destruct (octet_loop _ (Some "."%char) 0 0 [b1] (str "." ++ itoa b3 ++ str "." ++ itoa b4) _ N2 H2)
    as (c2 & d2 & C2 & E2).
  destruct (octet_loop _ (Some "."%char) 0 0 [b1; b2] (str "." ++ itoa b4) _ N3 H3) as (c3 & d3 & C3 & E3).
  destruct (octet_loop _ (Some "."%char) 0 0 [b1; b2; b3] [] _ N4 H4) as (c4 & d4 & C4 & E4).
  rewrite app_nil_r in E4. simpl app in *.
  rewrite E1, dot_step; [|done|simpl; lia|by destruct (itoa b2)].
  simpl app. rewrite E2, dot_step; [|done|simpl; lia|by destruct (itoa b3)].
  simpl app. rewrite E3, dot_step; [|done|simpl; lia|done].
  simpl app. rewrite E4. simpl. reflexivity.
Qed.

Lemma octet_digits ds val dl v : octet ds val dl = Some v → Forall (λ c, is_digit c = true) ds.
Proof.
  revert val dl. induction ds as [|c ds IH]; intros val dl; simpl; [constructor|].
  destruct (is_digit c) eqn:Hc; [|done]. repeat case_match; try done. intros Ho. constructor; eauto.
Qed.

Lemma digits_no_mark ds :
  Forall (λ c, is_digit c = true) ds →
  "%"%char ∉ ds ∧
  List.filter (λ c, bool_decide (c = "."%char) || bool_decide (c = ":"%char)) ds = [].
Proof.
  induction 1 as [|c ds Hc _ [IH1 IH2]]; [split; [apply not_elem_of_nil|done]|].
  split; [apply not_elem_of_cons; split; [by intros <-|done]|]. simpl. rewrite IH2.
  destruct (bool_decide (c = "."%char)) eqn:E; [apply bool_decide_eq_true in E as ->; done|].
  destruct (bool_decide (c = ":"%char)) eqn:E'; [apply bool_decide_eq_true in E' as ->; done|done].
Qed.

Lemma ParseAddr_dotted b1 b2 b3 b4 :
  is_byte b1 → is_byte b2 → is_byte b3 → is_byte b4 →
  ParseAddr (dotted [b1; b2; b3; b4]) = Some (Addr4 [b1; b2; b3; b4]).
Proof.
  intros H1 H2 H3 H4. unfold ParseAddr. rewrite parse_dotted by done.
  assert (∀ b, is_byte b → "%"%char ∉ itoa b ∧
    List.filter (λ c, bool_decide (c = "."%char) || bool_decide (c = ":"%char)) (itoa b) = []) as Hd.
  { intros b [Ho _]%octet_itoa. by eapply digits_no_mark, octet_digits. }
  destruct (Hd b1 H1) as [P1 F1], (Hd b2 H2) as [P2 _], (Hd b3 H3) as [P3 _], (Hd b4 H4) as [P4 _].
  unfold dotted. simpl map. simpl join.
  rewrite bool_decide_eq_false_2, List.filter_app, F1; [done|].
  by repeat first [apply not_elem_of_app; split | apply not_elem_of_cons; split].
Qed.

Lemma addr4_bytes b : addr_ok (Addr4 b) →
  ∃ b1 b2 b3 b4, b = [b1; b2; b3; b4] ∧ is_byte b1 ∧ is_byte b2 ∧ is_byte b3 ∧ is_byte b4.
Proof.
  intros [Hl Hb]. simpl in *. change (Z.to_nat (32 / 8)) with 4 in Hl.
  do 4 (destruct b as [|? b]; [done|]). destruct b; [|done].
  rewrite !Forall_cons in Hb. destruct Hb as (? & ? & ? & ? & _). eauto 10.
Qed.

Lemma addr_of_ok a v : addr_ok (addr_of a v).
Proof.
  assert (∀ n v acc, length (val_bytes n v acc) = n + length acc) as Hl.
  { induction n as [|n IH]; intros; simpl; [done|]. rewrite IH. simpl. lia. }
  assert (∀ n v acc, Forall is_byte acc → Forall is_byte (val_bytes n v acc)) as Hb.
  { induction n as [|n IH]; intros; simpl; [done|]. apply IH. constructor; [|done].
    unfold is_byte. by apply Z.mod_pos_bound. }
  destruct a; (split; [apply Hl|apply Hb; constructor]).
Qed.

Lemma val_bytes_addr_val w : addr_ok (Addr4 w) → val_bytes 4 (addr_val (Addr4 w)) [] = w.
Proof.
  intros (b1 & b2 & b3 & b4 & -> & H1 & H2 & H3 & H4)%addr4_bytes. unfold is_byte in *.
  assert (∀ x b, (0 ≤ b < 256)%Z → ((x * 256 + b) / 256 = x ∧ (x * 256 + b) mod 256 = b)%Z) as Hdm.
  { intros x b Hb. split; [rewrite Z.div_add_l, Z.div_small; lia|].
    by rewrite Z.add_comm, Z_mod_plus_full, Z.mod_small. }
  unfold addr_val. cbn [fold_left addr_bytes val_bytes].
  repeat match goal with
    | |- context [((?x * 256 + ?b) / 256)%Z] => rewrite (proj1 (Hdm x b ltac:(assumption)))
    | |- context [((?x * 256 + ?b) mod 256)%Z] => rewrite (proj2 (Hdm x b ltac:(assumption)))
    end.
  done.
Qed.

Lemma subnet_hosts_bound a n v :
  addr_ok a → (0 ≤ n ≤ bits a)%Z → v ∈ subnet_hosts a n → (0 ≤ v < 2 ^ bits a)%Z.
Proof.
  intros Hok Hn. unfold subnet_hosts. set (k := (bits a - n)%Z). pose proof (addr_val_bound a Hok) as Hv.
  assert (0 < 2 ^ k)%Z as Hk by (apply Z.pow_pos_nonneg; unfold k; lia).
  assert (2 ^ bits a = 2 ^ k * 2 ^ n)%Z as Hpow
    by (rewrite <- Z.pow_add_r by (unfold k; lia); f_equal; unfold k; lia).
  assert (addr_val a / 2 ^ k < 2 ^ n)%Z by (apply Z.div_lt_upper_bound; lia).
  assert (0 ≤ addr_val a / 2 ^ k)%Z by (apply Z.div_pos; lia).
  destruct (2 ^ k <=? 2)%Z; intros ?%elem_of_seqZ; nia.
Qed.

(** * Correctness *)

(** An IPv4 address survives printing and parsing, and has one text as an
    address and as an IP. *)
Lemma ipv4_text b : addr_ok (Addr4 b) →
  ParseIP (Addr_String (Addr4 b)) = Some (As16 (Addr4 b))
  ∧ IP_String (As16 (Addr4 b)) = Addr_String (Addr4 b).
Proof.
  intros (b1 & b2 & b3 & b4 & -> & ? & ? & ? & ?)%addr4_bytes. split; [|done].
  unfold ParseIP. simpl Addr_String. by rewrite ParseAddr_dotted.
Qed.

(** C37: the addresses a subnet of the allow list stands for.  For every text of
    a prefix, of either family, the loop over the addresses ends and gives the
    texts of the addresses of the subnet in increasing order: all of them when
    there are at most two, and otherwise all but the first and the last.  For an
    IPv4 subnet an address that is looked up is found in the list exactly when
    its number is one of those. *)
Theorem getIPsFromCIDR_exact (s : gostring) (a : Addr) (n : Z) :
  ParsePrefix s = Ok (a, n) →
  ∃ ips, getIPsFromCIDR s = Ok ips
    ∧ ips = map (λ v, Addr_String (addr_of a v)) (subnet_hosts a n)
    ∧ (bits a = 32%Z → ∀ w, addr_ok (Addr4 w) →
         (∃ ip, ParseIP (dotted w) = Some ip ∧ IP_String ip ∈ ips) ↔ addr_val (Addr4 w) ∈ subnet_hosts a n).
Proof.
  intros Hp. eexists. split; [by apply getIPsFromCIDR_hosts|]. split; [done|].
  intros H32 w Hw. destruct (ipv4_text w Hw) as [Hparse Htext]. change (Addr_String (Addr4 w)) with (dotted w) in *.
  rewrite Hparse.
  destruct a as [b|]; [|done].
  assert (∀ v, v ∈ subnet_hosts (Addr4 b) n → addr_ok (addr_of (Addr4 b) v)) as Hok
    by (intros; apply addr_of_ok).
  split.
  - intros (ip & E & Hin). assert (ip = As16 (Addr4 w)) as -> by congruence. rewrite Htext in Hin. apply list_elem_of_fmap in Hin as (v & Hv & Hin).
    cbn [addr_of Addr_String] in Hv.
    destruct (ipv4_text _ (Hok v Hin)) as [Hpv _]. cbn [addr_of Addr_String] in Hpv.
    rewrite <- Hv, Hparse in Hpv.
    assert (w = val_bytes 4 v []) as -> by (unfold As16 in Hpv; by simplify_eq).
    change (Addr4 (val_bytes 4 v [])) with (addr_of (Addr4 b) v). rewrite addr_val_of; [done|].
    apply ParsePrefix_ok in Hp as [??]. by eapply subnet_hosts_bound.
  - intros Hin. eexists. split; [done|]. rewrite Htext. apply list_elem_of_fmap.
    exists (addr_val (Addr4 w)). split; [|done]. cbn [addr_of Addr_String].
    by rewrite val_bytes_addr_val.
Qed.

Lemma getIPsFromCIDR_exact_witness :
  ∃ a, ParsePrefix "10.0.0.0/30" = Ok (a, 30%Z) ∧
    getIPsFromCIDR "10.0.0.0/30" = Ok [str "10.0.0.1"; str "10.0.0.2"].
Proof.
  exists (Addr4 [10; 0; 0; 0]%Z). split; [reflexivity|].
  destruct (getIPsFromCIDR_exact "10.0.0.0/30" (Addr4 [10; 0; 0; 0]%Z) 30 eq_refl) as (ips & H & Hips & _).
  rewrite H, Hips. reflexivity.
Defined.
