(* ===== verification/OAuth2.v ===== *)
(** Validation of OAuth 2.0 tokens (internal/platform/oauth2: jwt.go,
    introspection.go, oauth2.go). *)
From S2P Require Import Prelude Cmd GoStrings Values URLValues ParamDecoderSpec.

(** The interface [OAuth2]: the validation of a token, in a state. *)
Definition validator (S : Type) : Type := gostring → list gostring → cmd S (option gostring).

(** The scopes that are required and the ones a token has, which [same] compares. *)
Definition scopes_found (same : gostring → gostring → bool) (scopes scopesInToken : list gostring) : bool :=
  forallb (λ scope, existsb (same scope) scopesInToken) scopes.

Definition check_scopes (same : gostring → gostring → bool) (scopes scopesInToken : list gostring)
  : option gostring :=
  if scopes_found same scopes scopesInToken then None
  else Some (str "token doesn't contain a necessary scope").

(** * JWT *)

Module JWT.

Inductive method := SigningMethodRSA | SigningMethodHMAC | OtherMethod.
Inductive key := PubKey (k : option gostring) | SecretKey (k : gostring).

(** The library: the method a token names, and the scope claim of a token whose
    signature is that of the key and whose registered claims are valid. *)
Class JWTPkg := {
  token_method : gostring → result gostring method;
  token_verify : gostring → key → result gostring gostring
}.

Record JWT_Config := MkJWT_Config {
  SignatureAlgorithm : gostring;
  cfg_PubKey : option gostring;
  cfg_SecretKey : gostring
}.

(** The key function of [JWT.Validate]. *)
Definition keyfunc (j : JWT_Config) (m : method) : result gostring key :=
  let alg := SignatureAlgorithm j in
  if existsb (eqb_str alg) [str "RS256"; str "RS384"; str "RS512"] then
    match m with SigningMethodRSA => Ok (PubKey (cfg_PubKey j)) | _ => Err (str "unknown signing method") end
  else if existsb (eqb_str alg) [str "HS256"; str "HS384"; str "HS512"] then
    match m with SigningMethodHMAC => Ok (SecretKey (cfg_SecretKey j)) | _ => Err (str "unknown signing method") end
  else Err (str "unknown signing method").

(** [jwt.ParseWithClaims]. *)
Definition ParseWithClaims `{JWTPkg} (tokenString : gostring) (kf : method → result gostring key)
  : result gostring gostring :=
  m <-? token_method tokenString ;;
  k <-? kf m ;;
  token_verify tokenString k.

Definition JWT_Validate `{JWTPkg} (j : JWT_Config) (tokenWithBearer : gostring) (scopes : list gostring)
  : option gostring :=
  let tokenString := trim_prefix tokenWithBearer "Bearer " in
  match ParseWithClaims tokenString (keyfunc j) with
  | Err e => Some (str "oauth2 token invalid: " ++ e)
  | Ok Scope => check_scopes equal_fold scopes (split (to_lower Scope) " ")
  end.
End JWT.

(** * Introspection *)

Module Introspection.

(** The cache of github.com/karlseguin/ccache: [Get] gives the value of an item whether
    it has expired or not, and [Set] takes the time it expires.  An item may be evicted
    at any time; one that is there after a [Set] of its key is the one that was set. *)
Class CCachePkg (V : Type) := {
  ccache : Type;
  ccache_Get : gostring → ccache → option V;
  ccache_Set : gostring → V → Z → ccache → ccache;
  ccache_Get_Set k v expires c v' : ccache_Get k (ccache_Set k v expires c) = Some v' → v' = v
}.

(** The answers of a token: the map of a JSON object. *)
Notation meta := (list (gostring * value)).

Section Introspection.
Context `{FloatPkg} `{!CCachePkg meta}.

Record Introspection_Config := MkIntrospection_Config {
  EndpointMethod : gostring;
  Endpoint : gostring;
  EndpointParams : gostring;
  TokenParamName : gostring;
  ClientAuthBearerToken : gostring;
  ContentType : gostring;
  RefreshInterval : Z
}.

(** The request to the introspection endpoint. *)
Record irequest := MkIRequest {
  ir_Method : gostring;
  ir_URI : gostring;
  ir_Body : gostring;
  ir_Authorization : gostring;
  ir_ContentType : gostring
}.

(** [url.Parse]: the query of the URL, and its text with a query. *)
Variable url_Parse : gostring → result gostring (gostring * (gostring → gostring)).

Definition introspection_request (c : Introspection_Config) (token : gostring) : result gostring irequest :=
  match url_Parse (Endpoint c) with
  | Err e => Err (str "failed to parse introspection endpoint url: " ++ e)
  | Ok (rawQuery, render) =>
      let m := to_lower (EndpointMethod c) in
      let body :=
        if m =?s "post" then
          if is_empty (TokenParamName c) then EndpointParams c
          else TokenParamName c ++ "=" ++ token
               ++ (if is_empty (EndpointParams c) then [] else "&" ++ EndpointParams c)
        else [] in
      let query :=
        if m =?s "get" then
          let q := if is_empty (EndpointParams c) then rawQuery else EndpointParams c in
          if is_empty (TokenParamName c) then q
          else Values_Encode (Values_Add (URL_Query q) (TokenParamName c) token)
        else rawQuery in
      let auth := if is_empty (ClientAuthBearerToken c) then token else ClientAuthBearerToken c in
      Ok (MkIRequest (EndpointMethod c) (render query) body (str "Bearer " ++ auth) (ContentType c))
  end.

(** The requests to the endpoint are recorded. *)
Record state := MkState {
  st_Cache : ccache;
  st_Requests : list irequest
}.

(** The answer of the endpoint (a body), and [json.Unmarshal] into a map. *)
Variables (Do : irequest → result gostring gostring) (unmarshal : gostring → result gostring meta).

Definition getTokenMetaInfo (c : Introspection_Config) (token : gostring) : cmd state (result gostring meta) :=
  match introspection_request c token with
  | Err e => cmd_ret (Err e)
  | Ok rq =>
      cmd_modify (λ s, MkState (st_Cache s) (st_Requests s ++ [rq])) ;;;
      cmd_ret match Do rq with
              | Err e => Err (str "failed to send introspection request: " ++ e)
              | Ok body =>
                  match unmarshal body with
                  | Err e => Err (str "failed to unmarshal extension properties: " ++ e ++ " (" ++ body ++ ")")
                  | Ok m => Ok m
                  end
              end
  end.

(** [Introspection.Validate] at the time [now]. *)
Definition Introspection_Validate (c : Introspection_Config) (now : Z) : validator state := λ tokenWithBearer scopes,
  match scopes with
  | [] => cmd_ret None
  | _ =>
      let tokenString := trim_prefix tokenWithBearer "Bearer " in
      if is_empty tokenString then cmd_ret (Some (str "oauth token not found"))
      else
        cached <-- cmd_get (λ s, ccache_Get tokenString (st_Cache s)) ;;
        r <-- (match cached with
               | None => getTokenMetaInfo c tokenString
               | Some m => cmd_ret (Ok m)
               end) ;;
        match r with
        | Err e => cmd_ret (Some e)
        | Ok m =>
            match obj_get "scope" m with
            | Some (VStr scopeString) =>
                cmd_modify (λ s,
                  MkState (ccache_Set tokenString m (now + RefreshInterval c) (st_Cache s)) (st_Requests s)) ;;;
                cmd_ret (check_scopes eqb_str scopes (split scopeString " "))
            | _ => cmd_ret (Some (str "scope field not found in OAuth provider response"))
            end
        end
  end.
End Introspection.
End Introspection.

(** * Properties *)

Lemma check_scopes_None same scopes l :
  check_scopes same scopes l = None ↔ ∀ s, s ∈ scopes → ∃ t, t ∈ l ∧ same s t = true.
Proof.
  unfold check_scopes, scopes_found. destruct (forallb _ scopes) eqn:E.
  - rewrite forallb_forall in E. split; [|done]. intros _ s Hs.
    apply list_elem_of_In, E, existsb_exists in Hs as (t & Ht & Hst). exists t. by rewrite list_elem_of_In.
  - split; [done|]. intros Hall. rewrite <- not_true_iff_false in E. exfalso; apply E.
    apply forallb_forall. intros s Hs%list_elem_of_In. apply existsb_exists.
    destruct (Hall s Hs) as (t & Ht & Hst). exists t. by rewrite <- list_elem_of_In.
Qed.

(** C22: a JSON web token is accepted exactly when the token names a method of
    the family of the configured algorithm, its signature and claims verify with
    the key configured for that family (so a token signed with another family is
    never checked against the RSA public key), and its scope claim has every
    required scope up to case. *)
Theorem jwt_accepts `{JWT.JWTPkg} (j : JWT.JWT_Config) (header : gostring) (scopes : list gostring) :
  let token := trim_prefix header "Bearer " in
  JWT.JWT_Validate j header scopes = None ↔
  ∃ m k scope,
    JWT.token_method token = Ok m
    ∧ (m = JWT.SigningMethodRSA ∧ k = JWT.PubKey (JWT.cfg_PubKey j)
         ∧ JWT.SignatureAlgorithm j ∈ [str "RS256"; str "RS384"; str "RS512"]
       ∨ m = JWT.SigningMethodHMAC ∧ k = JWT.SecretKey (JWT.cfg_SecretKey j)
         ∧ JWT.SignatureAlgorithm j ∈ [str "HS256"; str "HS384"; str "HS512"])
    ∧ JWT.token_verify token k = Ok scope
    ∧ ∀ s, s ∈ scopes → ∃ t, t ∈ split (to_lower scope) " " ∧ equal_fold s t = true.
Proof.
  intros token. unfold JWT.JWT_Validate, JWT.ParseWithClaims. fold token.
  assert (∀ a l, existsb (eqb_str a) l = true ↔ a ∈ l) as Hin.
  { intros a l. rewrite existsb_exists. setoid_rewrite eqb_str_true. setoid_rewrite <- list_elem_of_In.
    split; [by intros (? & ? & ->)|eauto]. }
  assert (∀ m k, JWT.keyfunc j m = Ok k ↔
     (m = JWT.SigningMethodRSA ∧ k = JWT.PubKey (JWT.cfg_PubKey j)
         ∧ JWT.SignatureAlgorithm j ∈ [str "RS256"; str "RS384"; str "RS512"]
       ∨ m = JWT.SigningMethodHMAC ∧ k = JWT.SecretKey (JWT.cfg_SecretKey j)
         ∧ JWT.SignatureAlgorithm j ∈ [str "HS256"; str "HS384"; str "HS512"])) as Hkey.
  { intros m k. unfold JWT.keyfunc. rewrite <- !Hin.
    destruct (existsb _ [str "RS256"; _; _]) eqn:E1; destruct (existsb _ [str "HS256"; _; _]) eqn:E2.
    { exfalso. apply Hin in E1.
      repeat (apply elem_of_cons in E1 as [E1|E1]; [rewrite E1 in E2; vm_compute in E2; discriminate|]).
      by apply not_elem_of_nil in E1. }
    all: destruct m; split; intros Hk; try done; try (injection Hk as <-; auto; done);
      by destruct Hk as [(? & -> & ?)|(? & -> & ?)]. }
  setoid_rewrite <- Hkey. setoid_rewrite <- (check_scopes_None equal_fold).
  destruct (JWT.token_method token) as [m|e]; simpl; [|by split; [|intros (? & ? & ? & ? & _)]].
  destruct (JWT.keyfunc j m) as [k|e] eqn:Ek; simpl;
    [|split; [done|]; intros (? & ? & ? & [= <-] & E & _); by rewrite Ek in E].
  destruct (JWT.token_verify token k) as [sc|e] eqn:Ev; simpl.
  2: { split; [done|]. intros (? & ? & ? & [= <-] & E & E' & _). rewrite Ek in E. injection E as <-.
       by rewrite Ev in E'. }
  split; [intros; by exists m, k, sc|]. intros (? & ? & ? & [= <-] & E & E' & ?).
  rewrite Ek in E. injection E as <-. rewrite Ev in E'. by injection E' as <-.
Qed.

(** C36: an accepted token is not introspected again while it is in the cache.  When a
    validation that requires scopes has accepted a token and its entry is in the cache,
    every later validation of the token with these scopes that finds this entry accepts
    it too, at any time and whatever the endpoint would answer then, and sends no
    request: the cache is asked without looking at the expiry of its entries.  Only
    when the entry is gone, the endpoint is asked, once. *)
Theorem introspection_not_repeated `{FloatPkg} `{!Introspection.CCachePkg Introspection.meta}
    url_Parse Do unmarshal c now header scopes s s' :
  let token := trim_prefix header "Bearer " in
  let entry (s : Introspection.state) := Introspection.ccache_Get token (Introspection.st_Cache s) in
  scopes ≠ [] →
  Introspection.Introspection_Validate url_Parse Do unmarshal c now header scopes s = (s', Ret None) →
  ∀ Do' now' s1,
  let r := Introspection.Introspection_Validate url_Parse Do' unmarshal c now' header scopes s1 in
  (∀ m, entry s' = Some m → entry s1 = Some m →
     r.2 = Ret None ∧ Introspection.st_Requests r.1 = Introspection.st_Requests s1)
  ∧ (∀ rq, entry s1 = None → Introspection.introspection_request url_Parse c token = Ok rq →
       Introspection.st_Requests r.1 = Introspection.st_Requests s1 ++ [rq]).
Proof.
  intros token entry Hne Hv Do' now' s1 r. unfold entry, r, Introspection.Introspection_Validate in *.
  destruct scopes as [|sc scs]; [done|]. destruct (is_empty _); [done|]. fold token in Hv |- *. rewrite bind_get.
  split; [intros m He ->|intros rq -> Hrq].
  - assert (∃ scope, obj_get "scope" m = Some (VStr scope)
              ∧ check_scopes eqb_str (sc :: scs) (split scope " ") = None) as (scope & Hm & Hs).
    { apply bind_Ret in Hv as (cached & s2 & _ & (a & s3 & _ & Hv)%bind_Ret).
      destruct a as [m0|e]; [|done]. destruct (obj_get "scope" m0) as [[]|] eqn:Hm; try done.
      unfold cmd_bind, cmd_modify, cmd_ret in Hv. injection Hv as <- Hs. simpl in He.
      apply Introspection.ccache_Get_Set in He as ->. eauto. }
    by rewrite bind_ret, Hm, bind_modify, Hs.
  - unfold Introspection.getTokenMetaInfo. rewrite Hrq. unfold cmd_bind, cmd_modify, cmd_ret.
    destruct (Do' rq) as [body|]; [|done]. destruct (unmarshal body) as [m|]; [|done].
    by destruct (obj_get "scope" m) as [[]|].
Qed.

(** Without required scopes no token is needed. *)
Lemma introspection_no_scopes `{FloatPkg} `{!Introspection.CCachePkg Introspection.meta} url_Parse Do unmarshal c now header s :
  Introspection.Introspection_Validate url_Parse Do unmarshal c now header [] s = (s, Ret None).
Proof. done. Qed.

(** A cache that evicts nothing. *)
Lemma plain_Get_Set {V} (k : gostring) (v : V) (expires : Z) (c : gmap gostring V) v' :
  <[k := v]> c !! k = Some v' → v' = v.
Proof. rewrite lookup_insert_eq. congruence. Qed.

Definition plain_ccache (V : Type) : Introspection.CCachePkg V := {|
  Introspection.ccache := gmap gostring V;
  Introspection.ccache_Get k c := c !! k;
  Introspection.ccache_Set k v _ c := <[k := v]> c;
  Introspection.ccache_Get_Set := plain_Get_Set
|}.

Section Cached.
#[local] Existing Instances no_floats plain_ccache.
Let Validate now Do := Introspection.Introspection_Validate (λ u, Ok ([], λ q, u)) Do
  (λ _, Ok [(str "scope", VStr "read")])
  (Introspection.MkIntrospection_Config "GET" "http://idp" [] "token" [] [] 60) now
  (str "Bearer t") [str "read"].

Lemma introspection_not_repeated_witness :
  let s' := (Validate 0%Z (λ _, Ok (str "{}")) (Introspection.MkState ∅ [])).1 in
  let r := Validate 1000000%Z (λ _, Err (str "revoked")) s' in
  length (Introspection.st_Requests s') = 1
  ∧ r.2 = Ret None ∧ Introspection.st_Requests r.1 = Introspection.st_Requests s'.
Proof.
  intros s' r. split; [reflexivity|].
  assert (Hv : Validate 0%Z (λ _, Ok (str "{}")) (Introspection.MkState ∅ []) = (s', Ret None)) by reflexivity.
  assert (Hne : [str "read"] ≠ []) by discriminate.
  exact (proj1 (introspection_not_repeated _ _ _ _ _ _ _ _ _ Hne Hv (λ _, Err (str "revoked")) 1000000%Z s')
    _ eq_refl eq_refl).
Defined.
End Cached.
