(* ===== verification/Web.v ===== *)
(** The web application (internal/platform/web: web.go, middleware.go,
    errors.go, response.go) and the forwarding of a request to the backend
    (internal/platform/proxy/proxy.go).

    A handler works on the request context of fasthttp, a record with what the
    program reads and writes of it: the request, the response, the user values,
    the requests handed to the backend and the messages that were logged (their
    texts, without the fields).  Locks and debug messages are left out. *)
From S2P Require Import Prelude Cmd GoStrings RouterPattern RouterTree RouterMux Values URLValues BodyDecoder APIErrors.

(** * The request context *)

(** [fasthttp.Request]: the host is kept in the header and in the URI. *)
Record freq := MkFreq {
  fq_Method : gostring;
  fq_Scheme : gostring;
  fq_HeaderHost : gostring;
  fq_URIHost : gostring;
  fq_Path : gostring;
  fq_Query : gostring;
  fq_Protocol : gostring;
  fq_Header : http_Header;
  fq_Cookies : list (gostring * gostring);
  fq_Body : gostring
}.

(** [fasthttp.Response]. *)
Record fresp := MkFresp {
  fp_Status : Z;
  fp_Header : http_Header;
  fp_Body : gostring
}.

(** Values stored by name in the context. *)
Inductive uval :=
| UBool (b : bool)
| UInt (n : Z)
| UStr (s : gostring)
| UActions (a : Actions)
| URoute (c : Context)
| UErrors (l : list ValidationError)
| UUnit.

(** Logged messages; a trace message has the body that is logged with it. *)
Inductive logev :=
| LogError (msg : gostring)
| LogWarn (msg : gostring)
| LogInfo (msg : gostring)
| LogTrace (msg body : gostring).

(** [fasthttp.RequestCtx].  [cx_RemoteIP] is the IP of the address of the client
    when it is a TCP address. *)
Record reqctx := MkCtx {
  cx_Request : freq;
  cx_Response : fresp;
  cx_User : gmap gostring uval;
  cx_RemoteAddr : gostring;
  cx_RemoteIP : option gostring;
  cx_Sent : list freq;
  cx_Log : list logev;
  cx_Signals : nat
}.

Definition upd_Request (f : freq → freq) (x : reqctx) : reqctx :=
  let '(MkCtx rq rp u a ip s l n) := x in MkCtx (f rq) rp u a ip s l n.
Definition upd_Response (f : fresp → fresp) (x : reqctx) : reqctx :=
  let '(MkCtx rq rp u a ip s l n) := x in MkCtx rq (f rp) u a ip s l n.
Definition upd_User (f : gmap gostring uval → gmap gostring uval) (x : reqctx) : reqctx :=
  let '(MkCtx rq rp u a ip s l n) := x in MkCtx rq rp (f u) a ip s l n.
Definition upd_Sent (f : list freq → list freq) (x : reqctx) : reqctx :=
  let '(MkCtx rq rp u a ip s l n) := x in MkCtx rq rp u a ip (f s) l n.
Definition upd_Log (f : list logev → list logev) (x : reqctx) : reqctx :=
  let '(MkCtx rq rp u a ip s l n) := x in MkCtx rq rp u a ip s (f l) n.
Definition upd_Signals (f : nat → nat) (x : reqctx) : reqctx :=
  let '(MkCtx rq rp u a ip s l n) := x in MkCtx rq rp u a ip s l (f n).

Definition upd_fq_Header (f : http_Header → http_Header) (r : freq) : freq :=
  let '(MkFreq m s hh uh p q pr h c b) := r in MkFreq m s hh uh p q pr (f h) c b.
Definition set_fq_Scheme (v : gostring) (r : freq) : freq :=
  let '(MkFreq m s hh uh p q pr h c b) := r in MkFreq m v hh uh p q pr h c b.
Definition set_fq_HeaderHost (v : gostring) (r : freq) : freq :=
  let '(MkFreq m s hh uh p q pr h c b) := r in MkFreq m s v uh p q pr h c b.
Definition set_fq_URIHost (v : gostring) (r : freq) : freq :=
  let '(MkFreq m s hh uh p q pr h c b) := r in MkFreq m s hh v p q pr h c b.
Definition set_fp_Status (v : Z) (r : fresp) : fresp :=
  let '(MkFresp st h b) := r in MkFresp v h b.
Definition upd_fp_Header (f : http_Header → http_Header) (r : fresp) : fresp :=
  let '(MkFresp st h b) := r in MkFresp st (f h) b.
Definition upd_fp_Body (f : gostring → gostring) (r : fresp) : fresp :=
  let '(MkFresp st h b) := r in MkFresp st h (f b).

(** Headers: [Peek] is nil when there is no such header.  The code sets the content type
    and headers that fasthttp does not manage itself. *)
Definition Header_Set (k v : gostring) (h : http_Header) : http_Header :=
  <[CanonicalHeaderKey k := [v]]> h.
Definition Header_Del (k : gostring) (h : http_Header) : http_Header :=
  delete (CanonicalHeaderKey k) h.
Definition Header_Peek (k : gostring) (h : http_Header) : option gostring :=
  match h !! CanonicalHeaderKey k with Some (v :: _) => Some v | _ => None end.

(** fasthttp's default content type of a response. *)
Definition defaultContentType : gostring := "text/plain; charset=utf-8".
Definition response_ContentType (r : fresp) : gostring :=
  match header_Get (fp_Header r) "Content-Type" with [] => defaultContentType | ct => ct end.

(** [ResponseHeader.VisitAll]: the headers with the content type. *)
Definition response_headers_seen (r : fresp) : http_Header :=
  Header_Set "Content-Type" (response_ContentType r) (fp_Header r).

(** * Handlers *)

Inductive herr := HError (msg : gostring) | HShutdown (msg : gostring).

Notation Cmd := (cmd reqctx).
Notation Handler := (cmd reqctx (option herr)).
Notation Middleware := (cmd reqctx (option herr) → cmd reqctx (option herr)).

Definition UserValue (k : gostring) : Cmd (option uval) := cmd_get (λ x, cx_User x !! k).
Definition SetUserValue (k : gostring) (v : uval) : Cmd unit := cmd_modify (upd_User (<[k := v]>)).
Definition log (e : logev) : Cmd unit := cmd_modify (upd_Log (λ l, l ++ [e])).

(** The value under [k], asserted to be a boolean when it is there. *)
Definition flag (k : gostring) : Cmd bool :=
  v <-- UserValue k ;;
  match v with
  | None => cmd_ret false
  | Some (UBool b) => cmd_ret b
  | Some _ => cmd_panic
  end.

Definition IsShutdown (e : herr) : bool := match e with HShutdown _ => true | HError _ => false end.
Definition NewShutdownError (message : gostring) : herr := HShutdown message.

(** Keys of user values and names of modes. *)
Definition Playground : gostring := "playground".
Definition ValidationStatus : gostring := "APIFW-Validation-Status".
Definition ValidationDisable : gostring := "disable".
Definition ValidationBlock : gostring := "block".
Definition ValidationLog : gostring := "log_only".
Definition EndpointActions : gostring := "endpoint_actions".
Definition PassRequestOPTIONS : gostring := "proxy_request_with_options_method".
Definition RequestProxyFailed : gostring := "proxy_failed".
Definition RequestProxyNoRoute : gostring := "proxy_no_route".
Definition RequestBlocked : gostring := "request_blocked".
Definition ResponseBlocked : gostring := "response_blocked".
Definition ResponseStatusNotFound : gostring := "response_status_not_found".
Definition APIMode : gostring := "api".
Definition ProxyMode : gostring := "proxy".
Definition GraphQLMode : gostring := "graphql".
Definition GlobalResponseStatusCodeKey : gostring := "global_response_status_code".
Definition RequestSchemaID : gostring := "__wallarm_apifw_request_schema_id".
Definition RequestID : gostring := "__wallarm_apifw_request_id".
Definition RouteCtxKey : gostring := "RouteContext".

(** * Responses *)

(** [ctx.Error]: the response is reset. *)
Definition ctx_Error (msg : gostring) (statusCode : Z) : Cmd unit :=
  cmd_modify (upd_Response (λ _,
    MkFresp statusCode {[ str "Content-Type" := [defaultContentType] ]} msg)).

Definition RespondError (statusCode : Z) (statusHeader : gostring) : Handler :=
  ctx_Error [] statusCode ;;;
  (match statusHeader with
   | [] => cmd_ret ()
   | _ => cmd_modify (upd_Response (upd_fp_Header (λ h, Header_Add h ValidationStatus statusHeader)))
   end ;;;
   cmd_ret None).

(** [Respond]; [jsonData] is the encoding of the value. *)
Definition Respond (jsonData : result gostring gostring) (statusCode : Z) : Handler :=
  if (statusCode =? 204)%Z
  then cmd_modify (upd_Response (set_fp_Status statusCode)) ;;; cmd_ret None
  else
    match jsonData with
    | Err msg => cmd_ret (Some (HError msg))
    | Ok data =>
        cmd_modify (upd_Response (λ r,
          upd_fp_Body (λ b, b ++ data) (set_fp_Status statusCode
            (upd_fp_Header (Header_Set "Content-Type" "application/json") r)))) ;;;
        cmd_ret None
    end.

(** [RespondGraphQLErrors]; [text] is what [WriteResponse] writes of the error. *)
Definition RespondGraphQLErrors (text : gostring) : Handler :=
  cmd_modify (upd_Response (λ r,
    upd_fp_Body (λ b, b ++ text) (upd_fp_Header (Header_Set "Content-Type" "application/json") r))) ;;;
  cmd_ret None.

(** * Middlewares and the application *)

(** [WrapMiddleware]: the loop from the last middleware to the first; a nil
    middleware is skipped. *)
Fixpoint wrap_loop (mw : list (option Middleware)) (i : nat) (handler : Handler) : Handler :=
  match i with
  | 0 => handler
  | S i' =>
      wrap_loop mw i' (match mw !! i' with Some (Some h) => h handler | _ => handler end)
  end.
Definition WrapMiddleware (mw : list (option Middleware)) (handler : Handler) : Handler :=
  wrap_loop mw (length mw) handler.

Record AppAdditionalOptions := MkAppOptions {
  ao_Mode : gostring;
  ao_PassOptions : bool;
  ao_DefaultHandler : Handler
}.

Section App.
Context `{RegexpPkg}.

Record App := MkApp {
  app_Router : @Mux _ Handler;
  app_mw : list (option Middleware);
  app_Options : AppAdditionalOptions
}.

Definition NewApp (options : AppAdditionalOptions) (mw : list (option Middleware)) : App :=
  MkApp NewMux mw options.

Definition SignalShutdown : Cmd unit := cmd_modify (upd_Signals S).

(** The function [Handle] registers for a handler. *)
Definition app_handler (a : App) (mw : list (option Middleware)) (handler : Handler) : Handler :=
  let handler := WrapMiddleware (app_mw a) (WrapMiddleware mw handler) in
  err <-- handler ;;
  match err with
  | Some e => SignalShutdown ;;; cmd_ret (Some e)
  | None => cmd_ret None
  end.

Definition Handle (mt : method_table) (a : App) (method path : gostring) (actions : option Actions)
    (handler : Handler) (mw : list (option Middleware)) : App * option route_error :=
  let '(mx, err) :=
    AddEndpointWithActions mt (app_Router a) method path actions (Some (app_handler a mw handler)) in
  (MkApp mx (app_mw a) (app_Options a), err).

(** A handler whose error is logged. *)
Definition logged (c : Handler) : Cmd unit :=
  err <-- c ;;
  match err with
  | Some _ => log (LogError "Error in the request handler")
  | None => cmd_ret ()
  end.

(** [MainHandler]; [uuid] is the new request identifier. *)
Definition MainHandler (mt : method_table) (a : App) (uuid : gostring) : Cmd unit :=
  cmd_recover
    (SetUserValue RequestID (UStr uuid) ;;;
     (method <-- cmd_get (λ x, fq_Method (cx_Request x)) ;;
      path <-- cmd_get (λ x, fq_Path (cx_Request x)) ;;
      '(rctx, handler, actions) <--
        cmd_lift (FindWithActions mt (app_Router a) NewRouteContext method path) ;;
      (match actions with
       | Some acts => SetUserValue EndpointActions (UActions acts)
       | None => cmd_ret ()
       end ;;;
       match handler with
       | None =>
           if ao_PassOptions (app_Options a) && (method =?s "OPTIONS") then
             SetUserValue PassRequestOPTIONS (UBool true) ;;;
             logged (ao_DefaultHandler (app_Options a))
           else
             log (LogInfo "Path or method not found") ;;;
             (if ao_Mode (app_Options a) =?s GraphQLMode then logged (RespondError 403 [])
              else logged (ao_DefaultHandler (app_Options a)))
       | Some h =>
           SetUserValue RouteCtxKey (URoute rctx) ;;;
           (logged h ;;;
            cmd_modify (upd_Response (upd_fp_Header (Header_Del "Allow"))))
       end)))
    (log (LogError "panic")).
End App.

(** * Forwarding *)

Inductive do_error := ErrDialTimeout | ErrNoFreeConns | DoError (msg : gostring).
Definition do_error_text (e : do_error) : gostring :=
  match e with
  | ErrDialTimeout => "dialing to the given TCP address timed out"
  | ErrNoFreeConns => "no free connections available to host"
  | DoError msg => msg
  end.

(** The pool: the error of [Get], or the client with its [Do]. *)
Definition pool : Type := result gostring (freq → result do_error fresp).

Definition do_status (e : do_error) : Z :=
  match e with ErrDialTimeout => 504 | ErrNoFreeConns => 503 | DoError _ => 502 end.

Definition Perform (proxyPool : pool) (customHostHeader : gostring) : Handler :=
  match proxyPool with
  | Err msg => cmd_ret (Some (HError msg))
  | Ok client_Do =>
      (if is_empty customHostHeader then cmd_ret ()
       else cmd_modify (upd_Request (λ r,
              set_fq_URIHost customHostHeader (set_fq_HeaderHost customHostHeader r)))) ;;;
      (rq <-- cmd_get cx_Request ;;
       (cmd_modify (upd_Sent (λ l, l ++ [rq])) ;;;
        match client_Do rq with
        | Err e =>
            SetUserValue RequestProxyFailed (UBool true) ;;;
            (err <-- RespondError (do_status e) [] ;;
             match err with
             | Some e' => cmd_ret (Some e')
             | None => cmd_ret (Some (HError (do_error_text e)))
             end)
        | Ok rp => cmd_modify (upd_Response (λ _, rp)) ;;; cmd_ret None
        end))
  end.

#[export] Hint Unfold UserValue SetUserValue log flag : apifw.
