(* ===== verification/Metrics.v ===== *)
(** The metrics (internal/platform/metrics/prometheus.go): the counters, which are
    global variables of the package, and the service that shows them.  A vector of
    the Prometheus library is a map from the values of its labels. *)
From S2P Require Import Prelude Cmd GoStrings RouterPattern RouterTree RouterMux Values URLValues BodyDecoder APIErrors Web.

(** The collectors; a histogram is the list of its observations. *)
Record collectors := MkCollectors {
  TotalErrors : N;
  ErrorTypeCounter : gmap (gostring * gostring) N;
  HttpRequestsTotal : gmap (gostring * gostring) N;
  HttpRequestDuration : gmap gostring (list Z)
}.
Definition no_metrics : collectors := MkCollectors 0 ∅ ∅ ∅.

(** [WithLabelValues] makes the counter when it is not there. *)
Definition vec_Inc {K} `{Countable K} (k : K) (m : gmap K N) : gmap K N :=
  <[k := (default 0 (m !! k) + 1)%N]> m.

Record PrometheusMetrics := MkPrometheus { pm_enabled : bool; pm_registry : bool }.
Definition NewPrometheusMetrics (enabled : bool) : PrometheusMetrics := MkPrometheus enabled false.

Definition IncErrorTypeCounter (p : PrometheusMetrics) (err : gostring) (schemaID : Z) (c : collectors) : collectors :=
  if negb (pm_enabled p) then c
  else MkCollectors (TotalErrors c + 1) (vec_Inc (err, itoa schemaID) (ErrorTypeCounter c))
         (HttpRequestsTotal c) (HttpRequestDuration c).

(** [since] is the time since the start of the request. *)
Definition IncHTTPRequestStat (p : PrometheusMetrics) (since schemaID statusCode : Z) (c : collectors) : collectors :=
  if negb (pm_enabled p) then c
  else MkCollectors (TotalErrors c) (ErrorTypeCounter c)
         (vec_Inc (itoa schemaID, itoa statusCode) (HttpRequestsTotal c))
         (<[itoa schemaID := default [] (HttpRequestDuration c !! itoa schemaID) ++ [since]]> (HttpRequestDuration c)).

Definition IncHTTPRequestTotalCountOnly (p : PrometheusMetrics) (schemaID statusCode : Z) (c : collectors) : collectors :=
  if negb (pm_enabled p) then c
  else MkCollectors (TotalErrors c) (ErrorTypeCounter c)
         (vec_Inc (itoa schemaID, itoa statusCode) (HttpRequestsTotal c)) (HttpRequestDuration c).

(** [initializeMetrics]: the registry is made once. *)
Definition initializeMetrics (p : PrometheusMetrics) : PrometheusMetrics * option gostring :=
  if pm_registry p then (p, Some (str "registry not initialized"))
  else (MkPrometheus (pm_enabled p) true, None).

(** [metricsHandler]; [serve] is the handler of the Prometheus library. *)
Definition metricsHandler (endpointName : gostring) (serve : Cmd unit) : Cmd unit :=
  path <-- cmd_get (λ x, fq_Path (cx_Request x)) ;;
  if path =?s endpointName then serve else ctx_Error "Unsupported path" 404.

(** [StartService]: the handler that is served, or the error; [endpointName] is the
    answer of [url.JoinPath]. *)
Definition StartService (p : PrometheusMetrics) (logger_nil : bool) (endpointName : result gostring gostring)
    (serve : Cmd unit) : PrometheusMetrics * result gostring (Cmd unit) :=
  if logger_nil then (p, Err (str "Prometheus metrics: logger not initialized"))
  else
    match initializeMetrics p with
    | (p, Some e) => (p, Err e)
    | (p, None) => (p, name <-? endpointName ;; Ok (metricsHandler name serve))
    end.

(** * Properties *)

(** The operations of the interface [Metrics]. *)
Inductive metrics_call :=
| CallError (err : gostring) (schemaID : Z)
| CallStat (since schemaID statusCode : Z)
| CallCount (schemaID statusCode : Z).

Definition run_call (p : PrometheusMetrics) (c : collectors) (m : metrics_call) : collectors :=
  match m with
  | CallError err schemaID => IncErrorTypeCounter p err schemaID c
  | CallStat since schemaID statusCode => IncHTTPRequestStat p since schemaID statusCode c
  | CallCount schemaID statusCode => IncHTTPRequestTotalCountOnly p schemaID statusCode c
  end.
Definition run_calls (p : PrometheusMetrics) (calls : list metrics_call) : collectors :=
  fold_left (run_call p) calls no_metrics.

Definition is_error_of (err : gostring) (schemaID : Z) (m : metrics_call) : bool :=
  match m with CallError e id => (e =?s err) && (itoa id =?s itoa schemaID) | _ => false end.
Definition is_error (m : metrics_call) : bool := match m with CallError _ _ => true | _ => false end.

Lemma vec_Inc_lookup {K} `{Countable K} (k k' : K) m :
  default 0%N (vec_Inc k m !! k') = (default 0 (m !! k') + (if bool_decide (k = k') then 1 else 0))%N.
Proof.
  unfold vec_Inc. case_bool_decide as Hk.
  - subst k'. by rewrite lookup_insert_eq.
  - rewrite lookup_insert_ne by done. lia.
Qed.

Lemma run_call_counts p c m :
  pm_enabled p = true →
  TotalErrors (run_call p c m) = (TotalErrors c + (if is_error m then 1 else 0))%N ∧
  ∀ err id, default 0%N (ErrorTypeCounter (run_call p c m) !! (err, itoa id)) =
    (default 0 (ErrorTypeCounter c !! (err, itoa id)) + (if is_error_of err id m then 1 else 0))%N.
Proof.
  intros Hp.
  destruct m; simpl; unfold IncErrorTypeCounter, IncHTTPRequestStat, IncHTTPRequestTotalCountOnly;
    rewrite Hp; simpl; (split; [lia|]); intros err' id; [|lia|lia].
  rewrite vec_Inc_lookup. unfold eqb_str. repeat case_bool_decide; simplify_eq/=; try done; congruence.
Qed.

(** Enabled metrics count the errors: in all, and those of a type and schema. *)
Lemma error_counters p calls :
  pm_enabled p = true →
  TotalErrors (run_calls p calls) = N.of_nat (length (List.filter is_error calls)) ∧
  ∀ err id, default 0%N (ErrorTypeCounter (run_calls p calls) !! (err, itoa id)) =
    N.of_nat (length (List.filter (is_error_of err id) calls)).
Proof.
  intros Hp. unfold run_calls. induction calls as [|m calls IH] using rev_ind; [done|].
  destruct IH as [IH1 IH2]. rewrite fold_left_app. simpl.
  destruct (run_call_counts p (fold_left (run_call p) calls no_metrics) m Hp) as [-> H2].
  rewrite List.filter_app, length_app, IH1. split; [simpl; destruct (is_error m); simpl; lia|].
  intros err id. rewrite H2, IH2, List.filter_app, length_app. simpl. destruct (is_error_of err id m); simpl; lia.
Qed.

(** Disabled metrics count nothing. *)
Lemma disabled_counters p calls : pm_enabled p = false → run_calls p calls = no_metrics.
Proof.
  intros Hp. unfold run_calls. induction calls as [|m calls IH]; [done|]. simpl.
  replace (run_call p no_metrics m) with no_metrics; [done|].
  destruct m; simpl; unfold IncErrorTypeCounter, IncHTTPRequestStat, IncHTTPRequestTotalCountOnly; by rewrite Hp.
Qed.
