(* ===== verification/Mid.v ===== *)
(** The middlewares (internal/mid) and the trace log (internal/platform/web/trace.go).
    The ModSecurity engine (Coraza), the detection of MIME types and the texts of
    GraphQL errors are libraries: parameters. *)
From S2P Require Import Prelude Cmd GoStrings RouterTree Values URLValues BodyDecoder Validate APIErrors APIMode NetIP AccessLists Web.

(** * Errors, panics and logs *)

Definition Errors : Middleware := λ before,
  err <-- before ;;
  match err with
  | None => cmd_ret None
  | Some e =>
      log (LogError "common error") ;;;
      (err' <-- RespondError 500 [] ;;
       match err' with
       | Some e' => cmd_ret (Some e')
       | None => cmd_ret (if IsShutdown e then Some e else None)
       end)
  end.

Definition Panics : Middleware := λ after,
  cmd_recover after (cmd_ret (Some (HError "panic"))).

(** [LogRequestResponseAtTraceLevel]: the request identifier is asserted to be a
    string; the response body of the playground is omitted. *)
Definition responseBodyOmitted : gostring := "<response body is omitted>".
Definition escape_newlines (s : gostring) : gostring := replace_all s ["010"%char] "\r\n".
Definition LogRequestResponseAtTraceLevel (trace : bool) : Cmd unit :=
  if negb trace then cmd_ret ()
  else
    id <-- UserValue RequestID ;;
    match id with
    | Some (UStr _) =>
        rq <-- cmd_get cx_Request ;;
        (log (LogTrace "new request" (escape_newlines (fq_Body rq))) ;;;
         (pg <-- UserValue Playground ;;
          rp <-- cmd_get cx_Response ;;
          log (LogTrace "response from the API-Firewall"
                 (escape_newlines (match pg with Some _ => responseBodyOmitted | None => fp_Body rp end)))))
    | _ => cmd_panic
    end.

Definition Logger (trace : bool) : Middleware := λ before,
  err <-- before ;;
  noRoute <-- flag RequestProxyNoRoute ;;
  ((if (noRoute : bool) then log (LogError "method or path not found in the OpenAPI specification")
    else cmd_ret ()) ;;;
   (LogRequestResponseAtTraceLevel trace ;;;
    cmd_ret err)).

(** * Shadow API *)

Definition shadow_message : gostring :=
  "Shadow API detected: response status code not found in the OpenAPI specification".

Definition ShadowAPIMonitor (ExcludeList : list Z) : Middleware := λ before,
  err <-- before ;;
  failed <-- flag RequestProxyFailed ;;
  if (failed : bool) then cmd_ret err
  else
    blocked <-- flag RequestBlocked ;;
    if (blocked : bool) then cmd_ret err
    else
      notFound <-- flag ResponseStatusNotFound ;;
      statusCode <-- cmd_get (λ x, fp_Status (cx_Response x)) ;;
      ((if (notFound : bool) && negb (existsb (Z.eqb statusCode) ExcludeList)
        then log (LogError shadow_message) else cmd_ret ()) ;;;
       cmd_ret err).

(** * Changes of the request on its way to the backend *)

Definition apifwHeaderName : gostring := "APIFW-Request-Id".
Definition hopHeaders : list gostring :=
  map str ["Connection"; "Proxy-Connection"; "Keep-Alive"; "Proxy-Authenticate"; "Proxy-Authorization";
           "Te"; "Trailer"; "Transfer-Encoding"; "Upgrade"]%string.

Record ProxyOptions := MkProxyOptions {
  po_Mode : gostring;
  po_RequestValidation : gostring;
  po_DeleteAcceptEncoding : bool;
  po_Scheme : gostring;
  po_Host : gostring
}.

(** The loop that deletes the hop-by-hop headers; the ones a websocket needs
    are kept in GraphQL mode. *)
Section Proxy.
Variable ConnectionUpgrade : http_Header → bool.

Definition keeps_hop (mode h : gostring) (hd : http_Header) : bool :=
  (mode =?s GraphQLMode)
  && (((h =?s "Connection") && ConnectionUpgrade hd)
      || ((h =?s "Upgrade") && equal_fold (header_Get hd "Upgrade") "websocket")).

Definition delete_hop (mode : gostring) (hd : http_Header) : http_Header :=
  fold_left (λ hd h, if keeps_hop mode h hd then hd else Header_Del h hd) hopHeaders hd.

Definition RemoteIP (x : reqctx) : gostring := default (str "0.0.0.0") (cx_RemoteIP x).

Definition upd_request_header (f : http_Header → http_Header) : Cmd unit :=
  cmd_modify (upd_Request (upd_fq_Header f)).

(** Before the next handler. *)
Definition proxy_request (options : ProxyOptions) : Cmd unit :=
  upd_request_header (delete_hop (po_Mode options)) ;;;
  ((if equal_fold (po_RequestValidation options) ValidationBlock then
      id <-- UserValue RequestID ;;
      match id with
      | Some (UStr uuid) => upd_request_header (λ h, Header_Add h apifwHeaderName uuid)
      | _ => cmd_panic
      end
    else cmd_ret ()) ;;;
   (cmd_modify (upd_Request (λ r, set_fq_URIHost (po_Host options) (set_fq_Scheme (po_Scheme options) r))) ;;;
    (ip <-- cmd_get RemoteIP ;;
     (upd_request_header (λ h, Header_Set "X-Forwarded-For"
        (match Header_Peek "X-Forwarded-For" h with Some v => v ++ ", " ++ ip | None => ip end) h) ;;;
      (if po_DeleteAcceptEncoding options then upd_request_header (Header_Del "Accept-Encoding")
       else cmd_ret ()))))).

Definition Proxy (options : ProxyOptions) : Middleware := λ before,
  proxy_request options ;;;
  (err <-- before ;;
   (cmd_modify (upd_Response (upd_fp_Header (delete_hop (po_Mode options)))) ;;;
    cmd_ret err)).
End Proxy.

(** * Access lists *)

Section Access.
Context `{CachePkg}.
Variable graphql_error : gostring → gostring.

Definition errAccessDenied : gostring := "access denied".
Definition errAccessDeniedIP : gostring := "access denied to this IP".

(** The response of a refused request. *)
Definition set_status (code : Z) : Cmd unit := cmd_modify (upd_Response (set_fp_Status code)).

Record IPAllowListOptions := MkIPAllow {
  ia_Mode : gostring;
  ia_HeaderName : gostring;
  ia_CustomBlockStatusCode : Z;
  ia_AllowedIPs : option entries
}.

Definition refuse_ip (o : IPAllowListOptions) : Handler :=
  if ia_Mode o =?s APIMode then
    SetUserValue GlobalResponseStatusCodeKey (UInt (ia_CustomBlockStatusCode o)) ;;; cmd_ret None
  else if ia_Mode o =?s GraphQLMode then
    set_status (ia_CustomBlockStatusCode o) ;;; RespondGraphQLErrors (graphql_error errAccessDeniedIP)
  else RespondError (ia_CustomBlockStatusCode o) [].

(** The text of the address that is checked. *)
Definition ip_to_check (o : IPAllowListOptions) (x : reqctx) : gostring :=
  let peek := header_Get (fq_Header (cx_Request x)) (ia_HeaderName o) in
  trim_space
    (if is_empty (ia_HeaderName o) then default [] (cx_RemoteIP x)
     else if to_lower (ia_HeaderName o) =?s "x-forwarded-for" then hd [] (split peek ",")
     else peek).

Definition IPAllowlist (o : IPAllowListOptions) : Middleware := λ before,
  match ia_AllowedIPs o with
  | Some en =>
      if (0 <? en_ElementsNum en)%Z then
        x <-- cmd_get (λ x, x) ;;
        let ipToCheck := ip_to_check o x in
        (if is_empty (ia_HeaderName o) && bool_decide (cx_RemoteIP x = None)
         then log (LogError "allow IP: can't get client IP address") else cmd_ret ()) ;;;
        match ParseIP ipToCheck with
        | None => log (LogInfo "allow IP: could not parse source IP address") ;;; refuse_ip o
        | Some ip =>
            if cache_Get (IP_String ip) (en_Cache en) then before
            else log (LogInfo "allow IP: requests from the source IP address are not allowed") ;;; refuse_ip o
        end
      else before
  | None => before
  end.

Record DenylistOptions := MkDenylist {
  dl_Mode : gostring;
  dl_CookieName : gostring;
  dl_HeaderName : gostring;
  dl_TrimBearerPrefix : bool;
  dl_CustomBlockStatusCode : Z;
  dl_DeniedTokens : option entries
}.

Definition refuse_token (o : DenylistOptions) : Handler :=
  log (LogInfo "The request with the API token has been blocked") ;;;
  (if equal_fold (dl_Mode o) GraphQLMode then
     set_status (dl_CustomBlockStatusCode o) ;;; RespondGraphQLErrors (graphql_error errAccessDenied)
   else RespondError (dl_CustomBlockStatusCode o) []).

Definition cookie_token (o : DenylistOptions) (x : reqctx) : gostring :=
  default [] (obj_get (dl_CookieName o) (fq_Cookies (cx_Request x))).
Definition header_token (o : DenylistOptions) (x : reqctx) : gostring :=
  let token := header_Get (fq_Header (cx_Request x)) (dl_HeaderName o) in
  if dl_TrimBearerPrefix o then trim_prefix token "Bearer " else token.

Definition Denylist (o : DenylistOptions) : Middleware := λ before,
  match dl_DeniedTokens o with
  | Some en =>
      if (0 <? en_ElementsNum en)%Z then
        cookie <-- cmd_get (cookie_token o) ;;
        if negb (is_empty (dl_CookieName o)) && cache_Get cookie (en_Cache en) then refuse_token o
        else
          header <-- cmd_get (header_token o) ;;
          if negb (is_empty (dl_HeaderName o)) && cache_Get header (en_Cache en) then refuse_token o
          else before
      else before
  | None => before
  end.
End Access.

(** * MIME types *)

Section MIME.
Variables (d : decompressor) (mimetype_Detect : gostring → gostring).

Definition MIMETypeIdentifier : Middleware := λ before,
  rq <-- cmd_get cx_Request ;;
  let set_type t := cmd_modify (upd_Request (upd_fq_Header (Header_Set "Content-Type" t))) in
  if is_empty (header_Get (fq_Header rq) "Content-Type") && negb (is_empty (fq_Body rq)) then
    let enc := header_Get (fq_Header rq) "Content-Encoding" in
    match (if is_empty enc then Ok None
           else match GetDecompressedBody d (fq_Body rq) enc with
                | Err _ => Err (str "request body decompression error")
                | Ok (Failing _) => Err (str "schema version mismatch")
                | Ok (Data data) => Ok (Some data)
                | Ok NoBody => Ok (Some [])
                end) with
    | Err msg => log (LogError msg) ;;; RespondError 500 []
    | Ok unpacked =>
        match unpacked with Some data => set_type (mimetype_Detect data) | None => cmd_ret () end ;;;
        (set_type (mimetype_Detect (fq_Body rq)) ;;; before)
    end
  else before.
End MIME.

(** * ModSecurity *)

(** Coraza: a transaction is a state that the phases of the processing change.  The
    bodies of fasthttp are nil when their buffers were never used, and else may be
    empty without being nil: [request_body_nil] and [response_body_nil] tell. *)
Record Interruption := MkInterruption {
  it_RuleID : Z; it_Action : gostring; it_Status : Z; it_Data : gostring
}.
Class CorazaPkg := {
  tx : Type;
  IsRuleEngineOff : tx → bool;
  ProcessConnection : gostring → Z → tx → tx;
  ProcessURI : gostring → gostring → gostring → tx → tx;
  AddRequestHeader : gostring → gostring → tx → tx;
  SetServerName : gostring → tx → tx;
  ProcessRequestHeaders : tx → tx * option Interruption;
  IsRequestBodyAccessible : tx → bool;
  ReadRequestBodyFrom : gostring → tx → tx * result gostring (option Interruption);
  ProcessRequestBody : tx → tx * result gostring (option Interruption);
  AddResponseHeader : gostring → gostring → tx → tx;
  ProcessResponseHeaders : Z → gostring → tx → tx * option Interruption;
  IsResponseBodyAccessible : tx → bool;
  IsResponseBodyProcessable : tx → bool;
  ReadResponseBodyFrom : gostring → tx → tx * result gostring (option Interruption);
  ProcessResponseBody : tx → tx * result gostring (option Interruption);
  request_body_nil : freq → bool;
  response_body_nil : fresp → bool
}.

Section ModSec.
Context `{CorazaPkg}.
(** fasthttp: the text of a request URI, and an URI resolved against it. *)
Variables (uri_String : freq → gostring) (uri_resolve : freq → gostring → gostring).

Record ModSecurityOptions := MkModSec {
  ms_Mode : gostring;
  ms_WAF : option (reqctx → tx);
  ms_RequestValidation : gostring;
  ms_ResponseValidation : gostring;
  ms_CustomBlockStatusCode : Z
}.

(** All the values of a header, as [VisitAll] gives them. *)
Definition add_headers (add : gostring → gostring → tx → tx) (h : http_Header) (t : tx) : tx :=
  fold_left (λ t kv, fold_left (λ t v, add kv.1 v t) kv.2 t) (map_to_list h) t.

Definition processRequest (x : reqctx) (t : tx) : tx * result gostring (option Interruption) :=
  let rq := cx_Request x in
  match SplitHostPort (cx_RemoteAddr x) with
  | Err e => (t, Err e)
  | Ok (client, cportStr) =>
      let cport := match atoi cportStr with Ok n => n | Err _ => 0%Z end in
      let t := ProcessConnection client cport t in
      let t := ProcessURI (uri_String rq) (fq_Method rq) (fq_Protocol rq) t in
      let t := add_headers AddRequestHeader (fq_Header rq) t in
      let t := match fq_HeaderHost rq with
               | [] => t
               | host => SetServerName host (AddRequestHeader "Host" host t)
               end in
      let t := match Header_Peek "Transfer-Encoding" (fq_Header rq) with
               | Some te => AddRequestHeader "Transfer-Encoding" te t
               | None => t
               end in
      let '(t, it) := ProcessRequestHeaders t in
      match it with
      | Some i => (t, Ok (Some i))
      | None =>
          let '(t, r) :=
            if IsRequestBodyAccessible t && negb (request_body_nil rq)
            then ReadRequestBodyFrom (fq_Body rq) t else (t, Ok None) in
          match r with
          | Err e => (t, Err (str "failed to append request body: " ++ e))
          | Ok (Some i) => (t, Ok (Some i))
          | Ok None => ProcessRequestBody t
          end
      end
  end.

(** [ctx.Redirect]: only the redirecting status codes are kept. *)
Definition Redirect (uri : gostring) (statusCode : Z) : Cmd unit :=
  rq <-- cmd_get cx_Request ;;
  cmd_modify (upd_Response (λ r,
    set_fp_Status (if existsb (Z.eqb statusCode) [301; 302; 303; 307; 308]%Z then statusCode else 302)
      (upd_fp_Header (Header_Set "Location" (uri_resolve rq uri)) r))).

(** The content length the code sets to 0 is that of the body when the response
    is written. *)
Definition performResponseAction (it : Interruption) (blockStatusCode : Z) : Handler :=
  if (it_Action it =?s "deny") || (it_Action it =?s "drop") then
    RespondError (if (it_Status it =? 0)%Z then blockStatusCode else it_Status it) []
  else if it_Action it =?s "redirect" then
    Redirect (it_Data it) (it_Status it) ;;; cmd_ret None
  else cmd_ret None.

(** Results of the validation in API mode are user values named by the schema. *)
Definition APIModePostfixStatusCode : gostring := "_status_code".
Definition APIModePostfixValidationErrors : gostring := "_validation_errors".

Definition respondAPIModeErrors (code message : gostring) : Handler :=
  v <-- UserValue RequestSchemaID ;;
  match v with
  | Some (UStr schemaID) =>
      match atoi schemaID with
      | Ok id =>
          SetUserValue (schemaID ++ APIModePostfixValidationErrors)
            (UErrors [MkValidationError message code [] (Some id) [] []]) ;;;
          (SetUserValue (schemaID ++ APIModePostfixStatusCode) (UInt 403) ;;;
           cmd_ret None)
      | Err _ =>
          SetUserValue GlobalResponseStatusCodeKey (UInt 500) ;;;
          cmd_ret (Some (HError (str "strconv.Atoi: parsing")))
      end
  | _ =>
      SetUserValue GlobalResponseStatusCodeKey (UInt 500) ;;;
      cmd_ret (Some (HError "request schema ID not found in the request"))
  end.

(** An error of [respondAPIModeErrors] is logged, and the request is answered. *)
Definition refuse_api_mode (code message : gostring) : Handler :=
  err <-- respondAPIModeErrors code message ;;
  match err with
  | Some _ => log (LogError "failed to process request") ;;; cmd_ret None
  | None => cmd_ret None
  end.

(** What the middleware answers instead of calling the next handler, if it
    refuses the request. *)
Definition request_verdict (o : ModSecurityOptions) (r : result gostring (option Interruption))
  : option Handler :=
  match r with
  | Err e =>
      if ms_Mode o =?s APIMode then
        Some (refuse_api_mode "ModSecurity rules: failed to process request" e)
      else if equal_fold (ms_RequestValidation o) ValidationBlock then Some (cmd_ret (Some (HError e)))
      else None
  | Ok (Some it) =>
      if ms_Mode o =?s APIMode then
        Some (refuse_api_mode "malicious request"
                (str "ModSecurity rules: request blocked due to rule " ++ itoa (it_RuleID it)))
      else if equal_fold (ms_RequestValidation o) ValidationBlock
      then Some (performResponseAction it (ms_CustomBlockStatusCode o))
      else None
  | Ok None => None
  end.

(** The phases of the response: an interruption counts in block mode. *)
Definition response_phases (o : ModSecurityOptions) (x : reqctx) (t : tx) : Handler :=
  let rp := cx_Response x in
  let block := equal_fold (ms_ResponseValidation o) ValidationBlock in
  let action it := performResponseAction it (ms_CustomBlockStatusCode o) in
  let t := add_headers AddResponseHeader (response_headers_seen rp) t in
  let '(t, it) := ProcessResponseHeaders (fp_Status rp) (fq_Protocol (cx_Request x)) t in
  match it, block with
  | Some i, true => action i
  | _, _ =>
      if IsResponseBodyAccessible t && IsResponseBodyProcessable t then
        let '(t, r) :=
          if response_body_nil rp then (t, Ok None) else ReadResponseBodyFrom (fp_Body rp) t in
        match r, block with
        | Err e, _ => cmd_ret (Some (HError (str "failed to append request body: " ++ e)))
        | Ok (Some i), true => action i
        | Ok _, _ =>
            match (ProcessResponseBody t).2, block with
            | Err e, true => cmd_ret (Some (HError e))
            | Ok (Some i), true => action i
            | _, _ => cmd_ret None
            end
        end
      else cmd_ret None
  end.

Definition WAFModSecurity (o : ModSecurityOptions) : Middleware := λ before,
  match ms_WAF o with
  | None => before
  | Some newTX =>
      x <-- cmd_get (λ x, x) ;;
      let t := newTX x in
      if IsRuleEngineOff t then cmd_ret None
      else
        let '(t, verdict) :=
          if equal_fold (ms_RequestValidation o) ValidationDisable then (t, None)
          else let '(t, r) := processRequest x t in (t, request_verdict o r) in
        match verdict with
        | Some answer => answer
        | None =>
            err <-- before ;;
            match err with
            | Some e => cmd_ret (Some e)
            | None =>
                if ms_Mode o =?s APIMode then cmd_ret None
                else if equal_fold (ms_ResponseValidation o) ValidationDisable then cmd_ret None
                else x <-- cmd_get (λ x, x) ;; response_phases o x t
            end
        end
  end.
End ModSec.
