(* ===== verification/MidSpec.v ===== *)
(** The middlewares: what they forward, and when they call the next handler. *)
From S2P Require Import Prelude Cmd GoStrings RouterTree Values URLValues BodyDecoder Validate APIErrors APIMode NetIP AccessLists AccessListsSpec Web Mid.

(** * Frames of the basic operations *)

Section Frames.
Context {B : Type}.

Lemma keeps_user (f : reqctx → B) k v : (∀ g x, f (upd_User g x) = f x) → keeps f (SetUserValue k v).
Proof. intros Hf. apply keeps_modify. auto. Qed.
Lemma keeps_log (f : reqctx → B) e : (∀ g x, f (upd_Log g x) = f x) → keeps f (log e).
Proof. intros Hf. apply keeps_modify. auto. Qed.
Lemma keeps_RespondError (f : reqctx → B) st h :
  (∀ g x, f (upd_Response g x) = f x) → keeps f (RespondError st h).
Proof.
  intros Hf. unfold RespondError, ctx_Error. apply keeps_bind; [by apply keeps_modify; auto|].
  intros _. apply keeps_bind; [destruct h|]; auto using keeps_ret, keeps_modify.
Qed.
Lemma keeps_flag (f : reqctx → B) k : keeps f (flag k).
Proof. unfold flag, UserValue. solve_keeps. Qed.
End Frames.

(** The requests that were sent: what does not forward does not change them. *)
Lemma sent_user g x : cx_Sent (upd_User g x) = cx_Sent x. Proof. by destruct x. Qed.
Lemma sent_log g x : cx_Sent (upd_Log g x) = cx_Sent x. Proof. by destruct x. Qed.
Lemma sent_response g x : cx_Sent (upd_Response g x) = cx_Sent x. Proof. by destruct x. Qed.
Lemma sent_request g x : cx_Sent (upd_Request g x) = cx_Sent x. Proof. by destruct x. Qed.
Lemma sent_signals g x : cx_Sent (upd_Signals g x) = cx_Sent x. Proof. by destruct x. Qed.
Lemma resp_log g x : cx_Response (upd_Log g x) = cx_Response x. Proof. by destruct x. Qed.
Lemma resp_user g x : cx_Response (upd_User g x) = cx_Response x. Proof. by destruct x. Qed.
#[export] Hint Resolve sent_user sent_log sent_response sent_request sent_signals resp_log resp_user : apifw.

Lemma keeps_modify_hint {B} (f : reqctx → B) g : (∀ x, f (g x) = f x) → keeps f (cmd_modify g).
Proof. apply keeps_modify. Qed.
#[export] Hint Resolve keeps_modify_hint keeps_user keeps_log keeps_RespondError keeps_flag : apifw.

(** The response after [RespondError]. *)
Definition error_response (st : Z) (h : gostring) : fresp :=
  MkFresp st
    (match h with
     | [] => {[ str "Content-Type" := [defaultContentType] ]}
     | _ => Header_Add {[ str "Content-Type" := [defaultContentType] ]} ValidationStatus h
     end) [].

Lemma RespondError_run st h x :
  RespondError st h x = (upd_Response (λ _, error_response st h) x, Ret None).
Proof. destruct x, h; reflexivity. Qed.

(** * Middlewares in order *)

Definition apply_mw (m : option Middleware) (h : Handler) : Handler :=
  match m with Some m => m h | None => h end.

(** The first middleware is the outermost one; nil ones are skipped. *)
Lemma WrapMiddleware_foldr mw h : WrapMiddleware mw h = foldr apply_mw h mw.
Proof.
  unfold WrapMiddleware.
  assert (∀ i h, i ≤ length mw → wrap_loop mw i h = foldr apply_mw h (take i mw)) as Hloop.
  { induction i as [|i IH]; intros h' Hi; [done|]. cbn [wrap_loop]. rewrite IH by lia.
    destruct (lookup_lt_is_Some_2 mw i ltac:(lia)) as [m Hm].
    rewrite (take_S_r _ _ _ Hm), foldr_app. rewrite Hm. by destruct m. }
  rewrite Hloop by lia. by rewrite firstn_all.
Qed.

(** * What a middleware forwards *)

(** [c] sends to the backend what [h] sends in a context related to the initial
    one by [R], or nothing. *)
Definition reaches (c h : Handler) (R : reqctx → reqctx → Prop) : Prop :=
  ∀ x, cx_Sent (c x).1 = cx_Sent x
       ∨ ∃ x1, R x x1 ∧ cx_Sent x1 = cx_Sent x ∧ cx_Sent (c x).1 = cx_Sent (h x1).1.

Lemma reaches_trans c h k R R' :
  reaches c h R → reaches h k R' → reaches c k (λ x y, ∃ z, R x z ∧ R' z y).
Proof.
  intros H1 H2 x. destruct (H1 x) as [|(z & HR & Hz & Hc)]; [by left|].
  destruct (H2 z) as [Hn|(y & HR' & Hy & Hh)]; [left; congruence|].
  right. exists y. split; [eauto|]. split; congruence.
Qed.

(** Nothing is sent before [h], nor after it. *)
Lemma reaches_after (c : Handler) (k : option herr → Handler) :
  (∀ a, keeps cx_Sent (k a)) → reaches (cmd_bind c k) c eq.
Proof.
  intros Hk x. right. exists x. split; [done|]. split; [done|].
  unfold cmd_bind. destruct (c x) as [x' [a|]]; [apply Hk|done].
Qed.
Lemma reaches_refl c : reaches c c eq.
Proof. intros x. right. by exists x. Qed.
Lemma reaches_none (c h : Handler) R : keeps cx_Sent c → reaches c h R.
Proof. intros Hc x. left. apply Hc. Qed.

Lemma reaches_Errors h : reaches (Errors h) h eq.
Proof. apply reaches_after. intros a. solve_keeps. Qed.

Lemma reaches_Panics h : reaches (Panics h) h eq.
Proof.
  intros x. right. exists x. split; [done|]. split; [done|].
  unfold Panics, cmd_recover. by destruct (h x) as [x' [a|]].
Qed.

Lemma keeps_sent_trace trace : keeps cx_Sent (LogRequestResponseAtTraceLevel trace).
Proof. unfold LogRequestResponseAtTraceLevel, UserValue. solve_keeps. Qed.
#[export] Hint Resolve keeps_sent_trace : apifw.

Lemma reaches_Logger trace h : reaches (Logger trace h) h eq.
Proof. apply reaches_after. intros a. solve_keeps. Qed.

Lemma reaches_Shadow excl h : reaches (ShadowAPIMonitor excl h) h eq.
Proof. apply reaches_after. intros a. solve_keeps. Qed.

(** ** The changes of the request *)

Definition proxied_header (cu : http_Header → bool) (o : ProxyOptions) (uuid ip : gostring)
    (h : http_Header) : http_Header :=
  let h := delete_hop cu (po_Mode o) h in
  let h := if equal_fold (po_RequestValidation o) ValidationBlock
           then Header_Add h apifwHeaderName uuid else h in
  let h := Header_Set "X-Forwarded-For"
             (match Header_Peek "X-Forwarded-For" h with Some v => v ++ ", " ++ ip | None => ip end) h in
  if po_DeleteAcceptEncoding o then Header_Del "Accept-Encoding" h else h.

(** The request with the scheme and the host of the server and the new headers. *)
Definition proxied (cu : http_Header → bool) (o : ProxyOptions) (uuid ip : gostring) (r : freq) : freq :=
  upd_fq_Header (proxied_header cu o uuid ip) (set_fq_URIHost (po_Host o) (set_fq_Scheme (po_Scheme o) r)).

Lemma proxy_request_run cu o x :
  match cx_User x !! RequestID with
  | Some (UStr uuid) => proxy_request cu o x = (upd_Request (proxied cu o uuid (RemoteIP x)) x, Ret ())
  | _ =>
      if equal_fold (po_RequestValidation o) ValidationBlock
      then ∃ f, proxy_request cu o x = (upd_Request f x, Panic)
      else proxy_request cu o x = (upd_Request (proxied cu o [] (RemoteIP x)) x, Ret ())
  end.
Proof.
  assert (∀ f g y, upd_Request f (upd_Request g y) = upd_Request (λ r, f (g r)) y) as Hcomp by (by intros ? ? []).
  assert (∀ f y, RemoteIP (upd_Request f y) = RemoteIP y) as Hip by (by intros ? []).
  assert (∀ f y, cx_User (upd_Request f y) = cx_User y) as Hus by (by intros ? []).
  assert (∀ f y, (∀ r, f r = proxied cu o y (RemoteIP x) r) →
    upd_Request f x = upd_Request (proxied cu o y (RemoteIP x)) x) as Hext.
  { intros f y Hf. destruct x; unfold upd_Request. by rewrite Hf. }
  unfold proxy_request, upd_request_header, UserValue, cmd_get, cmd_modify, cmd_ret, cmd_panic, cmd_bind.
  destruct (equal_fold (po_RequestValidation o) ValidationBlock) eqn:Eb;
    destruct (po_DeleteAcceptEncoding o) eqn:Ed; cbv beta iota; rewrite ?Hus, ?Hip, ?Hcomp;
    destruct (cx_User x !! RequestID) as [[]|]; rewrite ?Hus, ?Hip, ?Hcomp; eauto;
    (f_equal; apply Hext; intros []; unfold proxied, proxied_header; rewrite Eb, Ed; reflexivity).
Qed.

Lemma reaches_Proxy cu o h :
  reaches (Proxy cu o h) h
    (λ x x1, ∃ uuid, (equal_fold (po_RequestValidation o) ValidationBlock = true →
                        cx_User x !! RequestID = Some (UStr uuid))
             ∧ x1 = upd_Request (proxied cu o uuid (RemoteIP x)) x).
Proof.
  intros x. pose proof (proxy_request_run cu o x) as Hrun.
  assert ((∃ f, proxy_request cu o x = (upd_Request f x, Panic))
    ∨ ∃ uuid, (equal_fold (po_RequestValidation o) ValidationBlock = true → cx_User x !! RequestID = Some (UStr uuid))
       ∧ proxy_request cu o x = (upd_Request (proxied cu o uuid (RemoteIP x)) x, Ret ())) as [[f Hp]|(uuid & Hid & Hp)].
  { destruct (cx_User x !! RequestID) as [[]|] eqn:Hu, (equal_fold _ _) eqn:Eb; eauto;
      right; exists []; by split. }
  - left. unfold Proxy, cmd_bind. rewrite Hp. simpl. apply sent_request.
  - right. eexists. split; [by exists uuid|]. split; [apply sent_request|].
    unfold Proxy. rewrite (bind_run _ _ _ _ _ Hp). unfold cmd_bind, cmd_modify, cmd_ret.
    destruct (h _) as [x2 [err|]]; simpl; [apply sent_response|done].
Qed.

(** ** Access lists *)

Section Access.
Context `{CachePkg} (graphql_error : gostring → gostring).

(** The address of the request is in the list, if there is one. *)
Definition ip_allowed (o : IPAllowListOptions) (x : reqctx) : Prop :=
  match ia_AllowedIPs o with
  | Some en =>
      (0 < en_ElementsNum en)%Z →
      ∃ ip, ParseIP (ip_to_check o x) = Some ip ∧ cache_Get (IP_String ip) (en_Cache en) = true
  | None => True
  end.

(** With a list that was read from a file with an address, the address of the request
    is one of the file. *)
Lemma ip_allowed_file os_Open File o x data :
  AllowIP_New os_Open File = Ret (Ok (ia_AllowedIPs o)) → File ≠ [] → os_Open File = Ok data →
  concat (map line_ips (scan data).1) ≠ [] → ip_allowed o x →
  ∃ ip line, ParseIP (ip_to_check o x) = Some ip ∧ line ∈ (scan data).1 ∧ IP_String ip ∈ line_ips line.
Proof.
  intros Ha Hne Hdata Haddr. unfold ip_allowed.
  destruct (ia_AllowedIPs o) as [en|]; [|by apply AllowIP_New_None in Ha]. intros Hip.
  destruct (AllowIP_New_num _ _ _ Ha) as (data' & Hd' & Hnum). rewrite Hdata in Hd'. injection Hd' as <-.
  destruct Hip as (ip & Hparse & Hget); [rewrite Hnum; by destruct (concat _)|].
  destruct (AllowIP_New_Get _ _ _ _ Ha Hget) as (data' & line & Hd' & Hline & Hin).
  rewrite Hdata in Hd'. injection Hd' as <-. by exists ip, line.
Qed.

(** No token of the request is denied. *)
Definition token_allowed (o : DenylistOptions) (x : reqctx) : Prop :=
  match dl_DeniedTokens o with
  | Some en =>
      (0 < en_ElementsNum en)%Z →
      (dl_CookieName o ≠ [] → cache_Get (cookie_token o x) (en_Cache en) = false)
      ∧ (dl_HeaderName o ≠ [] → cache_Get (header_token o x) (en_Cache en) = false)
  | None => True
  end.

Lemma keeps_refuse_ip {B} (f : reqctx → B) o :
  (∀ g x, f (upd_User g x) = f x) → (∀ g x, f (upd_Response g x) = f x) →
  keeps f (refuse_ip graphql_error o).
Proof. intros Hu Hr. unfold refuse_ip, set_status, RespondGraphQLErrors, SetUserValue. solve_keeps. Qed.

Lemma keeps_refuse_token {B} (f : reqctx → B) o :
  (∀ g x, f (upd_Log g x) = f x) → (∀ g x, f (upd_Response g x) = f x) →
  keeps f (refuse_token graphql_error o).
Proof. intros Hu Hr. unfold refuse_token, set_status, RespondGraphQLErrors, log. solve_keeps. Qed.

(** The allow list: the next handler runs, in the same context, or it does not
    and nothing is sent. *)
Lemma IPAllowlist_cases o (h : Handler) x :
  (ip_allowed o x ∧ IPAllowlist graphql_error o h x = h x)
  ∨ (¬ ip_allowed o x ∧ ∃ l, IPAllowlist graphql_error o h x
                             = refuse_ip graphql_error o (upd_Log (λ l0, l0 ++ l) x)).
Proof.
  unfold ip_allowed, IPAllowlist. destruct (ia_AllowedIPs o) as [en|]; [|by left].
  destruct (0 <? en_ElementsNum en)%Z eqn:E; [apply Z.ltb_lt in E|apply Z.ltb_ge in E; left; split; [lia|done]].
  rewrite bind_get. cbv zeta.
  set (b := is_empty (ia_HeaderName o) && bool_decide (cx_RemoteIP x = None)).
  destruct (ParseIP (ip_to_check o x)) as [ip|] eqn:Hip.
  - assert (b = false) as ->.
    { subst b. destruct (is_empty (ia_HeaderName o)) eqn:Ee; [|done].
      destruct (cx_RemoteIP x) eqn:Er; [done|]. exfalso.
      unfold ip_to_check in Hip. rewrite Ee, Er in Hip. by vm_compute in Hip. }
    rewrite bind_ret.
    destruct (cache_Get (IP_String ip) (en_Cache en)) eqn:Hc; [left; eauto|right].
    split; [intros Ha; destruct (Ha E) as (? & [= <-] & ?); congruence|].
    eexists. unfold log. by rewrite bind_modify.
  - right. split; [intros Ha; by destruct (Ha E) as (? & ? & ?)|].
    assert (∀ l l', upd_Log (λ l0, l0 ++ l') (upd_Log (λ l0, l0 ++ l) x) = upd_Log (λ l0, l0 ++ l ++ l') x)
      as Hlog by (intros; destruct x; simpl; by rewrite <- app_assoc).
    unfold log. destruct b; rewrite ?bind_modify, ?bind_ret, ?bind_modify, ?Hlog; by eexists.
Qed.

Lemma reaches_IPAllowlist o h :
  reaches (IPAllowlist graphql_error o h) h (λ x x1, x1 = x ∧ ip_allowed o x).
Proof.
  intros x. destruct (IPAllowlist_cases o h x) as [[Ha ->]|[_ [l ->]]].
  - right. by exists x.
  - left. rewrite keeps_refuse_ip by auto with apifw. apply sent_log.
Qed.

(** The deny list. *)
Lemma Denylist_cases o (h : Handler) x :
  (token_allowed o x ∧ Denylist graphql_error o h x = h x)
  ∨ (¬ token_allowed o x ∧ Denylist graphql_error o h x = refuse_token graphql_error o x).
Proof.
  unfold token_allowed, Denylist. destruct (dl_DeniedTokens o) as [en|]; [|by left].
  destruct (0 <? en_ElementsNum en)%Z eqn:E; [apply Z.ltb_lt in E|apply Z.ltb_ge in E; left; split; [lia|done]].
  rewrite bind_get.
  destruct (dl_CookieName o) as [|c cn] eqn:Ec;
    [|destruct (cache_Get (cookie_token o x) (en_Cache en)) eqn:Hc]; cbn [is_empty negb andb].
  2: { right. split; [|done]. intros Ha. destruct (Ha E) as [Ha' _]. by specialize (Ha' ltac:(done)). }
  all: rewrite bind_get;
    destruct (dl_HeaderName o) as [|d dn] eqn:Ed;
    [|destruct (cache_Get (header_token o x) (en_Cache en)) eqn:Hd]; cbn [is_empty negb andb];
    first [left; split; [by intros _; split|done]
          |right; split; [|done]; intros Ha; destruct (Ha E) as [_ Ha']; by specialize (Ha' ltac:(done))].
Qed.

Lemma reaches_Denylist o h :
  reaches (Denylist graphql_error o h) h (λ x x1, x1 = x ∧ token_allowed o x).
Proof.
  intros x. destruct (Denylist_cases o h x) as [[Ha ->]|[_ ->]].
  - right. by exists x.
  - left. apply keeps_refuse_token; auto with apifw.
Qed.
End Access.

(** ** ModSecurity *)

Section ModSec.
Context `{CorazaPkg} (uri_String : freq → gostring) (uri_resolve : freq → gostring → gostring).

(** The rules let the request pass. *)
Definition waf_passes (o : ModSecurityOptions) (x : reqctx) : Prop :=
  match ms_WAF o with
  | None => True
  | Some newTX =>
      IsRuleEngineOff (newTX x) = false
      ∧ (equal_fold (ms_RequestValidation o) ValidationDisable = false →
         request_verdict uri_resolve o (processRequest uri_String x (newTX x)).2 = None)
  end.

Lemma keeps_sent_action it code : keeps cx_Sent (performResponseAction uri_resolve it code).
Proof. unfold performResponseAction, Redirect. solve_keeps. Qed.

Lemma keeps_sent_verdict o r answer :
  request_verdict uri_resolve o r = Some answer → keeps cx_Sent answer.
Proof.
  unfold request_verdict, refuse_api_mode, respondAPIModeErrors, UserValue.
  repeat case_match; intros [= <-]; auto using keeps_sent_action; solve_keeps.
Qed.

Lemma keeps_sent_phases o x t : keeps cx_Sent (response_phases uri_resolve o x t).
Proof. unfold response_phases. repeat case_match; auto using keeps_sent_action; solve_keeps. Qed.

Lemma reaches_WAF o h :
  reaches (WAFModSecurity uri_String uri_resolve o h) h (λ x x1, x1 = x ∧ waf_passes o x).
Proof.
  intros x. unfold WAFModSecurity, waf_passes. destruct (ms_WAF o) as [newTX|]; [|right; by exists x].
  rewrite bind_get. cbv zeta.
  destruct (IsRuleEngineOff (newTX x)) eqn:Eoff; [by left|].
  match goal with |- context [let '(_, _) := ?p in _] => destruct p as [t [answer|]] eqn:Ev end.
  - left. destruct (equal_fold _ _); [done|]. destruct (processRequest _ _ _) as [t' r].
    injection Ev as <- Ev. by apply (keeps_sent_verdict o r).
  - right. exists x. split; [split; [done|]|split; [done|]].
    + split; [done|]. intros Ed. rewrite Ed in Ev. destruct (processRequest _ _ _) as [t' r].
      by injection Ev.
    + unfold cmd_bind. destruct (h x) as [x' [[e|]|]]; try done.
      repeat case_match; try done; unfold cmd_get in *; simplify_eq; apply keeps_sent_phases.
Qed.
End ModSec.

(** * Errors *)

(** [Errors] around [Panics]: whatever the handler does, the two return; a panic
    or an error is answered with status 500 and an empty body, and only a
    request to shut down is passed on. *)
Lemma Errors_Panics_run (h : Handler) x :
  Errors (Panics h) x =
  match h x with
  | (x', Ret None) => (x', Ret None)
  | (x', Ret (Some (HShutdown m))) =>
      (upd_Response (λ _, error_response 500 []) (upd_Log (λ l, l ++ [LogError "common error"]) x'),
       Ret (Some (HShutdown m)))
  | (x', _) =>
      (upd_Response (λ _, error_response 500 []) (upd_Log (λ l, l ++ [LogError "common error"]) x'), Ret None)
  end.
Proof.
  unfold Errors, Panics, cmd_recover, cmd_bind, log, cmd_modify, cmd_ret.
  destruct (h x) as [x' [[[]|]|]]; rewrite ?RespondError_run; done.
Qed.

(** * Properties *)

Section Properties.
Context `{CachePkg} (graphql_error : gostring → gostring).

(** C23: the allow list, from its file to a request.  Loading a file does not
    panic.  With the list it gives, the next handler runs only for a request whose
    address, normalised, is the text of an address that a line of the file stands
    for, and every other request is refused without calling it; but a file without a
    single address lets every request pass. *)
Theorem allow_list_enforced os_Open File o (h : Handler) x :
  ∃ r, AllowIP_New os_Open File = Ret r ∧
  ∀ en, r = Ok (Some en) → ia_AllowedIPs o = Some en →
  ∃ data, os_Open File = Ok data ∧
  if bool_decide (concat (map line_ips (scan data).1) = []) then IPAllowlist graphql_error o h x = h x
  else
    (∃ line ip, line ∈ (scan data).1 ∧ ParseIP (ip_to_check o x) = Some ip ∧ IP_String ip ∈ line_ips line
       ∧ IPAllowlist graphql_error o h x = h x)
    ∨ (∃ l, IPAllowlist graphql_error o h x = refuse_ip graphql_error o (upd_Log (λ l0, l0 ++ l) x)).
Proof.
  destruct (AllowIP_New_total os_Open File) as [r Hr]. rewrite Hr. exists r. split; [done|].
  intros en -> Hen. destruct (AllowIP_New_num _ _ _ Hr) as (data & Hd & Hnum). exists data. split; [done|].
  destruct (IPAllowlist_cases graphql_error o h x) as [[Ha Hrun]|[Hna Hrun]].
  - case_bool_decide as Hemp; [done|]. left. unfold ip_allowed in Ha. rewrite Hen in Ha.
    destruct Ha as (ip & Hip & Hget); [rewrite Hnum; by destruct (concat _)|].
    destruct (AllowIP_New_Get _ _ _ _ Hr Hget) as (data' & line & Hd' & ? & ?).
    rewrite Hd in Hd'. injection Hd' as <-. by exists line, ip.
  - case_bool_decide as Hemp; [|by right]. exfalso. apply Hna. unfold ip_allowed. by rewrite Hen, Hnum, Hemp.
Qed.
End Properties.

(** With the rule engine off the next handler does not run. *)
Lemma waf_engine_off `{CorazaPkg} uri_String uri_resolve o newTX (h : Handler) x :
  ms_WAF o = Some newTX → IsRuleEngineOff (newTX x) = true →
  WAFModSecurity uri_String uri_resolve o h x = (x, Ret None).
Proof. intros Hw Ho. unfold WAFModSecurity. rewrite Hw, bind_get. cbv zeta. by rewrite Ho. Qed.

(** The type of a compressed body is that of its compressed bytes. *)
Lemma mime_of_compressed dec detect (h : Handler) x data :
  header_Get (fq_Header (cx_Request x)) "Content-Type" = [] → fq_Body (cx_Request x) ≠ [] →
  header_Get (fq_Header (cx_Request x)) "Content-Encoding" ≠ [] →
  GetDecompressedBody dec (fq_Body (cx_Request x)) (header_Get (fq_Header (cx_Request x)) "Content-Encoding")
  = Ok (Data data) →
  MIMETypeIdentifier dec detect h x
  = h (upd_Request (upd_fq_Header (Header_Set "Content-Type" (detect (fq_Body (cx_Request x))))) x).
Proof.
  intros Hct Hb He Hd. unfold MIMETypeIdentifier. rewrite bind_get. cbv zeta. rewrite Hct, Hd.
  destruct (fq_Body (cx_Request x)) as [|c b] eqn:Eb; [done|].
  destruct (header_Get _ "Content-Encoding") as [|c' e]; [done|].
  cbn [is_empty negb andb]. rewrite !bind_modify. f_equal. destruct x as [[] ? ? ? ? ? ? ?]. simpl.
  unfold Header_Set. by rewrite insert_insert_eq.
Qed.

(** * A concrete cache *)

(** A set of keys; no counters is an error. *)
Definition set_cache : CachePkg.
Proof.
  refine {|
    cache := list gostring;
    NewCache n m := if (n =? 0)%Z then Err (str "NumCounters can't be zero") else Ok [];
    cache_Set k cost c := (k :: c, true);
    cache_Get k c := existsb (eqb_str k) c
  |}.
  - intros n m c k. by destruct (n =? 0)%Z; intros [= <-].
  - intros k cost c k'. simpl. intros [?%eqb_str_true|?]%orb_prop; auto.
Defined.

(** A line of blanks in the file of denied tokens denies every request that has
    no token. *)
Definition blank_file : gostring := str "secret" ++ ["010"%char; " "%char; "010"%char].
Definition cookie_options (en : option (@entries set_cache)) : DenylistOptions :=
  MkDenylist ProxyMode "session" [] false 403 en.
Definition plain_request : freq :=
  MkFreq "GET" "http" "localhost" "localhost" "/pets/1" [] "HTTP/1.1" ∅ [] [].
Definition plain_ctx : reqctx :=
  MkCtx plain_request (MkFresp 200 ∅ []) ∅ "10.0.0.1:4242" (Some (str "10.0.0.1")) [] [] 0.

Lemma blank_line_denies :
  match @Denylist_New set_cache (λ _, Ok blank_file) "denied.txt" with
  | Ret (Ok en) =>
      fp_Status (cx_Response (Denylist (λ e, e) (cookie_options en) (cmd_ret None) plain_ctx).1) = 403%Z
  | _ => False
  end.
Proof. vm_compute. reflexivity. Qed.

Definition ip_file : gostring := str "10.0.0.0/29" ++ ["010"%char] ++ str "2001:db8::1".
Definition header_options (en : option (@entries set_cache)) : IPAllowListOptions :=
  MkIPAllow ProxyMode [] 403 en.

Lemma allow_list_enforced_witness :
  ∃ en : @entries set_cache, @AllowIP_New set_cache (λ _, Ok ip_file) "allowed.txt" = Ret (Ok (Some en))
  ∧ ((∃ line ip, line ∈ (scan ip_file).1
        ∧ ParseIP (ip_to_check (header_options (Some en)) plain_ctx) = Some ip ∧ IP_String ip ∈ line_ips line)
     ∨ (∃ l, IPAllowlist (λ e, e) (header_options (Some en)) (cmd_ret None) plain_ctx
             = refuse_ip (λ e, e) (header_options (Some en)) (upd_Log (λ l0, l0 ++ l) plain_ctx))).
Proof.
  pose (r := @AllowIP_New set_cache (λ _, Ok ip_file) "allowed.txt").
  assert (∃ en, r = Ret (Ok (Some en))) as [en Hr] by (eexists; vm_compute; reflexivity).
  exists en. split; [exact Hr|].
  destruct (@allow_list_enforced set_cache (λ e, e) (λ _, Ok ip_file) "allowed.txt"
              (header_options (Some en)) (cmd_ret None) plain_ctx) as (r' & Hr' & Hall).
  assert (r' = Ok (Some en)) as -> by (unfold r in Hr; congruence).
  destruct (Hall en eq_refl eq_refl) as (data & Hd & Hcase). assert (data = ip_file) as -> by congruence.
  assert (bool_decide (concat (map line_ips (scan ip_file).1) = []) = false) as Hne by (vm_compute; reflexivity).
  rewrite Hne in Hcase.
  destruct Hcase as [(line & ip & Hl & Hp & Hi & _)|Hd']; [left|right; exact Hd'].
  exists line, ip. exact (conj Hl (conj Hp Hi)).
Defined.
