(* ===== verification/Adaptor.v ===== *)
(** The adaptor of handlers of net/http (internal/platform/web/adaptor.go), which
    serves the pages of the GraphQL playground: [NewFastHTTPHandler] and the writer of
    responses it gives to them.

    A handler of net/http is a library: what it does with its writer for a request is
    a list of operations.  The writer has a status and headers of its own; what is
    written goes to the body of the response at once. *)
From S2P Require Import Prelude Cmd GoStrings RouterPattern RouterTree RouterMux Values URLValues BodyDecoder APIErrors Web Mid MidSpec.

(** * The writer *)

(** [netHTTPResponseWriter] without the body; a nil header is an empty one. *)
Record netHTTPResponseWriter := MkWriter { nw_statusCode : Z; nw_h : http_Header }.
Definition new_writer : netHTTPResponseWriter := MkWriter 0 ∅.

Definition StatusCode (w : netHTTPResponseWriter) : Z :=
  if (nw_statusCode w =? 0)%Z then 200 else nw_statusCode w.

(** The operations: [WriteHeader], [Write], a change of the map that [Header] returns,
    and a panic of the handler. *)
Inductive writer_op :=
| WriteHeader (statusCode : Z)
| Write (p : gostring)
| EditHeader (f : http_Header → http_Header)
| HandlerPanic.

Fixpoint ServeHTTP (ops : list writer_op) (w : netHTTPResponseWriter) : Cmd netHTTPResponseWriter :=
  match ops with
  | [] => cmd_ret w
  | WriteHeader statusCode :: ops => ServeHTTP ops (MkWriter statusCode (nw_h w))
  | Write p :: ops => cmd_modify (upd_Response (upd_fp_Body (λ b, b ++ p))) ;;; ServeHTTP ops w
  | EditHeader f :: ops => ServeHTTP ops (MkWriter (nw_statusCode w) (f (nw_h w)))
  | HandlerPanic :: _ => cmd_panic
  end.

(** * The response *)

(** The headers that fasthttp manages itself: it parses, keeps once, or ignores what is
    added to them. *)
Definition managed : list gostring :=
  [str "Content-Type"; str "Content-Length"; str "Content-Encoding"; str "Connection"; str "Server";
   str "Set-Cookie"; str "Transfer-Encoding"; str "Trailer"; str "Date"].

(** net/http: [http.Request], with the conversion of a request of fasthttp
    (fasthttpadaptor), [http.DetectContentType], and the order in which the headers of
    a map are visited.  fasthttp: [ResponseHeader.Add], which appends to the values of a
    header that is not managed and overwrites the content type; nothing is assumed of
    the other managed headers. *)
Class NetHTTPPkg := {
  http_Request : Type;
  http_ConvertRequest : freq → result gostring http_Request;
  DetectContentType : gostring → gostring;
  range : http_Header → list (gostring * list gostring);
  range_all m : range m ≡ₚ map_to_list m;
  response_Add : http_Header → gostring → gostring → http_Header;
  response_Add_plain h k v j : CanonicalHeaderKey k = k → j ∉ managed →
    response_Add h k v !! j = if bool_decide (j = k) then Some (default [] (h !! j) ++ [v]) else h !! j;
  response_Add_type h k v : CanonicalHeaderKey k = k →
    response_Add h k v !! str "Content-Type" =
    if bool_decide (k = str "Content-Type") then Some [v] else h !! str "Content-Type"
}.
(** [http.Handler]. *)
Notation http_Handler := (http_Request → list writer_op).

Section Adaptor.
Context `{NetHTTPPkg}.

Definition add_values (h : http_Header) (kvv : gostring * list gostring) : http_Header :=
  fold_left (λ h v, response_Add h kvv.1 v) kvv.2 h.

(** The end of the handler: the headers of the writer, and the content type that the
    first bytes of the body tell when it has none. *)
Definition copy_headers (w : netHTTPResponseWriter) : Cmd unit :=
  let headers := range (nw_h w) in
  let haveContentType := existsb (λ kvv, kvv.1 =?s "Content-Type") headers in
  cmd_modify (upd_Response (upd_fp_Header (λ h, fold_left add_values headers h))) ;;;
  (if haveContentType then cmd_ret ()
   else cmd_modify (upd_Response (λ r,
          upd_fp_Header (Header_Set "Content-Type" (DetectContentType (take 512 (fp_Body r)))) r))).

(** The message that is logged is kept without its arguments. *)
Definition NewFastHTTPHandler (h : http_Handler) (isPlayground : bool) : Handler :=
  rq <-- cmd_get cx_Request ;;
  match http_ConvertRequest rq with
  | Err e =>
      log (LogInfo "cannot parse requestURI") ;;;
      (ctx_Error "Internal Server Error" 500 ;;; cmd_ret (Some (HError e)))
  | Ok r =>
      w <-- ServeHTTP (h r) new_writer ;;
      (cmd_modify (upd_Response (set_fp_Status (StatusCode w))) ;;;
       (copy_headers w ;;;
        ((if isPlayground then SetUserValue Playground UUnit else cmd_ret ()) ;;;
         cmd_ret None)))
  end.

(** * Properties *)

(** ** What the adaptor leaves alone *)

Lemma keeps_ServeHTTP {B} (f : reqctx → B) ops w :
  (∀ g x, f (upd_Response g x) = f x) → keeps f (ServeHTTP ops w).
Proof.
  intros Hf. revert w. induction ops as [|[] ops IH]; intros w; cbn [ServeHTTP]; auto using keeps_ret, keeps_panic.
  apply keeps_bind; [by apply keeps_modify|auto].
Qed.

(** The pages are served without a request to the backend. *)
Lemma adaptor_sent h isPlayground : keeps cx_Sent (NewFastHTTPHandler h isPlayground).
Proof.
  unfold NewFastHTTPHandler, copy_headers, ctx_Error, log, SetUserValue.
  apply keeps_bind; [apply keeps_get|]. intros rq. destruct (http_ConvertRequest rq) as [r|e].
  - apply keeps_bind; [by apply keeps_ServeHTTP; intros ? []|]. intros w.
    repeat first [apply keeps_bind; [|intros []] | apply keeps_ret
      | apply keeps_modify; by intros [] | apply keeps_if | case_match].
  - repeat first [apply keeps_bind; [|intros []] | apply keeps_ret | apply keeps_modify; by intros []].
Qed.

(** ** What is served *)

(** What a handler writes, and its writer after it. *)
Definition written (ops : list writer_op) : gostring :=
  concat (map (λ op, match op with Write p => p | _ => [] end) ops).
Definition apply_op (w : netHTTPResponseWriter) (op : writer_op) : netHTTPResponseWriter :=
  match op with
  | WriteHeader n => MkWriter n (nw_h w)
  | EditHeader f => MkWriter (nw_statusCode w) (f (nw_h w))
  | Write _ | HandlerPanic => w
  end.

Lemma ServeHTTP_run ops w x :
  HandlerPanic ∉ ops →
  ServeHTTP ops w x = (upd_Response (upd_fp_Body (λ b, b ++ written ops)) x, Ret (fold_left apply_op ops w)).
Proof.
  assert (∀ x, upd_Response (upd_fp_Body (λ b, b ++ [])) x = x) as Hnil
    by (intros [? [] ? ? ? ? ? ?]; simpl; by rewrite app_nil_r).
  revert w x. induction ops as [|op ops IH]; intros w x Hp; [by rewrite Hnil|].
  apply not_elem_of_cons in Hp as [Hop Hp].
  destruct op; cbn [ServeHTTP fold_left apply_op]; [by rewrite IH| |by rewrite IH|done].
  rewrite bind_modify, IH by done. f_equal. destruct x as [? [] ? ? ? ? ? ?]. simpl. by rewrite <- app_assoc.
Qed.

(** The values of a header after new ones are added to it. *)
Definition merged (j : gostring) (old : option (list gostring)) (vs : list gostring) : option (list gostring) :=
  match vs with
  | [] => old
  | _ => if j =?s "Content-Type" then (λ v, [v]) <$> last vs else Some (default [] old ++ vs)
  end.

Lemma merged_snoc j old vs v :
  merged j old (vs ++ [v]) =
  if j =?s "Content-Type" then Some [v] else Some (default [] (merged j old vs) ++ [v]).
Proof.
  unfold merged. rewrite last_snoc. destruct (j =?s "Content-Type"); destruct vs; simpl; try done.
  by rewrite <- app_assoc.
Qed.

(** The headers that are told: all but the ones that fasthttp manages, and the content
    type. *)
Definition told (j : gostring) : Prop := j ∉ managed ∨ j = str "Content-Type".

Lemma add_values_lookup h k vs j :
  CanonicalHeaderKey k = k → told j →
  add_values h (k, vs) !! j = if bool_decide (j = k) then merged k (h !! k) vs else h !! j.
Proof.
  intros Hk Hj. unfold add_values. cbn [fst snd].
  induction vs as [|v vs IH] using rev_ind; [by case_bool_decide; subst|].
  rewrite fold_left_app. cbn [fold_left]. set (h' := fold_left _ vs h) in *. destruct Hj as [Hj| ->].
  - rewrite response_Add_plain by done. case_bool_decide; [subst j|done]. rewrite merged_snoc, <- IH.
    destruct (k =?s "Content-Type") eqn:E; [|done]. apply eqb_str_true in E as ->.
    exfalso. apply Hj. left.
  - rewrite response_Add_type by done. rewrite (bool_decide_ext (k = _) (str "Content-Type" = k)) by done.
    case_bool_decide; [subst k|done]. by rewrite merged_snoc.
Qed.

Lemma add_all_lookup l h j :
  NoDup l.*1 → Forall (λ k, CanonicalHeaderKey k = k) l.*1 → told j →
  fold_left add_values l h !! j =
  match (list_to_map l : http_Header) !! j with Some vs => merged j (h !! j) vs | None => h !! j end.
Proof.
  revert h. induction l as [|[k vs] l IH]; intros h; [done|]. cbn [fmap list_fmap fst].
  intros [Hk Hnd]%NoDup_cons [Hc Hcs]%Forall_cons Ht. cbn [fold_left list_to_map foldr fst snd].
  rewrite IH, add_values_lookup by done. rewrite lookup_insert. case_bool_decide as Hj.
  - subst j. rewrite decide_True by done. by rewrite not_elem_of_list_to_map_1.
  - by rewrite decide_False.
Qed.

(** The header of the response: the values added to those that were there, and the
    content type. *)
Definition served_header (w : netHTTPResponseWriter) (body : gostring) (h : http_Header) (j : gostring)
  : option (list gostring) :=
  if bool_decide (j = str "Content-Type" ∧ nw_h w !! j = None) then Some [DetectContentType (take 512 body)]
  else match nw_h w !! j with Some vs => merged j (h !! j) vs | None => h !! j end.

Lemma copy_headers_run w x :
  Forall (λ k, CanonicalHeaderKey k = k) (map_to_list (nw_h w)).*1 →
  ∃ h, copy_headers w x = (upd_Response (upd_fp_Header (λ _, h)) x, Ret ())
    ∧ ∀ j, told j → h !! j = served_header w (fp_Body (cx_Response x)) (fp_Header (cx_Response x)) j.
Proof.
  intros Hc. pose proof (range_all (nw_h w)) as Hr. unfold copy_headers. rewrite bind_modify.
  set (h1 := fold_left add_values (range (nw_h w)) (fp_Header (cx_Response x))).
  assert (∀ j, told j → h1 !! j = match nw_h w !! j with
    Some vs => merged j (fp_Header (cx_Response x) !! j) vs | None => fp_Header (cx_Response x) !! j end) as Hh1.
  { intros j Ht. unfold h1. rewrite add_all_lookup; [|..|done].
    - rewrite (list_to_map_proper _ (map_to_list (nw_h w))), list_to_map_to_list; [done| |done].
      rewrite Hr. apply NoDup_fst_map_to_list.
    - rewrite Hr. apply NoDup_fst_map_to_list.
    - by rewrite Hr. }
  assert (existsb (λ kvv, kvv.1 =?s "Content-Type") (range (nw_h w)) = true
    ↔ is_Some (nw_h w !! str "Content-Type")) as He.
  { rewrite existsb_exists. split.
    - intros ([k vs] & Hin & Hk%eqb_str_true). simpl in Hk. subst k. exists vs.
      apply elem_of_map_to_list. rewrite <- Hr. by apply list_elem_of_In.
    - intros [vs Hvs]. exists (str "Content-Type", vs). split; [|by apply eqb_str_true].
      apply list_elem_of_In. rewrite Hr. by apply elem_of_map_to_list. }
  unfold served_header. destruct (existsb _ _).
  - exists h1. split; [by destruct x as [? [] ? ? ? ? ? ?]|]. intros j Ht. rewrite bool_decide_false; [by apply Hh1|].
    intros [-> Hn]. destruct He as [He _]. rewrite Hn in He. by destruct (He eq_refl).
  - exists (Header_Set "Content-Type" (DetectContentType (take 512 (fp_Body (cx_Response x)))) h1).
    split; [by destruct x as [? [] ? ? ? ? ? ?]|]. intros j Ht. unfold Header_Set.
    change (CanonicalHeaderKey "Content-Type") with (str "Content-Type").
    assert (nw_h w !! str "Content-Type" = None) as Hn.
    { destruct (nw_h w !! str "Content-Type"); [|done]. destruct He as [_ He]. by discriminate He. }
    case_bool_decide as Hj; [destruct Hj as [-> _]; by rewrite lookup_insert_eq|].
    rewrite lookup_insert_ne; [by apply Hh1|]. by intros <-; destruct Hj.
Qed.

(** C32: A handler of net/http that does not panic and names its headers canonically is
    served as it is, in whatever order its headers are visited: the status is the one
    it set, 200 if it set none; what it wrote follows what the body had; the values of
    its headers follow those of the response, for the headers that fasthttp does not
    manage itself; the content type is its own (the last value) or told by the first
    512 bytes of the body.  Nothing is sent to the backend, and exactly the pages of
    the playground are marked. *)
Theorem page_served h isPlayground x r :
  http_ConvertRequest (cx_Request x) = Ok r → HandlerPanic ∉ h r →
  let w := fold_left apply_op (h r) new_writer in
  Forall (λ k, CanonicalHeaderKey k = k) (map_to_list (nw_h w)).*1 →
  let '(x', result) := NewFastHTTPHandler h isPlayground x in
  result = Ret None ∧ cx_Sent x' = cx_Sent x
  ∧ fp_Status (cx_Response x') = (if (nw_statusCode w =? 0)%Z then 200%Z else nw_statusCode w)
  ∧ fp_Body (cx_Response x') = fp_Body (cx_Response x) ++ written (h r)
  ∧ (∀ j, told j → fp_Header (cx_Response x') !! j =
       served_header w (fp_Body (cx_Response x')) (fp_Header (cx_Response x)) j)
  ∧ cx_User x' = (if isPlayground then <[Playground := UUnit]> (cx_User x) else cx_User x).
Proof.
  intros Hcv Hp w Hc. unfold NewFastHTTPHandler. rewrite bind_get, Hcv.
  unfold cmd_bind at 1. rewrite ServeHTTP_run by done. rewrite bind_modify.
  match goal with |- context [(copy_headers ?w ;;; _) ?y] => set (y0 := y) end.
  destruct (copy_headers_run w y0 Hc) as (hd & Hrun & Hhd).
  unfold cmd_bind at 1. fold w. rewrite Hrun. revert Hhd. unfold y0. clear Hrun y0.
  destruct x as [rq [st hh bd] us ra ip se lg sg]. simpl.
  destruct isPlayground; simpl; by intros Hhd; split_and!.
Qed.
End Adaptor.

(** * Witness *)

(** Requests are not looked at, and nothing is told of a body.  Of the managed headers,
    all but the content type ignore what is added. *)
Definition plain_Add (h : http_Header) (k v : gostring) : http_Header :=
  if k =?s "Content-Type" then <[k := [v]]> h
  else if bool_decide (k ∈ managed) then h else Header_Add h k v.

Lemma plain_Add_plain h k v j : CanonicalHeaderKey k = k → j ∉ managed →
  plain_Add h k v !! j = if bool_decide (j = k) then Some (default [] (h !! j) ++ [v]) else h !! j.
Proof.
  intros Hk Hj. unfold plain_Add, Header_Add. rewrite Hk. destruct (decide (j = k)) as [->|Hne].
  - rewrite (bool_decide_true (k = k)) by done. rewrite (bool_decide_false (k ∈ managed)) by done.
    destruct (k =?s "Content-Type") eqn:E; [apply eqb_str_true in E as ->; by destruct Hj; left|].
    by rewrite lookup_insert_eq.
  - rewrite (bool_decide_false (j = k)) by done.
    destruct (k =?s _); [by rewrite lookup_insert_ne|]. case_bool_decide; [done|by rewrite lookup_insert_ne].
Qed.

Lemma plain_Add_type h k v : CanonicalHeaderKey k = k →
  plain_Add h k v !! str "Content-Type" =
  if bool_decide (k = str "Content-Type") then Some [v] else h !! str "Content-Type".
Proof.
  intros Hk. unfold plain_Add, Header_Add. rewrite Hk. destruct (decide (k = str "Content-Type")) as [->|Hne].
  - by rewrite eqb_str_refl, lookup_insert_eq.
  - rewrite (bool_decide_false (k = _)), (proj2 (eqb_str_false _ _) Hne) by done.
    case_bool_decide; [done|by rewrite lookup_insert_ne].
Qed.

Definition plain_http : NetHTTPPkg := {|
  http_Request := unit;
  http_ConvertRequest _ := Ok ();
  DetectContentType _ := str "text/plain";
  range := map_to_list;
  range_all m := reflexivity (map_to_list m);
  response_Add := plain_Add;
  response_Add_plain := plain_Add_plain;
  response_Add_type := plain_Add_type
|}.

Section Page.
#[local] Existing Instance plain_http.
Let page (_ : unit) : list writer_op :=
  [EditHeader (Header_Set "Content-Type" "text/html"); EditHeader (Header_Set "Etag" "1"); Write "<html>"; Write "</html>"].
Let request : freq := MkFreq "GET" "http" "host" "host" "/playground" [] "HTTP/1.1" ∅ [] [].
Let ctx : reqctx := MkCtx request (MkFresp 200 ∅ []) ∅ "10.0.0.1:1" (Some (str "10.0.0.1")) [] [] 0.

Lemma page_served_witness :
  let x' := (NewFastHTTPHandler page true ctx).1 in
  fp_Body (cx_Response x') = str "<html></html>"
  ∧ fp_Header (cx_Response x') !! str "Content-Type" = Some [str "text/html"].
Proof.
  pose proof (page_served page true ctx ()) as H.
  destruct (NewFastHTTPHandler _ _ _) as [x' res] eqn:E.
  destruct H as (_ & _ & _ & Hb & Hh & _);
    [done|unfold page; by repeat (apply not_elem_of_cons; split; [done|]); apply not_elem_of_nil|vm_compute; repeat constructor|].
  cbn [fst]. split; [by rewrite Hb|]. rewrite Hh by (by right). by vm_compute.
Defined.

(** The last status that a handler sets is served; net/http keeps the first. *)
Lemma last_status_served :
  fp_Status (cx_Response (NewFastHTTPHandler
    (λ _, [WriteHeader 404; Write "no page"; WriteHeader 200]) true ctx).1) = 200%Z.
Proof. by vm_compute. Qed.
End Page.
