(* ===== verification/ProxyHandler.v ===== *)
(** The handler of an endpoint in proxy mode
    (cmd/api-firewall/internal/handlers/proxy/openapi.go) and the application
    made of the endpoints of a specification (routes.go, with
    internal/platform/loader/router.go). *)
From S2P Require Import Prelude Cmd GoStrings Config RouterPattern RouterTree RouterMux Values URLValues Messages ParamDecoder BodyDecoder Validate Unknown APIErrors APIMode NetIP AccessLists Web Mid.

(** [config.ProxyMode], as far as the handlers read it. *)
Record pconfig := MkPConfig {
  pc_Mode : gostring;
  pc_PassOptionsRequests : bool;
  pc_RequestValidation : gostring;
  pc_ResponseValidation : gostring;
  pc_CustomBlockStatusCode : Z;
  pc_AddValidationStatusHeader : bool;
  pc_UnknownParametersDetection : bool;
  pc_ShadowExcludeList : list Z;
  pc_RequestHostHeader : gostring;
  pc_DeleteAcceptEncoding : bool;
  pc_ModSecRequestValidation : gostring;
  pc_ModSecResponseValidation : gostring;
  pc_Endpoints : list Endpoint
}.

Section ProxyHandler.
Context `{FmtPkg} `{TypesPkg} `{!SchemaPkg} `{!FilterPkg}.
Context (lib : parsers) (reg : registry) (json_Unmarshal : gostring → option value)
  (bodyEncoders : gmap gostring (value → result gostring gostring)).
(** fasthttp: the conversion to a net/http request, and the arguments of a request. *)
Context (d : decompressor) (ConvertRequest : freq → result gostring request)
  (QueryArgs PostArgs : freq → list (gostring * gostring)).

(** [loader.CustomRoute]. *)
Record CustomRoute := MkCustomRoute {
  cr_Route : Route;
  cr_Path : gostring;
  cr_Method : gostring;
  cr_ParametersNumberInPath : Z
}.

(** [openapiWaf]; [ow_oauth] is the validation of a token. *)
Record openapiWaf := MkWaf {
  ow_customRoute : option CustomRoute;
  ow_proxyPool : pool;
  ow_cfg : pconfig;
  ow_oauth : option (gostring → list gostring → option gostring)
}.

(** * The status header *)

Definition media_of (contentType : gostring) : gostring := hd [] (split contentType ";").
Definition or_unknown_reason (reason : gostring) : gostring :=
  if is_empty reason then str "unknown" else reason.

(** The names and the errors joined by commas, as the code concatenates and trims them. *)
Definition comma_list (l : list gostring) : gostring :=
  trim_suffix (fold_left (λ acc x, acc ++ x ++ ",") l []) ",".

Definition getValidationHeader (x : reqctx) (err : verr) : option gostring :=
  match err with
  | EResponse reason _ =>
      let id := str "response-" ++ itoa (fp_Status (cx_Response x)) ++ "-"
                ++ media_of (response_ContentType (cx_Response x)) in
      Some (id ++ ":" ++ or_unknown_reason reason ++ ":response")
  | ERequest (Some param) _ reason e =>
      match reason with
      | [] =>
          let reason := match e with
                        | Some (ESchema se) => or_unknown_reason (se_Reason se)
                        | _ => str "unknown"
                        end in
          Some (str "request-parameter:" ++ reason ++ ":" ++ p_Name param)
      | _ => Some (str "request-parameter:" ++ reason ++ ":request-parameter")
      end
  | ERequest None (Some _) reason _ =>
      let id := str "request-body-" ++ media_of (header_Get (fq_Header (cx_Request x)) "Content-Type") in
      Some (id ++ ":" ++ or_unknown_reason reason ++ ":request-body")
  | ESecurity srs errs =>
      let names := comma_list (concat (map (λ sr : list (gostring * list gostring), sr.*1) srs)) in
      Some (str "security-requirements-" ++ names ++ ":" ++ comma_list (map verr_text errs) ++ ":" ++ names)
  | _ => None
  end.

(** * Authentication *)

Definition authorization_missing (rq : request) (prefix : gostring) : bool :=
  let bHeader := header_Get (in_Header (rq_Input rq)) "Authorization" in
  is_empty bHeader || negb (has_prefix (to_lower bHeader) prefix).

(** The authentication function of the handler. *)
Definition proxy_authentication (oauth : option (gostring → list gostring → option gostring))
    (rq : request) (name : gostring) (scheme : SecurityScheme) (scopes : list gostring) : option verr :=
  let fail (b : bool) (msg : gostring) := if b then Some (ELib msg) else None in
  if ss_Type scheme =?s "http" then
    if ss_Scheme scheme =?s "basic" then
      fail (authorization_missing rq "basic ") "missing basic authorization header"
    else if ss_Scheme scheme =?s "bearer" then
      fail (authorization_missing rq "bearer ") "missing bearer authorization header"
    else None
  else if (ss_Type scheme =?s "oauth2") || (ss_Type scheme =?s "openIdConnect") then
    match oauth with
    | None => Some (ELib "oauth2 validator not configured")
    | Some validate =>
        match validate (header_Get (in_Header (rq_Input rq)) "Authorization") scopes with
        | Some e => Some (ELib (str "oauth2 error: " ++ e))
        | None => None
        end
    end
  else if ss_Type scheme =?s "apiKey" then
    if ss_In scheme =?s "header" then
      fail (is_empty (header_Get (in_Header (rq_Input rq)) (ss_Name scheme)))
        (str "missing " ++ ss_Name scheme ++ " header")
    else if ss_In scheme =?s "query" then
      fail (is_empty (Values_Get (URL_Query (rq_RawQuery rq)) (ss_Name scheme)))
        (str "missing " ++ ss_Name scheme ++ " query parameter")
    else if ss_In scheme =?s "cookie" then
      fail (bool_decide (obj_get (ss_Name scheme) (in_Cookies (rq_Input rq)) = None))
        (str "missing " ++ ss_Name scheme ++ " cookie")
    else None
  else None.

Definition request_options (oauth : option (gostring → list gostring → option gostring)) : Options :=
  MkOptions false false false false false false false (Some (proxy_authentication oauth)).
Definition response_options : Options := MkOptions false false false false false true false None.

(** * The handler *)

(** Forwarding: an error is logged and not returned. *)
Definition forward (s : openapiWaf) : Cmd bool :=
  err <-- Perform (ow_proxyPool s) (pc_RequestHostHeader (ow_cfg s)) ;;
  match err with
  | Some _ => log (LogError "Error while proxying request") ;;; cmd_ret false
  | None => cmd_ret true
  end.

(** The modes of the endpoint, or the global ones. *)
Definition modes (s : openapiWaf) (x : reqctx) : gostring * gostring :=
  match cx_User x !! EndpointActions with
  | Some (UActions a) => (act_Request a, act_Response a)
  | _ => (pc_RequestValidation (ow_cfg s), pc_ResponseValidation (ow_cfg s))
  end.

Definition block_status (s : openapiWaf) (header : gostring) : Handler :=
  RespondError (pc_CustomBlockStatusCode (ow_cfg s)) header.

(** A request that has no route. *)
Definition no_route (s : openapiWaf) (reqMode respMode : gostring) : Handler :=
  SetUserValue RequestProxyNoRoute (UBool true) ;;;
  (if equal_fold reqMode ValidationBlock || equal_fold respMode ValidationBlock then
     block_status s (if pc_AddValidationStatusHeader (ow_cfg s)
                     then str "request: customRoute not found" else [])
   else _ <-- forward s ;; cmd_ret None).

(** The net/http request that is validated: [Err] is an answer of the handler. *)
Definition convert (cr : CustomRoute) (x : reqctx) : outcome (result Handler request) :=
  pathParams <-!
    (if (0 <? cr_ParametersNumberInPath cr)%Z
     then AllURLParams (match cx_User x !! RouteCtxKey with Some (URoute c) => Some c | _ => None end)
     else Ret None) ;;
  Ret match ConvertRequest (cx_Request x) with
      | Err _ => Err (log (LogError "Error while converting http request") ;;; RespondError 400 [])
      | Ok rq =>
          let body :=
            match header_Get (fq_Header (cx_Request x)) "Content-Encoding" with
            | [] => Ok (rq_Body rq)
            | enc => GetDecompressedBody d (fq_Body (cx_Request x)) enc
            end in
          match body with
          | Err msg => Err (log (LogError "Request body decompression error") ;;; cmd_ret (Some (HError msg)))
          | Ok b =>
              let i := rq_Input rq in
              Ok (set_Body b (set_Input
                    (MkInput (default ∅ pathParams) (URL_Query (rq_RawQuery rq)) (in_Header i) (in_Cookies i)) rq))
          end
      end.

Definition validate_request (s : openapiWaf) (cr : CustomRoute) (rq : request) : Cmd (request * option verr) :=
  cmd_lift (ValidateRequest lib reg json_Unmarshal bodyEncoders (request_options (ow_oauth s)) (cr_Route cr) rq).

(** The search of parameters that are not declared; its errors are logged. *)
Definition fast_of (r : freq) : fast_request :=
  MkFast (QueryArgs r) (PostArgs r) (fq_Body r) (header_Get (fq_Header r) "Content-Type").

Definition undefined_parameters (s : openapiWaf) (cr : CustomRoute) (rq : request) : Cmd bool :=
  if pc_UnknownParametersDetection (ow_cfg s) then
    fr <-- cmd_get (λ x, fast_of (cx_Request x)) ;;
    '(upResults, err) <--
      cmd_lift (ValidateUnknownRequestParameters lib reg (cr_Route cr) fr (in_Header (rq_Input rq))) ;;
    (match err with
     | Some _ => log (LogWarn "Shadow API: searching for undefined parameters")
     | None => cmd_ret ()
     end ;;;
     match upResults with
     | [] => cmd_ret false
     | _ => log (LogError "Shadow API: undefined parameters found") ;;; cmd_ret true
     end)
  else cmd_ret false.

Definition unsupported_prefix : gostring :=
  "request body has an error: failed to decode request body: unsupported content type".

(** An error of a request that is only logged in block mode: its body has a type
    no decoder is registered for. *)
Definition passed_error (e : verr) : bool :=
  match e with ERequest _ _ _ _ => has_prefix (verr_text e) unsupported_prefix | _ => false end.

(** The refusal of a request, and of a response, with the status header. *)
Definition refuse_request (s : openapiWaf) (e : verr) : Handler :=
  SetUserValue RequestBlocked (UBool true) ;;;
  (log (LogError "Request validation error: request blocked") ;;;
   (x <-- cmd_get (λ x, x) ;;
    match (if pc_AddValidationStatusHeader (ow_cfg s) then getValidationHeader x e else None) with
    | Some vh =>
        log (LogError (str "add header " ++ ValidationStatus ++ ": " ++ vh)) ;;;
        (cmd_modify (upd_Request (upd_fq_Header (λ h, Header_Add h ValidationStatus vh))) ;;;
         block_status s vh)
    | None => block_status s []
    end)).

Definition refuse_response (s : openapiWaf) (e : verr) : Handler :=
  SetUserValue ResponseBlocked (UBool true) ;;;
  (log (LogError "Response validation error") ;;;
   (x <-- cmd_get (λ x, x) ;;
    match (if pc_AddValidationStatusHeader (ow_cfg s) then getValidationHeader x e else None) with
    | Some vh =>
        log (LogError (str "Add header " ++ ValidationStatus ++ ": " ++ vh)) ;;;
        (cmd_modify (upd_Response (upd_fp_Header (λ h, Header_Add h ValidationStatus vh))) ;;;
         block_status s vh)
    | None => block_status s []
    end)).

(** The check of a request in each mode: an answer of the handler, or none when
    the request is forwarded. *)
Definition check_request (s : openapiWaf) (cr : CustomRoute) (mode : gostring) (rq : request)
  : Cmd (option Handler) :=
  if to_lower mode =?s ValidationBlock then
    '(rq, err) <-- validate_request s cr rq ;;
    match err with
    | Some e =>
        if passed_error e then
          log (LogError "Request body parsing error: request passed") ;;;
          (found <-- undefined_parameters s cr rq ;;
           cmd_ret (if (found : bool)
                    then Some (SetUserValue RequestBlocked (UBool true) ;;; block_status s []) else None))
        else cmd_ret (Some (refuse_request s e))
    | None =>
        found <-- undefined_parameters s cr rq ;;
        cmd_ret (if (found : bool)
                 then Some (SetUserValue RequestBlocked (UBool true) ;;; block_status s []) else None)
    end
  else if to_lower mode =?s ValidationLog then
    '(rq, err) <-- validate_request s cr rq ;;
    (match err with Some _ => log (LogError "Request validation error") | None => cmd_ret () end ;;;
     (_ <-- undefined_parameters s cr rq ;; cmd_ret None))
  else cmd_ret None.

(** The headers of the response, of which [Set] keeps the last value. *)
Definition resp_header (r : fresp) : http_Header :=
  omap (λ vs : list gostring, (λ v, [v]) <$> last vs) (response_headers_seen r).

Definition check_response (s : openapiWaf) (cr : CustomRoute) (mode method : gostring) : Handler :=
  rp <-- cmd_get cx_Response ;;
  match GetDecompressedBody d (fp_Body rp) (header_Get (fp_Header rp) "Content-Encoding") with
  | Err msg => log (LogError "Response body decompression error") ;;; cmd_ret (Some (HError msg))
  | Ok body =>
      let validate :=
        cmd_lift (ValidateResponse lib reg response_options (cr_Route cr)
                    (MkResponseInput method (fp_Status rp) (resp_header rp) body)) in
      if to_lower mode =?s ValidationBlock then
        err <-- validate ;;
        match err with Some e => refuse_response s e | None => cmd_ret None end
      else if to_lower mode =?s ValidationLog then
        err <-- validate ;;
        match err with
        | Some (EResponse reason _) =>
            (if reason =?s "status is not supported"
             then SetUserValue ResponseStatusNotFound (UBool true) else cmd_ret ()) ;;;
            cmd_ret None
        | Some _ => log (LogError "Response validation error") ;;; cmd_ret None
        | None => cmd_ret None
        end
      else cmd_ret None
  end.

Definition openapiWafHandler (s : openapiWaf) : Handler :=
  x <-- cmd_get (λ x, x) ;;
  let isOptionsReq := match cx_User x !! PassRequestOPTIONS with Some (UBool b) => b | _ => false end in
  let '(reqMode, respMode) := modes s x in
  if isOptionsReq || (equal_fold reqMode ValidationDisable && equal_fold respMode ValidationDisable) then
    _ <-- forward s ;; cmd_ret None
  else
    match ow_customRoute s with
    | None => no_route s reqMode respMode
    | Some cr =>
        r <-- cmd_lift (convert cr x) ;;
        match r with
        | Err answer => answer
        | Ok rq =>
            verdict <-- check_request s cr reqMode rq ;;
            match verdict with
            | Some answer => answer
            | None =>
                sent <-- forward s ;;
                if (sent : bool) then check_response s cr respMode (rq_Method rq) else cmd_ret None
            end
        end
    end.

(** * The routes of a specification *)

(** A specification: the operations of each path, by method. *)
Notation doc := (list (gostring * list (gostring * Route))).

Definition path_parameters (l : list ParameterSpec) : Z :=
  Z.of_nat (length (List.filter (λ p, p_In p =?s "path") l)).

(** [NewRouter]; [validateOAS] is the validation of the library. *)
Definition NewRouter (validateOAS : doc → option gostring) (spec : doc) (validate : bool)
  : result gostring (list CustomRoute) :=
  match (if validate then validateOAS spec else None) with
  | Some e => Err (str "OpenAPI specification validation failed: " ++ e)
  | None =>
      Ok (concat (map (λ '(path, ops), map (λ '(method, rt),
            MkCustomRoute rt path (to_upper method)
              (path_parameters (op_Parameters rt) + path_parameters (rt_PathParameters rt)))
            ops) spec))
  end.

(** The modes of an endpoint: the last entry of the configuration that matches. *)
Definition endpoint_actions (endpoints : list Endpoint) (path method : gostring) : option Actions :=
  fold_left (λ acts ep,
    if equal_fold (ep_Path ep) path && (is_empty (ep_Method ep) || equal_fold method (ep_Method ep))
    then Some (MkActions (vm_RequestValidation (ep_ValidationMode ep))
                         (vm_ResponseValidation (ep_ValidationMode ep)))
    else acts) endpoints None.

(** * The application *)

Section Application.
Context `{RegexpPkg} `{CachePkg} `{CorazaPkg}.
Context (graphql_error : gostring → gostring) (ConnectionUpgrade : http_Header → bool)
  (uri_String : freq → gostring) (uri_resolve : freq → gostring → gostring).

(** What [Handlers] gets with the configuration.  [pe_routePath] is the path of
    a route below the one of the server ([url.JoinPath], [url.PathUnescape]). *)
Record proxy_env := MkProxyEnv {
  pe_Scheme : gostring;
  pe_Host : gostring;
  pe_routePath : gostring → result gostring gostring;
  pe_pool : pool;
  pe_AllowIPHeader : gostring;
  pe_allowedIPs : option entries;
  pe_CookieName : gostring;
  pe_HeaderName : gostring;
  pe_TrimBearerPrefix : bool;
  pe_deniedTokens : option entries;
  pe_waf : option (reqctx → tx);
  pe_oauth : option (gostring → list gostring → option gostring);
  pe_trace : bool
}.

Definition or_default (s dflt : gostring) : gostring := if is_empty s then dflt else s.

Definition proxy_options (cfg : pconfig) (e : proxy_env) : ProxyOptions :=
  MkProxyOptions ProxyMode (pc_RequestValidation cfg) (pc_DeleteAcceptEncoding cfg) (pe_Scheme e) (pe_Host e).
Definition ip_options (cfg : pconfig) (e : proxy_env) : IPAllowListOptions :=
  MkIPAllow ProxyMode (pe_AllowIPHeader e) (pc_CustomBlockStatusCode cfg) (pe_allowedIPs e).
Definition token_options (cfg : pconfig) (e : proxy_env) : DenylistOptions :=
  MkDenylist ProxyMode (pe_CookieName e) (pe_HeaderName e) (pe_TrimBearerPrefix e)
    (pc_CustomBlockStatusCode cfg) (pe_deniedTokens e).
(** The settings of ModSecurity, the global ones where it has none. *)
Definition modsec_options (cfg : pconfig) (e : proxy_env) : ModSecurityOptions :=
  MkModSec ProxyMode (pe_waf e)
    (or_default (pc_ModSecRequestValidation cfg) (pc_RequestValidation cfg))
    (or_default (pc_ModSecResponseValidation cfg) (pc_ResponseValidation cfg))
    (pc_CustomBlockStatusCode cfg).

Definition proxy_middlewares (cfg : pconfig) (e : proxy_env) : list (option Middleware) :=
  map Some
    [ Logger (pe_trace e);
      Errors;
      Panics;
      Proxy ConnectionUpgrade (proxy_options cfg e);
      IPAllowlist graphql_error (ip_options cfg e);
      Denylist graphql_error (token_options cfg e);
      WAFModSecurity uri_String uri_resolve (modsec_options cfg e);
      ShadowAPIMonitor (pc_ShadowExcludeList cfg) ].

Definition default_waf (cfg : pconfig) (e : proxy_env) : openapiWaf := MkWaf None (pe_pool e) cfg None.
Definition route_waf (cfg : pconfig) (e : proxy_env) (cr : CustomRoute) : openapiWaf :=
  MkWaf (Some cr) (pe_pool e) cfg (pe_oauth e).

(** One round of the loop over the routes; a failure leaves the route out. *)
Definition add_route (mt : method_table) (cfg : pconfig) (e : proxy_env) (a : App) (cr : CustomRoute) : App :=
  match pe_routePath e (cr_Path cr) with
  | Err _ => a
  | Ok path =>
      (Handle mt a (cr_Method cr) path (endpoint_actions (pc_Endpoints cfg) path (cr_Method cr))
         (openapiWafHandler (route_waf cfg e cr)) []).1
  end.

Definition proxy_app (mt : method_table) (cfg : pconfig) (e : proxy_env) (routes : list CustomRoute) : App :=
  fold_left (add_route mt cfg e) routes
    (NewApp (MkAppOptions (pc_Mode cfg) (pc_PassOptionsRequests cfg) (openapiWafHandler (default_waf cfg e)))
       (proxy_middlewares cfg e)).

(** [Handlers]: [None] when the specification is refused. *)
Definition Handlers (validateOAS : doc → option gostring) (mt : method_table) (cfg : pconfig)
    (e : proxy_env) (spec : doc) : option (gostring → Cmd unit) :=
  match NewRouter validateOAS spec true with
  | Err _ => None
  | Ok routes => Some (MainHandler mt (proxy_app mt cfg e routes))
  end.
End Application.
End ProxyHandler.
