(* ===== verification/ProxySpec.v ===== *)
(** The properties of proxy mode: what is forwarded to the backend and what is
    given to the client, for one handler and for the whole application. *)
From S2P Require Import Prelude Cmd GoStrings Config RouterPattern RouterTree RouterFind RouterMux Values URLValues Messages ParamDecoder BodyDecoder Validate Unknown APIErrors APIMode NetIP AccessLists AccessListsSpec Web Mid MidSpec ProxyHandler.

(** * Forwarding *)

(** The request that is sent: the configured host replaces the one of the request. *)
Definition with_host (host : gostring) (r : freq) : freq :=
  match host with [] => r | _ => set_fq_URIHost host (set_fq_HeaderHost host r) end.

Definition sent_one (host : gostring) (x : reqctx) : reqctx :=
  upd_Sent (λ l, l ++ [with_host host (cx_Request x)]) (upd_Request (with_host host) x).

Lemma Perform_run p host x :
  Perform p host x =
  match p with
  | Err msg => (x, Ret (Some (HError msg)))
  | Ok client_Do =>
      let x1 := sent_one host x in
      match client_Do (with_host host (cx_Request x)) with
      | Err e =>
          (upd_Response (λ _, error_response (do_status e) [])
             (upd_User (<[RequestProxyFailed := UBool true]>) x1), Ret (Some (HError (do_error_text e))))
      | Ok rp => (upd_Response (λ _, rp) x1, Ret None)
      end
  end.
Proof.
  destruct p as [client_Do|msg]; [|done]. unfold Perform, sent_one.
  assert (∀ B (k : unit → Cmd B) y,
    ((if is_empty host then cmd_ret ()
      else cmd_modify (upd_Request (λ r, set_fq_URIHost host (set_fq_HeaderHost host r)))) ;;; k ()) y = k () (upd_Request (with_host host) y)) as Hhost.
  { intros B k y. unfold with_host. destruct host; [by destruct y|done]. }
  rewrite (Hhost _ (λ _, _)), bind_get, bind_modify.
  replace (cx_Request (upd_Request (with_host host) x)) with (with_host host (cx_Request x)) by (by destruct x).
  destruct (client_Do _) as [rp|e]; [done|]. unfold SetUserValue. rewrite bind_modify.
  unfold cmd_bind. by rewrite RespondError_run.
Qed.

Lemma sent_one_sent host x : cx_Sent (sent_one host x) = cx_Sent x ++ [with_host host (cx_Request x)].
Proof. by destruct x. Qed.

(** At most one request is sent. *)
Lemma Perform_sent p host x :
  cx_Sent (Perform p host x).1 = cx_Sent x
  ∨ cx_Sent (Perform p host x).1 = cx_Sent x ++ [with_host host (cx_Request x)].
Proof.
  rewrite Perform_run. destruct p as [do|]; [right|by left].
  destruct (do _); simpl; by rewrite ?sent_response, ?sent_user, sent_one_sent.
Qed.

(** * The main handler *)

Lemma logged_sent h x : cx_Sent (logged h x).1 = cx_Sent (h x).1.
Proof.
  unfold logged, cmd_bind. destruct (h x) as [x' [[e|]|]]; [|done..]. apply sent_log.
Qed.

(** The context after the lookup. *)
Definition looked_up (uuid : gostring) (acts : option Actions) (x : reqctx) : reqctx :=
  let x := upd_User (<[RequestID := UStr uuid]>) x in
  match acts with Some a => upd_User (<[EndpointActions := UActions a]>) x | None => x end.

(** The context in which the handler of a route is called: the one of the client, with
    the identifier, the modes of the endpoint and the parameters of the path. *)
Definition routed (uuid : gostring) (acts : option Actions) (rctx : Context) (x : reqctx) : reqctx :=
  upd_User (<[RouteCtxKey := URoute rctx]>) (looked_up uuid acts x).

Lemma looked_up_sent uuid acts x : cx_Sent (looked_up uuid acts x) = cx_Sent x.
Proof. destruct x, acts; done. Qed.

(** What is sent is what the handler that is found sends, or the default one. *)
Lemma MainHandler_sent `{RegexpPkg} mt a uuid x rctx h acts :
  FindWithActions mt (app_Router a) NewRouteContext (fq_Method (cx_Request x)) (fq_Path (cx_Request x))
  = Ret (rctx, h, acts) →
  let xm := looked_up uuid acts x in
  cx_Sent (MainHandler mt a uuid x).1 =
  match h with
  | Some h => cx_Sent (h (routed uuid acts rctx x)).1
  | None =>
      if ao_PassOptions (app_Options a) && (fq_Method (cx_Request x) =?s "OPTIONS")
      then cx_Sent (ao_DefaultHandler (app_Options a) (upd_User (<[PassRequestOPTIONS := UBool true]>) xm)).1
      else if ao_Mode (app_Options a) =?s GraphQLMode then cx_Sent x
      else cx_Sent (ao_DefaultHandler (app_Options a)
                      (upd_Log (λ l, l ++ [LogInfo "Path or method not found"]) xm)).1
  end.
Proof.
  intros Hf xm. unfold MainHandler, routed. fold xm.
  assert (∀ c k : Cmd unit, keeps cx_Sent k → ∀ y, cx_Sent (cmd_recover c k y).1 = cx_Sent (c y).1) as Hrec.
  { intros c k Hk y. unfold cmd_recover. specialize (Hk (c y).1). by destruct (c y) as [y' [[]|]]. }
  rewrite Hrec by auto with apifw. clear Hrec. unfold SetUserValue, log. rewrite bind_modify, !bind_get.
  replace (cx_Request (upd_User (<[RequestID:=UStr uuid]>) x)) with (cx_Request x) by (by destruct x).
  rewrite Hf, bind_lift.
  assert (∀ B (k : unit → Cmd B) y,
    ((match acts with
      | Some acts => cmd_modify (upd_User (<[EndpointActions := UActions acts]>))
      | None => cmd_ret () end) ;;; k ()) (upd_User (<[RequestID:=UStr uuid]>) y)
    = k () (looked_up uuid acts y)) as Ha by (intros; by destruct acts).
  rewrite (Ha _ (λ _, _)). fold xm. destruct h as [h|].
  - rewrite bind_modify. set (y := upd_User _ xm). rewrite <- (logged_sent h y).
    unfold cmd_bind, cmd_modify. destruct (logged h y) as [y' [[]|]]; [apply sent_response|done].
  - destruct (ao_PassOptions (app_Options a) && _); [rewrite bind_modify; apply logged_sent|].
    rewrite bind_modify. destruct (ao_Mode (app_Options a) =?s GraphQLMode); [|apply logged_sent].
    rewrite logged_sent, (keeps_RespondError cx_Sent) by auto with apifw.
    rewrite sent_log. apply looked_up_sent.
Qed.

Section ProxySpec.
Context `{FmtPkg} `{TypesPkg} `{!SchemaPkg} `{!FilterPkg}.
Context (lib : parsers) (reg : registry) (json_Unmarshal : gostring → option value)
  (bodyEncoders : gmap gostring (value → result gostring gostring)).
Context (d : decompressor) (ConvertRequest : freq → result gostring request)
  (QueryArgs PostArgs : freq → list (gostring * gostring)).

Notation ValidateReq s cr := (ValidateRequest lib reg json_Unmarshal bodyEncoders
  (request_options (ow_oauth s)) (cr_Route cr)).
Notation handler := (openapiWafHandler lib reg json_Unmarshal bodyEncoders d ConvertRequest QueryArgs PostArgs).
Notation check_req := (check_request lib reg json_Unmarshal bodyEncoders QueryArgs PostArgs).
Notation check_resp := (check_response lib reg d).
Notation undefined := (undefined_parameters lib reg QueryArgs PostArgs).

Lemma forward_run s x :
  forward s x =
  match ow_proxyPool s with
  | Err msg => (upd_Log (λ l, l ++ [LogError "Error while proxying request"]) x, Ret false)
  | Ok client_Do =>
      let x1 := sent_one (pc_RequestHostHeader (ow_cfg s)) x in
      match client_Do (with_host (pc_RequestHostHeader (ow_cfg s)) (cx_Request x)) with
      | Err e =>
          (upd_Log (λ l, l ++ [LogError "Error while proxying request"])
             (upd_Response (λ _, error_response (do_status e) [])
                (upd_User (<[RequestProxyFailed := UBool true]>) x1)), Ret false)
      | Ok rp => (upd_Response (λ _, rp) x1, Ret true)
      end
  end.
Proof.
  unfold forward, cmd_bind. rewrite Perform_run.
  destruct (ow_proxyPool s) as [do|]; [|done]. cbv zeta. by destruct (do _).
Qed.

Lemma forward_sent s x :
  cx_Sent (forward s x).1 = cx_Sent x
  ∨ cx_Sent (forward s x).1 = cx_Sent x ++ [with_host (pc_RequestHostHeader (ow_cfg s)) (cx_Request x)].
Proof.
  rewrite forward_run. destruct (ow_proxyPool s) as [do|]; cbv zeta; [right|left; apply sent_log].
  destruct (do _); simpl; by rewrite ?sent_log, ?sent_response, ?sent_user, sent_one_sent.
Qed.

(** * What does not forward *)

Lemma keeps_sent_undefined s cr rq : keeps cx_Sent (undefined s cr rq).
Proof. unfold undefined_parameters. solve_keeps. Qed.
Lemma keeps_request_undefined s cr rq : keeps cx_Request (undefined s cr rq).
Proof. unfold undefined_parameters. solve_keeps; apply keeps_log; by intros ? []. Qed.

Lemma keeps_sent_refuse s e : keeps cx_Sent (refuse_request s e) ∧ keeps cx_Sent (refuse_response s e).
Proof. split; [unfold refuse_request|unfold refuse_response]; unfold block_status; solve_keeps. Qed.

Lemma keeps_sent_check s cr mode rq :
  keeps cx_Sent (check_req s cr mode rq) ∧ keeps cx_Request (check_req s cr mode rq).
Proof.
  assert (∀ e, keeps cx_Request (log e)) by (intros e; apply keeps_log; by intros ? []).
  pose proof keeps_sent_undefined. pose proof keeps_request_undefined.
  split; unfold check_request, validate_request; solve_keeps.
Qed.

Lemma keeps_response_check s cr mode rq : keeps cx_Response (check_req s cr mode rq).
Proof.
  assert (∀ e, keeps cx_Response (log e)) by (intros e; apply keeps_log, resp_log).
  assert (∀ rq, keeps cx_Response (undefined s cr rq)) by (intros; unfold undefined_parameters; solve_keeps).
  unfold check_request, validate_request; solve_keeps.
Qed.

(** The answers of [check_request] forward nothing. *)
Lemma check_request_answer s cr mode rq x x' answer :
  check_req s cr mode rq x = (x', Ret (Some answer)) → keeps cx_Sent answer.
Proof.
  assert (∀ (b : bool) a, (if b then Some (SetUserValue RequestBlocked (UBool true) ;;; block_status s [])
    else None) = Some a → keeps cx_Sent a) as Hblk.
  { intros [] a; [|done]. intros [= <-]. unfold block_status. solve_keeps. }
  unfold check_request. repeat case_match; try done.
  - intros ([rq' err] & x1 & _ & Hr)%bind_Ret. destruct err as [e|].
    + destruct (passed_error e).
      * apply bind_Ret in Hr as (? & ? & _ & (found & ? & _ & Hr)%bind_Ret).
        injection Hr as <- Ha. by eapply Hblk.
      * injection Hr as <- <-. apply keeps_sent_refuse.
    + apply bind_Ret in Hr as (found & ? & _ & Hr). injection Hr as <- Ha. by eapply Hblk.
  - intros ([rq' err] & x1 & _ & (? & ? & _ & (? & ? & _ & Hr)%bind_Ret)%bind_Ret)%bind_Ret. done.
Qed.

Lemma keeps_sent_check_response s cr mode method : keeps cx_Sent (check_resp s cr mode method).
Proof.
  pose proof (λ e, proj2 (keeps_sent_refuse s e)). unfold check_response. solve_keeps.
Qed.

(** * The handler *)

(** The request is checked: it is valid, or its body has a type without decoder,
    and no undeclared parameter was found where they are looked for. *)
Definition request_accepted (s : openapiWaf) (cr : CustomRoute) (r : freq) (rq : request) : Prop :=
  ∃ rq' err, ValidateReq s cr rq = Ret (rq', err)
    ∧ (err = None ∨ ∃ e, err = Some e ∧ passed_error e = true)
    ∧ (pc_UnknownParametersDetection (ow_cfg s) = true →
       ∃ w, ValidateUnknownRequestParameters lib reg (cr_Route cr) (fast_of QueryArgs PostArgs r)
              (in_Header (rq_Input rq')) = Ret ([], w)).

Lemma undefined_found s cr rq x x' :
  undefined s cr rq x = (x', Ret false) →
  pc_UnknownParametersDetection (ow_cfg s) = true →
  ∃ w, ValidateUnknownRequestParameters lib reg (cr_Route cr) (fast_of QueryArgs PostArgs (cx_Request x))
         (in_Header (rq_Input rq)) = Ret ([], w).
Proof.
  unfold undefined_parameters. intros Hr Hd. rewrite Hd, bind_get in Hr.
  apply bind_Ret in Hr as ([up err] & x1 & Hl & (? & x2 & _ & Hr)%bind_Ret).
  injection Hl as <- Hl. rewrite Hl. destruct up; [by eexists|].
  apply bind_Ret in Hr as (? & ? & _ & Hr). done.
Qed.

Lemma check_request_block s cr mode rq x x' :
  to_lower mode = ValidationBlock →
  check_req s cr mode rq x = (x', Ret None) → request_accepted s cr (cx_Request x) rq.
Proof.
  intros Hm. unfold check_request. rewrite Hm. change (ValidationBlock =?s ValidationBlock) with true. cbv iota.
  intros ([rq' err] & x1 & Hv & Hr)%bind_Ret. injection Hv as <- Hv.
  assert (∃ y y', cx_Request y = cx_Request x ∧ undefined s cr rq' y = (y', Ret false)
    ∧ (err = None ∨ ∃ e, err = Some e ∧ passed_error e = true)) as (y & y' & Hy & Hu & He).
  { assert (∀ (b : bool) (h : Handler), (if b then Some h else None) = None → b = false) as Hb by (by intros []).
    destruct err as [e|].
    - destruct (passed_error e) eqn:Hp; [|done].
      apply bind_Ret in Hr as (? & x2 & Hl & (found & x3 & Hu & Hr)%bind_Ret).
      injection Hr as <- ->%Hb. injection Hl as <-. eexists _, _. split; [|split; [done|eauto]]. by destruct x.
    - apply bind_Ret in Hr as (found & x3 & Hu & Hr). injection Hr as <- ->%Hb. eauto 10. }
  exists rq', err. split; [done|]. split; [done|]. intros Hd. rewrite <- Hy. by eapply undefined_found.
Qed.

(** The part of the handler that needs a route and an enabled validation. *)
Definition validates (s : openapiWaf) (x : reqctx) : Prop :=
  cx_User x !! PassRequestOPTIONS ≠ Some (UBool true)
  ∧ ¬ (equal_fold (modes s x).1 ValidationDisable = true ∧ equal_fold (modes s x).2 ValidationDisable = true).

Lemma handler_validates s cr x :
  ow_customRoute s = Some cr → validates s x →
  handler s x =
  match convert d ConvertRequest cr x with
  | Panic => (x, Panic)
  | Ret (Err answer) => answer x
  | Ret (Ok rq) =>
      match check_req s cr (modes s x).1 rq x with
      | (x1, Panic) => (x1, Panic)
      | (x1, Ret (Some answer)) => answer x1
      | (x1, Ret None) =>
          match forward s x1 with
          | (x2, Panic) => (x2, Panic)
          | (x2, Ret false) => (x2, Ret None)
          | (x2, Ret true) => check_resp s cr (modes s x).2 (rq_Method rq) x2
          end
      end
  end.
Proof.
  intros Hcr [Ho Hm]. unfold openapiWafHandler. rewrite bind_get, Hcr. destruct (modes s x) as [m1 m2]. simpl in Hm.
  assert ((match cx_User x !! PassRequestOPTIONS with Some (UBool b) => b | _ => false end
           || (equal_fold m1 ValidationDisable && equal_fold m2 ValidationDisable)) = false) as ->.
  { apply orb_false_iff. split; [destruct (cx_User x !! PassRequestOPTIONS) as [[[]| | | | | |]|]; done|].
    apply not_true_is_false. by intros ?%andb_prop. }
  unfold cmd_lift, cmd_bind. cbn [fst snd]. destruct (convert _ _ cr x) as [[rq|answer]|]; [|done..].
  destruct (check_req s cr m1 rq x) as [x1 [[a|]|]]; [done| |done].
  by destruct (forward s x1) as [x2 [[]|]].
Qed.

Lemma block_validates s x :
  cx_User x !! PassRequestOPTIONS ≠ Some (UBool true) →
  to_lower (modes s x).1 = ValidationBlock ∨ to_lower (modes s x).2 = ValidationBlock → validates s x.
Proof.
  intros Ho Hm. split; [done|]. unfold equal_fold. rewrite !eqb_str_true.
  intros [E1 E2]. destruct Hm as [Hm|Hm]; [rewrite Hm in E1; discriminate E1|rewrite Hm in E2; discriminate E2].
Qed.

Lemma convert_answer_sent cr x answer :
  convert d ConvertRequest cr x = Ret (Err answer) → keeps cx_Sent answer.
Proof.
  unfold convert. intros (pp & _ & Hr)%obind_Ret. destruct (ConvertRequest _) as [rq|]; [|simplify_eq; solve_keeps].
  revert Hr. set (b := match header_Get _ _ with [] => _ | _ => _ end).
  destruct b; intros; simplify_eq; solve_keeps.
Qed.

(** Requests in block mode. *)
Lemma handler_sent_block s cr x :
  ow_customRoute s = Some cr →
  cx_User x !! PassRequestOPTIONS ≠ Some (UBool true) → to_lower (modes s x).1 = ValidationBlock →
  cx_Sent (handler s x).1 = cx_Sent x
  ∨ ∃ rq, convert d ConvertRequest cr x = Ret (Ok rq) ∧ request_accepted s cr (cx_Request x) rq
      ∧ cx_Sent (handler s x).1
        = cx_Sent x ++ [with_host (pc_RequestHostHeader (ow_cfg s)) (cx_Request x)].
Proof.
  intros Hcr Ho Hm. rewrite (handler_validates s cr) by auto using block_validates.
  destruct (convert _ _ cr x) as [[rq|answer]|] eqn:Hc; [|left; by apply (convert_answer_sent cr x)|by left].
  destruct (keeps_sent_check s cr (modes s x).1 rq) as [Hs Hq]. specialize (Hs x). specialize (Hq x).
  destruct (check_req s cr (modes s x).1 rq x) as [x1 [[answer|]|]] eqn:Hk; simpl in Hs, Hq; [| |by left].
  - left. rewrite <- Hs. by apply (check_request_answer s cr _ _ _ _ _ Hk).
  - apply check_request_block in Hk; [|done].
    pose proof (forward_sent s x1) as Hf. rewrite Hs, Hq in Hf.
    assert (cx_Sent (match forward s x1 with
          | (x2, Panic) => (x2, Panic)
          | (x2, Ret false) => (x2, Ret None)
          | (x2, Ret true) => check_resp s cr (modes s x).2 (rq_Method rq) x2
          end).1 = cx_Sent (forward s x1).1) as ->.
    { destruct (forward s x1) as [x2 [[]|]]; [apply keeps_sent_check_response|done..]. }
    destruct Hf as [->| ->]; [by left|right; eauto].
Qed.

(** * Responses *)

(** An answer of the firewall's own: when the handler returns without error. *)
Definition own_answer (c : Handler) : Prop :=
  ∀ x x', c x = (x', Ret None) → ∃ st h, cx_Response x' = error_response st h.

Lemma own_block s h : own_answer (block_status s h).
Proof. intros x x'. unfold block_status. rewrite RespondError_run. intros [= <-]. destruct x. by eexists _, _. Qed.

Lemma own_then {A} (c : Cmd A) (k : A → Handler) : (∀ a, own_answer (k a)) → own_answer (cmd_bind c k).
Proof. intros Hk x x' (a & x1 & _ & Hr)%bind_Ret. by eapply Hk. Qed.

Lemma own_refuse s e : own_answer (refuse_request s e) ∧ own_answer (refuse_response s e).
Proof.
  split; [unfold refuse_request|unfold refuse_response];
    repeat first [apply own_block | apply own_then; intros ? | case_match].
Qed.

Lemma own_convert cr x answer : convert d ConvertRequest cr x = Ret (Err answer) → own_answer answer.
Proof.
  unfold convert. intros (pp & _ & Hr)%obind_Ret. destruct (ConvertRequest _) as [rq|].
  - revert Hr. set (b := match header_Get _ _ with [] => _ | _ => _ end).
    destruct b; intros; simplify_eq. apply own_then. by intros ? ? ?.
  - simplify_eq. apply own_then. intros _ y y'. rewrite RespondError_run. intros [= <-].
    destruct y. by eexists _, _.
Qed.

Lemma own_check_request s cr mode rq x x' answer :
  check_req s cr mode rq x = (x', Ret (Some answer)) → own_answer answer.
Proof.
  assert (∀ (b : bool) a, (if b then Some (SetUserValue RequestBlocked (UBool true) ;;; block_status s [])
    else None) = Some a → own_answer a) as Hblk.
  { intros [] a; [|done]. intros [= <-]. apply own_then. intros _. apply own_block. }
  unfold check_request. repeat case_match; try done.
  - intros ([rq' err] & x1 & _ & Hr)%bind_Ret. destruct err as [e|].
    + destruct (passed_error e).
      * apply bind_Ret in Hr as (? & ? & _ & (found & ? & _ & Hr)%bind_Ret).
        injection Hr as <- Ha. by eapply Hblk.
      * injection Hr as <- <-. apply own_refuse.
    + apply bind_Ret in Hr as (found & ? & _ & Hr). injection Hr as <- Ha. by eapply Hblk.
  - intros ([rq' err] & x1 & _ & (? & ? & _ & (? & ? & _ & Hr)%bind_Ret)%bind_Ret)%bind_Ret. done.
Qed.

(** The response of the backend is accepted by the validator. *)
Definition response_accepted (s : openapiWaf) (cr : CustomRoute) (rq : request) (rp : fresp) : Prop :=
  ∃ body, GetDecompressedBody d (fp_Body rp) (header_Get (fp_Header rp) "Content-Encoding") = Ok body
    ∧ ValidateResponse lib reg response_options (cr_Route cr)
        (MkResponseInput (rq_Method rq) (fp_Status rp) (resp_header rp) body) = Ret None.

Lemma check_response_block s cr mode rq x x' :
  to_lower mode = ValidationBlock → check_resp s cr mode (rq_Method rq) x = (x', Ret None) →
  (x' = x ∧ response_accepted s cr rq (cx_Response x)) ∨ ∃ st h, cx_Response x' = error_response st h.
Proof.
  intros Hm. unfold check_response. rewrite Hm, bind_get.
  change (ValidationBlock =?s ValidationBlock) with true. cbv iota.
  destruct (GetDecompressedBody _ _ _) as [body|] eqn:Hb.
  - intros ([e|] & x1 & Hv & Hr)%bind_Ret; [right; by eapply (proj2 (own_refuse s e))|].
    injection Hv as <- Hv. injection Hr as <-. left. split; [done|]. by exists body.
  - intros (? & ? & _ & Hr)%bind_Ret. done.
Qed.

(** C10: the response in block mode.  Whatever happens in the handler, panics and
    errors included, the client gets the response of the backend only if the
    validator accepts it; otherwise it gets an answer of the firewall with an
    empty body, or, when there is no connection to the backend, the response as
    it was before. *)
Theorem block_mode_response s cr x :
  ow_customRoute s = Some cr → cx_User x !! PassRequestOPTIONS ≠ Some (UBool true) →
  to_lower (modes s x).2 = ValidationBlock →
  let x' := (Errors (Panics (handler s)) x).1 in
  (∃ st h, cx_Response x' = error_response st h)
  ∨ (∃ rq do rp, ow_proxyPool s = Ok do ∧ convert d ConvertRequest cr x = Ret (Ok rq)
      ∧ do (with_host (pc_RequestHostHeader (ow_cfg s)) (cx_Request x)) = Ok rp
      ∧ cx_Response x' = rp ∧ response_accepted s cr rq rp)
  ∨ (∃ msg, ow_proxyPool s = Err msg ∧ cx_Response x' = cx_Response x).
Proof.
  intros Hcr Ho Hm. cbv zeta. rewrite Errors_Panics_run.
  assert (∀ y, ∃ st h, cx_Response (upd_Response (λ _, error_response 500 []) y) = error_response st h) as H500
    by (intros []; by eexists _, _).
  destruct (handler s x) as [x' [[[]|]|]] eqn:Hh; try (left; apply H500). simpl.
  rewrite (handler_validates s cr) in Hh by auto using block_validates.
  destruct (convert _ _ cr x) as [[rq|answer]|] eqn:Hc; [|left; by eapply (own_convert cr x)|done].
  destruct (keeps_sent_check s cr (modes s x).1 rq) as [_ Hq]. specialize (Hq x).
  pose proof (keeps_response_check s cr (modes s x).1 rq x) as Hp.
  destruct (check_req s cr (modes s x).1 rq x) as [x1 [[answer|]|]] eqn:Hk; [|clear Hk|done].
  { left. by eapply (own_check_request s cr _ _ _ _ _ Hk). }
  simpl in Hq, Hp. rewrite forward_run, Hq in Hh. destruct (ow_proxyPool s) as [do|msg]; [|right; right].
  - cbv zeta in Hh. destruct (do _) as [rp|e] eqn:Hdo; [|left].
    + apply check_response_block in Hh as [[-> Ha]|?]; [|by left|done].
      right; left. exists rq, do, rp. split_and!; try done; by destruct x1.
    + injection Hh as <-. destruct x1. by eexists _, _.
  - exists msg. split; [done|]. injection Hh as <-. rewrite <- Hp. apply resp_log.
Qed.

(** * Log mode *)

Lemma undefined_keeps_client s cr rq x x' b :
  undefined s cr rq x = (x', b) →
  cx_Sent x' = cx_Sent x ∧ cx_Request x' = cx_Request x ∧ cx_Response x' = cx_Response x.
Proof.
  intros Hu. split_and!; eapply keeps_run; try exact Hu;
    unfold undefined_parameters; solve_keeps; apply keeps_log; by intros ? [].
Qed.

(** The validators return: they do not panic on these inputs. *)
Definition validators_return (s : openapiWaf) (cr : CustomRoute) (rq : request) : Prop :=
  (∃ r, ValidateReq s cr rq = Ret r)
  ∧ (∀ fr h, ∃ r, ValidateUnknownRequestParameters lib reg (cr_Route cr) fr h = Ret r)
  ∧ (∀ ri, ∃ r, ValidateResponse lib reg response_options (cr_Route cr) ri = Ret r).

Lemma check_request_log s cr mode rq x :
  to_lower mode = ValidationLog → validators_return s cr rq →
  ∃ x', check_req s cr mode rq x = (x', Ret None)
    ∧ cx_Sent x' = cx_Sent x ∧ cx_Request x' = cx_Request x ∧ cx_Response x' = cx_Response x.
Proof.
  intros Hm ([[rq' err] Hv] & Hu & _). unfold check_request. rewrite Hm.
  change (ValidationLog =?s ValidationBlock) with false. change (ValidationLog =?s ValidationLog) with true. cbv iota.
  unfold validate_request. rewrite Hv, bind_lift.
  set (y := match err with Some _ => upd_Log (λ l, l ++ [LogError "Request validation error"]) x | None => x end).
  assert (cx_Sent y = cx_Sent x ∧ cx_Request y = cx_Request x ∧ cx_Response y = cx_Response x) as (Hy1 & Hy2 & Hy3)
    by (destruct err, x; done).
  assert (∃ y' b, undefined s cr rq' y = (y', Ret b)) as (y' & b & Hun).
  { unfold undefined_parameters. destruct (pc_UnknownParametersDetection (ow_cfg s)); [|by eexists _, _].
    rewrite bind_get. destruct (Hu (fast_of QueryArgs PostArgs (cx_Request y)) (in_Header (rq_Input rq')))
      as [[up w] ->]. rewrite bind_lift. destruct w, up; by eexists _, _. }
  exists y'. destruct (undefined_keeps_client _ _ _ _ _ _ Hun) as (E1 & E2 & E3).
  split; [|split_and!; congruence]. unfold y in Hun.
  destruct err; unfold log; rewrite ?bind_modify, ?bind_ret; by rewrite (bind_run _ _ _ _ _ Hun).
Qed.

Lemma check_response_log s cr mode rq x :
  to_lower mode = ValidationLog → validators_return s cr rq →
  is_ok (GetDecompressedBody d (fp_Body (cx_Response x))
           (header_Get (fp_Header (cx_Response x)) "Content-Encoding")) = true →
  ∃ x', check_resp s cr mode (rq_Method rq) x = (x', Ret None)
    ∧ cx_Sent x' = cx_Sent x ∧ cx_Response x' = cx_Response x.
Proof.
  intros Hm (_ & _ & Hv) Hok. unfold check_response. rewrite bind_get, Hm.
  change (ValidationLog =?s ValidationBlock) with false. change (ValidationLog =?s ValidationLog) with true. cbv iota.
  destruct (GetDecompressedBody _ _ _) as [body|]; [|done].
  destruct (Hv (MkResponseInput (rq_Method rq) (fp_Status (cx_Response x)) (resp_header (cx_Response x)) body))
    as [err ->]. rewrite bind_lift.
  destruct err as [[]|]; try (eexists; split; [reflexivity|]; by destruct x).
  destruct (_ =?s _); eexists; (split; [reflexivity|]); by destruct x.
Qed.

(** C15: log mode changes nothing for the client and the backend.  When request
    and response validation only log, the validators return and the body of the
    response can be decompressed, the handler sends the request and gives the response exactly as
    it does with the validation disabled, whether the request and the response
    are valid or not. *)
Theorem log_mode_transparent s cr x rq :
  ow_customRoute s = Some cr → cx_User x !! PassRequestOPTIONS ≠ Some (UBool true) →
  to_lower (modes s x).1 = ValidationLog → to_lower (modes s x).2 = ValidationLog →
  convert d ConvertRequest cr x = Ret (Ok rq) → validators_return s cr rq →
  (∀ do rp, ow_proxyPool s = Ok do → do (with_host (pc_RequestHostHeader (ow_cfg s)) (cx_Request x)) = Ok rp →
     is_ok (GetDecompressedBody d (fp_Body rp) (header_Get (fp_Header rp) "Content-Encoding")) = true) →
  let x' := (handler s x).1 in let y := (forward s x).1 in
  (handler s x).2 = Ret None ∧ cx_Sent x' = cx_Sent y ∧ cx_Response x' = cx_Response y.
Proof.
  intros Hcr Ho Hm1 Hm2 Hc Hv Hd. cbv zeta.
  rewrite (handler_validates s cr) by
    (first [done | split; [done|]; unfold equal_fold; rewrite !eqb_str_true, Hm1, Hm2; by intros [? _]]).
  rewrite Hc. destruct (check_request_log s cr (modes s x).1 rq x Hm1 Hv) as (x1 & -> & E1 & E2 & E3).
  rewrite !forward_run, E2. destruct (ow_proxyPool s) as [do|msg]; cbv zeta.
  - specialize (Hd do). destruct (do _) as [rp|e].
    + set (z := upd_Response (λ _, rp) (sent_one _ x1)).
      destruct (check_response_log s cr (modes s x).2 rq z Hm2 Hv) as (x2 & -> & F1 & F2);
        [unfold z; destruct x1; by apply Hd|].
      simpl. rewrite F1, F2. unfold z. rewrite !sent_response, !sent_one_sent, E1, E2. by destruct x1, x.
    + simpl. rewrite !sent_log, !sent_response, !sent_user, !sent_one_sent, E1, E2. by destruct x1, x.
  - simpl. rewrite !sent_log, !resp_log. done.
Qed.

(** * The application *)

Section Application.
Context `{RegexpPkg} `{CachePkg} `{CorazaPkg}.
Context (graphql_error : gostring → gostring) (ConnectionUpgrade : http_Header → bool)
  (uri_String : freq → gostring) (uri_resolve : freq → gostring → gostring).

Notation middlewares := (proxy_middlewares graphql_error ConnectionUpgrade uri_String uri_resolve).
Notation app := (proxy_app lib reg json_Unmarshal bodyEncoders d ConvertRequest QueryArgs PostArgs
  graphql_error ConnectionUpgrade uri_String uri_resolve).
Notation add := (add_route lib reg json_Unmarshal bodyEncoders d ConvertRequest QueryArgs PostArgs).

(** The registrations of the routes. *)
Definition route_reg (cfg : pconfig) (e : proxy_env) (a : App) (cr : CustomRoute) : option registration :=
  match pe_routePath e (cr_Path cr) with
  | Err _ => None
  | Ok path =>
      Some (Registration (cr_Method cr) path (endpoint_actions (pc_Endpoints cfg) path (cr_Method cr))
              (Some (app_handler a [] (handler (route_waf cfg e cr)))))
  end.

Lemma proxy_app_parts mt cfg e routes :
  let a := NewApp (MkAppOptions (pc_Mode cfg) (pc_PassOptionsRequests cfg)
                     (handler (default_waf cfg e))) (middlewares cfg e) in
  app_Router (app mt cfg e routes) = mux_run mt (omap (route_reg cfg e a) routes)
  ∧ app_mw (app mt cfg e routes) = app_mw a ∧ app_Options (app mt cfg e routes) = app_Options a.
Proof.
  intros a. unfold proxy_app. fold a.
  induction routes as [|cr routes IH] using rev_ind; [done|].
  rewrite fold_left_app. cbn [fold_left]. destruct IH as (Hr & Hm & Ho).
  rewrite omap_app. cbn [omap list_omap]. unfold add_route at 1 3 5, route_reg at 2.
  destruct (pe_routePath e (cr_Path cr)) as [path|]; [|by rewrite app_nil_r].
  rewrite mux_run_snoc. unfold mux_add. cbn [reg_method reg_pattern reg_actions reg_handler]. unfold Handle.
  assert (∀ a1 a2 h, app_mw a1 = app_mw a2 → app_handler a1 [] h = app_handler a2 [] h) as Hh
    by (intros a1 a2 h Ha; unfold app_handler; by rewrite Ha).
  rewrite Hr, (Hh _ a _ Hm).
  destruct (AddEndpointWithActions _ _ _ _ _ _) as [mx err]. done.
Qed.

(** The context in which the handler of a route runs. *)
Definition admitted (cfg : pconfig) (e : proxy_env) (x1 : reqctx) : Prop :=
  ip_allowed (ip_options cfg e) x1 ∧ token_allowed (token_options cfg e) x1
  ∧ waf_passes uri_String uri_resolve (modsec_options cfg e) x1.

Lemma reaches_app_handler cfg e a h :
  app_mw a = middlewares cfg e →
  reaches (app_handler a [] h) h
    (λ x x1, ∃ uuid, (equal_fold (pc_RequestValidation cfg) ValidationBlock = true →
                        cx_User x !! RequestID = Some (UStr uuid))
       ∧ x1 = upd_Request (proxied ConnectionUpgrade (proxy_options cfg e) uuid (RemoteIP x)) x
       ∧ admitted cfg e x1).
Proof.
  intros Ha. unfold app_handler. rewrite Ha, !WrapMiddleware_foldr.
  intros x. pose proof (reaches_trans _ _ _ _ _ (reaches_Logger (pe_trace e) _)
    (reaches_trans _ _ _ _ _ (reaches_Errors _)
    (reaches_trans _ _ _ _ _ (reaches_Panics _)
    (reaches_trans _ _ _ _ _ (reaches_Proxy ConnectionUpgrade (proxy_options cfg e) _)
    (reaches_trans _ _ _ _ _ (reaches_IPAllowlist graphql_error (ip_options cfg e) _)
    (reaches_trans _ _ _ _ _ (reaches_Denylist graphql_error (token_options cfg e) _)
    (reaches_trans _ _ _ _ _ (reaches_WAF uri_String uri_resolve (modsec_options cfg e) _)
      (reaches_Shadow (pc_ShadowExcludeList cfg) h)))))))) as Hr.
  unfold proxy_middlewares. cbn [map foldr apply_mw].
  assert (∀ c : Handler, reaches (err <-- c ;; match err with
            | Some e0 => SignalShutdown ;;; cmd_ret (Some e0) | None => cmd_ret None end) c eq) as Hsig.
  { intros c. apply reaches_after. intros []; unfold SignalShutdown; solve_keeps. }
  destruct (reaches_trans _ _ _ _ _ (Hsig _) Hr x) as [Hn|(x1 & HR & Hs & Hc)]; [left; exact Hn|].
  right. exists x1. split; [|split; [exact Hs|exact Hc]].
  destruct HR as (? & <- & ? & <- & ? & <- & ? & <- & ? & (uuid & Hid & ->) & ? & [-> Hip] & ? & [-> Htok]
    & ? & [-> Hwaf] & <-).
  by exists uuid.
Qed.

(** A request whose validation is skipped is forwarded, if there is a backend. *)
Lemma passed_sent s x :
  cx_User x !! PassRequestOPTIONS = Some (UBool true) →
  cx_Sent (handler s x).1 = cx_Sent x
  ∨ cx_Sent (handler s x).1 = cx_Sent x ++ [with_host (pc_RequestHostHeader (ow_cfg s)) (cx_Request x)].
Proof.
  intros Ho. unfold openapiWafHandler. rewrite bind_get, Ho. destruct (modes s x) as [m1 m2].
  match goal with |- context [if ?b then _ else _] => change b with true end. cbv iota. unfold cmd_bind. pose proof (forward_sent s x) as Hf. revert Hf. by destruct (forward s x) as [x' [b|]].
Qed.

(** A request without route is not forwarded in block mode. *)
Lemma no_route_sent s x :
  ow_customRoute s = None → cx_User x !! PassRequestOPTIONS ≠ Some (UBool true) →
  to_lower (modes s x).1 = ValidationBlock ∨ to_lower (modes s x).2 = ValidationBlock →
  cx_Sent (handler s x).1 = cx_Sent x.
Proof.
  intros Hcr Ho Hm. destruct (block_validates s x Ho Hm) as [_ Hd].
  unfold openapiWafHandler. rewrite bind_get, Hcr. destruct (modes s x) as [m1 m2]. simpl in *.
  assert ((match cx_User x !! PassRequestOPTIONS with Some (UBool b) => b | _ => false end
           || (equal_fold m1 ValidationDisable && equal_fold m2 ValidationDisable)) = false) as ->.
  { apply orb_false_iff. split; [destruct (cx_User x !! PassRequestOPTIONS) as [[[]| | | | | |]|]; done|].
    apply not_true_is_false. by intros ?%andb_prop. }
  unfold no_route. assert (equal_fold m1 ValidationBlock || equal_fold m2 ValidationBlock = true) as ->.
  { unfold equal_fold. destruct Hm as [-> | ->]; [done|]. by rewrite orb_true_r. }
  unfold SetUserValue. rewrite bind_modify. unfold block_status.
  rewrite (keeps_RespondError cx_Sent) by auto with apifw. apply sent_user.
Qed.

(** All modes of the requests are to block. *)
Definition blocking (cfg : pconfig) : Prop :=
  to_lower (pc_RequestValidation cfg) = ValidationBlock
  ∧ Forall (λ ep, to_lower (vm_RequestValidation (ep_ValidationMode ep)) = ValidationBlock) (pc_Endpoints cfg).

Lemma endpoint_actions_block cfg path method acts :
  blocking cfg → endpoint_actions (pc_Endpoints cfg) path method = Some acts →
  to_lower (act_Request acts) = ValidationBlock.
Proof.
  intros [_ Hall]. unfold endpoint_actions.
  assert (∀ o, (∀ a, o = Some a → to_lower (act_Request a) = ValidationBlock) →
    ∀ a, fold_left (λ acts ep,
      if equal_fold (ep_Path ep) path && (is_empty (ep_Method ep) || equal_fold method (ep_Method ep))
      then Some (MkActions (vm_RequestValidation (ep_ValidationMode ep)) (vm_ResponseValidation (ep_ValidationMode ep)))
      else acts) (pc_Endpoints cfg) o = Some a → to_lower (act_Request a) = ValidationBlock) as Hfold.
  { induction Hall as [|ep eps Hep _ IH]; intros o Ho a; [apply Ho|]. apply IH. intros a'.
    case_match; [|apply Ho]. by intros [= <-]. }
  by apply Hfold.
Qed.

(** The path parameters of the request that is validated are those of the context. *)
Lemma convert_params cr pattern path keys vs rctx x rq :
  captured pattern path keys vs rctx → cx_User x !! RouteCtxKey = Some (URoute rctx) →
  convert d ConvertRequest cr x = Ret (Ok rq) →
  in_PathParams (rq_Input rq) = if (0 <? cr_ParametersNumberInPath cr)%Z then list_to_map (zip keys vs) else ∅.
Proof.
  intros Hc Hu. unfold convert. rewrite Hu, (captured_params _ _ _ _ _ Hc).
  destruct (0 <? cr_ParametersNumberInPath cr)%Z; cbn [obind];
    destruct (ConvertRequest _) as [rq0|]; try done; cbv zeta; case_match; try done; intros [= <-]; by destruct rq0.
Qed.

(** A request of block mode that reaches the backend: it was received for a method
    and a path that match a route, it is admitted and accepted in the context [x1]
    in which the handler runs, and what is sent is the one request the proxy makes
    of it.  [x1] is the context of the client itself (its address, and the request
    with the headers the proxy sets), with the parameters that the path gives the
    pattern, and those are the path parameters that are validated. *)
Definition block_forwarded (mt : method_table) (cfg : pconfig) (e : proxy_env) (routes : list CustomRoute)
    (uuid : gostring) (x x' x1 : reqctx) : Prop :=
  ∃ cr path m keys vs rctx rq, cr ∈ routes
    ∧ pe_routePath e (cr_Path cr) = Ok path
    ∧ methodMap mt !! fq_Method (cx_Request x) = Some m ∧ methodMap mt !! to_upper (cr_Method cr) = Some m
    ∧ captured path (fq_Path (cx_Request x)) keys vs rctx
    ∧ x1 = upd_Request (proxied ConnectionUpgrade (proxy_options cfg e) uuid (RemoteIP x))
             (routed uuid (endpoint_actions (pc_Endpoints cfg) path (cr_Method cr)) rctx x)
    ∧ admitted cfg e x1
    ∧ convert d ConvertRequest cr x1 = Ret (Ok rq)
    ∧ in_PathParams (rq_Input rq) = (if (0 <? cr_ParametersNumberInPath cr)%Z then list_to_map (zip keys vs) else ∅)
    ∧ request_accepted (route_waf cfg e cr) cr (cx_Request x1) rq
    ∧ cx_Sent x' = cx_Sent x ++ [with_host (pc_RequestHostHeader cfg) (cx_Request x1)].

(** An OPTIONS request without a route, where they are passed. *)
Definition options_passed (mt : method_table) (cfg : pconfig) (e : proxy_env) (routes : list CustomRoute)
    (x x' : reqctx) : Prop :=
  pc_PassOptionsRequests cfg = true ∧ fq_Method (cx_Request x) = str "OPTIONS"
  ∧ (∃ rctx, FindWithActions mt (app_Router (app mt cfg e routes)) NewRouteContext
               (fq_Method (cx_Request x)) (fq_Path (cx_Request x)) = Ret (rctx, None, None))
  ∧ cx_Sent x' = cx_Sent x ++ [with_host (pc_RequestHostHeader cfg) (cx_Request x)].

Lemma block_route_sent mt cfg e routes uuid x x' a cr path m keys vs rctx :
  app_mw a = middlewares cfg e → blocking cfg → cx_User x = ∅ → cr ∈ routes →
  pe_routePath e (cr_Path cr) = Ok path →
  methodMap mt !! fq_Method (cx_Request x) = Some m → methodMap mt !! to_upper (cr_Method cr) = Some m →
  captured path (fq_Path (cx_Request x)) keys vs rctx →
  let y := routed uuid (endpoint_actions (pc_Endpoints cfg) path (cr_Method cr)) rctx x in
  cx_Sent x' = cx_Sent (app_handler a [] (handler (route_waf cfg e cr)) y).1 →
  cx_Sent x' = cx_Sent x ∨ ∃ x1, block_forwarded mt cfg e routes uuid x x' x1.
Proof.
  intros Ha Hbl Hu Hcr Hpath Hm1 Hm2 Hcap y Hx'. pose proof Hbl as [Hblock _].
  assert (cx_Sent y = cx_Sent x ∧ RemoteIP y = RemoteIP x ∧ cx_User y !! RequestID = Some (UStr uuid)
    ∧ cx_User y !! RouteCtxKey = Some (URoute rctx) ∧ cx_User y !! PassRequestOPTIONS = None
    ∧ cx_User y !! EndpointActions = UActions <$> endpoint_actions (pc_Endpoints cfg) path (cr_Method cr))
    as (Hs0 & Hip & Hid0 & Hrc & Hop & Hea).
  { unfold y, routed, looked_up. destruct x; simpl in *; subst.
    destruct (endpoint_actions _ _ _); simpl; split_and!; try done; by simplify_map_eq. }
  destruct (reaches_app_handler cfg e a (handler (route_waf cfg e cr)) Ha y)
    as [Hn|(x1 & (id & Hid & Hx1 & Hadm) & Hs & Hc)]; [left; congruence|].
  assert (id = uuid) as ->.
  { unfold equal_fold in Hid. rewrite Hblock, Hid0 in Hid. by injection (Hid eq_refl). }
  assert (cx_User x1 = cx_User y) as Hus by by rewrite Hx1; destruct y.
  destruct (handler_sent_block (route_waf cfg e cr) cr x1) as [Hn|(rq & Hcv & Hacc & Hone)];
    [done|by rewrite Hus, Hop| |left; congruence|].
  { unfold modes. rewrite Hus, Hea. destruct (endpoint_actions _ _ _) eqn:E; [|done]. by eapply endpoint_actions_block. }
  right. exists x1, cr, path, m, keys, vs, rctx, rq. rewrite <- Hip. split_and!; try done.
  - eapply convert_params; [done| |done]. by rewrite Hus.
  - rewrite Hx', Hc, Hone, Hs, Hs0. done.
Qed.

Lemma block_sent mt cfg e routes uuid x :
  table_ok mt → blocking cfg → cx_User x = ∅ →
  let x' := (MainHandler mt (app mt cfg e routes) uuid x).1 in
  cx_Sent x' = cx_Sent x ∨ (∃ x1, block_forwarded mt cfg e routes uuid x x' x1)
  ∨ options_passed mt cfg e routes x x'.
Proof.
  intros Hmt Hbl Hu x'. pose proof Hbl as [Hblock _].
  destruct (proxy_app_parts mt cfg e routes) as (Hr & Hmw & Hopt).
  match type of Hr with context [route_reg cfg e ?a] => set (a0 := a) in * end.
  destruct (FindWithActions_registered mt (omap (route_reg cfg e a0) routes)
              (fq_Method (cx_Request x)) (fq_Path (cx_Request x)) Hmt) as (rctx & h & acts & Hf & Hh).
  rewrite <- Hr in Hf. pose proof (MainHandler_sent _ _ uuid _ _ _ _ Hf) as Hx'. rewrite Hopt in Hx'.
  fold x' in Hx'. destruct h as [h|].
  - destruct Hh as (rg & m & keys & vs & Hin & Hrh & Hra & Hm1 & Hm2 & Hcap).
    apply list_elem_of_omap in Hin as (cr & Hcr & Hreg). unfold route_reg in Hreg.
    destruct (pe_routePath e (cr_Path cr)) as [path|] eqn:Hpath; [|done].
    injection Hreg as <-. cbn [reg_handler reg_actions reg_method reg_pattern] in *.
    injection Hrh as <-. subst acts.
    destruct (block_route_sent mt cfg e routes uuid x x' a0 cr path m keys vs rctx) as [Hn|Hfw]; auto.
  - subst acts. unfold a0 in Hx'. cbn [app_Options NewApp ao_PassOptions ao_Mode ao_DefaultHandler] in Hx'.
    destruct (pc_PassOptionsRequests cfg && _) eqn:Hpo.
    + apply andb_prop in Hpo as [Hpass Hmeth%eqb_str_true].
      destruct (passed_sent (default_waf cfg e) (upd_User (<[PassRequestOPTIONS := UBool true]>) (looked_up uuid None x)))
        as [Hn|Hn]; [destruct x; simpl; by simplify_map_eq|left; rewrite Hx', Hn; by destruct x|].
      right; right. split_and!; [done..|by exists rctx|]. rewrite Hx', Hn. by destruct x.
    + left. destruct (pc_Mode cfg =?s GraphQLMode); [done|].
      rewrite Hx', no_route_sent; [rewrite sent_log; apply looked_up_sent|done| |left].
      * destruct x; simpl in *; subst. by simplify_map_eq.
      * unfold modes. destruct x; simpl in *; subst. by simplify_map_eq.
Qed.


(** C35: requests for paths that are not in the specification.  Unless one of the
    modes blocks, such a request is sent to the backend as it was received: the
    default handler runs without the middlewares, so neither the allow list, the
    deny list and the ModSecurity rules are consulted, nor are the host, the
    scheme and the headers of the request changed. *)
Theorem unknown_path_forwarded mt cfg e routes uuid x do :
  pe_pool e = Ok do → cx_User x = ∅ → pc_Mode cfg ≠ GraphQLMode →
  equal_fold (pc_RequestValidation cfg) ValidationBlock = false →
  equal_fold (pc_ResponseValidation cfg) ValidationBlock = false →
  (∃ rctx, FindWithActions mt (app_Router (app mt cfg e routes)) NewRouteContext
             (fq_Method (cx_Request x)) (fq_Path (cx_Request x)) = Ret (rctx, None, None)) →
  cx_Sent (MainHandler mt (app mt cfg e routes) uuid x).1
  = cx_Sent x ++ [with_host (pc_RequestHostHeader cfg) (cx_Request x)].
Proof.
  intros Hpool Hu Hmode Hb1 Hb2 [rctx Hf].
  destruct (proxy_app_parts mt cfg e routes) as (_ & _ & Hopt).
  rewrite (MainHandler_sent _ _ uuid _ _ _ _ Hf), Hopt.
  cbn [app_Options NewApp ao_PassOptions ao_Mode ao_DefaultHandler].
  assert (∀ y, cx_Sent y = cx_Sent x → cx_Request y = cx_Request x →
    modes (default_waf cfg e) y = (pc_RequestValidation cfg, pc_ResponseValidation cfg) →
    cx_Sent (handler (default_waf cfg e) y).1
    = cx_Sent x ++ [with_host (pc_RequestHostHeader cfg) (cx_Request x)]) as Hdef.
  { intros y Hs Hq Hmd. unfold openapiWafHandler. rewrite bind_get, Hmd.
    assert (∀ z, cx_Sent z = cx_Sent x → cx_Request z = cx_Request x →
      cx_Sent ((_ <-- forward (default_waf cfg e) ;; cmd_ret (A := option herr) None) z).1
      = cx_Sent x ++ [with_host (pc_RequestHostHeader cfg) (cx_Request x)]) as Hfw.
    { intros z Hz1 Hz2. unfold cmd_bind. rewrite forward_run. unfold default_waf.
      cbn [ow_proxyPool ow_cfg]. rewrite Hpool. cbv zeta.
      destruct (do _); simpl; rewrite ?sent_log, ?sent_response, ?sent_user, sent_one_sent; congruence. }
    destruct (_ || _); [by apply Hfw|]. cbn [ow_customRoute default_waf].
    unfold no_route, SetUserValue. rewrite Hb1, Hb2, bind_modify. simpl orb. cbv iota.
    apply Hfw; [by rewrite sent_user|by destruct y]. }
  rewrite (proj2 (eqb_str_false _ _) Hmode).
  destruct (pc_PassOptionsRequests cfg && _); (apply Hdef;
    [by destruct x|by destruct x|unfold modes; destruct x; simpl in *; subst; by simplify_map_eq]).
Qed.
End Application.
End ProxySpec.
