(* ===== verification/ProxyExamples.v ===== *)
(** A proxy for a small specification, with concrete libraries: the witnesses of
    the properties of proxy mode. *)
From S2P Require Import Prelude Cmd GoStrings Config RouterPattern RouterTree RouterFind RouterMux RouterSpec Values URLValues Messages ParamDecoder ParamDecoderSpec BodyDecoder BodyDecoderSpec Validate ValidateSpec Unknown APIErrors APIMode APIModeSpec NetIP AccessLists AccessListsSpec Web Mid MidSpec ProxyHandler ProxySpec.

#[local] Existing Instances no_floats plain_fmt typed_schemas plain_filter digits_regexp set_cache.

(** Rules that interrupt requests whose URI is "/admin". *)
#[local] Instance admin_rules : CorazaPkg := {|
  tx := bool;
  IsRuleEngineOff _ := false;
  ProcessConnection _ _ t := t;
  ProcessURI u _ _ t := u =?s "/admin";
  AddRequestHeader _ _ t := t;
  SetServerName _ t := t;
  ProcessRequestHeaders t := (t, if t then Some (MkInterruption 1 "deny" 0 []) else None);
  IsRequestBodyAccessible _ := false;
  ReadRequestBodyFrom _ t := (t, Ok None);
  ProcessRequestBody t := (t, Ok None);
  AddResponseHeader _ _ t := t;
  ProcessResponseHeaders _ _ t := (t, None);
  IsResponseBodyAccessible _ := false;
  IsResponseBodyProcessable _ := false;
  ReadResponseBodyFrom _ t := (t, Ok None);
  ProcessResponseBody t := (t, Ok None);
  request_body_nil rq := is_empty (fq_Body rq);
  response_body_nil rp := is_empty (fp_Body rp)
|}.

Definition convert_pet (r : freq) : result gostring request :=
  Ok (MkRequest (fq_Method r) (fq_Query r) (MkInput ∅ [] (fq_Header r) (fq_Cookies r)) (Data (fq_Body r))
        (Z.of_nat (length (fq_Body r))) None).

Definition pet_custom : CustomRoute := MkCustomRoute pet_route "/pets/{id}" "POST" 1.
(** An operation without parameters and body. *)
Definition list_custom : CustomRoute :=
  MkCustomRoute (MkRoute [] [] None None [] [] 0 (λ _, None) None) "/pets" "GET" 0.

Definition pet_backend : pool := Ok (λ _, Ok (MkFresp 200 ∅ "pet")).

Definition pet_config (mode : gostring) : pconfig :=
  MkPConfig ProxyMode false mode mode 403 true false [] [] false [] [] [].

Definition pet_env : proxy_env :=
  MkProxyEnv "http" "backend" Ok pet_backend [] None [] [] false None (Some (λ _, false)) None false.

Definition pet_req (method path : gostring) : freq :=
  MkFreq method "http" "localhost" "localhost" path [] "HTTP/1.1"
    (<[str "X-Key" := [str "k"]]> pet_header) [] "{}".
Definition pet_ctx (method path : gostring) : reqctx :=
  MkCtx (pet_req method path) (MkFresp 200 ∅ []) ∅ "10.0.0.1:4242" (Some (str "10.0.0.1")) [] [] 0.

Definition pet_app (mode : gostring) : App :=
  proxy_app no_lib default_registry (λ _, None) ∅ no_unzip convert_pet (λ _, []) (λ _, [])
    (λ e, e) (λ _, false) fq_Path (λ _ u, u) default_methods (pet_config mode) pet_env
    [pet_custom; list_custom].

Notation accepted := (request_accepted no_lib default_registry (λ _, None) ∅ (λ _, []) (λ _, [])).


Lemma unknown_path_forwarded_witness :
  cx_Sent (MainHandler default_methods (pet_app "LOG_ONLY") "id" (pet_ctx "GET" "/admin")).1
  = [pet_req "GET" "/admin"].
Proof.
  refine (unknown_path_forwarded no_lib default_registry (λ _, None) ∅ no_unzip convert_pet (λ _, []) (λ _, [])
    (λ e, e) (λ _, false) fq_Path (λ _ u, u) default_methods (pet_config "LOG_ONLY") pet_env
    [pet_custom; list_custom] "id" (pet_ctx "GET" "/admin") (λ _, Ok (MkFresp 200 ∅ "pet")) _ _ _ _ _ _);
    [reflexivity|reflexivity|discriminate|reflexivity|reflexivity|].
  eexists. vm_compute. reflexivity.
Defined.

Notation pet_waf mode cr := (MkWaf (Some cr) pet_backend (pet_config mode) None).
Notation pet_handler := (openapiWafHandler no_lib default_registry (λ _, None) ∅ no_unzip convert_pet
  (λ _, []) (λ _, [])).

Lemma block_mode_response_witness :
  ∃ rq, response_accepted no_lib default_registry no_unzip (pet_waf "BLOCK" list_custom) list_custom rq
          (MkFresp 200 ∅ "pet").
Proof.
  destruct (block_mode_response no_lib default_registry (λ _, None) ∅ no_unzip convert_pet (λ _, []) (λ _, [])
    (pet_waf "BLOCK" list_custom) list_custom (pet_ctx "GET" "/pets"))
    as [(st & h & Hr)|[(rq & do & rp & [= <-] & _ & [= <-] & _ & Ha)|(msg & Hp & _)]];
    [reflexivity|discriminate|reflexivity| | |discriminate Hp].
  - exfalso. apply (f_equal fp_Body) in Hr. vm_compute in Hr. discriminate Hr.
  - by exists rq.
Defined.

Lemma log_mode_transparent_witness :
  cx_Response (pet_handler (pet_waf "LOG_ONLY" list_custom) (pet_ctx "GET" "/pets")).1 = MkFresp 200 ∅ "pet".
Proof.
  destruct (log_mode_transparent no_lib default_registry (λ _, None) ∅ no_unzip convert_pet (λ _, []) (λ _, [])
    (pet_waf "LOG_ONLY" list_custom) list_custom (pet_ctx "GET" "/pets")
    (MkRequest "GET" [] (MkInput ∅ [] (fq_Header (pet_req "GET" "/pets")) []) (Data "{}") 2 None))
    as (_ & _ & ->); try reflexivity; try discriminate.
  - split; [eexists; vm_compute; reflexivity|]. split; [by intros; eexists|].
    intros [m st h b]. unfold ValidateResponse. simpl. case_match; by eexists.
  - intros do rp [= <-] [= <-]. reflexivity.
Defined.

(** The method of an endpoint keeps the space after a comma of the list, and no
    request has such a method: the setting of the second endpoint is not used. *)
Lemma spaced_method_ignored :
  let l := (EndpointList_Set [] "GET:/a|BLOCK|BLOCK, POST:/b|DISABLE|DISABLE").1 in
  endpoint_actions l "/a" "GET" = Some (MkActions "BLOCK" "BLOCK") ∧ endpoint_actions l "/b" "POST" = None.
Proof. by vm_compute. Qed.
