(* ===== verification/Backend.v ===== *)
(** Connections to the backend (internal/platform/proxy: loadbalancer.go,
    pool_v2.go, tls.go, dnscache.go). *)
From S2P Require Import Prelude Cmd GoStrings NetIP Web.

(** * Machine integers *)

(** [uint64] addition, and the conversion to and the addition of [int], which
    wrap around. *)
Definition uint64_add (a b : Z) : Z := ((a + b) mod 2 ^ 64)%Z.
Definition to_int (z : Z) : Z := (if 2 ^ 63 <=? z mod 2 ^ 64 then z mod 2 ^ 64 - 2 ^ 64 else z mod 2 ^ 64)%Z.
Definition int_add (a b : Z) : Z := to_int (a + b).

(** * The load balancer *)

Record LoadBalancer := MkLB {
  lb_backends : list gostring;
  lb_healthy : list bool;
  lb_current : Z;
  lb_stopped : bool;
  lb_running : bool
}.

(** [NewLoadBalancer]: all the backends are healthy; the health checks run when
    there is an interval and a backend. *)
Definition NewLoadBalancer (Backends : list gostring) (HealthCheckInterval : Z) : LoadBalancer :=
  MkLB Backends (replicate (length Backends) true) 0 false
    ((0 <? HealthCheckInterval)%Z && (0 <? Z.of_nat (length Backends))%Z).

(** An index expression. *)
Definition index {A} (l : list A) (i : Z) : outcome A :=
  if (i <? 0)%Z then Panic
  else match l !! Z.to_nat i with Some a => Ret a | None => Panic end.

(** The loop of [Next]: [loads i idx] is what the [i]th load of the flag [idx]
    gives, since other goroutines store to the flags during the loop.  The result
    is [None] when all the flags were false. *)
Fixpoint next_loop (lb : LoadBalancer) (loads : nat → Z → bool) (n start : Z) (i left : nat)
  : outcome (option gostring) :=
  match left with
  | 0 => Ret None
  | S left' =>
      let idx := Z.rem (int_add start (Z.of_nat i)) n in
      _ <-! index (lb_healthy lb) idx ;;
      if loads i idx then b <-! index (lb_backends lb) idx ;; Ret (Some b)
      else next_loop lb loads n start (S i) left'
  end.

Definition set_current (c : Z) (lb : LoadBalancer) : LoadBalancer :=
  let '(MkLB b h _ s r) := lb in MkLB b h c s r.

Definition Next_with (loads : nat → Z → bool) (lb : LoadBalancer) : LoadBalancer * outcome gostring :=
  match lb_backends lb with
  | [] => (lb, Ret [])
  | [b] => (lb, Ret b)
  | _ =>
      let n := Z.of_nat (length (lb_backends lb)) in
      let start := uint64_add (lb_current lb) 1 in
      (set_current start lb,
       r <-! next_loop lb loads n (to_int start) 0 (length (lb_backends lb)) ;;
       match r with
       | Some b => Ret b
       | None => index (lb_backends lb) (Z.rem (to_int start) n)
       end)
  end.

(** The loads when no other goroutine stores. *)
Definition flags (lb : LoadBalancer) : nat → Z → bool :=
  λ _ idx, default false (lb_healthy lb !! Z.to_nat idx).
Definition Next (lb : LoadBalancer) : LoadBalancer * outcome gostring := Next_with (flags lb) lb.

Definition GetHealthyCount (lb : LoadBalancer) : nat := length (List.filter id (lb_healthy lb)).
Definition GetBackends (lb : LoadBalancer) : list gostring := lb_backends lb.
Definition IsHealthy (lb : LoadBalancer) (idx : Z) : bool :=
  if (idx <? 0)%Z || (Z.of_nat (length (lb_healthy lb)) <=? idx)%Z then false
  else default false (lb_healthy lb !! Z.to_nat idx).
Definition SetHealthy (idx : Z) (healthy : bool) (lb : LoadBalancer) : LoadBalancer :=
  let '(MkLB b h c s r) := lb in
  if (0 <=? idx)%Z && (idx <? Z.of_nat (length h))%Z
  then MkLB b (<[Z.to_nat idx := healthy]> h) c s r else lb.

(** [checkAll]: every flag is the answer of the probe; the changes are logged. *)
Definition checkAll (probe : gostring → bool) (lb : LoadBalancer) : LoadBalancer * list logev :=
  let '(MkLB b h c s r) := lb in
  (MkLB b (map probe b) c s r,
   concat (zip_with (λ backend was,
     if Bool.eqb (probe backend) was then []
     else [if probe backend then LogInfo "Backend became healthy" else LogWarn "Backend became unhealthy"]) b h)).

Definition LB_Stop (lb : LoadBalancer) : LoadBalancer :=
  let '(MkLB b h c s r) := lb in if s then lb else MkLB b h c true false.

(** * The pool *)

Definition JoinHostPort (host port : gostring) : gostring :=
  if bool_decide (":"%char ∈ host) || bool_decide ("%"%char ∈ host)
  then str "[" ++ host ++ "]:" ++ port else host ++ ":" ++ port.

Definition is_v4 (ip : list Z) : bool := bool_decide (take 12 ip = v4InV6Prefix).

(** The backends of [NewPoolV2]: the configured ones, or the IPv4 addresses of
    the host, or its IPv6 addresses, or the host itself. *)
Definition pool_backends (hostAddr port : gostring) (Backends : list gostring) (ips : list (list Z))
  : list gostring :=
  match Backends with
  | _ :: _ => Backends
  | [] =>
      match List.filter is_v4 ips with
      | (_ :: _) as v4 => map (λ ip, JoinHostPort (IP_String ip) port) v4
      | [] =>
          match ips with
          | _ :: _ => map (λ ip, JoinHostPort (IP_String ip) port) ips
          | [] => [hostAddr]
          end
      end
  end.

Record PoolV2 := MkPoolV2 {
  pl_lb : LoadBalancer;
  pl_closed : bool;
  pl_host : gostring;
  pl_port : gostring;
  pl_hostPort : gostring
}.

(** [BuildTLSConfig]: [readCA] is the reading of the file and [appendCerts] tells
    whether it has certificates. *)
Definition BuildTLSConfig (readCA : gostring → result gostring gostring) (appendCerts : gostring → bool)
    (insecure : bool) (rootCA : gostring) : result gostring bool :=
  match rootCA with
  | [] => Ok insecure
  | _ =>
      match readCA rootCA with
      | Err e => Err (str "failed to read root CA " ++ rootCA ++ ": " ++ e)
      | Ok certs =>
          if appendCerts certs then Ok insecure else Err (str "failed to append root CA certificates")
      end
  end.

Definition NewPoolV2 (LookupIP : gostring → result gostring (list (list Z))) (tls : result gostring bool)
    (hostAddr : gostring) (Backends : list gostring) (HealthCheckInterval : Z) : result gostring PoolV2 :=
  match SplitHostPort hostAddr with
  | Err e => Err (str "invalid host address: " ++ e)
  | Ok (host, port) =>
      match tls with
      | Err e => Err (str "failed to build TLS config: " ++ e)
      | Ok _ =>
          let ips := match Backends with [] => LookupIP host | _ => Ok [] end in
          match ips with
          | Err e => Err (str "failed to resolve host: " ++ e)
          | Ok ips =>
              Ok (MkPoolV2 (NewLoadBalancer (pool_backends hostAddr port Backends ips) HealthCheckInterval)
                    false host port (JoinHostPort host port))
          end
      end
  end.

(** The [Dial] function of the client: the backend it connects to. *)
Definition Dial_backend (p : PoolV2) : PoolV2 * outcome (result gostring gostring) :=
  let '(lb, r) := Next (pl_lb p) in
  (MkPoolV2 lb (pl_closed p) (pl_host p) (pl_port p) (pl_hostPort p),
   b <-! r ;; Ret (match b with [] => Err (str "no backends available") | _ => Ok b end)).

Definition Pool_Get (p : PoolV2) : result gostring gostring :=
  if pl_closed p then Err (str "pool is closed") else Ok (pl_hostPort p).
Definition Pool_Put (p : PoolV2) : PoolV2 := p.
Definition Pool_Close (p : PoolV2) : PoolV2 :=
  if pl_closed p then p
  else MkPoolV2 (LB_Stop (pl_lb p)) true (pl_host p) (pl_port p) (pl_hostPort p).
Definition Pool_Stats (p : PoolV2) : gostring * gostring * list gostring * nat * bool :=
  (pl_host p, pl_port p, GetBackends (pl_lb p), GetHealthyCount (pl_lb p), pl_closed p).

(** * The DNS cache *)

Section DNS.
(** The addresses of a host. *)
Notation addrs := (list (list Z)).

Record Resolver := MkResolver {
  rs_useCache : bool;
  rs_cache : gmap gostring addrs;
  rs_open : bool
}.

Definition NewDNSResolver (UseCache : bool) : Resolver := MkResolver UseCache ∅ UseCache.

(** [lookupIPAddrAndCache]; [dns] is the answer of the resolver at the time. *)
Definition lookupIPAddrAndCache (dns : gostring → result gostring addrs) (r : Resolver) (addr : gostring)
  : Resolver * result gostring addrs :=
  match dns addr with
  | Err e => (r, Err e)
  | Ok ips => (MkResolver (rs_useCache r) (<[addr := ips]> (rs_cache r)) (rs_open r), Ok ips)
  end.

Definition fetch (dns : gostring → result gostring addrs) (r : Resolver) (addr : gostring)
  : Resolver * result gostring addrs :=
  if rs_useCache r then
    match rs_cache r !! addr with
    | Some ips => (r, Ok ips)
    | None => lookupIPAddrAndCache dns r addr
    end
  else (r, dns addr).
Definition LookupIPAddr := fetch.

(** [Refresh]: the hosts of the cache are resolved again. *)
Definition Refresh (dns : gostring → result gostring addrs) (r : Resolver) : Resolver :=
  fold_left (λ r addr, (lookupIPAddrAndCache dns r addr).1) (map_to_list (rs_cache r)).*1 r.

Definition Resolver_Stop (r : Resolver) : Resolver :=
  if rs_useCache r then MkResolver (rs_useCache r) (rs_cache r) false else r.
End DNS.
