(* ===== verification/BackendSpec.v ===== *)
(** The properties of the load balancer, the pool and the DNS cache. *)
From S2P Require Import Prelude Cmd GoStrings NetIP Web Backend.

(** * The load balancer *)

(** The invariant: a flag for each backend, and a counter of 64 bits. *)
Definition lb_ok (lb : LoadBalancer) : Prop :=
  length (lb_healthy lb) = length (lb_backends lb) ∧ (0 ≤ lb_current lb < 2 ^ 64)%Z.

Lemma NewLoadBalancer_ok bs iv : lb_ok (NewLoadBalancer bs iv).
Proof. split; simpl; [by rewrite length_replicate|lia]. Qed.

Lemma Next_with_frame loads lb :
  lb_backends (Next_with loads lb).1 = lb_backends lb ∧ lb_healthy (Next_with loads lb).1 = lb_healthy lb.
Proof. unfold Next_with. destruct lb as [[|b [|]]]; done. Qed.

(** The invariant of the load balancer is kept by all its operations. *)
Theorem lb_invariant lb :
  lb_ok lb →
  (∀ loads, lb_ok (Next_with loads lb).1) ∧ (∀ i b, lb_ok (SetHealthy i b lb))
  ∧ (∀ probe, lb_ok (checkAll probe lb).1) ∧ lb_ok (LB_Stop lb).
Proof.
  unfold lb_ok. intros [Hl Hc]. split; [|split; [|split]].
  - intros loads. destruct (Next_with_frame loads lb) as [-> ->]. split; [done|].
    unfold Next_with. destruct lb as [[|b [|b' bs]] h c s r]; simpl in *; [done|done|].
    apply Z.mod_pos_bound. lia.
  - intros i b. destruct lb as [bs h c s r]; simpl in *. case_match; simpl; [by rewrite length_insert|done].
  - intros probe. destruct lb as [bs h c s r]; simpl in *. by rewrite length_map.
  - destruct lb as [bs h c [] r]; done.
Qed.

Lemma to_int_small z : (0 ≤ z < 2 ^ 63)%Z → to_int z = z.
Proof. intros Hz. unfold to_int. rewrite Z.mod_small by lia. case_match; lia. Qed.

Lemma index_Some {A} (l : list A) i a : (0 ≤ i)%Z → l !! Z.to_nat i = Some a → index l i = Ret a.
Proof. intros Hi Ha. unfold index. rewrite (proj2 (Z.ltb_ge i 0)) by lia. by rewrite Ha. Qed.

(** What the loop finds: the backend of the first load that was true. *)
Lemma next_loop_spec lb loads n start i left :
  length (lb_healthy lb) = length (lb_backends lb) → n = Z.of_nat (length (lb_backends lb)) → (0 < n)%Z →
  (0 ≤ start)%Z → (start + Z.of_nat (i + left) < 2 ^ 63)%Z →
  ∃ r, next_loop lb loads n start i left = Ret r ∧
  let at_ j := ((start + Z.of_nat j) mod n)%Z in
  match r with
  | Some b => ∃ j, i ≤ j < i + left ∧ loads j (at_ j) = true ∧ lb_backends lb !! Z.to_nat (at_ j) = Some b
                ∧ ∀ j', i ≤ j' < j → loads j' (at_ j') = false
  | None => ∀ j, i ≤ j < i + left → loads j (at_ j) = false
  end.
Proof.
  intros Hlen -> Hn Hs. revert i. induction left as [|left IH]; intros i Hb; simpl.
  { exists None. split; [done|]. intros j Hj. lia. }
  unfold int_add. rewrite to_int_small by lia.
  set (n := Z.of_nat (length (lb_backends lb))) in *.
  assert (Z.rem (start + Z.of_nat i) n = (start + Z.of_nat i) mod n)%Z as -> by (apply Z.rem_mod_nonneg; lia).
  pose proof (Z.mod_pos_bound (start + Z.of_nat i) n ltac:(lia)) as Hm.
  set (idx := ((start + Z.of_nat i) mod n)%Z) in *.
  destruct (lookup_lt_is_Some_2 (lb_healthy lb) (Z.to_nat idx)) as [f Hf]; [unfold n in Hm; lia|].
  destruct (lookup_lt_is_Some_2 (lb_backends lb) (Z.to_nat idx)) as [b Hbk]; [unfold n in Hm; lia|].
  rewrite (index_Some _ _ _ (proj1 Hm) Hf). simpl. destruct (loads i idx) eqn:Hl.
  - rewrite (index_Some _ _ _ (proj1 Hm) Hbk). exists (Some b). split; [done|]. exists i.
    split_and!; try done; lia.
  - destruct (IH (S i)) as (r & Hr & Hspec); [lia|]. exists r. split; [exact Hr|].
    assert (∀ j, i ≤ j → j ≠ i → S i ≤ j) as Hge by lia. destruct r as [b'|].
    + destruct Hspec as (j & Hj & Hlj & Hbj & Hbefore). exists j. split_and!; try done; try lia.
      intros j' Hj'. destruct (decide (j' = i)) as [->|]; [done|]. apply Hbefore. lia.
    + intros j Hj. destruct (decide (j = i)) as [->|]; [done|]. apply Hspec. lia.
Qed.

Lemma Next_with_eq loads lb :
  2 ≤ length (lb_backends lb) →
  let n := Z.of_nat (length (lb_backends lb)) in
  let start := uint64_add (lb_current lb) 1 in
  Next_with loads lb =
  (set_current start lb,
   r <-! next_loop lb loads n (to_int start) 0 (length (lb_backends lb)) ;;
   match r with Some b => Ret b | None => index (lb_backends lb) (Z.rem (to_int start) n) end).
Proof. unfold Next_with. destruct (lb_backends lb) as [|? [|]]; simpl; [lia|lia|done]. Qed.

Lemma Next_with_many loads lb :
  lb_ok lb → 2 ≤ length (lb_backends lb) →
  (lb_current lb + 1 + Z.of_nat (length (lb_backends lb)) < 2 ^ 63)%Z →
  ∃ b, Next_with loads lb = (set_current (lb_current lb + 1) lb, Ret b) ∧
  let n := Z.of_nat (length (lb_backends lb)) in
  let at_ j := ((lb_current lb + 1 + Z.of_nat j) mod n)%Z in
  (∃ j, j < length (lb_backends lb) ∧ loads j (at_ j) = true
        ∧ lb_backends lb !! Z.to_nat (at_ j) = Some b ∧ ∀ j', j' < j → loads j' (at_ j') = false)
  ∨ ((∀ j, j < length (lb_backends lb) → loads j (at_ j) = false)
     ∧ lb_backends lb !! Z.to_nat (at_ 0) = Some b).
Proof.
  intros [Hlen Hc] H2 Hb. set (n := Z.of_nat (length (lb_backends lb))).
  set (start := (lb_current lb + 1)%Z).
  destruct (next_loop_spec lb loads n start 0 (length (lb_backends lb)) Hlen eq_refl)
    as (r & Hr & Hspec); [unfold n; lia|unfold start; lia|unfold start; lia|].
  rewrite Next_with_eq by done. cbv zeta. unfold uint64_add. rewrite Z.mod_small by lia. fold n start.
  rewrite to_int_small by (unfold start; lia). rewrite Hr. simpl.
  pose proof (Z.mod_pos_bound start n ltac:(unfold n; lia)) as Hm. destruct r as [b|].
  - exists b. split; [done|]. left. destruct Hspec as (j & Hj & Hlj & Hbj & Hbefore).
    exists j. split_and!; try done; [lia|]. intros j' Hj'. apply Hbefore. lia.
  - destruct (lookup_lt_is_Some_2 (lb_backends lb) (Z.to_nat (start mod n))) as [b Hbk]; [unfold n in *; lia|].
    exists b. rewrite Z.rem_mod_nonneg by (unfold n, start; lia).
    rewrite (index_Some _ _ _ (proj1 Hm) Hbk). split; [done|]. right.
    split; [intros j Hj; apply Hspec; lia|]. by rewrite Z.add_0_r.
Qed.

(** The choice of a backend while other goroutines change the flags.  Below
    the range of the counter [Next] does not panic and returns a configured
    backend.  If a load of a flag gave true, the backend is that of the first
    such load in the round; only if every load gave false is it the one the
    round starts with. *)
Theorem Next_sound loads lb :
  lb_ok lb → lb_backends lb ≠ [] →
  (lb_current lb + 1 + Z.of_nat (length (lb_backends lb)) < 2 ^ 63)%Z →
  ∃ b, (Next_with loads lb).2 = Ret b ∧ b ∈ lb_backends lb
    ∧ (2 ≤ length (lb_backends lb) →
       let n := Z.of_nat (length (lb_backends lb)) in
       let at_ j := ((lb_current lb + 1 + Z.of_nat j) mod n)%Z in
       (∃ j, j < length (lb_backends lb) ∧ loads j (at_ j) = true
             ∧ lb_backends lb !! Z.to_nat (at_ j) = Some b ∧ ∀ j', j' < j → loads j' (at_ j') = false)
       ∨ ((∀ j, j < length (lb_backends lb) → loads j (at_ j) = false)
          ∧ lb_backends lb !! Z.to_nat (at_ 0) = Some b)).
Proof.
  intros Hok Hne Hb. destruct (decide (2 ≤ length (lb_backends lb))) as [H2|H2].
  - destruct (Next_with_many loads lb Hok H2 Hb) as (b & -> & Hcases). exists b. split; [done|].
    split; [|by intros _]. destruct Hcases as [(j & _ & _ & Hl & _)|[_ Hl]]; by eapply list_elem_of_lookup_2.
  - unfold Next_with. destruct (lb_backends lb) as [|b0 [|b1 bs]] eqn:Ebs; [done| |simpl in H2; lia].
    exists b0. split; [done|]. split; [apply list_elem_of_here|]. simpl. lia.
Qed.

(** The state after [j] calls. *)
Fixpoint next_iter (j : nat) (lb : LoadBalancer) : LoadBalancer :=
  match j with 0 => lb | S j' => next_iter j' (Next lb).1 end.

Lemma Next_current lb :
  lb_ok lb → 2 ≤ length (lb_backends lb) →
  (lb_current lb + 1 + Z.of_nat (length (lb_backends lb)) < 2 ^ 63)%Z →
  lb_current (Next lb).1 = (lb_current lb + 1)%Z.
Proof.
  intros Hok H2 Hb. unfold Next. destruct (Next_with_many (flags lb) lb Hok H2 Hb) as (b & -> & _).
  by destruct lb.
Qed.

Lemma next_iter_spec j lb :
  lb_ok lb → 2 ≤ length (lb_backends lb) →
  (lb_current lb + Z.of_nat (j + length (lb_backends lb)) < 2 ^ 63)%Z →
  lb_ok (next_iter j lb) ∧ lb_current (next_iter j lb) = (lb_current lb + Z.of_nat j)%Z
  ∧ lb_backends (next_iter j lb) = lb_backends lb ∧ lb_healthy (next_iter j lb) = lb_healthy lb.
Proof.
  revert lb. induction j as [|j IH]; intros lb Hok H2 Hb; cbn [next_iter].
  { split_and!; try done. lia. }
  destruct (Next_with_frame (flags lb) lb) as [Hbk Hh].
  pose proof (Next_current lb Hok H2 ltac:(lia)) as Hcur.
  destruct (IH (Next lb).1) as (H1 & H3 & H4 & H5).
  - unfold lb_ok, Next in *. rewrite Hbk, Hh. destruct Hok. split; [done|]. lia.
  - unfold Next. by rewrite Hbk.
  - unfold Next in *. rewrite Hbk, Hcur. lia.
  - unfold Next in *. split_and!; [done|rewrite H3, Hcur; lia|congruence|congruence].
Qed.

(** C24: no healthy backend is starved.  While the flags do not change and the
    counter is in range, every backend that is marked healthy is chosen by one
    of any [n] consecutive calls, [n] being the number of backends. *)
Theorem Next_fair lb k b :
  lb_ok lb → 2 ≤ length (lb_backends lb) →
  (lb_current lb + 2 * Z.of_nat (length (lb_backends lb)) < 2 ^ 63)%Z →
  lb_backends lb !! k = Some b → lb_healthy lb !! k = Some true →
  ∃ j, j < length (lb_backends lb) ∧ (Next (next_iter j lb)).2 = Ret b.
Proof.
  intros Hok H2 Hb Hk Hh. pose proof (lookup_lt_Some _ _ _ Hk) as Hlt.
  set (n := Z.of_nat (length (lb_backends lb))) in *.
  (* the round whose first index is k *)
  set (j := Z.to_nat ((Z.of_nat k - (lb_current lb + 1)) mod n)).
  pose proof (Z.mod_pos_bound (Z.of_nat k - (lb_current lb + 1)) n ltac:(lia)) as Hj.
  assert ((lb_current lb + Z.of_nat j + 1 + Z.of_nat 0) mod n = Z.of_nat k)%Z as Hfirst.
  { unfold j. rewrite Z2Nat.id by lia.
    replace (lb_current lb + (Z.of_nat k - (lb_current lb + 1)) mod n + 1 + Z.of_nat 0)%Z
      with ((Z.of_nat k - (lb_current lb + 1)) mod n + (lb_current lb + 1))%Z by lia.
    rewrite Zplus_mod_idemp_l, Z.sub_add. apply Z.mod_small. lia. }
  exists j. split; [unfold j, n in *; lia|].
  destruct (next_iter_spec j lb Hok H2) as (Hok' & Hcur & Hbk & Hhl); [unfold j in *; lia|].
  set (lb' := next_iter j lb) in *.
  destruct (Next_with_many (flags lb') lb') as (b' & Hn & Hcases); [done|by rewrite Hbk|rewrite Hbk, Hcur; fold n; unfold j; lia|].
  unfold Next. rewrite Hn. simpl. cbv zeta in Hcases. rewrite Hbk, Hcur in Hcases. fold n in Hcases.
  assert (flags lb' 0 (Z.of_nat k) = true) as Hf by (unfold flags; by rewrite Hhl, Nat2Z.id, Hh).
  destruct Hcases as [(j0 & _ & Hl & Hbj & Hbefore)|[Hall _]].
  - destruct j0 as [|j0].
    + rewrite Hfirst, Nat2Z.id, Hk in Hbj. congruence.
    + specialize (Hbefore 0 ltac:(lia)). rewrite Hfirst in Hbefore. congruence.
  - specialize (Hall 0 ltac:(lia)). rewrite Hfirst in Hall. congruence.
Qed.

(** C40: at the end of the range the conversion of the counter to [int] is
    negative, and so is the index: [Next] panics, unless the number of backends
    divides 2^63. *)
Theorem Next_overflow loads lb :
  lb_ok lb → 2 ≤ length (lb_backends lb) → lb_current lb = (2 ^ 63 - 1)%Z →
  (2 ^ 63 mod Z.of_nat (length (lb_backends lb)) ≠ 0)%Z →
  (Next_with loads lb).2 = Panic.
Proof.
  intros [Hlen _] H2 Hc Hd. rewrite Next_with_eq by done. cbv zeta. rewrite Hc. change (to_int (uint64_add (2 ^ 63 - 1) 1)) with (- 2 ^ 63)%Z.
  set (n := Z.of_nat (length (lb_backends lb))) in *.
  replace (length (lb_backends lb)) with (S (pred (length (lb_backends lb)))) by lia. cbn [next_loop snd].
  change (int_add (- 2 ^ 63) (Z.of_nat 0)) with (- 2 ^ 63)%Z.
  rewrite Z.rem_opp_l' . rewrite Z.rem_mod_nonneg by (unfold n; lia).
  pose proof (Z.mod_pos_bound (2 ^ 63) n ltac:(unfold n; lia)).
  unfold index at 1. by rewrite (proj2 (Z.ltb_lt _ 0)) by lia.
Qed.

(** * The pool *)

(** The life of a pool.  It is created with at least one backend, [Dial]
    connects to one of them as long as the counter is in range, and once closed
    it gives no client, however often it is closed. *)
Theorem pool_life LookupIP tls hostAddr Backends iv p :
  NewPoolV2 LookupIP tls hostAddr Backends iv = Ok p → Forall (λ b, b ≠ []) (lb_backends (pl_lb p)) →
  lb_backends (pl_lb p) ≠ []
  ∧ (∀ p', pl_lb p' = pl_lb p →
     (Z.of_nat (length (lb_backends (pl_lb p'))) + 1 < 2 ^ 63)%Z →
     ∃ b, (Dial_backend p').2 = Ret (Ok b) ∧ b ∈ lb_backends (pl_lb p))
  ∧ Pool_Get p = Ok (pl_hostPort p)
  ∧ Pool_Get (Pool_Close p) = Err (str "pool is closed")
  ∧ Pool_Close (Pool_Close p) = Pool_Close p.
Proof.
  unfold NewPoolV2. destruct (SplitHostPort hostAddr) as [[host port]|]; [|done].
  destruct tls; [|done]. destruct (match Backends with [] => _ | _ => _ end) as [ips|]; [|done].
  intros [= <-] Hnn. simpl in *.
  assert (pool_backends hostAddr port Backends ips ≠ []) as Hne.
  { unfold pool_backends. destruct Backends; [|done]. by destruct (List.filter is_v4 ips), ips. }
  split_and!; try done. intros p' Hp' Hb. rewrite Hp' in Hb.
  destruct (Next_sound (flags (pl_lb p')) (pl_lb p')) as (b & Hn & Hin & _).
  - rewrite Hp'. apply NewLoadBalancer_ok.
  - by rewrite Hp'.
  - rewrite Hp'. simpl in *. lia.
  - exists b. rewrite Hp' in Hin. split; [|done]. unfold Dial_backend, Next.
    destruct (Next_with _ (pl_lb p')) as [lb r]. simpl in *. subst r. simpl.
    rewrite Forall_forall in Hnn. specialize (Hnn b Hin). by destruct b.
Qed.

(** * The DNS cache *)

(** One use of the resolver, with the answers of the DNS at the time. *)
Inductive dns_op :=
| OpLookup (addr : gostring)
| OpRefresh
| OpStop.
Notation dns_answers := (gostring → result gostring (list (list Z))).

Definition dns_step (r : Resolver) (o : dns_answers * dns_op) : Resolver :=
  match o.2 with
  | OpLookup addr => (LookupIPAddr o.1 r addr).1
  | OpRefresh => Refresh o.1 r
  | OpStop => Resolver_Stop r
  end.
Definition dns_run (use : bool) (ops : list (dns_answers * dns_op)) : Resolver :=
  fold_left dns_step ops (NewDNSResolver use).

Lemma lookup_and_cache_spec dns r addr a :
  rs_cache (lookupIPAddrAndCache dns r addr).1 !! a
  = match dns addr with
    | Ok ips => if decide (a = addr) then Some ips else rs_cache r !! a
    | Err _ => rs_cache r !! a
    end.
Proof.
  unfold lookupIPAddrAndCache. destruct (dns addr); [|done]. simpl.
  case_decide; [subst; by rewrite lookup_insert_eq|by rewrite lookup_insert_ne].
Qed.

Lemma refresh_spec dns r a :
  rs_cache (Refresh dns r) !! a =
  match rs_cache r !! a with
  | Some ips => Some (match dns a with Ok new => new | Err _ => ips end)
  | None => None
  end.
Proof.
  unfold Refresh.
  assert (∀ l r0, rs_cache (fold_left (λ r addr, (lookupIPAddrAndCache dns r addr).1) l r0) !! a =
    if decide (a ∈ l) then match dns a with Ok new => Some new | Err _ => rs_cache r0 !! a end
    else rs_cache r0 !! a) as Hl.
  { induction l as [|addr l IH]; intros r0; cbn [fold_left].
    - by rewrite decide_False by apply not_elem_of_nil.
    - rewrite IH, lookup_and_cache_spec. destruct (decide (a = addr)) as [->|Ha].
      + rewrite (decide_True (P := addr ∈ addr :: l)) by apply list_elem_of_here.
        case_decide; by destruct (dns addr).
      + rewrite (decide_ext (a ∈ addr :: l) (a ∈ l)) by (rewrite elem_of_cons; naive_solver).
        destruct (dns addr); [|done]. done. }
  rewrite Hl. destruct (rs_cache r !! a) as [ips|] eqn:Ha.
  - rewrite decide_True; [by destruct (dns a)|]. apply list_elem_of_fmap. exists (a, ips).
    split; [done|]. by apply elem_of_map_to_list.
  - rewrite decide_False; [done|]. intros ([a' ips] & -> & Hin)%list_elem_of_fmap.
    apply elem_of_map_to_list in Hin. simpl in Ha. congruence.
Qed.

(** The cache holds only answers of the DNS.  Every entry after any sequence
    of lookups, refreshes and stops is an answer the DNS gave for that host at
    one of them; a refresh that fails for a host keeps its old addresses, and
    no host disappears. *)
Theorem dns_cache_answers use ops addr ips :
  rs_cache (dns_run use ops) !! addr = Some ips →
  (∃ dns op, (dns, op) ∈ ops ∧ dns addr = Ok ips)
  ∧ ∀ o, is_Some (rs_cache (dns_run use (ops ++ [o])) !! addr)
         ∧ (∀ e, o.1 addr = Err e → rs_cache (dns_run use (ops ++ [o])) !! addr = Some ips).
Proof.
  assert (∀ r o a, rs_cache (dns_step r o) !! a = rs_cache r !! a
    ∨ ∃ new, o.1 a = Ok new ∧ rs_cache (dns_step r o) !! a = Some new) as Hstep.
  { intros r [dns [x| |]] a; unfold dns_step; simpl.
    - unfold LookupIPAddr, fetch. destruct (rs_useCache r); [|by left].
      destruct (rs_cache r !! x); [by left|]. rewrite lookup_and_cache_spec.
      destruct (dns x) as [new|] eqn:Hx; [|by left]. case_decide; [subst; right; eauto|by left].
    - rewrite refresh_spec. destruct (rs_cache r !! a); [|by left].
      destruct (dns a) as [new|]; [right; eauto|by left].
    - unfold Resolver_Stop. by destruct (rs_useCache r); left. }
  intros Ha. split.
  - revert Ha. induction ops as [|o ops IH] using rev_ind; [by unfold dns_run; simpl; rewrite lookup_empty|].
    unfold dns_run. rewrite fold_left_app. cbn [fold_left]. intros Ha.
    destruct (Hstep (fold_left dns_step ops (NewDNSResolver use)) o addr) as [Hs|(new & Hn & Hs)].
    + rewrite Hs in Ha. destruct (IH Ha) as (dns & op & Hin & ?). exists dns, op.
      split; [apply elem_of_app; by left|done].
    + exists o.1, o.2. split; [apply elem_of_app; right; destruct o; apply list_elem_of_here|congruence].
  - intros o. unfold dns_run. rewrite fold_left_app. cbn [fold_left]. fold (dns_run use ops).
    destruct (Hstep (dns_run use ops) o addr) as [->|(new & Hn & ->)]; [by rewrite Ha|].
    split; [done|]. intros e. congruence.
Qed.

(** * Witnesses *)

Definition three : LoadBalancer := NewLoadBalancer [str "a:80"; str "b:80"; str "c:80"] 1.
(** The second of the three backends is down. *)
Definition degraded : LoadBalancer := SetHealthy 1 false three.

Lemma lb_invariant_witness : lb_ok degraded ∧ lb_ok (Next degraded).1.
Proof.
  destruct (lb_invariant three (NewLoadBalancer_ok _ _)) as (_ & Hs & _).
  pose proof (Hs 1%Z false) as Hd. split; [exact Hd|]. by apply (lb_invariant degraded Hd).
Defined.

Lemma Next_sound_witness : ∃ b, (Next_with (λ i _, bool_decide (i = 1)) degraded).2 = Ret b ∧ b ∈ lb_backends degraded.
Proof.
  destruct (Next_sound (λ i _, bool_decide (i = 1)) degraded) as (b & Hb & Hin & _);
    [split; [reflexivity|vm_compute; by split]|discriminate|reflexivity|].
  exists b. by split.
Defined.

Lemma Next_fair_witness : ∃ j, j < 3 ∧ (Next (next_iter j degraded)).2 = Ret (str "c:80").
Proof.
  apply (Next_fair degraded 2 (str "c:80")); try reflexivity; [|simpl; lia].
  split; [reflexivity|vm_compute; by split].
Defined.

Lemma Next_overflow_witness : (Next (set_current (2 ^ 63 - 1) three)).2 = Panic.
Proof.
  apply (Next_overflow (flags (set_current (2 ^ 63 - 1) three)) (set_current (2 ^ 63 - 1) three)); try reflexivity.
  - split; [reflexivity|vm_compute; by split].
  - simpl; lia.
  - vm_compute. discriminate.
Defined.

(** A host with an IPv6 and an IPv4 address: the latter is used. *)
Definition two_ips : list (list Z) := [replicate 15 0%Z ++ [1%Z]; v4InV6Prefix ++ [10; 0; 0; 7]%Z].

Lemma pool_life_witness :
  ∃ p, NewPoolV2 (λ _, Ok two_ips) (Ok false) "backend:8080" [] 0 = Ok p
    ∧ lb_backends (pl_lb p) = [str "10.0.0.7:8080"] ∧ Pool_Get (Pool_Close p) = Err (str "pool is closed").
Proof.
  assert (∃ p, NewPoolV2 (λ _, Ok two_ips) (Ok false) "backend:8080" [] 0 = Ok p
            ∧ lb_backends (pl_lb p) = [str "10.0.0.7:8080"]) as (p & Hp & Hb)
    by (eexists; split; vm_compute; reflexivity).
  exists p. split; [exact Hp|]. split; [exact Hb|].
  apply (pool_life (λ _, Ok two_ips) (Ok false) "backend:8080" [] 0 p Hp).
  rewrite Hb. by repeat constructor.
Defined.

Lemma dns_cache_answers_witness :
  let dns : gostring → result gostring (list (list Z)) := λ _, Ok two_ips in
  is_Some (rs_cache (dns_run true [(dns, OpLookup "backend"); (λ _, Err (str "timeout"), OpRefresh)])
             !! str "backend").
Proof.
  intros dns.
  assert (rs_cache (dns_run true [(dns, OpLookup "backend")]) !! str "backend" = Some two_ips) as Hc
    by (vm_compute; reflexivity).
  apply (proj2 (dns_cache_answers true [(dns, OpLookup "backend")] (str "backend") two_ips Hc)
           (λ _, Err (str "timeout"), OpRefresh)).
Defined.
