(* ===== verification/Balancer.v ===== *)
(** The load balancer as its goroutines run it (internal/platform/proxy/loadbalancer.go):
    calls of [Next] and [Stop] and the health checks, interleaved at their atomic
    operations.  It relates the runs of [Next] to the sequential definition in
    [Backend], and shows how the balancer stops. *)
From S2P Require Import Prelude Cmd GoStrings NetIP Web Backend BackendSpec.

(** * The process *)

(** [runHealthChecks]: in the [select], before the probe of a backend, and at its end
    (or never started). *)
Inductive checker_pc :=
| Selecting
| Probing (i : nat)
| CheckerDone.

(** A call of [Next]: before the counter is increased, before the load of a flag, at
    its end.  A call of [Stop]: before the flag is swapped, before the channel is
    closed, in [Wait], at its end. *)
Inductive call_pc :=
| CallNext
| Looping (start : Z) (i : nat)
| Chosen (b : gostring)
| NextPanic
| CallStop
| Closing
| Waiting
| StopDone.

(** [ba_closed]: how often the channel [stopCh] was closed; a second time is a
    panic. *)
Record balancer := MkBalancer {
  ba_lb : LoadBalancer;
  ba_closed : nat;
  ba_checker : checker_pc;
  ba_calls : list call_pc
}.

Definition start_balancer (lb : LoadBalancer) : balancer :=
  MkBalancer lb 0 (if lb_running lb then Selecting else CheckerDone) [].

Definition set_flag (i : nat) (b : bool) (lb : LoadBalancer) : LoadBalancer :=
  let '(MkLB bs h c s r) := lb in MkLB bs (<[i := b]> h) c s r.
Definition set_stopped (lb : LoadBalancer) : LoadBalancer :=
  let '(MkLB bs h c s r) := lb in MkLB bs h c true r.

(** The call [k] moves to [pc], with the balancer [lb]. *)
Definition move (k : nat) (pc : call_pc) (lb : LoadBalancer) (s : balancer) : balancer :=
  MkBalancer lb (ba_closed s) (ba_checker s) (<[k := pc]> (ba_calls s)).

Definition next_begin (lb : LoadBalancer) : LoadBalancer * call_pc :=
  match lb_backends lb with
  | [] => (lb, Chosen [])
  | [b] => (lb, Chosen b)
  | _ => let start := uint64_add (lb_current lb) 1 in (set_current start lb, Looping (to_int start) 0)
  end.

Definition chosen (o : outcome gostring) : call_pc := match o with Ret b => Chosen b | Panic => NextPanic end.

Definition next_load (lb : LoadBalancer) (start : Z) (i : nat) : call_pc :=
  let n := length (lb_backends lb) in
  if i <? n then
    let idx := Z.rem (int_add start (Z.of_nat i)) (Z.of_nat n) in
    match index (lb_healthy lb) idx with
    | Panic => NextPanic
    | Ret true => chosen (index (lb_backends lb) idx)
    | Ret false => Looping start (S i)
    end
  else chosen (index (lb_backends lb) (Z.rem start (Z.of_nat n))).

Inductive ba_step : balancer → balancer → Prop :=
| ba_call s c : c = CallNext ∨ c = CallStop →
    ba_step s (MkBalancer (ba_lb s) (ba_closed s) (ba_checker s) (ba_calls s ++ [c]))
| ba_begin s k : ba_calls s !! k = Some CallNext →
    ba_step s (move k (next_begin (ba_lb s)).2 (next_begin (ba_lb s)).1 s)
| ba_load s k start i : ba_calls s !! k = Some (Looping start i) →
    ba_step s (move k (next_load (ba_lb s) start i) (ba_lb s) s)
| ba_again s k : ba_calls s !! k = Some CallStop → lb_stopped (ba_lb s) = true →
    ba_step s (move k StopDone (ba_lb s) s)
| ba_swap s k : ba_calls s !! k = Some CallStop → lb_stopped (ba_lb s) = false →
    ba_step s (move k Closing (set_stopped (ba_lb s)) s)
| ba_close s k : ba_calls s !! k = Some Closing →
    ba_step s (MkBalancer (ba_lb s) (S (ba_closed s)) (ba_checker s) (<[k := Waiting]> (ba_calls s)))
| ba_wait s k : ba_calls s !! k = Some Waiting → ba_checker s = CheckerDone →
    ba_step s (move k StopDone (ba_lb s) s)
| ba_tick s : ba_checker s = Selecting →
    ba_step s (MkBalancer (ba_lb s) (ba_closed s) (Probing 0) (ba_calls s))
| ba_probe s i healthy : ba_checker s = Probing i → i < length (lb_backends (ba_lb s)) →
    ba_step s (MkBalancer (set_flag i healthy (ba_lb s)) (ba_closed s) (Probing (S i)) (ba_calls s))
| ba_checked s i : ba_checker s = Probing i → length (lb_backends (ba_lb s)) ≤ i →
    ba_step s (MkBalancer (ba_lb s) (ba_closed s) Selecting (ba_calls s))
| ba_quit s : ba_checker s = Selecting → 0 < ba_closed s →
    ba_step s (MkBalancer (ba_lb s) (ba_closed s) CheckerDone (ba_calls s)).

(** A run, with the load balancers of the states it goes through, in their order. *)
Inductive ba_run (s0 : balancer) : list LoadBalancer → balancer → Prop :=
| run_start : ba_run s0 [ba_lb s0] s0
| run_step h s s' : ba_run s0 h s → ba_step s s' → ba_run s0 (h ++ [ba_lb s']) s'.

(** The flags as they were at the times [t]: the [j]th load is at time [t j]. *)
Definition flags_at (h : list LoadBalancer) (t : nat → nat) (j : nat) (idx : Z) : bool :=
  match h !! t j with Some lb => default false (lb_healthy lb !! Z.to_nat idx) | None => false end.

(** Times of a run from [t0] on, in their order. *)
Definition in_order (h : list LoadBalancer) (t0 : nat) (t : nat → nat) : Prop :=
  (∀ j, t0 ≤ t j < length h) ∧ ∀ j k, j ≤ k → t j ≤ t k.

(** * Invariant *)

Definition is_closing (pc : call_pc) : bool := match pc with Closing => true | _ => false end.
Definition is_pending (pc : call_pc) : bool := match pc with CallNext => true | _ => false end.
Notation closings := (count is_closing).
Notation pendings := (count is_pending).

Section Balancer.
Context (bs : list gostring).
Notation n := (Z.of_nat (length bs)).

Definition balancer_at (lb : LoadBalancer) : Prop := lb_backends lb = bs ∧ lb_ok lb.

(** A sequential [Next] on the balancer of a time of the run, which it leaves as the
    balancer of the next time, with a counter less than [m], that loads the flags as
    they were at later times. *)
Definition next_run (h : list LoadBalancer) (m : nat) (o : outcome gostring) : Prop :=
  ∃ t0 lb t, h !! t0 = Some lb ∧ h !! S t0 = Some (Next lb).1 ∧ balancer_at lb ∧ (lb_current lb < Z.of_nat m)%Z
    ∧ in_order h (S t0) t ∧ (Next_with (flags_at h t) lb).2 = o.

Definition idx_of (start : Z) (i : nat) : Z := Z.rem (int_add start (Z.of_nat i)) n.

(** The loads before the [i]th gave false. *)
Definition skipped (lb : LoadBalancer) (start : Z) (i : nat) : Prop :=
  ∀ loads, (∀ j, j < i → loads j (idx_of start j) = false) →
  next_loop lb loads n start 0 (length bs) = next_loop lb loads n start i (length bs - i).

Definition call_ok (h : list LoadBalancer) (m : nat) (pc : call_pc) : Prop :=
  match pc with
  | Looping start i =>
      2 ≤ length bs ∧ i ≤ length bs
      ∧ ∃ t0 lb t, h !! t0 = Some lb ∧ h !! S t0 = Some (Next lb).1 ∧ balancer_at lb
          ∧ (lb_current lb < Z.of_nat m)%Z ∧ in_order h (S t0) t ∧ start = to_int (uint64_add (lb_current lb) 1)
          ∧ (∀ j, j < i → flags_at h t j (idx_of start j) = false) ∧ skipped lb start i
  | Chosen b => next_run h m (Ret b)
  | NextPanic => next_run h m Panic
  | _ => True
  end.

(** The counter is at most the number of calls that have increased it. *)
Record ba_inv (h : list LoadBalancer) (s : balancer) : Prop := MkBaInv {
  bi_last : last h = Some (ba_lb s);
  bi_lb : balancer_at (ba_lb s);
  bi_current : (lb_current (ba_lb s) + Z.of_nat (pendings (ba_calls s)) ≤ Z.of_nat (length (ba_calls s)))%Z;
  bi_stop : closings (ba_calls s) + ba_closed s = (if lb_stopped (ba_lb s) then 1 else 0);
  bi_wait : ∀ k, ba_calls s !! k = Some Waiting → 0 < ba_closed s;
  bi_calls : ∀ k pc, ba_calls s !! k = Some pc → call_ok h (length (ba_calls s)) pc
}.

(** ** Times *)

Lemma flags_at_app h h' t j idx : t j < length h → flags_at (h ++ h') t j idx = flags_at h t j idx.
Proof. intros Ht. unfold flags_at. by rewrite lookup_app_l. Qed.

Lemma in_order_app h h' t0 t : in_order h t0 t → in_order (h ++ h') t0 t.
Proof. intros [Hb Hm]. split; [|done]. intros j. specialize (Hb j). rewrite length_app. lia. Qed.

(** The loads from the [i]th on are at the last time. *)
Definition till (h : list LoadBalancer) (t : nat → nat) (i j : nat) : nat :=
  if j <? i then t j else pred (length h).

Lemma in_order_till h t0 t i : in_order h t0 t → in_order h t0 (till h t i).
Proof.
  intros [Hb Hm]. unfold till. split; intros j.
  - specialize (Hb j). destruct (Nat.ltb_spec j i); lia.
  - intros k Hk. specialize (Hm _ _ Hk). pose proof (Hb j). pose proof (Hb k).
    destruct (Nat.ltb_spec j i), (Nat.ltb_spec k i); lia.
Qed.

Lemma flags_till_lt h t i j idx : j < i → flags_at h (till h t i) j idx = flags_at h t j idx.
Proof. intros Hj. unfold flags_at, till. apply Nat.ltb_lt in Hj. by rewrite Hj. Qed.

Lemma flags_till_last h t i lb idx :
  last h = Some lb → flags_at h (till h t i) i idx = default false (lb_healthy lb !! Z.to_nat idx).
Proof. intros Hl. unfold flags_at, till. rewrite Nat.ltb_irrefl, <- last_lookup, Hl. done. Qed.

Lemma Next_with_ext lb l1 l2 : (∀ j idx, l1 j idx = l2 j idx) → (Next_with l1 lb).2 = (Next_with l2 lb).2.
Proof.
  intros Hl. assert (∀ nn start k i, next_loop lb l1 nn start i k = next_loop lb l2 nn start i k) as Hloop.
  { intros nn start k. induction k as [|k IH]; intros i; [done|]. cbn [next_loop]. by rewrite Hl, IH. }
  unfold Next_with. destruct (lb_backends lb) as [|b [|b' bs']]; [done..|]. cbn [snd]. by rewrite Hloop.
Qed.

Lemma next_run_mono h h' m m' o : m ≤ m' → next_run h m o → next_run (h ++ h') m' o.
Proof.
  intros Hm (t0 & lb & t & Ht & Ht1 & Hat & Hc & Ho & Hr). exists t0, lb, t.
  split; [by apply lookup_app_l_Some|]. split; [by apply lookup_app_l_Some|]. split; [done|]. split; [lia|]. split; [by apply in_order_app|].
  rewrite <- Hr. apply Next_with_ext. intros j idx. by apply flags_at_app, Ho.
Qed.

Lemma call_ok_mono h h' m m' pc : m ≤ m' → call_ok h m pc → call_ok (h ++ h') m' pc.
Proof.
  intros Hm. destruct pc as [|start i|b| | | | |]; try done; try (by apply next_run_mono).
  intros (H2 & Hi & t0 & lb & t & Ht & Ht1 & Hat & Hc & Ho & Hs & Hf & Hsk). split; [done|]. split; [done|].
  exists t0, lb, t. split; [by apply lookup_app_l_Some|]. split; [by apply lookup_app_l_Some|]. split; [done|]. split; [lia|].
  split; [by apply in_order_app|]. split; [done|]. split; [|done].
  intros j Hj. rewrite flags_at_app by apply Ho. by apply Hf.
Qed.

(** ** The runs of [Next] *)

Lemma index_flags (l l' : list bool) i b :
  length l = length l' → index l i = Ret b → ∃ b', index l' i = Ret b'.
Proof.
  unfold index. intros Hl. destruct (i <? 0)%Z; [done|]. destruct (l !! Z.to_nat i) eqn:E; [|done]. intros _.
  destruct (lookup_lt_is_Some_2 l' (Z.to_nat i)) as [b' ->]; [|eauto].
  rewrite <- Hl. by eapply lookup_lt_Some.
Qed.

Lemma index_default (l : list bool) i b : index l i = Ret b → default false (l !! Z.to_nat i) = b.
Proof. unfold index. destruct (i <? 0)%Z; [done|]. destruct (l !! Z.to_nat i); [by intros [= ->]|done]. Qed.

(** One iteration of the loop. *)
Lemma next_loop_step lb loads start i :
  lb_backends lb = bs → i < length bs →
  next_loop lb loads n start i (length bs - i) =
  (_ <-! index (lb_healthy lb) (idx_of start i) ;;
   if loads i (idx_of start i) then b <-! index bs (idx_of start i) ;; Ret (Some b)
   else next_loop lb loads n start (S i) (length bs - S i)).
Proof.
  intros Hb Hi. replace (length bs - i) with (S (length bs - S i)) by lia. cbn [next_loop]. by rewrite Hb.
Qed.

(** What the loop does from its [i]th iteration on, when the earlier loads gave false,
    is what [Next] does. *)
Lemma next_run_loop h m t0 lb t start i o :
  h !! t0 = Some lb → h !! S t0 = Some (Next lb).1 → balancer_at lb → (lb_current lb < Z.of_nat m)%Z →
  in_order h (S t0) t → 2 ≤ length bs →
  start = to_int (uint64_add (lb_current lb) 1) → skipped lb start i →
  (∀ j, j < i → flags_at h t j (idx_of start j) = false) →
  (r <-! next_loop lb (flags_at h t) n start i (length bs - i) ;;
   match r with Some b => Ret b | None => index bs (Z.rem start n) end) = o →
  next_run h m o.
Proof.
  intros Ht Ht1 Hlb Hm Ho H2 -> Hsk Hf Hr. exists t0, lb, t. do 5 (split; [done|]). pose proof Hlb as [Hb _].
  rewrite Next_with_eq by by rewrite Hb. rewrite Hb. cbn [snd]. by rewrite Hsk.
Qed.

Lemma call_ok_chosen h m o : next_run h m o → call_ok h m (chosen o).
Proof. by destruct o. Qed.

Lemma next_load_ok h m lb start i :
  last h = Some lb → balancer_at lb → call_ok h m (Looping start i) → call_ok h m (next_load lb start i).
Proof.
  intros Hlast [Hb [Hlen _]] (H2 & Hi & t0 & lb0 & t & Ht & Ht1 & Hat & Hm & Ho & Hstart & Hf & Hskip).
  unfold next_load. rewrite Hb. fold (idx_of start i).
  pose proof Hat as [Hb0 [Hlen0 _]]. assert (length (lb_healthy lb) = length (lb_healthy lb0)) as Hl by congruence.
  assert (∀ j, j < i → flags_at h (till h t i) j (idx_of start j) = false) as Hf'.
  { intros j Hj. rewrite flags_till_lt by done. by apply Hf. }
  assert (∀ o, (r <-! next_loop lb0 (flags_at h (till h t i)) n start i (length bs - i) ;;
    match r with Some b => Ret b | None => index bs (Z.rem start n) end) = o → next_run h m o) as Hrun.
  { intros o. apply (next_run_loop h m t0 lb0 _ start i); try done. by apply in_order_till. }
  destruct (Nat.ltb_spec i (length bs)) as [Hlt|Hge].
  2: { apply call_ok_chosen, Hrun. by replace (length bs - i) with 0 by lia. }
  rewrite next_loop_step in Hrun by done. rewrite (flags_till_last _ _ _ lb) in Hrun by done.
  destruct (index (lb_healthy lb) (idx_of start i)) as [f|] eqn:Hx.
  - rewrite (index_default _ _ _ Hx) in Hrun. destruct (index_flags _ _ _ _ Hl Hx) as [f0 Hf0].
    rewrite Hf0 in Hrun. cbn [obind] in Hrun. destruct f.
    + apply call_ok_chosen, Hrun. by destruct (index bs _).
    + split; [done|]. split; [lia|]. exists t0, lb0, (till h t i). do 4 (split; [done|]).
      split; [by apply in_order_till|]. split; [done|]. split.
      * intros j Hj. destruct (decide (j = i)) as [->|]; [|apply Hf'; lia].
        rewrite (flags_till_last _ _ _ lb) by done. by apply index_default.
      * intros loads Hloads. rewrite Hskip by (intros; apply Hloads; lia).
        rewrite next_loop_step by done. rewrite Hf0. cbn [obind]. by rewrite Hloads by lia.
  - apply Hrun. destruct (index (lb_healthy lb0) (idx_of start i)) eqn:Hf0; [|done].
    destruct (index_flags _ _ _ _ (eq_sym Hl) Hf0) as [? ?]. congruence.
Qed.

Lemma next_begin_ok h m lb :
  last h = Some lb → balancer_at lb → (lb_current lb < Z.of_nat m)%Z →
  balancer_at (next_begin lb).1 ∧ call_ok (h ++ [(next_begin lb).1]) m (next_begin lb).2
  ∧ lb_stopped (next_begin lb).1 = lb_stopped lb ∧ (lb_current (next_begin lb).1 ≤ lb_current lb + 1)%Z.
Proof.
  intros Hlast Hat Hm. pose proof Hat as [Hb [Hlen Hc]].
  rewrite last_lookup in Hlast. pose proof (lookup_lt_Some _ _ _ Hlast) as Hlt.
  set (h' := h ++ [(next_begin lb).1]). set (t0 := pred (length h)) in *.
  assert (S t0 = length h) as Ht0 by (unfold t0; lia).
  assert (in_order h' (S t0) (λ _, S t0)) as Ho by (split; intros; unfold h'; rewrite ?length_app; simpl; lia).
  assert (h' !! t0 = Some lb) as H0 by (by apply lookup_app_l_Some).
  assert (h' !! S t0 = Some (Next lb).1) as H1.
  { unfold h'. rewrite Ht0, list_lookup_middle by done. unfold next_begin, Next, Next_with.
    by destruct (lb_backends lb) as [|? [|]]. }
  assert (∀ b, lb_backends lb = [] ∧ b = [] ∨ lb_backends lb = [b] → next_run h' m (Ret b)) as Hone.
  { intros b Hbk. exists t0, lb, (λ _, S t0). do 5 (split; [done|]).
    unfold Next_with. by destruct Hbk as [[-> ->] | ->]. }
  clearbody h'. unfold next_begin. destruct (lb_backends lb) as [|b [|b' bs']] eqn:Ebs; cbn [fst snd].
  - split; [done|]. split; [apply Hone; auto|]. split; [done|lia].
  - split; [done|]. split; [apply Hone; auto|]. split; [done|lia].
  - split; [|split; [|split; [by destruct lb|]]].
    + destruct lb as [lbs fl c st r]. simpl in *. subst lbs. split; [done|]. split; [done|].
      simpl. apply Z.mod_pos_bound. lia.
    + split; [rewrite <- Hb; simpl; lia|]. split; [lia|]. exists t0, lb, (λ _, S t0).
      do 6 (split; [done|]). split; [lia|]. intros loads _. by rewrite Nat.sub_0_r.
    + destruct lb. simpl. unfold uint64_add. apply Z.mod_le; simpl in *; lia.
Qed.

(** ** Every step keeps the invariant *)

Lemma move_inv h s k pc pc' lb' :
  ba_inv h s → ba_calls s !! k = Some pc → balancer_at lb' →
  call_ok (h ++ [lb']) (length (ba_calls s)) pc' → pc' ≠ Waiting →
  (lb_current lb' + (if is_pending pc' then 1 else 0) ≤ lb_current (ba_lb s) + (if is_pending pc then 1 else 0))%Z →
  (if is_closing pc' then 1 else 0) + (if lb_stopped (ba_lb s) then 1 else 0)
    = (if lb_stopped lb' then 1 else 0) + (if is_closing pc then 1 else 0) →
  ba_inv (h ++ [lb']) (move k pc' lb' s).
Proof.
  intros [_ _ Hn Hs Hw Hc] Hk Hlb Hpc Hnw Hcur Hcount. pose proof (count_insert is_closing _ _ _ pc' Hk) as Hi.
  pose proof (count_insert is_pending _ _ _ pc' Hk) as Hp.
  split; simpl; rewrite ?length_insert; [apply last_snoc|done|destruct (is_pending pc), (is_pending pc'); lia|lia| |]; intros j.
  - rewrite list_lookup_insert_Some. intros [(_ & ? & _)|[_ Hj]]; [congruence|by eapply Hw].
  - intros pc0. rewrite list_lookup_insert_Some.
    intros [(_ & <- & _)|[_ Hj]]; [done|]. eapply call_ok_mono; [done|by eapply Hc].
Qed.

Lemma set_flag_at i b lb : balancer_at lb → balancer_at (set_flag i b lb).
Proof. destruct lb as [lbs h c st r]. intros [Hb [Hl Hc]]. split; [done|]. split; [|done]. simpl in *. by rewrite length_insert. Qed.

Lemma pending_counted l k : l !! k = Some CallNext → 0 < pendings l.
Proof. intros Hk. pose proof (count_insert is_pending _ _ _ StopDone Hk) as Hc. simpl in Hc. lia. Qed.

Lemma ba_step_inv h s s' : ba_step s s' → ba_inv h s → ba_inv (h ++ [ba_lb s']) s'.
Proof.
  intros Hstep Hi. pose proof Hi as [Hl Hlb Hn Hs Hw Hc].
  assert (∀ lb k pc, ba_calls s !! k = Some pc → call_ok (h ++ [lb]) (length (ba_calls s)) pc) as Hc'.
  { intros lb k pc Hk. eapply call_ok_mono; [done|by eapply Hc]. }
  destruct Hstep as [s c Hcall|s k Hk|s k start i Hk|s k Hk Hst|s k Hk Hst|s k Hk|s k Hk _|s _|s i b _ _|s i _ _|s _ _].
  - split; simpl; rewrite ?count_app, ?length_app; [apply last_snoc|done| | | |].
    + destruct Hcall as [-> | ->]; simpl; lia.
    + destruct Hcall as [-> | ->]; simpl; lia.
    + intros k. rewrite lookup_snoc_Some. intros [[_ Hk]|[_ Heq]]; [by eapply Hw|]. by destruct Hcall; congruence.
    + intros k pc. rewrite lookup_snoc_Some. intros [[_ Hk]|[_ Heq]].
      * eapply call_ok_mono; [|by eapply Hc]. lia.
      * subst. by destruct Hcall as [-> | ->].
  - pose proof (pending_counted _ _ Hk) as Hp.
    destruct (next_begin_ok h (length (ba_calls s)) _ Hl Hlb) as (Hlb' & Hpc & Hst & Hcur); [lia|].
    assert (is_closing (next_begin (ba_lb s)).2 = false ∧ is_pending (next_begin (ba_lb s)).2 = false
      ∧ (next_begin (ba_lb s)).2 ≠ Waiting) as (Hcl & Hpe & Hnw)
      by (unfold next_begin; by destruct (lb_backends _) as [|? [|]]).
    eapply move_inv; [done..| |]; rewrite ?Hst, ?Hcl, ?Hpe; simpl; lia.
  - eapply move_inv; try done; [eapply call_ok_mono; [done|]; apply next_load_ok; [done|done|by eapply Hc]|..];
      unfold next_load, chosen; repeat case_match; simpl; try done; lia.
  - eapply move_inv; simpl; try done; lia.
  - eapply move_inv; try done; destruct (ba_lb s); simpl in *; [done|lia|]. by rewrite Hst.
  - pose proof (count_insert is_closing _ _ _ Waiting Hk) as H1. pose proof (count_insert is_pending _ _ _ Waiting Hk) as H2.
    simpl in H1, H2. split; simpl; rewrite ?length_insert; [apply last_snoc|done|lia|lia|lia|].
    intros j pc. rewrite list_lookup_insert_Some. intros [(_ & <- & _)|[_ Hj]]; [done|by eapply Hc'].
  - eapply move_inv; simpl; try done; lia.
  - split; simpl; try done; [apply last_snoc|by intros k pc; apply Hc'].
  - split; simpl; [apply last_snoc|by apply set_flag_at| | |done|by intros k pc; apply Hc']; by destruct (ba_lb s).
  - split; simpl; try done; [apply last_snoc|by intros k pc; apply Hc'].
  - split; simpl; try done; [apply last_snoc|by intros k pc; apply Hc'].
Qed.

Lemma inv_run lb h s :
  balancer_at lb → lb_stopped lb = false → lb_current lb = 0%Z → ba_run (start_balancer lb) h s → ba_inv h s.
Proof.
  intros Hlb Hst Hz. induction 1 as [|h s s' _ IH Hs]; [|by eapply ba_step_inv].
  split; simpl; [done|done|by rewrite Hz|by rewrite Hst|by intros k|by intros k pc].
Qed.

Lemma run_exists s0 s : rtc ba_step s0 s → ∃ h, ba_run s0 h s.
Proof.
  revert s. apply rtc_ind_r; [eexists; constructor|]. intros y z _ Hs [h Hh]. eexists. by econstructor.
Qed.

(** * Properties *)

Lemma new_at iv : balancer_at (NewLoadBalancer bs iv).
Proof. split; [done|apply NewLoadBalancer_ok]. Qed.

(** C18: However calls of [Next] and [Stop] and the health checks are interleaved, the
    channel is closed at most once, and a backend that a call of [Next] has chosen is
    the one that the sequential [Next] chooses on the balancer of a step of the run that
    increases the counter as [Next] does, if its loads see the flags as they were at
    later times of the run, in the order of the loads.  With at least one backend, and as long as the
    number of calls and of backends is together less than 2^63, no call panics and
    all of them choose backends of the balancer. *)
Theorem balancer_runs iv h s :
  ba_run (start_balancer (NewLoadBalancer bs iv)) h s →
  ba_closed s + closings (ba_calls s) ≤ 1
  ∧ (∀ k b, ba_calls s !! k = Some (Chosen b) →
       ∃ t0 lb t, h !! t0 = Some lb ∧ h !! S t0 = Some (Next lb).1 ∧ lb_backends lb = bs ∧ lb_ok lb
         ∧ (lb_current lb < Z.of_nat (length (ba_calls s)))%Z
         ∧ in_order h (S t0) t ∧ (Next_with (flags_at h t) lb).2 = Ret b)
  ∧ (bs ≠ [] → (Z.of_nat (length (ba_calls s)) + n < 2 ^ 63)%Z →
     ∀ k pc, ba_calls s !! k = Some pc → pc ≠ NextPanic ∧ ∀ b, pc = Chosen b → b ∈ bs).
Proof.
  intros Hr. destruct (inv_run _ _ _ (new_at iv) eq_refl eq_refl Hr) as [_ _ _ Hs _ Hc].
  split; [destruct (lb_stopped _); lia|]. split.
  - intros k b Hk. destruct (Hc _ _ Hk) as (t0 & lb & t & Ht & Ht1 & [Hb Hok] & Hcur & Ho & Hrun). by exists t0, lb, t.
  - intros Hne Hlt k pc Hk. specialize (Hc _ _ Hk).
    assert (∀ o, next_run h (length (ba_calls s)) o → ∃ b, o = Ret b ∧ b ∈ bs) as Hrun.
    { intros o (t0 & lb & t & _ & _ & [Hb Hok] & Hcur & _ & <-).
      destruct (Next_sound (flags_at h t) lb Hok) as (b & Hbk & Hin & _); [by rewrite Hb|rewrite Hb; lia|].
      exists b. by rewrite <- Hb. }
    split; [intros ->; by destruct (Hrun _ Hc) as (b & ? & _)|].
    intros b ->. by destruct (Hrun _ Hc) as (b' & [= <-] & ?).
Qed.

(** ** Stopping *)

(** The health checks end once the channel is closed. *)
Lemma checker_ends s :
  0 < ba_closed s → ∃ lb, rtc ba_step s (MkBalancer lb (ba_closed s) CheckerDone (ba_calls s)).
Proof.
  intros Hcl.
  assert (∀ lb, rtc ba_step (MkBalancer lb (ba_closed s) Selecting (ba_calls s))
    (MkBalancer lb (ba_closed s) CheckerDone (ba_calls s))) as Hsel by (intros lb; by apply rtc_once, (ba_quit (MkBalancer _ _ _ _))).
  assert (∀ d i lb, d = length (lb_backends lb) - i →
    ∃ lb', rtc ba_step (MkBalancer lb (ba_closed s) (Probing i) (ba_calls s))
             (MkBalancer lb' (ba_closed s) CheckerDone (ba_calls s))) as Hprobe.
  { induction d as [|d IH]; intros i lb Hd.
    - exists lb. eapply rtc_l; [|apply Hsel]. apply (ba_checked (MkBalancer lb _ _ _) i); [done|simpl; lia].
    - destruct (IH (S i) (set_flag i true lb)) as [lb' Hlb'].
      { destruct lb; simpl in *. lia. }
      exists lb'. eapply rtc_l; [|exact Hlb']. apply (ba_probe (MkBalancer lb _ _ _) i true); [done|simpl; lia]. }
  destruct s as [lb cl [|i|] calls]; simpl in *; [by exists lb|by eapply Hprobe|by exists lb].
Qed.

(** C31: A call of [Stop] returns: from every state that can be reached, steps lead to
    one where it has, whatever the health checks were doing. *)
Theorem balancer_stops iv s k :
  rtc ba_step (start_balancer (NewLoadBalancer bs iv)) s →
  ba_calls s !! k = Some CallStop ∨ ba_calls s !! k = Some Closing ∨ ba_calls s !! k = Some Waiting →
  ∃ s', rtc ba_step s s' ∧ ba_calls s' !! k = Some StopDone.
Proof.
  intros [h Hr]%run_exists Hk. pose proof (inv_run _ _ _ (new_at iv) eq_refl eq_refl Hr) as Hi.
  assert (∀ s, 0 < ba_closed s → ba_calls s !! k = Some Waiting →
    ∃ s', rtc ba_step s s' ∧ ba_calls s' !! k = Some StopDone) as Hwait.
  { intros t Ht Hw. destruct (checker_ends t Ht) as [lb Hlb]. eexists. split.
    - eapply rtc_r; [exact Hlb|]. by apply (ba_wait _ k).
    - simpl. apply list_lookup_insert_eq. by eapply lookup_lt_Some. }
  assert (∀ s, ba_calls s !! k = Some Closing →
    ∃ s', rtc ba_step s s' ∧ ba_calls s' !! k = Some StopDone) as Hclose.
  { intros t Ht. pose proof (ba_close t k Ht) as Hstep.
    match type of Hstep with ba_step _ ?t' => destruct (Hwait t') as (u & Hu & ?) end;
      [simpl; lia|simpl; apply list_lookup_insert_eq; by eapply lookup_lt_Some|].
    exists u. split; [by eapply rtc_l|done]. }
  destruct Hk as [Hk|[Hk|Hk]]; [|by apply Hclose|apply Hwait; [by eapply (bi_wait _ _ Hi)|done]].
  pose proof (lookup_lt_Some _ _ _ Hk) as Hlt. destruct (lb_stopped (ba_lb s)) eqn:Hst.
  - eexists. split; [by apply rtc_once, (ba_again _ k)|]. simpl. by apply list_lookup_insert_eq.
  - pose proof (ba_swap s k Hk Hst) as Hstep.
    match type of Hstep with ba_step _ ?t' => destruct (Hclose t') as (u & Hu & ?) end;
      [simpl; by apply list_lookup_insert_eq|].
    exists u. split; [by eapply rtc_l|done].
Qed.

(** The steps of the checker between two ticks are [checkAll]. *)
Lemma checks_refine probe s :
  balancer_at (ba_lb s) → ba_checker s = Selecting →
  rtc ba_step s (MkBalancer (checkAll probe (ba_lb s)).1 (ba_closed s) Selecting (ba_calls s)).
Proof.
  intros [Hb [Hlen _]] Hsel. destruct s as [lb cl ck calls]. simpl in *. subst ck.
  eapply rtc_l; [by apply ba_tick|]. simpl. destruct lb as [lbs h c st r]. simpl in *. subst lbs.
  assert (∀ i, i ≤ length bs → rtc ba_step (MkBalancer (MkLB bs h c st r) cl (Probing 0) calls)
    (MkBalancer (MkLB bs (map probe (take i bs) ++ drop i h) c st r) cl (Probing i) calls)) as Hi.
  { induction i as [|i IH]; intros Hi; [by rewrite drop_0|].
    eapply rtc_r; [apply IH; lia|].
    destruct (lookup_lt_is_Some_2 bs i) as [b Hbi]; [lia|].
    destruct (lookup_lt_is_Some_2 h i) as [f Hf]; [lia|].
    match goal with |- ba_step ?s _ => pose proof (ba_probe s i (probe b) eq_refl ltac:(simpl; lia)) as Hstep end.
    simpl in Hstep. rewrite (take_S_r _ _ _ Hbi), map_app, <- app_assoc. simpl.
    rewrite (drop_S _ _ _ Hf), insert_app_r_alt in Hstep by (rewrite length_map, length_take; lia).
    rewrite length_map, length_take, Nat.min_l, Nat.sub_diag in Hstep by lia. by rewrite (drop_S _ _ _ Hf). }
  eapply rtc_r; [apply (Hi (length bs)); lia|].
  match goal with |- ba_step ?s _ => pose proof (ba_checked s (length bs) eq_refl ltac:(simpl; lia)) as Hstep end.
  simpl in Hstep. by rewrite take_ge, drop_ge, app_nil_r in Hstep |- * by lia.
Qed.
End Balancer.

(** * Witnesses *)

Section Runs.
Let backends : list gostring := [str "a:80"; str "b:80"; str "c:80"].
Let fresh : balancer := start_balancer (NewLoadBalancer backends 1).

(** A call of [Next] that loads its first flag after the health checks have cleared
    it, and so chooses the backend after it. *)
Let raced : balancer :=
  MkBalancer (set_flag 1 false (set_current 1 (NewLoadBalancer backends 1))) 0 (Probing 2) [Chosen (str "c:80")].

Lemma raced_reached : rtc ba_step fresh raced.
Proof.
  eapply rtc_l; [apply (ba_call _ CallNext); by left|]. eapply rtc_l; [by apply (ba_begin _ 0)|].
  eapply rtc_l; [by apply ba_tick|]. eapply rtc_l; [by apply (ba_probe _ 0 true); [|simpl; lia]|].
  eapply rtc_l; [by apply (ba_probe _ 1 false); [|simpl; lia]|].
  eapply rtc_l; [by apply (ba_load _ 0 1 0)|]. eapply rtc_l; [by apply (ba_load _ 0 1 1)|]. apply rtc_refl.
Qed.

Lemma balancer_runs_witness : str "c:80" ∈ backends ∧ ba_closed raced + count is_closing (ba_calls raced) ≤ 1.
Proof.
  destruct (run_exists _ _ raced_reached) as [h Hr].
  destruct (balancer_runs backends 1 h raced Hr) as (Hcl & _ & Hall). split; [|exact Hcl].
  destruct (Hall ltac:(discriminate) ltac:(reflexivity) 0 (Chosen (str "c:80")) eq_refl) as [_ Hb]. by apply Hb.
Defined.

(** A call of [Stop] while the backends are probed. *)
Let stopping : balancer := MkBalancer (NewLoadBalancer backends 1) 0 (Probing 0) [CallStop].

Lemma balancer_stops_witness : ∃ s', rtc ba_step stopping s' ∧ ba_calls s' !! 0 = Some StopDone.
Proof.
  apply (balancer_stops backends 1 stopping 0); [|by left].
  eapply rtc_l; [apply (ba_call _ CallStop); by right|]. by apply rtc_once, ba_tick.
Defined.

(** A second call of [Stop] returns at once, also while the health checks still run. *)
Lemma second_stop_early :
  ∃ s, rtc ba_step fresh s ∧ ba_calls s = [Closing; StopDone] ∧ ba_checker s = Probing 0.
Proof.
  eexists. split.
  - eapply rtc_l; [apply (ba_call _ CallStop); by right|]. eapply rtc_l; [apply (ba_call _ CallStop); by right|].
    eapply rtc_l; [by apply ba_tick|]. eapply rtc_l; [by apply (ba_swap _ 0)|].
    eapply rtc_l; [by apply (ba_again _ 1)|]. apply rtc_refl.
  - done.
Qed.
End Runs.
