(* ===== verification/Storage.v ===== *)
(** The stores of specifications (internal/platform/storage: storage.go, dbv1.go,
    dbv2.go, file.go, url.go), their regular update
    (cmd/api-firewall/internal/handlers/api/updater.go and proxy/updater.go) and
    [UpdateSpecsStorage] of pkg/APIMode/apifw.go.

    A disk maps paths to SQLite files and a file is its rows; the SQL engine, the
    parser of OpenAPI documents and the network are libraries. *)
From S2P Require Import Prelude GoStrings.

(** A nil slice, or a nil joined error. *)
Definition no_items {A} (l : list A) : bool := match l with [] => true | _ => false end.

(** The errors of loading: the two classes of internal/platform/loader, and the
    others. *)
Inductive load_error :=
  | ErrOASValidation (msg : gostring)
  | ErrOASParsing (msg : gostring)
  | ErrLoading (msg : gostring).

(** A row of the table [openapi_schemas]; [SpecificationEntryV1] and
    [SpecificationEntryV2] are read from it.  The first version of the structure
    does not select the status, which is empty in its entries. *)
Record entry := MkEntry {
  SchemaID : Z;
  SchemaVersion : gostring;
  SchemaFormat : gostring;
  SchemaContent : gostring;
  Status : gostring
}.

(** A row as stored: its status can be NULL. *)
Record row := MkRow { row_entry : entry; row_status : option gostring }.

(** A database file: the rows or the error of reading them, whether the table has
    the column of the status, the error of writing. *)
Record database := MkDB {
  db_rows : result gostring (list row);
  db_has_status : bool;
  db_write_error : option gostring
}.
Notation disk := (gmap gostring database).

Section Storage.
(** [LoadFromData] and [Validate] of the OpenAPI library. *)
Context {spec : Type} (LoadFromData : gostring → result gostring spec).
Context (ValidateSpec : spec → option gostring).

(** [ParseOAS]. *)
Definition ParseOAS (schema : gostring) : result load_error spec :=
  match LoadFromData schema with
  | Err e => Err (ErrOASParsing e)
  | Ok parsed =>
      match ValidateSpec parsed with
      | Some e => Err (ErrOASValidation e)
      | None => Ok parsed
      end
  end.

(** * Databases *)

(** The two queries and the scans of their rows. *)
Definition scan_v1 (r : row) : entry :=
  let '(MkEntry i v f c _) := row_entry r in MkEntry i v f c [].
Definition scan_v2 (r : row) : option entry :=
  let '(MkEntry i v f c _) := row_entry r in
  match row_status r with Some st => Some (MkEntry i v f c st) | None => None end.

Definition query_v1 (db : database) : result load_error (list entry) :=
  match db_rows db with Err e => Err (ErrLoading e) | Ok rows => Ok (map scan_v1 rows) end.
Definition query_v2 (db : database) : result load_error (list entry) :=
  match db_rows db with
  | Err e => Err (ErrLoading e)
  | Ok rows =>
      if negb (db_has_status db) then Err (ErrLoading "no such column: status")
      else match mapM scan_v2 rows with
           | Some es => Ok es
           | None => Err (ErrLoading "converting NULL to string is unsupported")
           end
  end.

(** * Stores *)

Inductive store_kind := SQLLiteV1 | SQLLiteV2.

(** [SQLLiteV1] and [SQLLiteV2]: the same fields. *)
Record store := MkStore {
  st_kind : store_kind;
  st_isReady : bool;
  st_RawSpecs : gmap Z entry;
  st_OpenAPISpec : gmap Z spec
}.

Definition kind_version (k : store_kind) : Z := match k with SQLLiteV1 => 1 | SQLLiteV2 => 2 end.

(** The path of the file: each structure has its default. *)
Definition db_path (k : store_kind) (dbStoragePath : gostring) : gostring :=
  if is_empty dbStoragePath then
    match k with
    | SQLLiteV1 => str "/var/lib/wallarm-api/1/wallarm_api.db"
    | SQLLiteV2 => str "/var/lib/wallarm-api/2/wallarm_api.db"
    end
  else dbStoragePath.
Definition err_not_exist : load_error := ErrLoading "file does not exist".

(** The entries by identifier: a later row replaces an earlier one. *)
Definition index_entries (es : list entry) : gmap Z entry :=
  fold_left (λ m e, <[SchemaID e := e]> m) es ∅.

(** The loop over the entries: the documents that parse, the entries left, the
    errors of the others. *)
Definition parsed (e : entry) : option spec :=
  match ParseOAS (SchemaContent e) with Ok s => Some s | Err _ => None end.
Definition parse_error (e : entry) : option load_error :=
  match ParseOAS (SchemaContent e) with Ok _ => None | Err x => Some x end.

Definition Load (k : store_kind) (d : disk) (dbStoragePath : gostring) : store * list load_error :=
  match d !! db_path k dbStoragePath with
  | None => (MkStore k false ∅ ∅, [err_not_exist])
  | Some db =>
      match match k with SQLLiteV1 => query_v1 db | SQLLiteV2 => query_v2 db end with
      | Err e => (MkStore k false ∅ ∅, [e])
      | Ok es =>
          let entries := index_entries es in
          (MkStore k true
             (filter (λ ie, is_Some (parsed ie.2)) entries)
             (omap parsed entries),
           omap (λ ie, parse_error ie.2) (map_to_list entries))
      end
  end.

(** ** The interface [DBOpenAPILoader] *)

Definition Specification (s : store) (schemaID : Z) : option spec := st_OpenAPISpec s !! schemaID.
Definition SpecificationRaw (s : store) (schemaID : Z) : option entry := st_RawSpecs s !! schemaID.
Definition SpecificationRawContent (s : store) (schemaID : Z) : option gostring :=
  SchemaContent <$> st_RawSpecs s !! schemaID.
Definition SpecificationVersion (s : store) (schemaID : Z) : gostring :=
  match st_RawSpecs s !! schemaID with Some e => SchemaVersion e | None => [] end.
Definition IsLoaded (s : store) (schemaID : Z) : bool :=
  match st_OpenAPISpec s !! schemaID with Some _ => true | None => false end.
Definition SchemaIDs (s : store) : list Z :=
  merge_sort Z.le (map (λ ie, SchemaID ie.2) (map_to_list (st_RawSpecs s))).
Definition IsReady (s : store) : bool := st_isReady s.
Definition Version (s : store) : Z := kind_version (st_kind s).

(** [AfterLoad]: the new entries become applied, first in the file, then in the
    store. *)
Definition updatedSchemaIDs (s : store) : list Z :=
  omap (λ ie, if Status ie.2 =?s "new" then Some ie.1 else None) (map_to_list (st_RawSpecs s)).

Definition apply_row (ids : list Z) (r : row) : row :=
  if bool_decide (SchemaID (row_entry r) ∈ ids) then MkRow (row_entry r) (Some (str "applied")) else r.

Definition exec_update (ids : list Z) (db : database) : result load_error database :=
  match db_write_error db, db_rows db with
  | Some e, _ => Err (ErrLoading e)
  | None, Err e => Err (ErrLoading e)
  | None, Ok rows =>
      if negb (db_has_status db) then Err (ErrLoading "no such column: status")
      else Ok (MkDB (Ok (map (apply_row ids) rows)) true None)
  end.

Definition set_applied (e : entry) : entry :=
  MkEntry (SchemaID e) (SchemaVersion e) (SchemaFormat e) (SchemaContent e) "applied".

Definition AfterLoad (d : disk) (dbStoragePath : gostring) (s : store) : disk * store * option load_error :=
  match st_kind s with
  | SQLLiteV1 => (d, s, None)
  | SQLLiteV2 =>
      let path := db_path SQLLiteV2 dbStoragePath in
      match d !! path with
      | None => (d, s, Some err_not_exist)
      | Some db =>
          let ids := updatedSchemaIDs s in
          if no_items ids then (d, s, None)
          else
            match exec_update ids db with
            | Err e => (d, s, Some e)
            | Ok db' =>
                (<[path := db']> d,
                 MkStore (st_kind s) (st_isReady s)
                   (fold_left (λ m id, alter set_applied id m) ids (st_RawSpecs s)) (st_OpenAPISpec s),
                 None)
            end
      end
  end.

(** [getSchemaVersions] and [ShouldUpdate]. *)
Definition getSchemaVersions (s : store) : gmap Z gostring :=
  fold_left (λ m id, <[id := SpecificationVersion s id]> m) (SchemaIDs s) ∅.

Definition entry_changed (s newStorage : store) (id : Z) : bool :=
  match st_kind newStorage, SpecificationRaw newStorage id with
  | SQLLiteV2, Some e =>
      (Status e =?s "new") || negb (SchemaVersion e =?s SpecificationVersion s id)
  | _, _ => false
  end.

Definition ShouldUpdate (s newStorage : store) : bool :=
  match st_kind s with
  | SQLLiteV1 => negb (bool_decide (getSchemaVersions s = getSchemaVersions newStorage))
  | SQLLiteV2 =>
      let newSchemaIDs := SchemaIDs newStorage in
      let currentSchemaIDs := SchemaIDs s in
      if negb (Nat.eqb (length currentSchemaIDs) (length newSchemaIDs)) then true
      else if existsb (λ sid, negb (bool_decide (sid ∈ currentSchemaIDs))) newSchemaIDs then true
      else existsb (entry_changed s newStorage) newSchemaIDs
  end.

(** ** Loading a database *)

Definition NewOpenAPIDBV1 (d : disk) (dbStoragePath : gostring) : disk * store * list load_error :=
  let '(s, errs) := Load SQLLiteV1 d dbStoragePath in (d, s, errs).

Definition NewOpenAPIDBV2 (d : disk) (dbStoragePath : gostring) (execAfterLoad : bool)
  : disk * store * list load_error :=
  let '(s, errs) := Load SQLLiteV2 d dbStoragePath in
  if execAfterLoad then
    match AfterLoad d dbStoragePath s with
    | (d, s, Some e) => (d, MkStore (st_kind s) false (st_RawSpecs s) (st_OpenAPISpec s), errs ++ [e])
    | (d, s, None) => (d, s, errs)
    end
  else (d, s, errs).

Definition loadOpenAPIDBVersion (d : disk) (dbStoragePath : gostring) (version : Z) (execAfterLoad : bool)
  : disk * store * list load_error :=
  if (version =? 1)%Z then NewOpenAPIDBV1 d dbStoragePath
  else if (version =? 2)%Z then NewOpenAPIDBV2 d dbStoragePath execAfterLoad
  else
    match NewOpenAPIDBV2 d dbStoragePath execAfterLoad with
    | (d, s, []) => (d, s, [])
    | (d, _, _) => NewOpenAPIDBV1 d dbStoragePath
    end.
Definition NewOpenAPIDB (d : disk) (path : gostring) (version : Z) := loadOpenAPIDBVersion d path version true.
Definition LoadOpenAPIDB (d : disk) (path : gostring) (version : Z) := loadOpenAPIDBVersion d path version false.

(** * Updates *)

(** A tick of [Specification.Run] of the API mode: the disk and the store after
    it, and whether the handlers were built again. *)
Definition Run_tick (path : gostring) (version : Z) (d : disk) (cur : store) : disk * store * bool :=
  let '(d, newSpecDB, errs) := LoadOpenAPIDB d path version in
  if negb (no_items errs) then (d, cur, false)
  else if (Version newSpecDB <? Version cur)%Z then (d, cur, false)
  else if ShouldUpdate cur newSpecDB then
    let '(d, newSpecDB, _) := AfterLoad d path newSpecDB in (d, newSpecDB, true)
  else (d, cur, false).

(** The errors of pkg/APIMode, and [wrapOASpecErrs]: [errors.Is] looks for a class
    in all the joined errors. *)
Inductive apifw_error :=
  | ErrSpecValidation (errs : list load_error)
  | ErrSpecParsing (errs : list load_error)
  | ErrSpecLoading (errs : list load_error)
  | ErrHandlersInit (msg : gostring).

Definition is_validation (e : load_error) : bool := match e with ErrOASValidation _ => true | _ => false end.
Definition is_parsing (e : load_error) : bool := match e with ErrOASParsing _ => true | _ => false end.

Definition wrapOASpecErrs (errs : list load_error) : apifw_error :=
  if existsb is_validation errs then ErrSpecValidation errs
  else if existsb is_parsing errs then ErrSpecParsing errs
  else ErrSpecLoading errs.

(** [UpdateSpecsStorage]: [getRouters] is the error of building the routers. *)
Definition UpdateSpecsStorage (getRouters : store → option gostring)
    (path : gostring) (version : Z) (d : disk) (cur : store)
  : disk * store * (list Z * bool * option apifw_error) :=
  let '(d, newSpecDB, errs) := NewOpenAPIDB d path version in
  if negb (no_items errs) then (d, cur, (SchemaIDs cur, false, Some (wrapOASpecErrs errs)))
  else if (Version newSpecDB <? Version cur)%Z then
    (d, cur, (SchemaIDs cur, false, Some (ErrSpecLoading [])))
  else if ShouldUpdate cur newSpecDB then
    match getRouters newSpecDB with
    | Some e => (d, cur, (SchemaIDs cur, false, Some (ErrHandlersInit e)))
    | None =>
        match AfterLoad d path newSpecDB with
        | (d, s, Some e) => (d, s, (SchemaIDs s, true, Some (wrapOASpecErrs [e])))
        | (d, s, None) => (d, s, (SchemaIDs s, true, None))
        end
    end
  else (d, cur, (SchemaIDs cur, false, None)).

(** * Files and URLs *)

(** [File] and [URL]: one document. *)
Record file_store := MkFile { fs_isReady : bool; fs_RawSpec : gostring; fs_OpenAPISpec : option spec }.

Definition loaded_file (rawSpec : gostring) : file_store * list load_error :=
  match ParseOAS rawSpec with
  | Ok s => (MkFile true rawSpec (Some s), [])
  | Err e => (MkFile true rawSpec None, [e])
  end.

(** What reading a path gives; [log.Fatal] ends the process. *)
Inductive file_read := NotExist | OpenFailed | ReadFailed (msg : gostring) | Content (raw : gostring).

Definition File_Load (f : file_read) : outcome (file_store * list load_error) :=
  match f with
  | NotExist => Ret (MkFile false [] None, [err_not_exist])
  | OpenFailed => Panic
  | ReadFailed e => Ret (MkFile false [] None, [ErrLoading e])
  | Content rawSpec => Ret (loaded_file rawSpec)
  end.

(** [config.CustomHeader]. *)
Record CustomHeader := MkCustomHeader { ch_Name : gostring; ch_Value : gostring }.

(** The request for a document; the custom header is set when it has a name and a
    value. *)
Record url_request := MkURLRequest {
  ur_URI : gostring;
  ur_Method : gostring;
  ur_UserAgent : gostring;
  ur_Header : option (gostring * gostring)
}.

Definition spec_request (customHeader : CustomHeader) (url : gostring) : url_request :=
  let customHeaderName := trim_space (ch_Name customHeader) in
  let customHeaderValue := trim_space (ch_Value customHeader) in
  MkURLRequest url "GET" "Wallarm/API-Firewall"
    (if negb (is_empty customHeaderName) && negb (is_empty customHeaderValue)
     then Some (customHeaderName, customHeaderValue) else None).

(** [get] is the answer to a request, its status and its body: [log.Fatal] when there
    is none or its status is not 200. *)
Definition URL_Load (get : url_request → option (Z * gostring)) (customHeader : CustomHeader) (url : gostring)
  : outcome (file_store * list load_error) :=
  match get (spec_request customHeader url) with
  | None => Panic
  | Some (status, body) => if (status =? 200)%Z then Ret (loaded_file body) else Panic
  end.

(** [getChecksum]: [Sum] appends to its argument the digest of what was written to
    the hash, and nothing was. *)
Definition getChecksum (sha256_empty oasFile : gostring) : gostring := oasFile ++ sha256_empty.

Definition File_ShouldUpdate (sha256_empty : gostring) (s newStorage : file_store) : bool :=
  negb (getChecksum sha256_empty (fs_RawSpec s) =?s getChecksum sha256_empty (fs_RawSpec newStorage)).

(** [NewOpenAPIFromFileOrURL]: no store when there is an error.  [scheme] is the
    scheme of the text if it parses as the URI of a request, [read] what reading a
    path gives. *)
Definition no_store_on_error (r : outcome (file_store * list load_error))
  : outcome (result (list load_error) file_store) :=
  x <-! r ;; match x with (s, []) => Ret (Ok s) | (_, errs) => Ret (Err errs) end.

Definition is_url (scheme : gostring → option gostring) (specPath : gostring) : bool :=
  match scheme specPath with Some s => negb (is_empty s) | None => false end.

Definition NewOpenAPIFromFileOrURL (scheme : gostring → option gostring) (read : gostring → file_read)
    (get : url_request → option (Z * gostring)) (specPath : gostring) (header : CustomHeader)
  : outcome (result (list load_error) file_store) :=
  no_store_on_error
    (if is_url scheme specPath then URL_Load get header specPath else File_Load (read specPath)).

(** A tick of [Specification.Run] of the proxy mode. *)
Definition Proxy_Run_tick (sha256_empty : gostring) (scheme : gostring → option gostring)
    (read : gostring → file_read) (get : url_request → option (Z * gostring))
    (specPath : gostring) (header : CustomHeader) (cur : file_store) : outcome (file_store * bool) :=
  r <-! NewOpenAPIFromFileOrURL scheme read get specPath header ;;
  match r with
  | Err _ => Ret (cur, false)
  | Ok s => if File_ShouldUpdate sha256_empty cur s then Ret (s, true) else Ret (cur, false)
  end.
End Storage.
