(* ===== verification/StorageSpec.v ===== *)
(** Properties of the stores of specifications: what a store holds after any
    sequence of updates, that an update settles, and which changes of a database
    each of the two update procedures sees. *)
From S2P Require Import Prelude GoStrings Storage.

Section StorageSpec.
Context {spec : Type} (LoadFromData : gostring → result gostring spec).
Context (ValidateSpec : spec → option gostring).
Local Notation parsed := (parsed LoadFromData ValidateSpec).
Local Notation Load := (Load LoadFromData ValidateSpec).
Local Notation Run_tick := (Run_tick LoadFromData ValidateSpec).
Local Notation UpdateSpecsStorage := (UpdateSpecsStorage LoadFromData ValidateSpec).
Local Notation store := (@store spec).

(** * The invariant of a store *)

(** The documents are those of the entries, by their identifiers. *)
Definition store_wf (s : store) : Prop :=
  (∀ id e, st_RawSpecs s !! id = Some e → SchemaID e = id ∧ is_Some (parsed e)) ∧
  (∀ id, st_OpenAPISpec s !! id = st_RawSpecs s !! id ≫= parsed).

Lemma index_entries_app es e : index_entries (es ++ [e]) = <[SchemaID e := e]> (index_entries es).
Proof. unfold index_entries. by rewrite fold_left_app. Qed.

Lemma index_entries_id es id e : index_entries es !! id = Some e → SchemaID e = id ∧ e ∈ es.
Proof.
  induction es as [|e' es IH] using rev_ind; [done|].
  rewrite index_entries_app. intros [[? ?]|[? Hl]]%lookup_insert_Some; subst.
  - split; [done|]. apply elem_of_app. right. by apply list_elem_of_singleton.
  - destruct (IH Hl). split; [done|]. apply elem_of_app. by left.
Qed.

Lemma index_entries_fmap (f : entry → entry) es :
  (∀ e, SchemaID (f e) = SchemaID e) → index_entries (map f es) = f <$> index_entries es.
Proof.
  intros Hf. induction es as [|e es IH] using rev_ind; [done|].
  rewrite map_app. cbn [map]. rewrite !index_entries_app, Hf.
  replace (index_entries (map f es)) with (f <$> index_entries es) by done.
  by rewrite fmap_insert.
Qed.

Lemma empty_wf k b : store_wf (MkStore k b ∅ ∅).
Proof. split; [intros id e H|intros id]; set_solver. Qed.

Lemma Load_wf k d path : store_wf (Load k d path).1.
Proof.
  unfold Storage.Load. destruct (d !! _) as [db|]; [|apply empty_wf].
  destruct (match k with SQLLiteV1 => _ | _ => _ end) as [es|]; [|apply empty_wf].
  split; cbn.
  - intros id e [Hl Hp]%map_lookup_filter_Some. by destruct (index_entries_id _ _ _ Hl).
  - intros id. rewrite lookup_omap, map_lookup_filter.
    destruct (index_entries es !! id) as [e|]; [cbn|done].
    case_guard as Hp; cbn; [done|]. destruct (parsed e) as [x|] eqn:He; [|done].
    exfalso. apply Hp. by exists x.
Qed.
Lemma Load_kind k d path : st_kind (Load k d path).1 = k.
Proof.
  unfold Storage.Load. destruct (d !! _); [|done].
  by destruct (match k with SQLLiteV1 => _ | _ => _ end).
Qed.

(** ** [AfterLoad] *)

Lemma updatedSchemaIDs_elem (s : store) id :
  id ∈ updatedSchemaIDs s ↔ ∃ e, st_RawSpecs s !! id = Some e ∧ Status e = str "new".
Proof.
  unfold updatedSchemaIDs. rewrite list_elem_of_omap. split.
  - intros ([id' e] & Hin & Hs). apply elem_of_map_to_list in Hin. cbn [fst snd] in Hs.
    destruct (Status e =?s "new") eqn:He; [|done]. injection Hs as <-.
    apply eqb_str_true in He. eauto.
  - intros (e & Hl & Hs). exists (id, e). split; [by apply elem_of_map_to_list|].
    cbn [fst snd]. by rewrite Hs.
Qed.

(** The statuses after marking a list of identifiers. *)
Definition mark (ids : list Z) (e : entry) : entry :=
  if bool_decide (SchemaID e ∈ ids) then set_applied e else e.

Lemma mark_id ids e : SchemaID (mark ids e) = SchemaID e.
Proof. unfold mark. by case_bool_decide. Qed.
Lemma mark_version ids e : SchemaVersion (mark ids e) = SchemaVersion e.
Proof. unfold mark. by case_bool_decide. Qed.
Lemma mark_content ids e : SchemaContent (mark ids e) = SchemaContent e.
Proof. unfold mark. by case_bool_decide. Qed.
Lemma mark_parsed ids e : parsed (mark ids e) = parsed e.
Proof. unfold Storage.parsed. by rewrite mark_content. Qed.

Lemma fold_alter_lookup ids (m : gmap Z entry) id :
  (∀ e, m !! id = Some e → SchemaID e = id) →
  fold_left (λ m id, alter set_applied id m) ids m !! id = mark ids <$> m !! id.
Proof.
  revert m. induction ids as [|i ids IH]; intros m Hid; cbn [fold_left].
  - destruct (m !! id); done.
  - rewrite IH.
    + destruct (decide (i = id)) as [->|Hne].
      * rewrite lookup_alter_eq. destruct (m !! id) as [e|] eqn:Hl; [cbn|done].
        pose proof (Hid e eq_refl) as Hi. unfold mark. cbn. rewrite Hi.
        rewrite (bool_decide_eq_true_2 (id ∈ id :: ids)) by set_solver.
        by case_bool_decide.
      * rewrite lookup_alter_ne by done. destruct (m !! id) as [e|] eqn:Hl; [cbn|done].
        pose proof (Hid e eq_refl) as Hi. unfold mark. rewrite Hi. do 2 f_equal.
        repeat case_bool_decide; set_solver.
    + intros e. destruct (decide (i = id)) as [->|Hne].
      * rewrite lookup_alter_eq. destruct (m !! id) eqn:Hl; [|done]. intros [= <-]. cbn. by apply Hid.
      * rewrite lookup_alter_ne by done. apply Hid.
Qed.

(** The three outcomes of [AfterLoad]. *)
Lemma AfterLoad_cases d path s :
  store_wf s →
  let '(d', s', err) := AfterLoad d path s in
  (d' = d ∧ s' = s) ∨
  ∃ db db', st_kind s = SQLLiteV2 ∧ d !! db_path SQLLiteV2 path = Some db ∧
    exec_update (updatedSchemaIDs s) db = Ok db' ∧ err = None ∧
    d' = <[db_path SQLLiteV2 path := db']> d ∧
    s' = MkStore SQLLiteV2 (st_isReady s) (mark (updatedSchemaIDs s) <$> st_RawSpecs s) (st_OpenAPISpec s).
Proof.
  intros [Hraw _]. unfold AfterLoad. destruct (st_kind s) eqn:Hk; [by left|].
  destruct (d !! _) as [db|] eqn:Hd; [|by left].
  destruct (no_items _); [by left|].
  destruct (exec_update _ db) as [db'|] eqn:He; [|by left].
  right. exists db, db'. repeat split; try done. f_equal.
  apply map_eq. intros id. rewrite lookup_fmap. apply fold_alter_lookup.
  intros e Hl. by destruct (Hraw id e Hl).
Qed.

Lemma AfterLoad_wf d path s : store_wf s → store_wf (AfterLoad d path s).1.2.
Proof.
  intros Hwf. pose proof (AfterLoad_cases d path s Hwf) as H.
  destruct (AfterLoad d path s) as [[d' s'] err]. cbn.
  destruct H as [[-> ->]|(db & db' & _ & _ & _ & _ & _ & ->)]; [done|].
  destruct Hwf as [Hraw Hspec]. split; cbn; intros id.
  - intros e. rewrite lookup_fmap. intros (e0 & Hl & ->)%fmap_Some.
    rewrite mark_id, mark_parsed. by apply Hraw.
  - rewrite Hspec, lookup_fmap. destruct (st_RawSpecs s !! id); [cbn|done]. by rewrite mark_parsed.
Qed.
Lemma AfterLoad_kind d path (s : store) : st_kind (AfterLoad d path s).1.2 = st_kind s.
Proof.
  unfold AfterLoad. destruct (st_kind s) eqn:Hk; [done|]. destruct (d !! _); [|done].
  destruct (no_items _); [done|]. by destruct (exec_update _ _).
Qed.

(** ** [SchemaIDs] *)

Lemma SchemaIDs_fst s : store_wf s → SchemaIDs s = merge_sort Z.le (map_to_list (st_RawSpecs s)).*1.
Proof.
  intros [Hraw _]. unfold SchemaIDs. f_equal. apply map_ext_in. intros [id e] Hin.
  apply list_elem_of_In, elem_of_map_to_list in Hin. by destruct (Hraw id e Hin).
Qed.
Lemma SchemaIDs_elem s id : store_wf s → id ∈ SchemaIDs s ↔ is_Some (st_RawSpecs s !! id).
Proof.
  intros Hwf. rewrite SchemaIDs_fst by done. rewrite merge_sort_Permutation.
  rewrite list_elem_of_fmap. split.
  - intros ([id' e] & -> & Hin). apply elem_of_map_to_list in Hin. by exists e.
  - intros [e He]. exists (id, e). split; [done|]. by apply elem_of_map_to_list.
Qed.
Lemma SchemaIDs_NoDup s : store_wf s → NoDup (SchemaIDs s).
Proof.
  intros Hwf. rewrite SchemaIDs_fst by done. rewrite merge_sort_Permutation.
  apply NoDup_fst_map_to_list.
Qed.
Lemma SchemaIDs_sorted (s : store) : StronglySorted Z.le (SchemaIDs s).
Proof. apply StronglySorted_merge_sort; apply _. Qed.
Lemma IsLoaded_iff s id : store_wf s → IsLoaded s id = true ↔ id ∈ SchemaIDs s.
Proof.
  intros Hwf. rewrite SchemaIDs_elem by done. destruct Hwf as [Hraw Hspec].
  unfold IsLoaded. rewrite Hspec.
  destruct (st_RawSpecs s !! id) as [e|] eqn:Hl; cbn; [|by split; [|intros [? ?]]].
  destruct (Hraw id e Hl) as [_ [x Hx]]. rewrite Hx. split; eauto.
Qed.

(** ** Stores over time *)

Lemma loadOpenAPIDBVersion_wf d path version b :
  store_wf (loadOpenAPIDBVersion LoadFromData ValidateSpec d path version b).1.2.
Proof.
  assert (H1 : ∀ d, store_wf (NewOpenAPIDBV1 LoadFromData ValidateSpec d path).1.2).
  { intros d'. unfold NewOpenAPIDBV1. pose proof (Load_wf SQLLiteV1 d' path) as H.
    by destruct (Load SQLLiteV1 d' path). }
  assert (H2 : store_wf (NewOpenAPIDBV2 LoadFromData ValidateSpec d path b).1.2).
  { unfold NewOpenAPIDBV2. pose proof (Load_wf SQLLiteV2 d path) as H.
    destruct (Load SQLLiteV2 d path) as [s errs]. destruct b; [|done].
    pose proof (AfterLoad_wf d path s H) as Ha.
    by destruct (AfterLoad d path s) as [[d' s'] [e|]]. }
  unfold loadOpenAPIDBVersion. destruct (version =? 1)%Z; [apply H1|].
  destruct (version =? 2)%Z; [apply H2|].
  destruct (NewOpenAPIDBV2 _ _ _ _ _) as [[d' s'] [|e errs]]; [done|apply H1].
Qed.

(** A step of the life of a store: a tick of the updater or a call of
    [UpdateSpecsStorage], whatever the disk holds then. *)
Inductive store_step (path : gostring) (version : Z) (cur : store) : store → Prop :=
  | step_tick d : store_step path version cur (Run_tick path version d cur).1.2
  | step_update d getRouters :
      store_step path version cur (UpdateSpecsStorage getRouters path version d cur).1.2.

Lemma AfterLoad_adopted d path (cur n : store) :
  store_wf n → (Version cur ≤ Version n)%Z →
  store_wf (AfterLoad d path n).1.2 ∧ (Version cur ≤ Version (AfterLoad d path n).1.2)%Z.
Proof.
  intros Hn Hv. split; [by apply AfterLoad_wf|]. unfold Version in *. by rewrite AfterLoad_kind.
Qed.

Lemma store_step_wf path version cur s :
  store_step path version cur s → store_wf cur → store_wf s ∧ (Version cur ≤ Version s)%Z.
Proof.
  intros Hstep Hwf.
  destruct Hstep as [d|d getRouters]; unfold Storage.Run_tick, Storage.UpdateSpecsStorage, LoadOpenAPIDB, NewOpenAPIDB.
  - pose proof (loadOpenAPIDBVersion_wf d path version false) as Hn.
    destruct (loadOpenAPIDBVersion _ _ _ _ _ _) as [[d' n] errs]. cbn [fst snd] in Hn.
    destruct (negb (no_items errs)); [by split; cbn; [|lia]|].
    destruct (Z.ltb_spec (Version n) (Version cur)) as [|Hv]; [by split; cbn; [|lia]|].
    destruct (ShouldUpdate cur n); [|by split; cbn; [|lia]].
    pose proof (AfterLoad_adopted d' path cur n Hn Hv).
    by destruct (AfterLoad d' path n) as [[d2 n2] e].
  - pose proof (loadOpenAPIDBVersion_wf d path version true) as Hn.
    destruct (loadOpenAPIDBVersion _ _ _ _ _ _) as [[d' n] errs]. cbn [fst snd] in Hn.
    destruct (negb (no_items errs)); [by split; cbn; [|lia]|].
    destruct (Z.ltb_spec (Version n) (Version cur)) as [|Hv]; [by split; cbn; [|lia]|].
    destruct (ShouldUpdate cur n); [|by split; cbn; [|lia]].
    destruct (getRouters n); [by split; cbn; [|lia]|].
    pose proof (AfterLoad_adopted d' path cur n Hn Hv).
    by destruct (AfterLoad d' path n) as [[d2 n2] [e|]].
Qed.

(** * Reloading a file *)

Lemma parse_error_None e : parse_error LoadFromData ValidateSpec e = None ↔ is_Some (parsed e).
Proof.
  unfold parse_error, Storage.parsed. destruct (ParseOAS _ _ _) as [x|x]; split; try done; eauto.
Qed.

Lemma omap_nil {A B} (f : A → option B) l : omap f l = [] ↔ ∀ x, x ∈ l → f x = None.
Proof.
  induction l as [|a l IH]; cbn; [split; [intros _ x Hx; by apply not_elem_of_nil in Hx|done]|].
  split.
  - destruct (f a) eqn:Ha; [done|]. intros Hl x [->|Hx]%elem_of_cons; [done|]. by apply IH.
  - intros H. rewrite (H a) by apply list_elem_of_here. apply IH. intros x Hx. apply H.
    by apply list_elem_of_further.
Qed.

(** A file without errors: its entries all parse, and the store is made of them. *)
Lemma Load_V2_ok d path s :
  Load SQLLiteV2 d path = (s, []) ↔
  ∃ db es, d !! db_path SQLLiteV2 path = Some db ∧ query_v2 db = Ok es ∧
    map_Forall (λ _ e, is_Some (parsed e)) (index_entries es) ∧
    s = MkStore SQLLiteV2 true (index_entries es) (omap parsed (index_entries es)).
Proof.
  unfold Storage.Load. split.
  - destruct (d !! _) as [db|] eqn:Hd; [|done]. destruct (query_v2 db) as [es|] eqn:Hq; [|done].
    intros [= <- He]. rewrite omap_nil in He.
    assert (Hall : map_Forall (λ _ e, is_Some (parsed e)) (index_entries es)).
    { intros id e Hl. apply parse_error_None, (He (id, e)). by apply elem_of_map_to_list. }
    exists db, es. repeat split; try done. f_equal. apply map_filter_id. intros id e Hl. by apply (Hall id).
  - intros (db & es & -> & -> & Hall & ->). f_equal.
    + f_equal. apply map_filter_id. intros id e Hl. by apply (Hall id).
    + apply omap_nil. intros [id e] Hin. apply elem_of_map_to_list in Hin.
      apply parse_error_None. by apply (Hall id).
Qed.

Lemma scan_marked ids rows es :
  mapM scan_v2 rows = Some es → mapM scan_v2 (map (apply_row ids) rows) = Some (map (mark ids) es).
Proof.
  rewrite !mapM_Some. intros Hall. apply Forall2_fmap. eapply Forall2_impl; [exact Hall|].
  intros [[i v f c st] rst] e He. unfold scan_v2 in He. cbn [row_entry row_status] in He.
  destruct rst as [st'|]; [|done]. injection He as <-.
  unfold apply_row, mark. cbn [row_entry SchemaID]. by case_bool_decide.
Qed.

Lemma exec_update_query ids db es :
  query_v2 db = Ok es → db_write_error db = None →
  ∃ db', exec_update ids db = Ok db' ∧ query_v2 db' = Ok (map (mark ids) es).
Proof.
  unfold query_v2, exec_update. intros Hq ->. destruct (db_rows db) as [rows|]; [|done].
  destruct (db_has_status db); [cbn in *|done].
  destruct (mapM scan_v2 rows) as [es'|] eqn:Hm; [|done]. injection Hq as <-.
  eexists. split; [done|]. cbn. by rewrite (scan_marked ids rows es' Hm).
Qed.

Lemma mark_nil (m : gmap Z entry) : mark [] <$> m = m.
Proof. apply map_eq. intros id. rewrite lookup_fmap. by destruct (m !! id). Qed.
Lemma omap_parsed_mark ids (m : gmap Z entry) : omap parsed (mark ids <$> m) = omap parsed m.
Proof.
  apply map_eq. intros id. rewrite !lookup_omap, lookup_fmap.
  destruct (m !! id); [cbn|done]. by rewrite mark_parsed.
Qed.

(** [AfterLoad] leaves a file whose load gives the store it leaves, with nothing
    new in it. *)
Lemma AfterLoad_reload d path db s :
  Load SQLLiteV2 d path = (s, []) →
  d !! db_path SQLLiteV2 path = Some db → db_write_error db = None →
  ∃ d' s', AfterLoad d path s = (d', s', None) ∧ Load SQLLiteV2 d' path = (s', []) ∧
    updatedSchemaIDs s' = [] ∧
    st_RawSpecs s' = mark (updatedSchemaIDs s) <$> st_RawSpecs s.
Proof.
  intros HL Hdb Hw. pose proof (Load_wf SQLLiteV2 d path) as [Hraw _].
  rewrite HL in Hraw. cbn in Hraw.
  pose proof HL as (db0 & es & Hd & Hq & Hall & Hs)%Load_V2_ok.
  rewrite Hdb in Hd. injection Hd as <-.
  assert (Hmark : ∀ id e, st_RawSpecs s !! id = Some e →
            Status (mark (updatedSchemaIDs s) e) ≠ str "new").
  { intros id e Hl. destruct (Hraw id e Hl) as [Hid _]. unfold mark. case_bool_decide as Hin; [done|].
    intros Hst. apply Hin, updatedSchemaIDs_elem. exists e. by rewrite Hid. }
  assert (Hk : st_kind s = SQLLiteV2) by (by rewrite Hs).
  assert (Hready : st_isReady s = true) by (by rewrite Hs).
  unfold AfterLoad. rewrite Hdb, Hk, Hready.
  destruct (updatedSchemaIDs s) as [|i ids] eqn:Hids; cbn [no_items].
  - exists d, s. repeat split; try done. symmetry. apply mark_nil.
  - destruct (exec_update_query (i :: ids) db es Hq Hw) as (db' & -> & Hq').
    assert (Hfold : fold_left (λ m id, alter set_applied id m) (i :: ids) (st_RawSpecs s)
                    = mark (i :: ids) <$> st_RawSpecs s).
    { apply map_eq. intros id. rewrite lookup_fmap. apply fold_alter_lookup.
      intros e Hl. by destruct (Hraw id e Hl). }
    rewrite Hfold. eexists _, _. split; [done|]. split; [|split; [|done]].
    + apply Load_V2_ok. exists db', (map (mark (i :: ids)) es).
      rewrite lookup_insert_eq, index_entries_fmap by apply mark_id.
      repeat split; try done; [|by rewrite Hs, omap_parsed_mark].
      intros id e. rewrite lookup_fmap. intros (e0 & Hl & ->)%fmap_Some.
      rewrite mark_parsed. by apply (Hall id).
    + apply elem_of_nil_inv. intros id (e & Hl & Hst)%updatedSchemaIDs_elem. cbn in Hl.
      rewrite lookup_fmap in Hl. apply fmap_Some in Hl as (e0 & Hl & ->). by apply (Hmark id e0).
Qed.

(** C11: however the database file changes, the store that the updates leave,
    after any number of them, holds exactly the documents of its entries, under
    their identifiers; the list of identifiers is sorted, has no duplicates and
    names exactly the loaded documents; the version of the structure never goes
    down. *)
Theorem storage_invariant d path version s0 s :
  s0 = (NewOpenAPIDB LoadFromData ValidateSpec d path version).1.2 →
  rtc (store_step path version) s0 s →
  store_wf s ∧ StronglySorted Z.le (SchemaIDs s) ∧ NoDup (SchemaIDs s) ∧
  (∀ id, IsLoaded s id = true ↔ id ∈ SchemaIDs s) ∧
  (∀ id e, SpecificationRaw s id = Some e → Specification s id = parsed e ∧ is_Some (parsed e)) ∧
  (Version s0 ≤ Version s)%Z.
Proof.
  intros Hs0 Hsteps.
  assert (store_wf s ∧ (Version s0 ≤ Version s)%Z) as [Hwf Hv].
  { assert (H0 : store_wf s0) by (rewrite Hs0; apply loadOpenAPIDBVersion_wf).
    clear Hs0. induction Hsteps as [x|x y z Hxy Hyz IH]; [by split; [|lia]|].
    destruct (store_step_wf _ _ _ _ Hxy H0) as [Hy Hle]. destruct (IH Hy). split; [done|lia]. }
  split; [done|]. split; [apply SchemaIDs_sorted|]. split; [by apply SchemaIDs_NoDup|].
  split; [intros id; by apply IsLoaded_iff|]. split; [|done].
  intros id e Hl. destruct Hwf as [Hraw Hspec]. destruct (Hraw id e Hl) as [_ Hp].
  split; [|done]. unfold Specification. rewrite Hspec. unfold SpecificationRaw in Hl. by rewrite Hl.
Qed.

(** * Which changes are seen *)

Lemma sorted_unique (l1 l2 : list Z) :
  StronglySorted Z.le l1 → StronglySorted Z.le l2 → l1 ≡ₚ l2 → l1 = l2.
Proof. intros. by apply (StronglySorted_unique Z.le). Qed.

Lemma entry_changed_false (cur n : store) id e :
  st_kind n = SQLLiteV2 → st_RawSpecs n !! id = Some e →
  entry_changed cur n id = false ↔
  Status e ≠ str "new" ∧ SchemaVersion e = SpecificationVersion cur id.
Proof.
  intros Hk Hl. unfold entry_changed, SpecificationRaw. rewrite Hk, Hl, orb_false_iff, negb_false_iff.
  by rewrite eqb_str_false, eqb_str_true.
Qed.

Lemma no_entry_changed (cur n : store) :
  store_wf n → st_kind n = SQLLiteV2 →
  existsb (entry_changed cur n) (SchemaIDs n) = false ↔
  ∀ id e, st_RawSpecs n !! id = Some e →
    Status e ≠ str "new" ∧ SchemaVersion e = SpecificationVersion cur id.
Proof.
  intros Hn Hk. rewrite <- not_true_iff_false, existsb_exists. split.
  - intros H id e Hl. apply (entry_changed_false cur n id e Hk Hl), not_true_iff_false. intros Hc.
    apply H. exists id. split; [|done]. apply list_elem_of_In, SchemaIDs_elem; [done|]. by exists e.
  - intros H (id & Hin & Hc). apply list_elem_of_In, SchemaIDs_elem in Hin as [e Hl]; [|done].
    by rewrite (proj2 (entry_changed_false cur n id e Hk Hl) (H id e Hl)) in Hc.
Qed.

(** Two structures of the second version: nothing is to be done exactly when the
    identifiers and the versions are the same and no entry is new. *)
Lemma ShouldUpdate_V2 cur n :
  store_wf cur → store_wf n → st_kind cur = SQLLiteV2 → st_kind n = SQLLiteV2 →
  ShouldUpdate cur n = false ↔
  SchemaIDs n = SchemaIDs cur ∧
  (∀ id e, st_RawSpecs n !! id = Some e →
     Status e ≠ str "new" ∧ SchemaVersion e = SpecificationVersion cur id).
Proof.
  intros Hc Hn Hkc Hkn. unfold ShouldUpdate. rewrite Hkc.
  pose proof (no_entry_changed cur n Hn Hkn) as Hchg.
  destruct (Nat.eqb_spec (length (SchemaIDs cur)) (length (SchemaIDs n))) as [Hlen|Hlen]; cbn [negb].
  2:{ split; [done|]. intros [He _]. by rewrite He in Hlen. }
  destruct (existsb (λ sid, negb (bool_decide (sid ∈ SchemaIDs cur))) (SchemaIDs n)) eqn:Hsub.
  - split; [done|]. intros [He _]. exfalso. apply existsb_exists in Hsub as (id & Hin & Hb).
    apply list_elem_of_In in Hin. rewrite He in Hin. by rewrite bool_decide_eq_true_2 in Hb.
  - rewrite Hchg. split; [|by intros [_ H]]. intros H. split; [|done].
    apply sorted_unique; try apply SchemaIDs_sorted.
    apply submseteq_length_Permutation; [|lia]. apply NoDup_submseteq; [by apply SchemaIDs_NoDup|].
    intros id Hin. rewrite <- not_true_iff_false, existsb_exists in Hsub.
    destruct (decide (id ∈ SchemaIDs cur)) as [|Hno]; [done|]. exfalso. apply Hsub.
    exists id. split; [by apply list_elem_of_In|]. by rewrite bool_decide_eq_false_2.
Qed.

Lemma ShouldUpdate_self s :
  store_wf s → updatedSchemaIDs s = [] → ShouldUpdate s s = false.
Proof.
  intros Hwf Hnew. destruct (st_kind s) eqn:Hk.
  - unfold ShouldUpdate. rewrite Hk. by rewrite bool_decide_eq_true_2.
  - apply ShouldUpdate_V2; try done. split; [done|]. intros id e Hl. split.
    + intros Hst. assert (id ∈ updatedSchemaIDs s) as Hin by (apply updatedSchemaIDs_elem; eauto).
      rewrite Hnew in Hin. by apply not_elem_of_nil in Hin.
    + unfold SpecificationVersion. by rewrite Hl.
Qed.

Lemma ShouldUpdate_V1_self (s : store) : st_kind s = SQLLiteV1 → ShouldUpdate s s = false.
Proof. intros Hk. unfold ShouldUpdate. rewrite Hk. by rewrite bool_decide_eq_true_2. Qed.

(** ** Loading without the actions after the load *)

Lemma LoadOpenAPIDB_V2 d path version n :
  version ≠ 1%Z → Load SQLLiteV2 d path = (n, []) →
  LoadOpenAPIDB LoadFromData ValidateSpec d path version = (d, n, []).
Proof.
  intros Hv HL. unfold LoadOpenAPIDB, loadOpenAPIDBVersion, NewOpenAPIDBV2. rewrite HL.
  apply Z.eqb_neq in Hv. rewrite Hv. by destruct (version =? 2)%Z.
Qed.
Lemma LoadOpenAPIDB_cases d path version d' n errs :
  LoadOpenAPIDB LoadFromData ValidateSpec d path version = (d', n, errs) →
  d' = d ∧ (st_kind n = SQLLiteV1 ∨
    st_kind n = SQLLiteV2 ∧ version ≠ 1%Z ∧ Load SQLLiteV2 d path = (n, errs)).
Proof.
  pose proof (Load_kind SQLLiteV1 d path) as H1. pose proof (Load_kind SQLLiteV2 d path) as H2.
  unfold LoadOpenAPIDB, loadOpenAPIDBVersion, NewOpenAPIDBV1, NewOpenAPIDBV2.
  destruct (Load SQLLiteV1 d path) as [s1 errs1] eqn:E1. destruct (Load SQLLiteV2 d path) as [s2 errs2].
  cbn in H1, H2. destruct (Z.eqb_spec version 1) as [|Hv]; [intros ?; simplify_eq; eauto 6|].
  destruct (version =? 2)%Z; [intros ?; simplify_eq; eauto 6|].
  destruct errs2; rewrite ?E1; intros ?; simplify_eq; eauto 6.
Qed.
Lemma NewOpenAPIDB_V2 d path version n d' n' :
  version ≠ 1%Z → Load SQLLiteV2 d path = (n, []) → AfterLoad d path n = (d', n', None) →
  NewOpenAPIDB LoadFromData ValidateSpec d path version = (d', n', []).
Proof.
  intros Hv HL HA. unfold NewOpenAPIDB, loadOpenAPIDBVersion, NewOpenAPIDBV2. rewrite HL, HA.
  apply Z.eqb_neq in Hv. rewrite Hv. by destruct (version =? 2)%Z.
Qed.

(** ** The updates *)

Definition writable (d : disk) (path : gostring) : Prop :=
  ∀ db, d !! db_path SQLLiteV2 path = Some db → db_write_error db = None.

(** C29: when the updater has built the handlers again from a file that can be
    written, the next tick over the file it left changes nothing: an update is
    made once. *)
Theorem update_settles d path version cur d' s' :
  writable d path →
  Run_tick path version d cur = (d', s', true) →
  Run_tick path version d' s' = (d', s', false).
Proof.
  intros Hw. unfold Storage.Run_tick at 1.
  destruct (LoadOpenAPIDB _ _ d path version) as [[d1 n] errs] eqn:HL.
  pose proof (LoadOpenAPIDB_cases _ _ _ _ _ _ HL) as [-> Hcase].
  destruct errs as [|e errs]; cbn [no_items negb]; [|done].
  destruct (Version n <? Version cur)%Z; [done|]. destruct (ShouldUpdate cur n); [|done].
  destruct Hcase as [Hk|(Hk & Hv & HV2)].
  - unfold AfterLoad. rewrite Hk. intros [= <- <-].
    unfold Storage.Run_tick. rewrite HL. cbn [no_items negb].
    by rewrite Z.ltb_irrefl, ShouldUpdate_V1_self.
  - pose proof HV2 as (db & es & Hdb & _)%Load_V2_ok.
    destruct (AfterLoad_reload d path db n HV2 Hdb (Hw db Hdb)) as (d2 & s2 & -> & HL2 & Hnew & _).
    intros [= <- <-]. unfold Storage.Run_tick. rewrite (LoadOpenAPIDB_V2 _ _ _ _ Hv HL2).
    cbn [no_items negb]. rewrite Z.ltb_irrefl.
    pose proof (Load_wf SQLLiteV2 d2 path) as Hwf. rewrite HL2 in Hwf.
    by rewrite ShouldUpdate_self.
Qed.

(** Marking keeps the identifiers and the versions. *)
Lemma mark_SchemaIDs ids (n n' : store) :
  store_wf n → store_wf n' → st_RawSpecs n' = mark ids <$> st_RawSpecs n → SchemaIDs n' = SchemaIDs n.
Proof.
  intros Hn Hn' Hraw. apply sorted_unique; try apply SchemaIDs_sorted.
  apply NoDup_Permutation; [by apply SchemaIDs_NoDup..|]. intros id.
  by rewrite !SchemaIDs_elem, Hraw, lookup_fmap, fmap_is_Some.
Qed.

(** A file whose entries have the identifiers and the versions of the current
    store; their contents and statuses can be others. *)
Definition same_versions (cur n : store) : Prop :=
  SchemaIDs n = SchemaIDs cur ∧
  ∀ id e, st_RawSpecs n !! id = Some e → SchemaVersion e = SpecificationVersion cur id.

Lemma tick_unchanged d path version cur n :
  version ≠ 1%Z → store_wf cur → st_kind cur = SQLLiteV2 →
  Load SQLLiteV2 d path = (n, []) → same_versions cur n → updatedSchemaIDs n = [] →
  ShouldUpdate cur n = false ∧ Run_tick path version d cur = (d, cur, false).
Proof.
  intros Hv Hc Hk HL [Hids Hvers] Hnew.
  pose proof (Load_wf SQLLiteV2 d path) as Hn. pose proof (Load_kind SQLLiteV2 d path) as Hkn.
  rewrite HL in Hn, Hkn. cbn in Hn, Hkn.
  assert (Hsu : ShouldUpdate cur n = false).
  { apply ShouldUpdate_V2; try done. split; [done|]. intros id e Hl. split; [|by apply Hvers].
    intros Hst. assert (id ∈ updatedSchemaIDs n) as Hin by (apply updatedSchemaIDs_elem; eauto).
    rewrite Hnew in Hin. by apply not_elem_of_nil in Hin. }
  split; [done|]. unfold Storage.Run_tick. rewrite (LoadOpenAPIDB_V2 _ _ _ _ Hv HL).
  cbn [no_items negb]. unfold Version. rewrite Hk, Hkn. by rewrite Z.ltb_irrefl, Hsu.
Qed.

(** C28: in a file of the second structure, let some entries be marked as new, the
    identifiers and the versions being those of the current store (a document was
    replaced).  A tick of the updater adopts the documents of the file.
    [UpdateSpecsStorage] keeps the current store, reports no update and no error,
    and marks the entries as applied in the file, so that a later call or tick
    does not see them either. *)
Theorem UpdateSpecsStorage_loses getRouters d path version cur n :
  version ≠ 1%Z → writable d path → store_wf cur → st_kind cur = SQLLiteV2 →
  Load SQLLiteV2 d path = (n, []) → same_versions cur n → updatedSchemaIDs n ≠ [] →
  (∃ d' s', Run_tick path version d cur = (d', s', true) ∧ st_OpenAPISpec s' = st_OpenAPISpec n) ∧
  ∃ d', UpdateSpecsStorage getRouters path version d cur = (d', cur, (SchemaIDs cur, false, None)) ∧
    (∃ n', Load SQLLiteV2 d' path = (n', []) ∧ updatedSchemaIDs n' = []) ∧
    Run_tick path version d' cur = (d', cur, false).
Proof.
  intros Hv Hw Hc Hk HL Hsame Hnew.
  pose proof (Load_wf SQLLiteV2 d path) as Hn. pose proof (Load_kind SQLLiteV2 d path) as Hkn.
  rewrite HL in Hn, Hkn. cbn in Hn, Hkn.
  pose proof HL as (db & es & Hdb & _)%Load_V2_ok.
  destruct (AfterLoad_reload d path db n HL Hdb (Hw db Hdb)) as (d' & n' & HA & HL' & Hnew' & Hraw).
  pose proof (Load_wf SQLLiteV2 d' path) as Hn'. pose proof (Load_kind SQLLiteV2 d' path) as Hkn'.
  rewrite HL' in Hn', Hkn'. cbn in Hn', Hkn'. split.
  - exists d', n'. split.
    + unfold Storage.Run_tick. rewrite (LoadOpenAPIDB_V2 _ _ _ _ Hv HL). cbn [no_items negb].
      unfold Version. rewrite Hk, Hkn, Z.ltb_irrefl, HA.
      destruct (ShouldUpdate cur n) eqn:Hsu; [done|]. exfalso. apply Hnew, elem_of_nil_inv.
      intros id (e & Hl & Hst)%updatedSchemaIDs_elem. apply ShouldUpdate_V2 in Hsu as [_ Hsu]; try done.
      by destruct (Hsu id e Hl).
    + apply map_eq. intros id. destruct Hn as [_ ->], Hn' as [_ ->]. rewrite Hraw, lookup_fmap.
      destruct (st_RawSpecs n !! id); [cbn|done]. by rewrite mark_parsed.
  - assert (Hsame' : same_versions cur n').
    { destruct Hsame as [Hids Hvers]. split; [by rewrite (mark_SchemaIDs _ n n' Hn Hn' Hraw)|].
      intros id e. rewrite Hraw, lookup_fmap. intros (e0 & Hl & ->)%fmap_Some.
      rewrite mark_version. by apply Hvers. }
    destruct (tick_unchanged d' path version cur n' Hv Hc Hk HL' Hsame' Hnew') as [Hsu Htick].
    exists d'. split; [|eauto]. unfold Storage.UpdateSpecsStorage.
    rewrite (NewOpenAPIDB_V2 _ _ _ _ _ _ Hv HL HA). cbn [no_items negb].
    unfold Version. by rewrite Hk, Hkn', Z.ltb_irrefl, Hsu.
Qed.

(** A document that does not parse stops every update from its file. *)
Lemma broken_document_blocks d path cur e :
  e ∈ (Load SQLLiteV2 d path).2 → Run_tick path 2 d cur = (d, cur, false).
Proof.
  intros He. unfold Storage.Run_tick, LoadOpenAPIDB, loadOpenAPIDBVersion, NewOpenAPIDBV2. cbn.
  destruct (Load SQLLiteV2 d path) as [n [|x errs]]; [by apply not_elem_of_nil in He|done].
Qed.
End StorageSpec.

(** * Files and URLs *)

(** The check of a file is the comparison of its contents: what [getChecksum]
    appends does not depend on them. *)
Lemma File_ShouldUpdate_iff {spec} digest (s n : @file_store spec) :
  File_ShouldUpdate digest s n = true ↔ fs_RawSpec s ≠ fs_RawSpec n.
Proof.
  unfold File_ShouldUpdate, getChecksum. rewrite negb_true_iff, eqb_str_false.
  split; intros H He; apply H; [by rewrite He|by apply app_inv_tail in He].
Qed.

(** A tick of the proxy mode installs a store only if its document parses and its
    text differs from that of the current store; it ends the process exactly when the
    file that is there cannot be opened, or the server of the document gives no
    answer or one that is not 200. *)
Section ProxyTick.
Context {spec : Type} (LoadFromData : gostring → result gostring spec) (ValidateSpec : spec → option gostring).
Context (digest : gostring) (scheme : gostring → option gostring) (read : gostring → file_read).
Context (get : url_request → option (Z * gostring)) (specPath : gostring) (header : CustomHeader).
Notation tick := (Proxy_Run_tick LoadFromData ValidateSpec digest scheme read get specPath header).

Lemma Proxy_Run_tick_new cur s b :
  tick cur = Ret (s, b) →
  (b = false ∧ s = cur) ∨
  (b = true ∧ fs_RawSpec s ≠ fs_RawSpec cur ∧
   ∃ doc, LoadFromData (fs_RawSpec s) = Ok doc ∧ ValidateSpec doc = None ∧ fs_OpenAPISpec s = Some doc).
Proof.
  unfold Proxy_Run_tick, NewOpenAPIFromFileOrURL.
  assert (∀ raw t, no_store_on_error (Ret (loaded_file LoadFromData ValidateSpec raw)) = Ret (Ok t) →
    ∃ doc, LoadFromData (fs_RawSpec t) = Ok doc ∧ ValidateSpec doc = None ∧ fs_OpenAPISpec t = Some doc) as Hraw.
  { intros raw t. unfold no_store_on_error, loaded_file, ParseOAS. destruct (LoadFromData raw) as [doc|] eqn:Hd; [|done].
    destruct (ValidateSpec doc) eqn:Hv; [done|]. simpl. intros [= <-]. by exists doc. }
  destruct (no_store_on_error _) as [[t|errs]|] eqn:Ht; cbn [obind]; [|intros [= <- <-]; by left|done].
  destruct (File_ShouldUpdate digest cur t) eqn:Hu; intros [= <- <-]; [right|by left].
  apply File_ShouldUpdate_iff in Hu. split; [done|]. split; [congruence|]. revert Ht.
  destruct (is_url _ _); [unfold URL_Load; destruct (get _) as [[status body]|]; [destruct (status =? 200)%Z|]
    |unfold File_Load; destruct (read _)]; done || apply Hraw.
Qed.

Lemma Proxy_Run_tick_fatal cur :
  tick cur = Panic ↔
  if is_url scheme specPath
  then ∀ body, get (spec_request header specPath) ≠ Some (200%Z, body)
  else read specPath = OpenFailed.
Proof.
  assert (∀ x : file_store * list load_error,
    (r <-! no_store_on_error (Ret x) ;;
     match r with
     | Err _ => Ret (cur, false)
     | Ok s => if File_ShouldUpdate digest cur s then Ret (s, true) else Ret (cur, false)
     end) ≠ Panic) as Hret.
  { intros [s [|]]; simpl; [|done]. by destruct (File_ShouldUpdate _ _ _). }
  unfold Proxy_Run_tick, NewOpenAPIFromFileOrURL, URL_Load, File_Load. destruct (is_url _ _).
  - destruct (get _) as [[status body]|]; [|done]. destruct (Z.eqb_spec status 200) as [->|].
    + split; [by intros ?%Hret|]. intros Hn. by destruct (Hn body).
    + split; [|done]. intros _ b [= ? ?]. congruence.
  - destruct (read _); split; try done; by intros ?%Hret.
Qed.
End ProxyTick.

(** * Witnesses *)

Module StorageExample.
Definition load_data (c : gostring) : result gostring gostring :=
  if is_empty c then Err (str "empty") else Ok c.
Definition validate (s : gostring) : option gostring := None.
Definition file (content status : gostring) : disk :=
  {[ str "/db" := MkDB (Ok [MkRow (MkEntry 1 "1" "yaml" content []) (Some status)]) true None ]}.
Definition first : store := (NewOpenAPIDB load_data validate (file "a" "new") "/db" 2).1.2.
End StorageExample.
Import StorageExample.

Lemma file_writable content status : writable (file content status) "/db".
Proof. intros db. unfold file. rewrite lookup_singleton_Some. by intros [_ <-]. Qed.
Lemma first_wf : store_wf load_data validate first.
Proof. apply loadOpenAPIDBVersion_wf. Qed.

Lemma storage_invariant_witness :
  rtc (store_step load_data validate (str "/db") 2) first
      (Run_tick load_data validate (str "/db") 2 (file "b" "new") first).1.2 ∧
  IsLoaded (Run_tick load_data validate (str "/db") 2 (file "b" "new") first).1.2 1 = true ∧
  NoDup (SchemaIDs (Run_tick load_data validate (str "/db") 2 (file "b" "new") first).1.2).
Proof.
  assert (Hs : rtc (store_step load_data validate (str "/db") 2) first
      (Run_tick load_data validate (str "/db") 2 (file "b" "new") first).1.2).
  { apply rtc_once, step_tick. }
  split; [exact Hs|]. split; [reflexivity|].
  exact (proj1 (proj2 (proj2
    (storage_invariant load_data validate (file "a" "new") (str "/db") 2 first _ eq_refl Hs)))).
Defined.

Lemma update_settles_witness :
  ∃ d' s', Run_tick load_data validate (str "/db") 2 (file "b" "new") first = (d', s', true) ∧
           Run_tick load_data validate (str "/db") 2 d' s' = (d', s', false).
Proof.
  destruct (Run_tick load_data validate (str "/db") 2 (file "b" "new") first) as [[d' s'] b] eqn:H.
  assert (Hb : b = true) by (apply (f_equal snd) in H; vm_compute in H; by rewrite <- H).
  rewrite Hb in H. exists d', s'. split; [by rewrite Hb|].
  exact (update_settles load_data validate _ _ _ _ _ _ (file_writable "b" "new") H).
Defined.

Lemma UpdateSpecsStorage_loses_witness :
  ∃ d', UpdateSpecsStorage load_data validate (λ _, None) (str "/db") 2 (file "b" "new") first
        = (d', first, ([1%Z], false, None)).
Proof.
  destruct (Load load_data validate SQLLiteV2 (file "b" "new") (str "/db")) as [n errs] eqn:HL.
  assert (errs = []) as He by (apply (f_equal snd) in HL; vm_compute in HL; by rewrite <- HL).
  rewrite He in HL.
  assert (Hn : n = (Load load_data validate SQLLiteV2 (file "b" "new") (str "/db")).1) by (by rewrite HL).
  assert (Hsame : same_versions first n).
  { rewrite Hn. split; [reflexivity|]. intros id e Hl.
    change (({[ 1%Z := MkEntry 1 "1" "yaml" "b" "new" ]} : gmap Z entry) !! id = Some e) in Hl.
    apply lookup_singleton_Some in Hl as [<- <-]. reflexivity. }
  assert (Hnew : updatedSchemaIDs n ≠ []) by (rewrite Hn; discriminate).
  destruct (UpdateSpecsStorage_loses load_data validate (λ _, None) (file "b" "new") (str "/db") 2 first n
    ltac:(discriminate) (file_writable "b" "new") first_wf eq_refl HL Hsame Hnew) as [_ (d' & H & _)].
  exists d'. exact H.
Defined.
