(* ===== verification/Updater.v ===== *)
(** The regular update of the specifications as a process: the goroutine of [Run], the
    caller of [Start] and the caller of [Shutdown], which meet on the unbuffered
    channel [stop].  A tick loads the specifications, compares, and replaces the store
    and what is served of it under the lock; what is loaded can change at any time, a
    library called in a tick can panic, and a load can end the program.

    The updaters of the API mode (cmd/api-firewall/internal/handlers/api/updater.go)
    and of the proxy mode (handlers/proxy/updater.go) are the same process; they differ
    in how they load and in what they serve, which is the interface [UpdaterOps] here. *)
From S2P Require Import Prelude GoStrings Storage StorageSpec.

(** * The interface *)

(** What an updater does in a tick.  [load_new] is the store to install, if any, and a
    panic when loading ends the program; [serve] is what the new handlers (and the
    health check) are built of; [after_load] is [AfterLoad], whose effect on the store
    is seen by all that share it. *)
Class UpdaterOps (World Store Serving : Type) := {
  load_new : World → Store → outcome (option Store);
  serve : Store → Serving;
  after_load : World → Store → Serving → World * Store * Serving
}.

(** [AfterLoad] leaves what was built of the store up to date. *)
Class UpdaterLaws {World Store Serving} (ops : UpdaterOps World Store Serving) : Prop :=
  after_load_serves w s :
    (after_load w s (serve s)).2 = serve (after_load w s (serve s)).1.2.

(** Where the goroutine of [Run] is: in the [select]; loading; under the lock with the
    new store assigned, before the handlers are built; under the lock with the handlers
    built, before [AfterLoad]; at its end.  [Exited]: the program has ended. *)
Inductive run_pc :=
| InSelect
| Loading
| Locked
| Built
| Ended (panicked : bool)
| Exited.

Definition in_library (r : run_pc) : bool :=
  match r with Loading | Locked | Built => true | InSelect | Ended _ | Exited => false end.

(** * The process *)

Section Updater.
Context {World Store Serving : Type} `{ops : UpdaterOps World Store Serving}.

(** [up_start]: the call of [Start] still waits for a value.  [up_sends]: the values
    [Shutdown] still has to send, [None] before it is called.  [up_serving]: what the
    handlers of the server were built of. *)
Record updater := MkUpdater {
  up_run : run_pc;
  up_start : bool;
  up_sends : option nat;
  up_locked : bool;
  up_world : World;
  up_store : Store;
  up_serving : Serving
}.

(** [Start] after [NewHandlerUpdater]. *)
Definition Start (w : World) (s : Store) : updater :=
  MkUpdater InSelect true None false w s (serve s).

Definition set_run (r : run_pc) (u : updater) : updater :=
  MkUpdater r (up_start u) (up_sends u) (up_locked u) (up_world u) (up_store u) (up_serving u).
Definition set_sends (start : bool) (n : nat) (u : updater) : updater :=
  MkUpdater (up_run u) start (Some n) (up_locked u) (up_world u) (up_store u) (up_serving u).
Definition set_world (w : World) (u : updater) : updater :=
  MkUpdater (up_run u) (up_start u) (up_sends u) (up_locked u) w (up_store u) (up_serving u).

(** Under the lock: the new store, what is built of it, [AfterLoad] and the end of the
    update. *)
Definition assign (newSpecDB : Store) (u : updater) : updater :=
  MkUpdater Locked (up_start u) (up_sends u) true (up_world u) newSpecDB (up_serving u).
Definition build (u : updater) : updater :=
  MkUpdater Built (up_start u) (up_sends u) (up_locked u) (up_world u) (up_store u) (serve (up_store u)).
Definition finish_update (u : updater) : updater :=
  let '(w, s, h) := after_load (up_world u) (up_store u) (up_serving u) in
  MkUpdater InSelect (up_start u) (up_sends u) false w s h.

Definition panicked (u : updater) : bool := match up_run u with Ended b => b | _ => false end.
Definition running (u : updater) : bool := match up_run u with Ended _ | Exited => false | _ => true end.
Definition exited (u : updater) : bool := match up_run u with Exited => true | _ => false end.

Inductive up_step : updater → updater → Prop :=
| up_tick u : up_run u = InSelect → up_step u (set_run Loading u)
| up_keep u : up_run u = Loading → load_new (up_world u) (up_store u) = Ret None →
    up_step u (set_run InSelect u)
| up_fatal u : up_run u = Loading → load_new (up_world u) (up_store u) = Panic →
    up_step u (set_run Exited u)
| up_assign u s : up_run u = Loading → load_new (up_world u) (up_store u) = Ret (Some s) →
    up_locked u = false → up_step u (assign s u)
| up_build u : up_run u = Locked → up_step u (build u)
| up_finish u : up_run u = Built → up_step u (finish_update u)
| up_panic u : in_library (up_run u) = true → up_step u (set_run (Ended true) u)
| up_shutdown u : exited u = false → up_sends u = None → up_step u (set_sends (up_start u) 2 u)
| up_stop_run u n : up_run u = InSelect → up_sends u = Some (S n) →
    up_step u (set_run (Ended false) (set_sends (up_start u) n u))
| up_stop_start u n : exited u = false → up_start u = true → up_sends u = Some (S n) →
    up_step u (set_sends false n u)
| up_world_change u w : up_step u (set_world w u).

(** A whole tick that nothing interferes with. *)
Definition tick (w : World) (s : Store) : outcome (World * Store * bool) :=
  new <-! load_new w s ;;
  match new with
  | None => Ret (w, s, false)
  | Some n => Ret ((after_load w n (serve n)).1, true)
  end.

(** The goroutine and the calls of [Start] and [Shutdown] have come to their ends. *)
Definition stopped (u : updater) : Prop :=
  up_sends u = Some 0 ∧ up_run u = Ended false ∧ up_start u = false.

(** The load under way ends the program. *)
Definition fatal_load (u : updater) : Prop :=
  up_run u = Loading ∧ load_new (up_world u) (up_store u) = Panic.

(** ** Invariant *)

(** The values still to be sent are those the goroutine of [Run] and the call of
    [Start] have not received, a goroutine that panicked counted as one that has
    not.  Outside the lock what is served follows the store. *)
Record up_inv (u : updater) : Prop := MkUpInv {
  ui_sends : (match up_run u with Ended false => 0 | _ => 1 end) + (if up_start u then 1 else 0)
             = default 2 (up_sends u);
  ui_lock : up_run u = InSelect ∨ up_run u = Loading ∨ up_run u = Ended false → up_locked u = false;
  ui_free : up_locked u = false → up_serving u = serve (up_store u);
  ui_built : up_run u = Built → up_serving u = serve (up_store u)
}.

Lemma Start_inv w s : up_inv (Start w s).
Proof. by constructor. Qed.

Context {laws : UpdaterLaws ops}.

Ltac solve_up_inv :=
  constructor; simpl in *; [lia|intros; first [done|by eauto|by firstorder congruence]..].

Lemma up_step_inv u u' : up_step u u' → up_inv u → up_inv u'.
Proof.
  intros Hstep [Hs Hl Hf Hb].
  destruct Hstep as [u Hr|u Hr _|u Hr _|u s Hr _ Hk|u Hr|u Hr|u Hr|u _ Hn|u n Hr Hn|u n _ Hb' Hn|u w];
    try rewrite Hr in Hs, Hl, Hb; try rewrite Hn in Hs.
  1-5: solve_up_inv.
  - unfold finish_update. pose proof (after_load_serves (up_world u) (up_store u)) as Ha.
    rewrite Hb by done. destruct (after_load _ _ _) as [[w s] h]. simpl in *. solve_up_inv.
  - destruct (up_run u) eqn:E; try done; solve_up_inv.
  - solve_up_inv.
  - solve_up_inv.
  - rewrite Hb' in Hs. solve_up_inv.
  - by constructor.
Qed.

Lemma inv_steps u u' : rtc up_step u u' → up_inv u → up_inv u'.
Proof. induction 1; eauto using up_step_inv. Qed.

Lemma reachable_inv w s u : rtc up_step (Start w s) u → up_inv u.
Proof. intros Hr. eapply inv_steps; [done|apply Start_inv]. Qed.

(** ** Stopping *)

(** A goroutine in a tick that does not end the program gets back to the [select]. *)
Lemma to_select u :
  up_inv u → running u = true → ¬ fatal_load u →
  ∃ u', rtc up_step u u' ∧ up_run u' = InSelect ∧ up_start u' = up_start u ∧ up_sends u' = up_sends u.
Proof.
  assert (∀ u, up_run u = Built → ∃ u', rtc up_step u u' ∧ up_run u' = InSelect ∧
    up_start u' = up_start u ∧ up_sends u' = up_sends u) as Hbuilt.
  { intros v Hr. exists (finish_update v). split; [by apply rtc_once, up_finish|].
    unfold finish_update. by destruct (after_load _ _ _) as [[w s] h]. }
  assert (∀ u, up_run u = Locked → ∃ u', rtc up_step u u' ∧ up_run u' = InSelect ∧
    up_start u' = up_start u ∧ up_sends u' = up_sends u) as Hlocked.
  { intros v Hr. destruct (Hbuilt (build v)) as (w & ? & ?); [done|].
    exists w. split; [by eapply rtc_l; [apply up_build|]|done]. }
  intros Hi Hrun Hok. unfold running in Hrun. destruct (up_run u) eqn:Hr; try done; eauto.
  - by exists u.
  - destruct (load_new (up_world u) (up_store u)) as [[s|]|] eqn:Ht; [| |by destruct Hok].
    + destruct (Hlocked (assign s u)) as (w & ? & ?); [done|]. exists w. split; [|done].
      eapply rtc_l; [|done]. apply up_assign; [done..|]. apply (ui_lock _ Hi). eauto.
    + exists (set_run InSelect u). split; [by apply rtc_once, up_keep|done].
Qed.

(** A goroutine that has panicked does nothing any more: it stays so, and the lock
    it holds stays locked.  Nothing happens in a program that has ended. *)
Lemma ended_step u u' :
  up_step u u' →
  (panicked u = true → panicked u' = true ∧ up_locked u' = up_locked u) ∧
  (exited u = true → exited u' = true ∧ up_sends u' = up_sends u).
Proof.
  unfold panicked, exited.
  destruct 1 as [u Hr|u Hr|u Hr|u s Hr|u Hr|u Hr|u Hr|u He|u n Hr|u n He|u w]; unfold exited in *;
    destruct (up_run u) as [| | | |[]|] eqn:E; simpl in *; rewrite ?E; done.
Qed.

Lemma panicked_steps u u' :
  rtc up_step u u' → panicked u = true → panicked u' = true ∧ up_locked u' = up_locked u.
Proof.
  induction 1 as [u|u v w Hstep _ IH]; [done|]. intros Hp.
  destruct (ended_step _ _ Hstep) as [[Hp' <-] _]; auto.
Qed.

Lemma exited_steps u u' :
  rtc up_step u u' → exited u = true → exited u' = true ∧ up_sends u' = up_sends u.
Proof.
  induction 1 as [u|u v w Hstep _ IH]; [done|]. intros He.
  destruct (ended_step _ _ Hstep) as [_ [He' <-]]; auto.
Qed.

(** The values left reach their receivers once the goroutine is in the [select]. *)
Lemma stop_ended u :
  up_inv u → up_run u = Ended false → is_Some (up_sends u) → ∃ u', rtc up_step u u' ∧ stopped u'.
Proof.
  intros [Hs _ _ _] Hr [n Hn]. rewrite Hr, Hn in Hs. simpl in Hs.
  destruct (up_start u) eqn:Est; subst n; [|by exists u].
  exists (set_sends false 0 u). split; [apply rtc_once, up_stop_start; unfold exited; by rewrite ?Hr|done].
Qed.

Lemma stop_select u :
  up_inv u → up_run u = InSelect → is_Some (up_sends u) → ∃ u', rtc up_step u u' ∧ stopped u'.
Proof.
  intros Hi Hr [n Hn]. pose proof (ui_sends _ Hi) as Hs. rewrite Hr, Hn in Hs. simpl in Hs. subst n.
  pose proof (up_stop_run u _ Hr Hn) as Hstep.
  destruct (stop_ended _ (up_step_inv _ _ Hstep Hi)) as (w & ? & ?); [done..|].
  exists w. split; [by eapply rtc_l|done].
Qed.

Lemma stop_all u :
  up_inv u → panicked u = false → exited u = false → ¬ fatal_load u →
  ∃ u', rtc up_step u u' ∧ stopped u'.
Proof.
  assert (∀ u, up_inv u → panicked u = false → exited u = false → ¬ fatal_load u →
    is_Some (up_sends u) → ∃ u', rtc up_step u u' ∧ stopped u') as Hsent.
  { intros v Hi Hp He Hok Hsome. destruct (running v) eqn:Hrun.
    - destruct (to_select v Hi Hrun Hok) as (w & Hw & Hr & _ & Hsw).
      destruct (stop_select w) as (x & ? & ?); [by eapply inv_steps|done|by rewrite Hsw|].
      exists x. split; [by etrans|done].
    - apply stop_ended; [done| |done]. unfold running, panicked, exited in *.
      by destruct (up_run v) as [| | | |[]|]. }
  intros Hi Hp He Hok. destruct (up_sends u) eqn:Hn; [by apply Hsent; rewrite ?Hn|].
  pose proof (up_shutdown u He Hn) as Hstep.
  destruct (Hsent _ (up_step_inv _ _ Hstep Hi)) as (w & ? & ?); [done..|].
  exists w. split; [by eapply rtc_l|done].
Qed.

(** C17: The updaters can be stopped as long as neither their goroutine has panicked
    nor a load ends the program.  In every state that can be reached after [Start]
    other than these, steps lead to one where [Shutdown] has sent all its values, the
    goroutine of [Run] has ended and the call of [Start] has returned.  After a panic,
    which the goroutine recovers from by ending, [Shutdown] never sends its last
    value. *)
Theorem updater_shutdown w s u :
  rtc up_step (Start w s) u →
  (panicked u = false → exited u = false → ¬ fatal_load u → ∃ u', rtc up_step u u' ∧ stopped u') ∧
  (panicked u = true → ∀ u', rtc up_step u u' → up_sends u' ≠ Some 0) ∧
  (exited u = true → ∀ u', rtc up_step u u' → exited u' = true ∧ up_sends u' = up_sends u).
Proof.
  intros Hreach. pose proof (reachable_inv _ _ _ Hreach) as Hi.
  split; [by apply stop_all|]. split; [|intros He u' Hu'; by apply exited_steps].
  intros Hp u' Hu' Hsent. destruct (panicked_steps _ _ Hu' Hp) as [Hp' _].
  pose proof (ui_sends _ (inv_steps _ _ Hu' Hi)) as Hs. unfold panicked in Hp'. rewrite Hsent in Hs.
  destruct (up_run u') as [| | | |[]|], (up_start u'); done.
Qed.

(** C30: While the lock of an updater is free, the handlers (and in the API mode the
    health check) were built of the current store.  A panic under the lock leaves it
    locked in all later states. *)
Theorem updater_consistent w s u :
  rtc up_step (Start w s) u →
  (up_locked u = false → up_serving u = serve (up_store u)) ∧
  (panicked u = true → up_locked u = true → ∀ u', rtc up_step u u' → up_locked u' = true).
Proof.
  intros Hreach. pose proof (reachable_inv _ _ _ Hreach) as Hi. split; [apply (ui_free _ Hi)|].
  intros Hp Hl u' Hu'. by destruct (panicked_steps _ _ Hu' Hp) as [_ ->].
Qed.

(** The steps implement [tick]. *)
Lemma tick_refines u :
  up_run u = InSelect → up_locked u = false →
  ∃ u', rtc up_step u u' ∧
    match tick (up_world u) (up_store u) with
    | Panic => up_run u' = Exited
    | Ret (w, s, _) => up_run u' = InSelect ∧ up_world u' = w ∧ up_store u' = s
    end.
Proof.
  intros Hr Hl. unfold tick. set (v := set_run Loading u).
  assert (up_step u v) as Hv by by apply up_tick.
  destruct (load_new (up_world u) (up_store u)) as [[n|]|] eqn:Hn; simpl.
  - exists (finish_update (build (assign n v))). split.
    { eapply rtc_l; [done|]. eapply rtc_l; [by apply up_assign|].
      eapply rtc_l; [by apply up_build|]. by apply rtc_once, up_finish. }
    unfold finish_update. simpl. by destruct (after_load _ _ _) as [[d' s'] e].
  - exists (set_run InSelect v). split; [|done]. eapply rtc_l; [done|]. by apply rtc_once, up_keep.
  - exists (set_run Exited v). split; [|done]. eapply rtc_l; [done|]. by apply rtc_once, up_fatal.
Qed.
End Updater.

(** * The updater of the API mode *)

Section APIUpdater.
Context {spec : Type} (LoadFromData : gostring → result gostring spec).
Context (ValidateSpec : spec → option gostring).
Context (path : gostring) (version : Z).

(** What a tick decides before it takes the lock: the store to install. *)
Definition tick_new (d : disk) (cur : @store spec) : option store :=
  let '(_, newSpecDB, errs) := LoadOpenAPIDB LoadFromData ValidateSpec d path version in
  if negb (no_items errs) then None
  else if (Version newSpecDB <? Version cur)%Z then None
  else if ShouldUpdate cur newSpecDB then Some newSpecDB else None.

(** The handlers are built of the specifications, the health check of the store
    itself. *)
Definition api_updater : UpdaterOps disk store (gmap Z spec * store) := {|
  load_new d cur := Ret (tick_new d cur);
  serve s := (st_OpenAPISpec s, s);
  after_load d s h := let '(d', s', _) := AfterLoad d path s in (d', s', (h.1, s'))
|}.

Lemma AfterLoad_specs d (s : @store spec) : st_OpenAPISpec (AfterLoad d path s).1.2 = st_OpenAPISpec s.
Proof. unfold AfterLoad. repeat case_match; simplify_eq/=; done. Qed.

#[export] Instance api_updater_laws : UpdaterLaws api_updater.
Proof.
  intros d s. simpl. pose proof (AfterLoad_specs d s) as Hs.
  destruct (AfterLoad d path s) as [[d' s'] e]. simpl in *. by rewrite Hs.
Qed.

(** Its ticks are those of the stores, and none of them ends the program. *)
Lemma api_tick d cur :
  tick (ops := api_updater) d cur = Ret (Run_tick LoadFromData ValidateSpec path version d cur).
Proof.
  unfold tick, Run_tick. simpl. unfold tick_new.
  destruct (LoadOpenAPIDB _ _ _ _ _) as [[d1 n] errs] eqn:HL. apply LoadOpenAPIDB_cases in HL as [-> _].
  destruct (negb (no_items errs)); [done|]. destruct (_ <? _)%Z; [done|].
  destruct (ShouldUpdate cur n); [|done]. simpl. by destruct (AfterLoad _ _ _) as [[d' s'] e].
Qed.
End APIUpdater.

(** * The updater of the proxy mode *)

(** What reading a path and requesting a document give. *)
Record sources := MkSources {
  src_read : gostring → file_read;
  src_get : url_request → option (Z * gostring)
}.

Section ProxyUpdater.
Context {spec : Type} (LoadFromData : gostring → result gostring spec).
Context (ValidateSpec : spec → option gostring).
Context (sha256_empty : gostring) (scheme : gostring → option gostring).
Context (specPath : gostring) (header : CustomHeader).

Definition proxy_tick_new (w : sources) (cur : @file_store spec) : outcome (option file_store) :=
  newSpecDB <-! NewOpenAPIFromFileOrURL LoadFromData ValidateSpec scheme (src_read w) (src_get w) specPath header ;;
  match newSpecDB with
  | Err _ => Ret None
  | Ok s => Ret (if File_ShouldUpdate sha256_empty cur s then Some s else None)
  end.

(** [AfterLoad] of a file and of an URL does nothing. *)
Definition proxy_updater : UpdaterOps sources file_store (option spec) := {|
  load_new := proxy_tick_new;
  serve := fs_OpenAPISpec;
  after_load w s h := (w, s, h)
|}.

#[export] Instance proxy_updater_laws : UpdaterLaws proxy_updater.
Proof. by intros w s. Qed.

Lemma proxy_tick w cur :
  tick (ops := proxy_updater) w cur =
  (r <-! Proxy_Run_tick LoadFromData ValidateSpec sha256_empty scheme (src_read w) (src_get w) specPath header cur ;;
   Ret (w, r.1, r.2)).
Proof.
  unfold tick, Proxy_Run_tick. simpl. unfold proxy_tick_new.
  destruct (NewOpenAPIFromFileOrURL _ _ _ _ _ _ _) as [[s|e]|]; simpl; [|done..].
  by destruct (File_ShouldUpdate _ _ _).
Qed.

(** A load that ends the program is a document that is not there to be downloaded, or
    a file that cannot be opened. *)
Lemma proxy_fatal_load (u : updater (World := sources) (Store := file_store) (Serving := option spec)) :
  fatal_load (ops := proxy_updater) u ↔
  up_run u = Loading ∧
  if is_url scheme specPath
  then ∀ body, src_get (up_world u) (spec_request header specPath) ≠ Some (200%Z, body)
  else src_read (up_world u) specPath = OpenFailed.
Proof.
  unfold fatal_load. rewrite <- (Proxy_Run_tick_fatal LoadFromData ValidateSpec sha256_empty scheme
    (src_read (up_world u)) (src_get (up_world u)) specPath header (up_store u)).
  apply and_iff_compat_l. unfold Proxy_Run_tick. simpl. unfold proxy_tick_new.
  destruct (NewOpenAPIFromFileOrURL _ _ _ _ _ _ _) as [[s|e]|]; simpl; [|done..].
  by destruct (File_ShouldUpdate _ _ _).
Qed.
End ProxyUpdater.

(** * Witnesses *)

Section Witness.
Let load : gostring → result gostring unit := λ _, Ok tt.
Let valid : unit → option gostring := λ _, None.

(** The API mode, with a database that is not there. *)
Let s0 : @store unit := MkStore SQLLiteV2 true ∅ ∅.
Let api := api_updater load valid "/db" 0.
Let started : updater := Start (ops := api) ∅ s0.
Let crashed : updater := set_run (Ended true) (set_run Loading started).

(** The proxy mode, with a server that has no document any more. *)
Let f0 : @file_store unit := MkFile true "a" (Some tt).
Let gone : sources := MkSources (λ _, NotExist) (λ _, Some (404%Z, [])).
Let proxy := proxy_updater load valid [] (λ _, Some (str "http")) "http://docs/api" (MkCustomHeader [] []).
Let serving : updater := Start (ops := proxy) gone f0.
Let exiting : updater := set_run Exited (set_run Loading serving).

Lemma updater_shutdown_witness :
  (∃ u', rtc (up_step (ops := api)) started u' ∧ stopped u') ∧
  (∀ u', rtc (up_step (ops := api)) crashed u' → up_sends u' ≠ Some 0) ∧
  (∃ u', rtc (up_step (ops := proxy)) serving u' ∧ stopped u') ∧
  (∀ u', rtc (up_step (ops := proxy)) exiting u' → up_sends u' = None).
Proof.
  split; [|split; [|split]].
  - apply (updater_shutdown (ops := api) ∅ s0 started); [done..|]. by intros [? _].
  - apply (updater_shutdown (ops := api) ∅ s0 crashed); [|done].
    eapply rtc_l; [by apply up_tick|]. by apply rtc_once, up_panic.
  - apply (updater_shutdown (ops := proxy) gone f0 serving); [done..|]. by intros [? _].
  - intros u' Hu'. apply (updater_shutdown (ops := proxy) gone f0 exiting); [|done|done].
    eapply rtc_l; [by apply up_tick|]. by apply rtc_once, up_fatal.
Defined.

Lemma updater_consistent_witness :
  up_serving crashed = serve (UpdaterOps := api) (up_store crashed) ∧
  up_serving exiting = Some tt.
Proof.
  split.
  - apply (updater_consistent (ops := api) ∅ s0 crashed); [|done].
    eapply rtc_l; [by apply up_tick|]. by apply rtc_once, up_panic.
  - apply (updater_consistent (ops := proxy) gone f0 exiting); [|done].
    eapply rtc_l; [by apply up_tick|]. by apply rtc_once, up_fatal.
Defined.
End Witness.
