(* ===== verification/APIHandlers.v ===== *)
(** The API mode: the handler of an endpoint, the application over the stored
    specifications (cmd/api-firewall/internal/handlers/api: handler.go, app.go,
    routes.go, health.go) and the sampling of errors
    (pkg/APIMode/validator/response.go).

    The metrics are left out.  The order in which Go visits a map and the random
    permutation of [rand.Perm] are parameters. *)
From S2P Require Import Prelude Cmd GoStrings RouterPattern RouterTree RouterMux Values URLValues Messages ParamDecoder BodyDecoder Validate Unknown APIErrors APIMode NetIP AccessLists Web Mid ProxyHandler Storage.

(** * Answers *)

(** [ValidationResponseSummary] and [ValidationResponse]. *)
Record ValidationResponseSummary := MkSummary { vs_SchemaID : Z; vs_StatusCode : Z }.
Record ValidationResponse := MkValidationResponse {
  vr_Summary : list ValidationResponseSummary;
  vr_Errors : list ValidationError
}.

(** [SampleSlice]; [perm n] is the random permutation of the first [n] numbers.
    A negative limit makes the slice expression panic. *)
Definition SampleSlice {T} (perm : nat → list nat) (rawData : list T) (limit : Z) : outcome (list T) :=
  if (Z.of_nat (length rawData) <=? limit)%Z || (limit =? 0)%Z then Ret rawData
  else if (limit <? 0)%Z then Panic
  else Ret (omap (λ i, rawData !! i) (take (Z.to_nat limit) (perm (length rawData)))).

(** Keys of the results of a schema in the user values. *)
Definition keyStatusCode (schemaID : Z) : gostring := itoa schemaID ++ APIModePostfixStatusCode.
Definition keyValidationErrors (schemaID : Z) : gostring := itoa schemaID ++ APIModePostfixValidationErrors.

Definition ErrMethodAndPathNotFound : gostring := "method and path are not found".
Definition ErrCodeMethodAndPathNotFound : gostring := "method_and_path_not_found".
Definition not_found_error (schemaID : Z) : ValidationError :=
  MkValidationError ErrMethodAndPathNotFound ErrCodeMethodAndPathNotFound [] (Some schemaID) [] [].

Definition XWallarmSchemaIDHeader : gostring := "X-WALLARM-SCHEMA-ID".

(** [config.APIMode], as far as the handlers read it, with the allow list and the
    ModSecurity engine given to [Handlers]. *)
Record api_config `{CachePkg} `{CorazaPkg} := MkAPIConfig {
  ac_PassOptionsRequests : bool;
  ac_MaxErrorsInResponse : Z;
  ac_UnknownParametersDetection : bool;
  ac_AllowIPHeader : gostring;
  ac_allowedIPs : option entries;
  ac_waf : option (reqctx → tx);
  ac_trace : bool
}.

Section APIHandlers.
Context `{FmtPkg} `{TypesPkg} `{!SchemaPkg} `{!FilterPkg}.
Context (lib : parsers) (reg : registry) (json_Unmarshal : gostring → option value)
  (bodyEncoders : gmap gostring (value → result gostring gostring)).
Context (d : decompressor) (ConvertRequest : freq → result gostring request)
  (QueryArgs PostArgs : freq → list (gostring * gostring)).
Context `{RegexpPkg} `{CachePkg} `{CorazaPkg}.

(** What the servers of a specification give: [BasePath] fails, its answer is no
    URL, or the path of the URL; "/" stands for a specification without servers. *)
Inductive server_url := BasePathError (msg : gostring) | URLError (msg : gostring) | URLPath (path : gostring).

(** A specification: its servers and the operations of its paths. *)
Record api_spec := MkAPISpec { as_Server : server_url; as_Paths : list (gostring * list (gostring * Route)) }.

(** [loader.NewRouterDBLoader]; the version is kept beside the routes. *)
Definition NewRouterDBLoader (sp : api_spec) : result gostring (list CustomRoute) :=
  NewRouter (λ _, None) (as_Paths sp) false.

(** The path the routes of a specification are below: the URL of servers whose base
    path fails is empty, and a URL that does not parse is a nil pointer. *)
Definition server_base (sp : api_spec) : option gostring :=
  match as_Server sp with
  | BasePathError _ => Some (str "/")
  | URLError _ => None
  | URLPath path => Some (or_default path "/")
  end.

(** * The handler of an endpoint *)

Record RequestValidator := MkRequestValidator {
  rv_CustomRoute : option CustomRoute;
  rv_SchemaVersion : gostring;
  rv_SchemaID : Z
}.

(** [APIModeValidateRequest] on a request context; a panic of [AllURLParams] is
    recovered into an error. *)
Definition route_context (x : reqctx) : option Context :=
  match cx_User x !! RouteCtxKey with Some (URoute c) => Some c | _ => None end.

Definition api_request_of (x : reqctx) (pathParams : gmap gostring gostring) : api_request :=
  MkAPIRequest (ConvertRequest (cx_Request x)) pathParams
    (header_Get (fq_Header (cx_Request x)) "Content-Encoding") (fast_of QueryArgs PostArgs (cx_Request x)).

Definition validate_ctx (cr : CustomRoute) (unknownParametersDetection : bool) (x : reqctx)
  : result api_error (list ValidationError) :=
  let pathParams :=
    if (0 <? cr_ParametersNumberInPath cr)%Z then AllURLParams (route_context x) else Ret None in
  match pathParams with
  | Panic => Err RecoveredPanic
  | Ret params =>
      APIModeValidateRequest lib reg json_Unmarshal bodyEncoders d (api_request_of x (default ∅ params))
        (cr_Route cr) unknownParametersDetection (cr_ParametersNumberInPath cr)
  end.

(** The errors get the schema they come from. *)
Definition with_schema (s : RequestValidator) (e : ValidationError) : ValidationError :=
  MkValidationError (ve_Message e) (ve_Code e) (rv_SchemaVersion s) (Some (rv_SchemaID s))
    (ve_Fields e) (ve_FieldsDetails e).

Definition set_results (schemaID : Z) (errs : option (list ValidationError)) (status : Z) : Cmd unit :=
  match errs with
  | Some l => SetUserValue (keyValidationErrors schemaID) (UErrors l)
  | None => cmd_ret ()
  end ;;;
  SetUserValue (keyStatusCode schemaID) (UInt status).

(** [RequestValidator.Handler]. *)
Definition RequestValidator_Handler (unknownParametersDetection : bool) (s : RequestValidator) : Handler :=
  cmd_recover
    (match rv_CustomRoute s with
     | None => set_results (rv_SchemaID s) (Some [not_found_error (rv_SchemaID s)]) 403 ;;; cmd_ret None
     | Some cr =>
         r <-- cmd_get (validate_ctx cr unknownParametersDetection) ;;
         match r with
         | Err _ =>
             log (LogError "request validation error") ;;;
             (set_results (rv_SchemaID s) None 500 ;;; cmd_ret None)
         | Ok [] => set_results (rv_SchemaID s) None 200 ;;; cmd_ret None
         | Ok errs =>
             set_results (rv_SchemaID s) (Some (map (with_schema s) errs)) 403 ;;; cmd_ret None
         end
     end)
    (log (LogError "panic") ;;; cmd_ret None).

(** * The application *)

Record api_App := MkAPIApp {
  aa_Routers : gmap Z (@Mux _ Handler);
  aa_passOPTIONS : bool;
  aa_maxErrorsInResponse : Z;
  aa_mw : list (option Middleware);
  aa_storedSpecs : @store api_spec
}.

Definition api_NewApp (passOPTIONS : bool) (maxErrorsInResponse : Z) (storedSpecs : @store api_spec)
    (mw : list (option Middleware)) : api_App :=
  MkAPIApp (fold_left (λ m id, <[id := NewMux]> m) (SchemaIDs storedSpecs) ∅)
    passOPTIONS maxErrorsInResponse mw storedSpecs.

(** The function that [Handle] registers; registering in a router that is not
    there panics. *)
Definition api_handler (mw : list (option Middleware)) (handler : Handler) : Handler :=
  err <-- WrapMiddleware mw (WrapMiddleware [] handler) ;;
  match err with
  | Some e => SignalShutdown ;;; cmd_ret (Some e)
  | None => cmd_ret None
  end.

Definition api_Handle (mt : method_table) (a : api_App) (schemaID : Z) (method path : gostring)
    (handler : Handler) : outcome (api_App * option route_error) :=
  match aa_Routers a !! schemaID with
  | None => Panic
  | Some mx =>
      let '(mx, err) := AddEndpoint mt mx method path (Some (api_handler (aa_mw a) handler)) in
      Ret (MkAPIApp (<[schemaID := mx]> (aa_Routers a)) (aa_passOPTIONS a) (aa_maxErrorsInResponse a)
             (aa_mw a) (aa_storedSpecs a), err)
  end.

(** ** The schemas of a request *)

(** The loop over the identifiers: those that are loaded, each once, and the
    others as they come. *)
Fixpoint schema_ids_loop (s : @store api_spec) (ids : list gostring) (found : gset Z) (notFound : list Z)
  : result gostring (gset Z * list Z) :=
  match ids with
  | [] => Ok (found, notFound)
  | idStr :: ids' =>
      match atoi (trim_space idStr) with
      | Err _ => Err (str "error parsing  value")
      | Ok id =>
          if IsLoaded s id then schema_ids_loop s ids' ({[ id ]} ∪ found) notFound
          else schema_ids_loop s ids' found (notFound ++ [id])
      end
  end.

(** [range] is the order in which the map is visited. *)
Definition getWallarmSchemaID (range : gset Z → list Z) (s : @store api_spec) (header : http_Header)
  : result gostring (list Z * list Z) :=
  if negb (IsReady s) then Err (str "DB with schemas has not loaded")
  else
    match default [] (Header_Peek XWallarmSchemaIDHeader header) with
    | [] => Err (str "required X-WALLARM-SCHEMA-ID header is missing")
    | ids =>
        '(found, notFound) <-? schema_ids_loop s (split ids ",") ∅ [] ;;
        Ok (range found, notFound)
    end.

(** ** The main handler *)

(** One schema of the first loop. *)
Definition schema_step (mt : method_table) (a : api_App) (schemaID : Z) : Cmd unit :=
  SetUserValue RequestSchemaID (UStr (itoa schemaID)) ;;;
  (method <-- cmd_get (λ x, fq_Method (cx_Request x)) ;;
   path <-- cmd_get (λ x, fq_Path (cx_Request x)) ;;
   match aa_Routers a !! schemaID with
   | None => cmd_panic
   | Some mx =>
       '(rctx, handler) <-- cmd_lift (Find mt mx NewRouteContext method path) ;;
       match handler with
       | None =>
           if aa_passOPTIONS a && (method =?s "OPTIONS") then set_results schemaID None 200
           else set_results schemaID (Some [not_found_error schemaID]) 403
       | Some h =>
           SetUserValue RouteCtxKey (URoute rctx) ;;;
           (err <-- h ;;
            match err with
            | Some _ => log (LogError "error in the request handler")
            | None => cmd_ret ()
            end)
       end
   end).

Fixpoint for_each (f : Z → Cmd unit) (ids : list Z) : Cmd unit :=
  match ids with
  | [] => cmd_ret ()
  | id :: ids' => f id ;;; for_each f ids'
  end.

(** [ctx.Response.Header.Reset]. *)
Definition reset_header : Cmd unit := cmd_modify (upd_Response (λ r, MkFresp 200 ∅ (fp_Body r))).

(** The second loop: the summary and the errors, or none when the whole request
    has a status of its own, which is the answer. *)
Fixpoint summary_loop (passed : bool) (ids : list Z) (summary : list ValidationResponseSummary)
    (errs : list ValidationError)
  : Cmd (option (list ValidationResponseSummary * list ValidationError)) :=
  match ids with
  | [] => cmd_ret (Some (summary, errs))
  | id :: ids' =>
      global <-- UserValue GlobalResponseStatusCodeKey ;;
      match global with
      | Some (UInt statusCode) =>
          reset_header ;;; (cmd_modify (upd_Response (set_fp_Status statusCode)) ;;; cmd_ret None)
      | _ =>
          status <-- UserValue (keyStatusCode id) ;;
          validationErrors <-- UserValue (keyValidationErrors id) ;;
          let errs' := match validationErrors with Some (UErrors l) => errs ++ l | _ => errs end in
          match status with
          | Some (UInt n) => summary_loop passed ids' (summary ++ [MkSummary id n]) errs'
          | _ =>
              if passed then summary_loop passed ids' (summary ++ [MkSummary id 200]) errs
              else reset_header ;;; summary_loop passed ids' (summary ++ [MkSummary id 500]) errs'
          end
      end
  end.

(** [ctx.IsHead] and the replacement of the method. *)
Definition set_fq_Method (v : gostring) (r : freq) : freq :=
  let '(MkFreq m s hh uh p q pr h c b) := r in MkFreq v s hh uh p q pr h c b.

Definition answer (encode : ValidationResponse → result gostring gostring) (perm : nat → list nat)
    (a : api_App) (ids notFound : list Z) : Cmd unit :=
  method <-- cmd_get (λ x, fq_Method (cx_Request x)) ;;
  r <-- summary_loop (aa_passOPTIONS a && (method =?s "OPTIONS")) ids [] [] ;;
  match r with
  | None => cmd_ret ()
  | Some (summary, errs) =>
      cmd_modify (upd_Response (upd_fp_Header (Header_Del "Allow"))) ;;;
      (cmd_modify (upd_Request (λ r, if fq_Method r =?s "HEAD" then set_fq_Method "GET" r else r)) ;;;
       (limited <-- cmd_lift (SampleSlice perm errs (aa_maxErrorsInResponse a)) ;;
        err <-- Respond (encode (MkValidationResponse
                  (summary ++ map (λ id, MkSummary id 500) notFound) limited)) 200 ;;
        match err with
        | Some _ => log (LogError "respond error")
        | None => cmd_ret ()
        end))
  end.

Definition APIModeMainHandler (encode : ValidationResponse → result gostring gostring)
    (range : gset Z → list Z) (perm : nat → list nat) (trace : bool) (mt : method_table)
    (a : api_App) (uuid : gostring) : Cmd unit :=
  cmd_recover
    (SetUserValue RequestID (UStr uuid) ;;;
     (header <-- cmd_get (λ x, fq_Header (cx_Request x)) ;;
      match getWallarmSchemaID range (aa_storedSpecs a) header with
      | Err _ =>
          log (LogError "error while getting schema ID") ;;;
          (_ <-- RespondError 500 [] ;; LogRequestResponseAtTraceLevel trace)
      | Ok (ids, notFound) =>
          cmd_modify (upd_Request (upd_fq_Header (Header_Del XWallarmSchemaIDHeader))) ;;;
          (for_each (schema_step mt a) ids ;;; answer encode perm a ids notFound)
      end))
    (log (LogError "panic")).

(** ** The routes *)

(** The path of a route below the one of the server ([url.JoinPath],
    [url.PathUnescape]), and the libraries of the middlewares. *)
Context (routePath : gostring → gostring → result gostring gostring)
  (graphql_error : gostring → gostring) (mimetype_Detect : gostring → gostring)
  (uri_String : freq → gostring) (uri_resolve : freq → gostring → gostring).

Definition api_ip_options (cfg : api_config) : IPAllowListOptions :=
  MkIPAllow Web.APIMode (ac_AllowIPHeader cfg) 403 (ac_allowedIPs cfg).
Definition api_modsec_options (cfg : api_config) : ModSecurityOptions :=
  MkModSec Web.APIMode (ac_waf cfg) [] [] 0.

Definition api_middlewares (cfg : api_config) : list (option Middleware) :=
  map Some
    [ IPAllowlist graphql_error (api_ip_options cfg);
      WAFModSecurity uri_String uri_resolve (api_modsec_options cfg);
      Logger (ac_trace cfg);
      MIMETypeIdentifier d mimetype_Detect;
      Errors;
      Panics ].

(** One route of a specification; a failure leaves the route out. *)
Definition api_add_route (mt : method_table) (cfg : api_config) (schemaID : Z) (version base : gostring)
    (a : api_App) (cr : CustomRoute) : outcome api_App :=
  match routePath base (cr_Path cr) with
  | Err _ => Ret a
  | Ok path =>
      '(a, _) <-! api_Handle mt a schemaID (cr_Method cr) path
                   (RequestValidator_Handler (ac_UnknownParametersDetection cfg)
                      (MkRequestValidator (Some cr) version schemaID)) ;;
      Ret a
  end.

Fixpoint fold_outcome {A B} (f : A → B → outcome A) (a : A) (l : list B) : outcome A :=
  match l with
  | [] => Ret a
  | b :: l' => a <-! f a b ;; fold_outcome f a l'
  end.

(** The routes of a schema; [log.Fatal] is not reached. *)
Definition api_add_schema (mt : method_table) (cfg : api_config) (s : @store api_spec)
    (a : api_App) (schemaID : Z) : outcome api_App :=
  match Specification s schemaID with
  | None => Panic
  | Some sp =>
      match server_base sp with
      | None => Panic
      | Some base =>
          match NewRouterDBLoader sp with
          | Err _ => Panic
          | Ok routes =>
              fold_outcome (api_add_route mt cfg schemaID (SpecificationVersion s schemaID) base) a routes
          end
      end
  end.

(** [Handlers]: the application, or none when a panic was recovered, and then the
    handler is nil. *)
Definition api_Handlers (mt : method_table) (cfg : api_config) (s : @store api_spec) : option api_App :=
  match fold_outcome (api_add_schema mt cfg s)
          (api_NewApp (ac_PassOptionsRequests cfg) (ac_MaxErrorsInResponse cfg) s (api_middlewares cfg))
          (SchemaIDs s) with
  | Ret a => Some a
  | Panic => None
  end.

(** * Health *)

(** [Readiness]; [encode] is the JSON of the status. *)
Definition Readiness (encode : gostring → result gostring gostring) (s : @store api_spec) : Handler :=
  if IsReady s then Respond (encode "ok") 200 else Respond (encode "not ready") 500.
End APIHandlers.
