(* ===== verification/APIHandlersSpec.v ===== *)
(** Properties of the API mode: which schemas a request is validated against, what
    the summary of the answer reports for each of them, and the sample of the
    errors. *)
From S2P Require Import Prelude Cmd GoStrings RouterPattern RouterTree RouterInv RouterInsert RouterFind RouterMux Values URLValues Messages ParamDecoder ParamDecoderSpec BodyDecoder Validate Unknown APIErrors APIMode NetIP AccessLists Web Mid MidSpec ProxyHandler Storage StorageSpec APIHandlers.

(** * The sample of the errors *)

Lemma omap_lookup_seq {T} (l : list T) : omap (λ i, l !! i) (seq 0 (length l)) = l.
Proof.
  induction l as [|x l IH] using rev_ind; [done|].
  rewrite length_app, seq_app, omap_app. cbn [length seq omap list_omap].
  rewrite lookup_app_r by lia. rewrite Nat.add_0_l, Nat.sub_diag. simpl. f_equal.
  etrans; [|exact IH]. apply list_omap_ext, Forall2_same_length_lookup_2; [done|].
  intros i a b Ha Hb. simplify_eq. apply lookup_seq in Ha as [-> Hi]. by apply lookup_app_l.
Qed.

(** A limit that is not negative is respected: the sample has no more errors
    than the limit (zero is no limit), and its errors are errors of the request,
    none more often than it occurs there. *)
Theorem SampleSlice_limit {T} (perm : nat → list nat) (rawData : list T) limit :
  (∀ n, perm n ≡ₚ seq 0 n) → (0 ≤ limit)%Z →
  ∃ out rest, SampleSlice perm rawData limit = Ret out ∧ out ++ rest ≡ₚ rawData
    ∧ (Z.of_nat (length out) = if limit =? 0 then Z.of_nat (length rawData)
                               else Z.min limit (Z.of_nat (length rawData)))%Z.
Proof.
  intros Hperm Hl. unfold SampleSlice.
  destruct (Z.leb_spec (Z.of_nat (length rawData)) limit); cbn [orb].
  { exists rawData, []. rewrite app_nil_r. split_and!; [done..|]. destruct (limit =? 0)%Z; lia. }
  destruct (Z.eqb_spec limit 0) as [Hz|Hz]; [exists rawData, []; by rewrite app_nil_r|].
  rewrite (proj2 (Z.ltb_ge limit 0)) by lia.
  set (n := Z.to_nat limit). set (p := perm (length rawData)).
  assert (Hp : p ≡ₚ seq 0 (length rawData)) by apply Hperm.
  eexists _, (omap (λ i, rawData !! i) (drop n p)). split; [done|]. split.
  - rewrite <- omap_app, take_drop, Hp. by rewrite omap_lookup_seq.
  - assert (Hlen : ∀ q, (∀ i, i ∈ q → i < length rawData) →
                        length (omap (λ i, rawData !! i) q) = length q).
    { induction q as [|i q IH]; intros Hq; [done|]. cbn.
      destruct (lookup_lt_is_Some_2 rawData i) as [x ->]; [apply Hq, list_elem_of_here|].
      cbn. f_equal. apply IH. intros j Hj. apply Hq. by apply list_elem_of_further. }
    rewrite Hlen.
    + rewrite length_take, (Permutation_length Hp), length_seq. lia.
    + intros i Hi. apply (subseteq_take n p) in Hi. rewrite Hp in Hi. by apply elem_of_seq in Hi as [_ ?].
Qed.

Lemma SampleSlice_total {T} perm (rawData : list T) limit :
  (0 ≤ limit)%Z → ∃ sample, SampleSlice perm rawData limit = Ret sample ∧ (rawData = [] → sample = []).
Proof.
  intros Hl. unfold SampleSlice. destruct rawData as [|t l]; cbn [length].
  - rewrite (proj2 (Z.leb_le _ _)) by lia. by exists [].
  - rewrite (proj2 (Z.ltb_ge _ _)) by lia. case_match; by eexists.
Qed.
Lemma SampleSlice_negative {T} perm (rawData : list T) limit :
  (limit < 0)%Z → SampleSlice perm rawData limit = Panic.
Proof.
  intros Hl. unfold SampleSlice. rewrite (proj2 (Z.leb_gt _ _)) by lia.
  rewrite (proj2 (Z.eqb_neq _ _)) by lia. by rewrite (proj2 (Z.ltb_lt _ _)).
Qed.

(** * Keys of the user values *)

Lemma itoa_inj n m : itoa n = itoa m → n = m.
Proof.
  intros Heq. set (b := (Z.abs n + Z.abs m + 2)%Z).
  assert (Hb : ∀ k, (Z.abs k ≤ Z.abs n + Z.abs m → - 2 ^ (b - 1) ≤ k < 2 ^ (b - 1))%Z).
  { intros k Hk. assert (Z.abs n + Z.abs m + 1 < 2 ^ (b - 1))%Z; [|lia].
    unfold b. replace (Z.abs n + Z.abs m + 2 - 1)%Z with (Z.abs n + Z.abs m + 1)%Z by lia.
    apply Z.pow_gt_lin_r; lia. }
  assert (H1 := parse_int_itoa 10 b n (or_intror eq_refl) ltac:(lia) (Hb n ltac:(lia))).
  assert (H2 := parse_int_itoa 10 b m (or_intror eq_refl) ltac:(lia) (Hb m ltac:(lia))).
  rewrite Heq, H2 in H1. by injection H1.
Qed.

Lemma keyStatusCode_inj i j : keyStatusCode i = keyStatusCode j → i = j.
Proof. intros H%app_inv_tail. by apply itoa_inj. Qed.
Lemma keyValidationErrors_inj i j : keyValidationErrors i = keyValidationErrors j → i = j.
Proof. intros H%app_inv_tail. by apply itoa_inj. Qed.

(** Different names of results, and the other names, differ in their ends. *)
Lemma suffix_ne (k p l : gostring) : drop (length k - length p) k ≠ p → k ≠ l ++ p.
Proof.
  intros Hd ->. apply Hd. rewrite length_app, Nat.add_sub. by rewrite drop_app_length.
Qed.
Lemma status_errors_ne i j : keyStatusCode i ≠ keyValidationErrors j.
Proof.
  intros H. apply (f_equal reverse) in H. unfold keyStatusCode, keyValidationErrors in H.
  rewrite !reverse_app in H. discriminate H.
Qed.

(** The name of the status of the whole request has the same end; what is before
    it is not a number. *)
Lemma global_status_ne id : GlobalResponseStatusCodeKey ≠ keyStatusCode id.
Proof.
  change GlobalResponseStatusCodeKey with (str "global_response" ++ APIModePostfixStatusCode).
  intros H%app_inv_tail. assert (Hg : "g"%char ∈ itoa id) by (rewrite <- H; apply list_elem_of_here).
  apply itoa_chars in Hg as [Hg|Hg]; discriminate Hg.
Qed.

(** * The schemas of a request *)

(** The numbers a schema identifier of a request is read into. *)
Definition int64 (id : Z) : Prop := (- 2 ^ 63 ≤ id < 2 ^ 63)%Z.

Section Schemas.
Context `{FmtPkg} `{TypesPkg} `{!SchemaPkg} `{!FilterPkg}.

Lemma schema_ids_loop_spec st ids f nf f' nf' :
  schema_ids_loop st ids f nf = Ok (f', nf') →
  ∃ ns, Forall2 (λ t n, atoi (trim_space t) = Ok n) ids ns
    ∧ f' = list_to_set (List.filter (IsLoaded st) ns) ∪ f
    ∧ nf' = nf ++ List.filter (λ n, negb (IsLoaded st n)) ns.
Proof.
  revert f nf. induction ids as [|t ids IH]; intros f nf; cbn [schema_ids_loop].
  { intros [= <- <-]. exists []. split; [constructor|]. cbn. split; [set_solver|by rewrite app_nil_r]. }
  destruct (atoi (trim_space t)) as [n|] eqn:Hn; [|done].
  destruct (IsLoaded st n) eqn:Hl; intros (ns & Hns & -> & ->)%IH; exists (n :: ns);
    (split; [by constructor|]); cbn [List.filter]; rewrite Hl; cbn [negb list_to_set foldr].
  - split; [set_solver|done].
  - split; [done|]. by rewrite <- app_assoc.
Qed.

Lemma getWallarmSchemaID_Ok range st header ids nf :
  getWallarmSchemaID range st header = Ok (ids, nf) →
  ∃ text ns, Header_Peek XWallarmSchemaIDHeader header = Some text
    ∧ Forall2 (λ t n, atoi (trim_space t) = Ok n) (split text ",") ns
    ∧ ids = range (list_to_set (List.filter (IsLoaded st) ns))
    ∧ nf = List.filter (λ n, negb (IsLoaded st n)) ns.
Proof.
  unfold getWallarmSchemaID. destruct (negb (IsReady st)); [done|].
  destruct (Header_Peek _ header) as [[|c text]|]; cbn [from_option id]; [done| |done].
  destruct (schema_ids_loop _ _ _ _) as [[f nf']|] eqn:Hloop; cbn [rbind]; [|done]. intros [= <- <-].
  destruct (schema_ids_loop_spec _ _ _ _ _ _ Hloop) as (ns & Hns & -> & ->).
  exists (c :: text), ns. split_and!; [done..| |done]. f_equal. apply (right_id_L ∅ (∪)).
Qed.

Lemma loaded_ids range (st : @store api_spec) ns id :
  (∀ m, range m ≡ₚ elements m) →
  id ∈ range (list_to_set (List.filter (IsLoaded st) ns) : gset Z) ↔ id ∈ ns ∧ IsLoaded st id = true.
Proof.
  intros Hrange. rewrite Hrange, elem_of_elements, elem_of_list_to_set.
  by rewrite list_elem_of_In, filter_In, <- list_elem_of_In.
Qed.

(** The schemas a request is validated against are those of its header that
    are loaded, each once, in some order; the others of the header are kept as
    they come, to be reported as not found. *)
Theorem schemas_of_request range st header ids nf :
  (∀ m, range m ≡ₚ elements m) →
  getWallarmSchemaID range st header = Ok (ids, nf) →
  ∃ text ns, Header_Peek XWallarmSchemaIDHeader header = Some text
    ∧ Forall2 (λ t n, atoi (trim_space t) = Ok n) (split text ",") ns
    ∧ NoDup ids ∧ (∀ id, id ∈ ids ↔ id ∈ ns ∧ IsLoaded st id = true)
    ∧ nf = List.filter (λ n, negb (IsLoaded st n)) ns.
Proof.
  intros Hrange (text & ns & Hp & Hns & -> & ->)%getWallarmSchemaID_Ok. exists text, ns.
  split_and!; [done..| | |done].
  - rewrite Hrange. apply NoDup_elements.
  - intros id. by apply loaded_ids.
Qed.

Lemma getWallarmSchemaID_ids range st header ids nf :
  (∀ m, range m ≡ₚ elements m) → getWallarmSchemaID range st header = Ok (ids, nf) →
  NoDup ids ∧ ∀ id, id ∈ ids → int64 id ∧ IsLoaded st id = true.
Proof.
  intros Hrange (text & ns & _ & Hns & -> & _)%getWallarmSchemaID_Ok. split.
  - rewrite Hrange. apply NoDup_elements.
  - intros id [Hin Hl]%loaded_ids; [|done]. split; [|done].
    apply list_elem_of_lookup in Hin as [i Hi].
    destruct (Forall2_lookup_r _ _ _ _ _ Hns Hi) as (t & _ & Ht).
    unfold atoi in Ht. apply parse_int_bound in Ht; [exact Ht|lia..].
Qed.

End Schemas.

(** * The run of a handler *)

Section APIHandlersSpec.
Context `{FmtPkg} `{TypesPkg} `{!SchemaPkg} `{!FilterPkg}.
Context (lib : parsers) (reg : registry) (json_Unmarshal : gostring → option value)
  (bodyEncoders : gmap gostring (value → result gostring gostring)).
Context (d : decompressor) (ConvertRequest : freq → result gostring request)
  (QueryArgs PostArgs : freq → list (gostring * gostring)).
Context `{RegexpPkg} `{CachePkg} `{CorazaPkg}.
Context (routePath : gostring → gostring → result gostring gostring)
  (graphql_error : gostring → gostring) (mimetype_Detect : gostring → gostring)
  (uri_String : freq → gostring) (uri_resolve : freq → gostring → gostring).

Notation validate := (validate_ctx lib reg json_Unmarshal bodyEncoders d ConvertRequest QueryArgs PostArgs).
Notation endpoint := (RequestValidator_Handler lib reg json_Unmarshal bodyEncoders d ConvertRequest QueryArgs PostArgs).
Notation middlewares := (api_middlewares d graphql_error mimetype_Detect uri_String uri_resolve).
Notation api_Handlers := (api_Handlers lib reg json_Unmarshal bodyEncoders d ConvertRequest QueryArgs PostArgs
  routePath graphql_error mimetype_Detect uri_String uri_resolve).

(** The status that a validation stands for. *)
Definition status_of (r : result api_error (list ValidationError)) : Z :=
  match r with Err _ => 500 | Ok [] => 200 | Ok _ => 403 end.

(** The user values after the results of a schema are stored. *)
Definition results (id : Z) (errs : option (list ValidationError)) (st : Z) (u : gmap gostring uval)
  : gmap gostring uval :=
  <[keyStatusCode id := UInt st]>
    (match errs with Some l => <[keyValidationErrors id := UErrors l]> u | None => u end).

Lemma set_results_run id errs st x :
  set_results id errs st x = (upd_User (results id errs st) x, Ret ()).
Proof. unfold set_results, SetUserValue. by destruct x, errs. Qed.

(** The errors that are stored for a validation. *)
Definition stored_errors (rv : RequestValidator) (r : result api_error (list ValidationError))
  : option (list ValidationError) :=
  match r with Ok ((_ :: _) as errs) => Some (map (with_schema rv) errs) | _ => None end.

Lemma endpoint_run u rv cr x :
  rv_CustomRoute rv = Some cr →
  let r := validate cr u x in
  ∃ l, endpoint u rv x
    = (upd_User (results (rv_SchemaID rv) (stored_errors rv r) (status_of r)) (upd_Log (λ l0, l0 ++ l) x), Ret None).
Proof.
  intros Hcr r. unfold RequestValidator_Handler, cmd_recover. rewrite Hcr, bind_get. fold r.
  destruct r as [[|e errs]|e].
  - exists []. rewrite (bind_run _ _ _ _ _ (set_results_run _ _ _ _)). cbn.
    destruct x; cbn. by rewrite app_nil_r.
  - exists []. rewrite (bind_run _ _ _ _ _ (set_results_run _ _ _ _)). cbn.
    destruct x; cbn. by rewrite app_nil_r.
  - exists [LogError "request validation error"]. unfold log. rewrite bind_modify.
    rewrite (bind_run _ _ _ _ _ (set_results_run _ _ _ _)). cbn. by destruct x.
Qed.

(** ** The type of the body *)

(** Whether a type is looked for, whether that succeeds, and the request then. *)
Definition untyped (rq : freq) : bool :=
  is_empty (header_Get (fq_Header rq) "Content-Type") && negb (is_empty (fq_Body rq)).
Definition typed (rq : freq) : freq :=
  if untyped rq
  then upd_fq_Header (Header_Set "Content-Type" (mimetype_Detect (fq_Body rq))) rq else rq.
Definition unpacks (rq : freq) : bool :=
  if untyped rq then
    let enc := header_Get (fq_Header rq) "Content-Encoding" in
    is_empty enc ||
    match GetDecompressedBody d (fq_Body rq) enc with Ok (Failing _) => false | Ok _ => true | Err _ => false end
  else true.

Lemma MIME_run (h : Handler) x :
  if unpacks (cx_Request x)
  then MIMETypeIdentifier d mimetype_Detect h x = h (upd_Request typed x)
  else ∃ l, MIMETypeIdentifier d mimetype_Detect h x
            = (upd_Response (λ _, error_response 500 []) (upd_Log (λ l0, l0 ++ l) x), Ret None).
Proof.
  unfold MIMETypeIdentifier. rewrite bind_get. unfold unpacks.
  fold (untyped (cx_Request x)). destruct (untyped (cx_Request x)) eqn:Hu.
  2:{ f_equal. unfold typed. destruct x; cbn in *. by rewrite Hu. }
  cbv zeta. set (enc := header_Get _ "Content-Encoding").
  assert (Hset : ∀ t x, cmd_bind (cmd_modify (upd_Request (upd_fq_Header (Header_Set "Content-Type" t))))
                  (λ _ : unit, h) x = h (upd_Request (upd_fq_Header (Header_Set "Content-Type" t)) x)) by done.
  assert (Htyped : ∀ t, upd_Request (upd_fq_Header (Header_Set "Content-Type" (mimetype_Detect (fq_Body (cx_Request x)))))
            (upd_Request (upd_fq_Header (Header_Set "Content-Type" t)) x) = upd_Request typed x).
  { intros t. unfold typed. destruct x as [[] ? ? ? ? ? ? ?]; cbn in *. rewrite Hu. cbn.
    unfold Header_Set. by rewrite insert_insert_eq. }
  destruct (is_empty enc) eqn:Henc; cbn [orb].
  - rewrite bind_ret, Hset. f_equal. unfold typed. destruct x; cbn in *. by rewrite Hu.
  - destruct (GetDecompressedBody d _ enc) as [[|data|m]|e].
    1, 2: rewrite bind_modify, Hset; by rewrite Htyped.
    all: eexists; unfold log; rewrite bind_modify, RespondError_run; reflexivity.
Qed.

(** ** The middlewares *)

Lemma Logger_run trace (h : Handler) x x1 err uuid :
  h x = (x1, Ret err) → cx_User x1 !! RequestProxyNoRoute = None →
  cx_User x1 !! RequestID = Some (UStr uuid) →
  ∃ l, Logger trace h x = (upd_Log (λ l0, l0 ++ l) x1, Ret err).
Proof.
  intros Hh Hn Hid. unfold Logger. rewrite (bind_run _ _ _ _ _ Hh). unfold flag, UserValue.
  unfold LogRequestResponseAtTraceLevel, UserValue, log, cmd_bind, cmd_get, cmd_modify, cmd_ret.
  rewrite Hn. destruct trace; cbn [negb].
  - rewrite Hid. destruct x1. eexists. cbn. rewrite <- app_assoc. reflexivity.
  - exists []. destruct x1; cbn. by rewrite app_nil_r.
Qed.


Lemma refuse_api_mode_run code msg x id :
  int64 id → cx_User x !! RequestSchemaID = Some (UStr (itoa id)) →
  ∃ e, refuse_api_mode code msg x = (upd_User (results id (Some [e]) 403) x, Ret None).
Proof.
  intros Hid Hu. unfold refuse_api_mode, respondAPIModeErrors, UserValue.
  unfold cmd_bind, cmd_get. rewrite Hu. unfold atoi.
  rewrite parse_int_itoa by (first [by right | lia | exact Hid]).
  eexists. unfold SetUserValue, cmd_modify, cmd_ret. by destruct x.
Qed.

Lemma WAF_api_run cfg (h : Handler) x id :
  int64 id → cx_User x !! RequestSchemaID = Some (UStr (itoa id)) →
  let o := api_modsec_options cfg in
  let c := WAFModSecurity uri_String uri_resolve o h in
  (waf_passes uri_String uri_resolve o x ∧ (∀ x1, h x = (x1, Ret None) → c x = (x1, Ret None)))
  ∨ ¬ waf_passes uri_String uri_resolve o x ∧
    (c x = (x, Ret None) ∨ ∃ e, c x = (upd_User (results id (Some [e]) 403) x, Ret None)).
Proof.
  intros Hid Hu o c. unfold c, WAFModSecurity, waf_passes.
  assert (He : equal_fold (ms_RequestValidation o) ValidationDisable = false) by reflexivity.
  assert (Hmode : (ms_Mode o =?s Web.APIMode) = true) by reflexivity.
  rewrite He. change (ms_WAF o) with (ac_waf cfg).
  destruct (ac_waf cfg) as [newTX|]; [|by left; split].
  rewrite bind_get. destruct (IsRuleEngineOff (newTX x)) eqn:Eoff; [right; split; [by intros [? _]|by left]|].
  cbv iota zeta.
  destruct (processRequest uri_String x (newTX x)) as [t r]. cbn [snd].
  destruct (request_verdict uri_resolve _ r) as [answer|] eqn:Hv.
  - right. split; [intros [_ Hp]; by specialize (Hp eq_refl)|]. right.
    unfold request_verdict in Hv. rewrite Hmode in Hv.
    destruct r as [[it|]|e]; [injection Hv as <-|done|injection Hv as <-]; by apply refuse_api_mode_run.
  - left. split; [done|]. intros x1 Hh. rewrite (bind_run _ _ _ _ _ Hh), Hmode. done.
Qed.

(** What the handler of an endpoint leaves: the user values and the request. *)
Inductive endpoint_effect (cfg : api_config) (cr : CustomRoute) (version : gostring) (id : Z) (x : reqctx)
  : gmap gostring uval → freq → Prop :=
  | effect_address :
      ¬ ip_allowed (api_ip_options cfg) x →
      endpoint_effect cfg cr version id x (<[GlobalResponseStatusCodeKey := UInt 403]> (cx_User x)) (cx_Request x)
  | effect_engine_off :
      ip_allowed (api_ip_options cfg) x → ¬ waf_passes uri_String uri_resolve (api_modsec_options cfg) x →
      endpoint_effect cfg cr version id x (cx_User x) (cx_Request x)
  | effect_rules e :
      ip_allowed (api_ip_options cfg) x → ¬ waf_passes uri_String uri_resolve (api_modsec_options cfg) x →
      endpoint_effect cfg cr version id x (results id (Some [e]) 403 (cx_User x)) (cx_Request x)
  | effect_packed :
      ip_allowed (api_ip_options cfg) x → waf_passes uri_String uri_resolve (api_modsec_options cfg) x →
      unpacks (cx_Request x) = false →
      endpoint_effect cfg cr version id x (cx_User x) (cx_Request x)
  | effect_validated :
      ip_allowed (api_ip_options cfg) x → waf_passes uri_String uri_resolve (api_modsec_options cfg) x →
      unpacks (cx_Request x) = true →
      let r := validate cr (ac_UnknownParametersDetection cfg) (upd_Request typed x) in
      endpoint_effect cfg cr version id x
        (results id (stored_errors (MkRequestValidator (Some cr) version id) r) (status_of r) (cx_User x))
        (typed (cx_Request x)).

Lemma results_other id errs st u k :
  k ≠ keyStatusCode id → k ≠ keyValidationErrors id → results id errs st u !! k = u !! k.
Proof.
  intros Hs He. unfold results. rewrite lookup_insert_ne by done.
  destruct errs; [by rewrite lookup_insert_ne|done].
Qed.

(** The address of the client. *)
Definition client (x : reqctx) : gostring * option gostring := (cx_RemoteAddr x, cx_RemoteIP x).

(** The rest of the chain below ModSecurity. *)
Lemma inner_run cfg cr version id x uuid :
  cx_User x !! RequestID = Some (UStr uuid) → cx_User x !! RequestProxyNoRoute = None →
  RequestID ≠ keyStatusCode id → RequestID ≠ keyValidationErrors id →
  RequestProxyNoRoute ≠ keyStatusCode id → RequestProxyNoRoute ≠ keyValidationErrors id →
  let h := endpoint (ac_UnknownParametersDetection cfg) (MkRequestValidator (Some cr) version id) in
  ∃ x1, Logger (ac_trace cfg) (MIMETypeIdentifier d mimetype_Detect (Errors (Panics h))) x = (x1, Ret None)
    ∧ (fp_Body (cx_Response x) = [] → fp_Body (cx_Response x1) = []) ∧ client x1 = client x
    ∧ if unpacks (cx_Request x)
      then let r := validate cr (ac_UnknownParametersDetection cfg) (upd_Request typed x) in
           cx_User x1 = results id (stored_errors (MkRequestValidator (Some cr) version id) r) (status_of r) (cx_User x)
           ∧ cx_Request x1 = typed (cx_Request x)
      else cx_User x1 = cx_User x ∧ cx_Request x1 = cx_Request x.
Proof.
  intros Hid Hnr N1 N2 N3 N4 h.
  pose proof (MIME_run (Errors (Panics h)) x) as Hm. destruct (unpacks (cx_Request x)).
  - destruct (endpoint_run (ac_UnknownParametersDetection cfg) (MkRequestValidator (Some cr) version id) cr
                (upd_Request typed x) eq_refl) as (l & Hrun).
    rewrite Errors_Panics_run in Hm. unfold h in Hm. rewrite Hrun in Hm. cbn [rv_SchemaID] in Hm.
    eapply Logger_run in Hm as [l' ->];
      [|destruct x; cbn; by rewrite results_other|destruct x; cbn; rewrite results_other by done; exact Hid].
    eexists. split; [done|]. by destruct x.
  - destruct Hm as [l Hm]. eapply Logger_run in Hm as [l' ->];
      [|destruct x; exact Hnr|destruct x; exact Hid].
    eexists. split; [done|]. by destruct x.
Qed.

Ltac other_key :=
  first [ apply global_status_ne
        | unfold keyStatusCode, keyValidationErrors; apply suffix_ne; discriminate ].

(** The whole handler of a route: it returns, and its effect is one of the five. *)
Lemma handler_run cfg cr version id x uuid :
  int64 id → cx_User x !! RequestID = Some (UStr uuid) →
  cx_User x !! RequestSchemaID = Some (UStr (itoa id)) → cx_User x !! RequestProxyNoRoute = None →
  ∃ x1, api_handler (middlewares cfg)
          (endpoint (ac_UnknownParametersDetection cfg) (MkRequestValidator (Some cr) version id)) x
        = (x1, Ret None)
    ∧ (fp_Body (cx_Response x) = [] → fp_Body (cx_Response x1) = []) ∧ client x1 = client x
    ∧ endpoint_effect cfg cr version id x (cx_User x1) (cx_Request x1).
Proof.
  intros Hint Hid Hsch Hnr. unfold api_handler. rewrite !WrapMiddleware_foldr.
  unfold api_middlewares. cbn [map foldr apply_mw].
  match goal with |- context [cmd_bind (IPAllowlist _ _ ?inner) _] => set (w := inner) end.
  assert (Hchain : ∀ x1, IPAllowlist graphql_error (api_ip_options cfg) w x = (x1, Ret None) →
    cmd_bind (IPAllowlist graphql_error (api_ip_options cfg) w)
      (λ err, match err with Some e => SignalShutdown ;;; cmd_ret (Some e) | None => cmd_ret None end) x
    = (x1, Ret None)) by (intros x1 Hx; by rewrite (bind_run _ _ _ _ _ Hx)).
  destruct (IPAllowlist_cases graphql_error (api_ip_options cfg) w x) as [[Hip Heq]|[Hip [l Heq]]].
  2:{ unfold refuse_ip in Heq. change (ia_Mode (api_ip_options cfg) =?s Web.APIMode) with true in Heq.
      cbv iota in Heq. eexists. split; [apply Hchain; rewrite Heq; done|].
      destruct x; cbn. split; [done|]. split; [done|]. by apply effect_address. }
  destruct (inner_run cfg cr version id x uuid Hid Hnr) as (x1 & Hin & Hbody & Hcl & Hobs); [other_key..|].
  cbv zeta in Hin. match type of Hin with ?c x = _ =>
    destruct (WAF_api_run cfg c x id Hint Hsch) as [[Hwaf Hrun]|[Hwaf [Hrun|[errs Hrun]]]] end.
  - exists x1. split; [apply Hchain; rewrite Heq; by apply Hrun|]. split; [done|]. split; [done|].
    destruct (unpacks (cx_Request x)) eqn:Hp.
    + cbv zeta in Hobs. destruct Hobs as [-> ->]. by apply effect_validated.
    + destruct Hobs as [-> ->]. by apply effect_packed.
  - exists x. split; [apply Hchain; rewrite Heq; exact Hrun|]. split; [done|]. split; [done|]. by apply effect_engine_off.
  - eexists. split; [apply Hchain; rewrite Heq; exact Hrun|]. destruct x; cbn. split; [done|]. split; [done|].
    by apply effect_rules.
Qed.

(** * The routers *)

(** The registration of a route of a schema. *)
Definition api_reg (cfg : api_config) (id : Z) (version base : gostring) (cr : CustomRoute)
  : option registration :=
  match routePath base (cr_Path cr) with
  | Err _ => None
  | Ok path =>
      Some (Registration (cr_Method cr) path None
              (Some (api_handler (middlewares cfg)
                 (endpoint (ac_UnknownParametersDetection cfg) (MkRequestValidator (Some cr) version id)))))
  end.

Notation add_route := (api_add_route lib reg json_Unmarshal bodyEncoders d ConvertRequest QueryArgs PostArgs routePath).
Notation add_schema := (api_add_schema lib reg json_Unmarshal bodyEncoders d ConvertRequest QueryArgs PostArgs routePath).

(** Two applications that differ in their routers only. *)
Definition same_app (a a' : api_App) : Prop :=
  aa_passOPTIONS a' = aa_passOPTIONS a ∧ aa_maxErrorsInResponse a' = aa_maxErrorsInResponse a
  ∧ aa_mw a' = aa_mw a ∧ aa_storedSpecs a' = aa_storedSpecs a.

Lemma add_routes mt cfg id version base routes a regs :
  aa_mw a = middlewares cfg → aa_Routers a !! id = Some (mux_run mt regs) →
  ∃ a', fold_outcome (add_route mt cfg id version base) a routes = Ret a' ∧ same_app a a'
    ∧ aa_Routers a' = <[id := mux_run mt (regs ++ omap (api_reg cfg id version base) routes)]> (aa_Routers a).
Proof.
  revert a regs. induction routes as [|cr routes IH]; intros a regs Hmw Hr; cbn [fold_outcome].
  { exists a. split; [done|]. split; [done|]. cbn. rewrite app_nil_r. symmetry. by apply insert_id. }
  unfold api_add_route at 1. cbn [omap list_omap]. unfold api_reg at 1.
  destruct (routePath base (cr_Path cr)) as [path|]; [|by apply IH].
  unfold api_Handle. rewrite Hr, Hmw.
  set (rg := Registration (cr_Method cr) path None (Some _)).
  destruct (AddEndpoint _ _ _ _ _) as [mx err] eqn:Hadd.
  assert (Hmx : mx = mux_run mt (regs ++ [rg])).
  { rewrite mux_run_snoc. change (mux_add mt (mux_run mt regs) rg) with
      (AddEndpoint mt (mux_run mt regs) (reg_method rg) (reg_pattern rg) (reg_handler rg)).
    cbn [reg_method reg_pattern reg_handler rg]. by rewrite Hadd. }
  cbn [obind]. set (a1 := MkAPIApp _ _ _ _ _).
  destruct (IH a1 (regs ++ [rg])) as (a' & Ha & (S1 & S2 & S3 & S4) & Hrs).
  { done. }
  { cbn. by rewrite lookup_insert_eq, Hmx. }
  exists a'. split; [exact Ha|]. split; [unfold a1 in *; cbn in *; split_and!; congruence|].
  rewrite Hrs. cbn. rewrite insert_insert_eq. by rewrite <- app_assoc.
Qed.

Lemma NewApp_routers pass maxErrors s mw id :
  id ∈ SchemaIDs s → aa_Routers (api_NewApp pass maxErrors s mw) !! id = Some NewMux.
Proof.
  intros Hid. unfold api_NewApp. cbn [aa_Routers]. revert Hid.
  generalize (SchemaIDs s). intros ids. generalize (∅ : gmap Z (@Mux _ Handler)).
  induction ids as [|j ids IH] using rev_ind; intros m; [by intros ?%not_elem_of_nil|].
  rewrite fold_left_app. cbn [fold_left]. intros [Hin|Hin%list_elem_of_singleton]%elem_of_app.
  - destruct (decide (j = id)) as [->|Hne]; [by rewrite lookup_insert_eq|].
    rewrite lookup_insert_ne by done. by apply IH.
  - subst. by rewrite lookup_insert_eq.
Qed.

(** The routers of the schemas hold the routes of their documents. *)
Definition router_of (mt : method_table) (cfg : api_config) (s : @store api_spec) (a : api_App) (id : Z) : Prop :=
  ∃ sp base routes, Specification s id = Some sp ∧ server_base sp = Some base
    ∧ NewRouterDBLoader sp = Ok routes
    ∧ aa_Routers a !! id
      = Some (mux_run mt (omap (api_reg cfg id (SpecificationVersion s id) base) routes)).

Lemma add_schemas mt cfg s ids a a' :
  NoDup ids → aa_mw a = middlewares cfg → (∀ id, id ∈ ids → aa_Routers a !! id = Some NewMux) →
  fold_outcome (add_schema mt cfg s) a ids = Ret a' →
  same_app a a' ∧ (∀ id, id ∈ ids → router_of mt cfg s a' id)
  ∧ (∀ id, id ∉ ids → aa_Routers a' !! id = aa_Routers a !! id).
Proof.
  revert a. induction ids as [|id ids IH]; intros a Hnd Hmw Hr; cbn [fold_outcome].
  { intros [= <-]. split; [done|]. split; [by intros ? ?%not_elem_of_nil|done]. }
  apply NoDup_cons in Hnd as [Hni Hnd]. intros (a1 & Ha & Hrest)%obind_Ret.
  unfold api_add_schema in Ha. destruct (Specification s id) as [sp|] eqn:Hsp; [|done].
  destruct (server_base sp) as [base|] eqn:Hbase; [|done].
  destruct (NewRouterDBLoader sp) as [routes|] eqn:Hroutes; [|done].
  destruct (add_routes mt cfg id (SpecificationVersion s id) base routes a [] Hmw)
    as (a1' & Ha' & (S1 & S2 & S3 & S4) & Hrs); [apply Hr, list_elem_of_here|].
  rewrite Ha' in Ha. injection Ha as <-.
  destruct (IH a1' Hnd) as ((T1 & T2 & T3 & T4) & Hin & Hout); [congruence| |done|].
  { intros j Hj. rewrite Hrs, lookup_insert_ne by (intros ->; done). by apply Hr, list_elem_of_further. }
  split; [split_and!; congruence|]. split.
  - intros j [->|Hj]%elem_of_cons; [|by apply Hin]. exists sp, base, routes. split_and!; [done..|].
    rewrite Hout by done. by rewrite Hrs, lookup_insert_eq.
  - intros j Hj. apply not_elem_of_cons in Hj as [Hne Hj]. rewrite Hout by done.
    by rewrite Hrs, lookup_insert_ne.
Qed.

Lemma api_Handlers_routers mt cfg s a :
  NoDup (SchemaIDs s) → api_Handlers mt cfg s = Some a →
  aa_passOPTIONS a = ac_PassOptionsRequests cfg ∧ aa_maxErrorsInResponse a = ac_MaxErrorsInResponse cfg
  ∧ aa_storedSpecs a = s ∧ ∀ id, id ∈ SchemaIDs s → router_of mt cfg s a id.
Proof.
  intros Hnd. unfold APIHandlers.api_Handlers.
  destruct (fold_outcome _ _ _) as [a'|] eqn:Hf; [|done]. intros [= ->].
  apply add_schemas in Hf as ((S1 & S2 & S3 & S4) & Hin & _); [|done|done|].
  - split_and!; done.
  - intros id Hid. by apply NewApp_routers.
Qed.

(** * What is reported for a schema *)

(** The result of the validator for a request and the parameters of its path. *)
Definition validated (cr : CustomRoute) (detection : bool) (keys vs : list gostring) (r : freq)
  : result api_error (list ValidationError) :=
  APIModeValidateRequest lib reg json_Unmarshal bodyEncoders d
    (MkAPIRequest (ConvertRequest r)
       (if (0 <? cr_ParametersNumberInPath cr)%Z then list_to_map (zip keys vs) else ∅)
       (header_Get (fq_Header r) "Content-Encoding") (fast_of QueryArgs PostArgs r))
    (cr_Route cr) detection (cr_ParametersNumberInPath cr).

Lemma validate_captured cr detection pattern path keys vs rctx x :
  captured pattern path keys vs rctx → cx_User x !! RouteCtxKey = Some (URoute rctx) →
  validate cr detection x = validated cr detection keys vs (cx_Request x).
Proof.
  intros Hcap Hr. unfold validate_ctx, validated, api_request_of, route_context.
  rewrite Hr, (captured_params _ _ _ _ _ Hcap). by destruct (0 <? cr_ParametersNumberInPath cr)%Z.
Qed.

Section Reported.
Context (mt : method_table) (cfg : api_config) (s : @store api_spec) (a : api_App).
(** The identifier of the request, the request and the address of its client. *)
Context (uuid : gostring) (rq : freq) (from : gostring * option gostring).

Definition passed : bool := ac_PassOptionsRequests cfg && (fq_Method rq =?s "OPTIONS").

(** A route of the document of the schema that matches the method and the path, and
    the parameters that the path gives its pattern. *)
Definition route_of (id : Z) (cr : CustomRoute) (keys vs : list gostring) (rctx : Context) : Prop :=
  ∃ sp base routes path m, Specification s id = Some sp ∧ server_base sp = Some base
    ∧ NewRouterDBLoader sp = Ok routes ∧ cr ∈ routes ∧ routePath base (cr_Path cr) = Ok path
    ∧ methodMap mt !! fq_Method rq = Some m ∧ methodMap mt !! to_upper (cr_Method cr) = Some m
    ∧ captured path (fq_Path rq) keys vs rctx.

(** A context with the request as received, or with the type found for its body. *)
Definition seen (y : reqctx) : Prop := cx_Request y = rq ∨ cx_Request y = typed rq.

Definition unrouted (id : Z) : Prop :=
  ∃ mx rctx, aa_Routers a !! id = Some mx
    ∧ Find mt mx NewRouteContext (fq_Method rq) (fq_Path rq) = Ret (rctx, None).

(** The context in which the handler of a route is called for a schema: the one of the
    client, with the parameters of the route. *)
Record called (id : Z) (rctx : Context) (y : reqctx) : Prop := MkCalled {
  called_seen : seen y;
  called_from : client y = from;
  called_route : cx_User y !! RouteCtxKey = Some (URoute rctx);
  called_id : cx_User y !! RequestID = Some (UStr uuid);
  called_schema : cx_User y !! RequestSchemaID = Some (UStr (itoa id))
}.

Inductive reported (id : Z) : Z → list ValidationError → Prop :=
  | reported_passed : unrouted id → passed = true → reported id 200 []
  | reported_not_found : unrouted id → passed = false → reported id 403 [not_found_error id]
  | reported_rules cr keys vs rctx y e :
      route_of id cr keys vs rctx → called id rctx y → ip_allowed (api_ip_options cfg) y →
      ¬ waf_passes uri_String uri_resolve (api_modsec_options cfg) y → reported id 403 [e]
  | reported_unchecked cr keys vs rctx y :
      route_of id cr keys vs rctx → called id rctx y → ip_allowed (api_ip_options cfg) y →
      ¬ waf_passes uri_String uri_resolve (api_modsec_options cfg) y ∨ unpacks (cx_Request y) = false →
      reported id (if passed then 200 else 500) []
  | reported_validated cr keys vs rctx y :
      route_of id cr keys vs rctx → called id rctx y → ip_allowed (api_ip_options cfg) y →
      waf_passes uri_String uri_resolve (api_modsec_options cfg) y → unpacks (cx_Request y) = true →
      let r := validated cr (ac_UnknownParametersDetection cfg) keys vs (typed rq) in
      let rv := MkRequestValidator (Some cr) (SpecificationVersion s id) id in
      reported id (status_of r) (default [] (stored_errors rv r)).

(** The address of the client is not on the allow list. *)
Definition refused : Prop :=
  ∃ id cr keys vs rctx y, route_of id cr keys vs rctx ∧ called id rctx y ∧ ¬ ip_allowed (api_ip_options cfg) y.

(** ** The user values *)

(** What the answer has for a schema. *)
Definition entry_of (u : gmap gostring uval) (id : Z) : Z * list ValidationError :=
  let l := match u !! keyValidationErrors id with Some (UErrors l) => l | _ => [] end in
  match u !! keyStatusCode id with
  | Some (UInt n) => (n, l)
  | _ => if passed then (200%Z, []) else (500%Z, l)
  end.

Definition known_key (done : list Z) (k : gostring) : Prop :=
  k ∈ [RequestID; RequestSchemaID; RouteCtxKey; GlobalResponseStatusCodeKey]
  ∨ ∃ id, id ∈ done ∧ (k = keyStatusCode id ∨ k = keyValidationErrors id).

Record api_inv (done : list Z) (x : reqctx) : Prop := {
  inv_id : cx_User x !! RequestID = Some (UStr uuid);
  inv_keys : ∀ k, is_Some (cx_User x !! k) → known_key done k;
  inv_seen : seen x;
  inv_from : client x = from;
  inv_body : fp_Body (cx_Response x) = []
}.

Lemma inv_fresh done x k :
  api_inv done x → ¬ known_key done k → cx_User x !! k = None.
Proof.
  intros Hinv Hk. destruct (cx_User x !! k) eqn:E; [|done]. exfalso. apply Hk.
  eapply inv_keys; [done|]. by rewrite E.
Qed.

Lemma own_key_fresh done id :
  id ∉ done → ¬ known_key done (keyStatusCode id) ∧ ¬ known_key done (keyValidationErrors id).
Proof.
  intros Hid. split; intros [Hk|(j & Hj & [He|He])].
  - repeat (apply elem_of_cons in Hk as [Hk|Hk]; [revert Hk; apply not_eq_sym; other_key|]).
    by apply not_elem_of_nil in Hk.
  - apply keyStatusCode_inj in He. by subst.
  - by apply status_errors_ne in He.
  - repeat (apply elem_of_cons in Hk as [Hk|Hk]; [revert Hk; apply not_eq_sym; other_key|]).
    by apply not_elem_of_nil in Hk.
  - symmetry in He. by apply status_errors_ne in He.
  - apply keyValidationErrors_inj in He. by subst.
Qed.

(** Entries of other schemas, and the entry of results just stored. *)
Lemma entry_of_same u u' id :
  u' !! keyStatusCode id = u !! keyStatusCode id →
  u' !! keyValidationErrors id = u !! keyValidationErrors id → entry_of u' id = entry_of u id.
Proof. unfold entry_of. by intros -> ->. Qed.

Lemma entry_of_results u id errs st :
  u !! keyValidationErrors id = None → entry_of (results id errs st u) id = (st, default [] errs).
Proof.
  intros Hu. unfold entry_of, results. rewrite lookup_insert_eq.
  rewrite lookup_insert_ne by apply status_errors_ne.
  destruct errs as [l|]; [by rewrite lookup_insert_eq|by rewrite Hu].
Qed.

Lemma entry_of_none u id :
  u !! keyStatusCode id = None → u !! keyValidationErrors id = None →
  entry_of u id = (if passed then 200%Z else 500%Z, []).
Proof. unfold entry_of. intros -> ->. by destruct passed. Qed.

(** ** One schema *)

(** The names a step may write. *)
Definition step_keys (id : Z) : list gostring :=
  [RequestSchemaID; RouteCtxKey; GlobalResponseStatusCodeKey; keyStatusCode id; keyValidationErrors id].

Lemma step_inv done x x1 id :
  api_inv done x → id ∉ done →
  (∀ k, k ∉ step_keys id → cx_User x1 !! k = cx_User x !! k) → seen x1 → client x1 = from →
  fp_Body (cx_Response x1) = [] →
  api_inv (id :: done) x1 ∧ ∀ j, j ∈ done → entry_of (cx_User x1) j = entry_of (cx_User x) j.
Proof.
  intros Hinv Hid Hframe Hseen Hfrom Hbody.
  assert (Hother : ∀ k, k ≠ RequestSchemaID → k ≠ RouteCtxKey → k ≠ GlobalResponseStatusCodeKey →
            k ≠ keyStatusCode id → k ≠ keyValidationErrors id → cx_User x1 !! k = cx_User x !! k).
  { intros k N1 N2 N3 N4 N5. apply Hframe. unfold step_keys. rewrite !not_elem_of_cons.
    split_and!; [done..|]. apply not_elem_of_nil. }
  split.
  - split; [|intros k [v Hk]|done|done|done].
    + rewrite Hother; [by eapply inv_id|discriminate..| |]; other_key.
    + destruct (decide (k ∈ step_keys id)) as [Hin|Hout].
      * unfold step_keys in Hin. rewrite !elem_of_cons in Hin. unfold known_key. rewrite !elem_of_cons.
        destruct Hin as [->|[->|[->|[->|[->|[]%not_elem_of_nil]]]]]; auto 10.
        all: right; exists id; split; [apply list_elem_of_here|auto].
      * rewrite Hframe in Hk by done. destruct (inv_keys _ _ Hinv k) as [|(j & Hj & Hkj)]; [by rewrite Hk|by left|].
        right. exists j. split; [by apply list_elem_of_further|done].
  - intros j Hj. assert (Hne : j ≠ id) by (by intros ->). apply entry_of_same; apply Hother.
    1-3, 6-8: apply not_eq_sym; other_key.
    + by intros ?%keyStatusCode_inj.
    + apply status_errors_ne.
    + apply not_eq_sym, status_errors_ne.
    + by intros ?%keyValidationErrors_inj.
Qed.

Lemma seen_method x : seen x → fq_Method (cx_Request x) = fq_Method rq ∧ fq_Path (cx_Request x) = fq_Path rq.
Proof. unfold seen, typed. intros [-> | ->]; [done|]. destruct (untyped rq); [|done]. by destruct rq. Qed.

Lemma typed_seen x : seen x → typed (cx_Request x) = typed rq.
Proof.
  intros [-> | ->]; [done|]. unfold typed at 2 3. destruct (untyped rq) eqn:Hu; [|unfold typed; by rewrite Hu].
  unfold typed. destruct (untyped (upd_fq_Header _ _)); [|done].
  destruct rq; cbn. unfold Header_Set. by rewrite insert_insert_eq.
Qed.

(** The validator sees the request and the parameters of the path. *)
Lemma validate_called id cr keys vs rctx y :
  route_of id cr keys vs rctx → called id rctx y →
  validate cr (ac_UnknownParametersDetection cfg) (upd_Request typed y)
  = validated cr (ac_UnknownParametersDetection cfg) keys vs (typed rq).
Proof.
  intros (sp & base & routes & path & m & _ & _ & _ & _ & _ & _ & _ & Hcap) [Hseen _ Hr _ _].
  rewrite <- (typed_seen y Hseen).
  replace (typed (cx_Request y)) with (cx_Request (upd_Request typed y)) by (by destruct y).
  eapply validate_captured; [done|]. by destruct y.
Qed.

(** The effect of a handler, seen from the answer. *)
Lemma effect_reported cr keys vs rctx version id y u' rq' :
  endpoint_effect cfg cr version id y u' rq' → version = SpecificationVersion s id →
  route_of id cr keys vs rctx → called id rctx y → cx_User y !! keyStatusCode id = None → cx_User y !! keyValidationErrors id = None →
  (rq' = rq ∨ rq' = typed rq)
  ∧ (∀ k, k ∉ step_keys id → u' !! k = cx_User y !! k)
  ∧ (u' !! GlobalResponseStatusCodeKey = Some (UInt 403) ∧ refused
     ∨ u' !! GlobalResponseStatusCodeKey = cx_User y !! GlobalResponseStatusCodeKey
       ∧ reported id (entry_of u' id).1 (entry_of u' id).2).
Proof.
  intros He -> Hroute Hcall Hs Hv. pose proof (called_seen _ _ _ Hcall) as Hseen.
  assert (Hres : ∀ errs st k, k ∉ step_keys id → results id errs st (cx_User y) !! k = cx_User y !! k).
  { intros errs st k Hk. unfold step_keys in Hk. rewrite !not_elem_of_cons in Hk.
    apply results_other; tauto. }
  assert (Hglob : ∀ errs st, results id errs st (cx_User y) !! GlobalResponseStatusCodeKey
            = cx_User y !! GlobalResponseStatusCodeKey)
    by (intros; apply results_other; other_key).
  destruct He as [Hip|Hip Hwaf|e Hip Hwaf|Hip Hwaf Hp|Hip Hwaf Hp r].
  - split; [done|]. split.
    + intros k Hk. apply lookup_insert_ne. intros <-. apply Hk. unfold step_keys. set_solver.
    + left. rewrite lookup_insert_eq. split; [done|]. by exists id, cr, keys, vs, rctx, y.
  - split; [done|]. split; [done|]. right. split; [done|]. rewrite entry_of_none by done.
    apply (reported_unchecked id cr keys vs rctx y); auto.
  - split; [done|]. split; [by apply Hres|]. right. split; [apply Hglob|].
    rewrite entry_of_results by done. by apply (reported_rules id cr keys vs rctx y e).
  - split; [done|]. split; [done|]. right. split; [done|]. rewrite entry_of_none by done.
    apply (reported_unchecked id cr keys vs rctx y); auto.
  - split; [right; by apply typed_seen|]. split; [by apply Hres|]. right. split; [apply Hglob|].
    rewrite entry_of_results by done. unfold r. rewrite (validate_called _ _ _ _ _ _ Hroute Hcall).
    by apply (reported_validated id cr keys vs rctx y).
Qed.

Context (Htable : table_ok mt) (Hpass : aa_passOPTIONS a = ac_PassOptionsRequests cfg).

(** A handler that the router of a schema finds is that of a route of its document. *)
Lemma Find_route id :
  router_of mt cfg s a id →
  ∃ mx rctx h, aa_Routers a !! id = Some mx
    ∧ Find mt mx NewRouteContext (fq_Method rq) (fq_Path rq) = Ret (rctx, h)
    ∧ ∀ h', h = Some h' → ∃ cr keys vs, route_of id cr keys vs rctx
        ∧ h' = api_handler (middlewares cfg) (endpoint (ac_UnknownParametersDetection cfg)
                 (MkRequestValidator (Some cr) (SpecificationVersion s id) id)).
Proof.
  intros (sp & base & routes & Hsp & Hbase & Hroutes & Hr).
  match type of Hr with _ = Some (mux_run mt ?regs) =>
    destruct (Find_registered mt regs (fq_Method rq) (fq_Path rq) Htable) as (rctx & h & Hf & Hh) end.
  eexists _, rctx, h. split; [exact Hr|]. split; [exact Hf|]. intros h' Hsome.
  destruct (Hh h' Hsome) as (rg & m & keys & vs & Hin & Hrh & Hm1 & Hm2 & Hcap).
  apply list_elem_of_omap in Hin as (cr & Hcr & Hreg). unfold api_reg in Hreg.
  destruct (routePath _ (cr_Path cr)) as [path|] eqn:Hpath; [|done]. injection Hreg as <-.
  cbn [reg_handler reg_method reg_pattern] in *. injection Hrh as <-.
  exists cr, keys, vs. split; [|done]. by exists sp, base, routes, path, m.
Qed.

Definition step_result (done : list Z) (x : reqctx) (id : Z) (x1 : reqctx) : Prop :=
  api_inv (id :: done) x1
  ∧ (∀ j, j ∈ done → entry_of (cx_User x1) j = entry_of (cx_User x) j)
  ∧ (cx_User x1 !! GlobalResponseStatusCodeKey = Some (UInt 403) ∧ refused
     ∨ cx_User x1 !! GlobalResponseStatusCodeKey = cx_User x !! GlobalResponseStatusCodeKey
       ∧ reported id (entry_of (cx_User x1) id).1 (entry_of (cx_User x1) id).2).

(** A schema without route. *)
Lemma unrouted_run done x id errs st :
  api_inv done x → id ∉ done → reported id st (default [] errs) →
  step_result done x id
    (upd_User (results id errs st) (upd_User (<[RequestSchemaID := UStr (itoa id)]>) x)).
Proof.
  intros Hinv Hid Hrep. destruct (own_key_fresh done id Hid) as [F1 F2].
  apply (inv_fresh _ _ _ Hinv) in F1, F2.
  assert (Hframe : ∀ k, k ∉ step_keys id →
    results id errs st (<[RequestSchemaID := UStr (itoa id)]> (cx_User x)) !! k = cx_User x !! k).
  { intros k Hk. unfold step_keys in Hk. rewrite !not_elem_of_cons in Hk.
    rewrite results_other by tauto. apply lookup_insert_ne. intros <-. tauto. }
  assert (Hu : cx_User (upd_User (results id errs st) (upd_User (<[RequestSchemaID := UStr (itoa id)]>) x))
            = results id errs st (<[RequestSchemaID := UStr (itoa id)]> (cx_User x))) by (by destruct x).
  unfold step_result. rewrite Hu. destruct (step_inv done x
    (upd_User (results id errs st) (upd_User (<[RequestSchemaID := UStr (itoa id)]>) x)) id Hinv Hid)
    as [Hinv' Hsame].
  - rewrite Hu. exact Hframe.
  - destruct Hinv as [_ _ Hseen _ _]. destruct x; exact Hseen.
  - destruct Hinv as [_ _ _ Hfrom _]. destruct x; exact Hfrom.
  - destruct Hinv as [_ _ _ _ Hbody]. destruct x; exact Hbody.
  - rewrite Hu in Hsame. split; [done|]. split; [done|]. right. split.
    + rewrite results_other by other_key. by rewrite lookup_insert_ne by discriminate.
    + rewrite entry_of_results; [done|]. rewrite lookup_insert_ne; [done|]. other_key.
Qed.

Lemma step_run done x id :
  api_inv done x → id ∉ done → int64 id → router_of mt cfg s a id →
  ∃ x1, schema_step mt a id x = (x1, Ret ()) ∧ step_result done x id x1.
Proof.
  intros Hinv Hid Hint Hrouter.
  destruct (Find_route id Hrouter) as (mx & rctx & h & Hmx & Hfind & Hh).
  destruct (seen_method x (inv_seen _ _ Hinv)) as [Hmeth Hpath].
  unfold schema_step, SetUserValue at 1. rewrite bind_modify, !bind_get.
  set (x0 := upd_User _ x).
  assert (Hreq : cx_Request x0 = cx_Request x) by (by destruct x).
  rewrite Hreq, Hmeth, Hpath, Hmx, Hfind, bind_lift. destruct h as [h|].
  2:{ assert (Hnr : unrouted id) by (by exists mx, rctx).
      rewrite Hpass. destruct (ac_PassOptionsRequests cfg && (fq_Method rq =?s "OPTIONS")) eqn:Hp;
        rewrite set_results_run; eexists; (split; [done|]); apply unrouted_run; try done.
      - by apply reported_passed.
      - by apply reported_not_found. }
  destruct (Hh h eq_refl) as (cr & keys & vs & Hroute & ->).
  unfold SetUserValue. rewrite bind_modify. set (x2 := upd_User _ x0).
  assert (Hu2 : cx_User x2 = <[RouteCtxKey := URoute rctx]> (<[RequestSchemaID := UStr (itoa id)]> (cx_User x)))
    by (by destruct x).
  assert (Hfresh : ∀ k, k ≠ RouteCtxKey → k ≠ RequestSchemaID → cx_User x2 !! k = cx_User x !! k)
    by (intros k N1 N2; rewrite Hu2; by rewrite !lookup_insert_ne by congruence).
  assert (Hcall : called id rctx x2).
  { destruct Hinv as [Hid0 _ Hs Hf _]. split; [by destruct x..| |rewrite Hfresh by discriminate; done|];
      rewrite Hu2; [by rewrite lookup_insert_eq|]. rewrite lookup_insert_ne by discriminate. by rewrite lookup_insert_eq. }
  destruct (own_key_fresh done id Hid) as [F1 F2]. apply (inv_fresh _ _ _ Hinv) in F1, F2.
  destruct (handler_run cfg cr (SpecificationVersion s id) id x2 uuid Hint) as (x3 & Hrun & Hbody & Hcl & Heff).
  { by eapply called_id. }
  { by eapply called_schema. }
  { rewrite Hfresh by discriminate. apply (inv_fresh _ _ _ Hinv). intros [Hk|(j & _ & [Hk|Hk])].
    - repeat (apply elem_of_cons in Hk as [Hk|Hk]; [discriminate Hk|]). by apply not_elem_of_nil in Hk.
    - revert Hk. other_key.
    - revert Hk. other_key. }
  rewrite (bind_run _ _ _ _ _ Hrun). eexists. split; [done|].
  destruct (effect_reported _ _ _ _ _ _ _ _ _ Heff eq_refl Hroute Hcall) as (Hreq3 & Hframe & Hout).
  { rewrite Hfresh; [done|apply not_eq_sym; other_key..]. }
  { rewrite Hfresh; [done|apply not_eq_sym; other_key..]. }
  destruct (step_inv done x x3 id Hinv Hid) as [Hinv3 Hsame].
  { intros k Hk. rewrite Hframe by done. unfold step_keys in Hk. rewrite !not_elem_of_cons in Hk.
    apply Hfresh; tauto. }
  { exact Hreq3. }
  { rewrite Hcl. by eapply called_from. }
  { apply Hbody. destruct Hinv as [_ _ _ _ Hb]. destruct x; exact Hb. }
  split; [done|]. split; [done|]. by rewrite (Hfresh GlobalResponseStatusCodeKey) in Hout by discriminate.
Qed.

(** ** The two loops *)

Lemma for_each_run ids done x :
  api_inv done x → NoDup ids → (∀ id, id ∈ ids → id ∉ done ∧ int64 id ∧ router_of mt cfg s a id) →
  ∃ x1, for_each (schema_step mt a) ids x = (x1, Ret ()) ∧ seen x1 ∧ fp_Body (cx_Response x1) = []
    ∧ (∀ j, j ∈ done → entry_of (cx_User x1) j = entry_of (cx_User x) j)
    ∧ (cx_User x1 !! GlobalResponseStatusCodeKey = Some (UInt 403) ∧ refused
       ∨ cx_User x1 !! GlobalResponseStatusCodeKey = cx_User x !! GlobalResponseStatusCodeKey
         ∧ ∀ id, id ∈ ids → reported id (entry_of (cx_User x1) id).1 (entry_of (cx_User x1) id).2).
Proof.
  revert done x. induction ids as [|id ids IH]; intros done x Hinv Hnd Hids; cbn [for_each].
  { exists x. destruct Hinv as [_ _ Hseen _ Hbody]. split_and!; [done..|]. right. split; [done|].
    by intros ? ?%not_elem_of_nil. }
  apply NoDup_cons in Hnd as [Hni Hnd]. destruct (Hids id) as (Hd & Hint & Hr); [apply list_elem_of_here|].
  destruct (step_run done x id Hinv Hd Hint Hr) as (x1 & Hstep & Hinv1 & Hsame1 & Hout1).
  rewrite (bind_run _ _ _ _ _ Hstep).
  destruct (IH (id :: done) x1 Hinv1 Hnd) as (x2 & Hrun & Hseen & Hbody & Hsame2 & Hout2).
  { intros j Hj. destruct (Hids j) as (? & ? & ?); [by apply list_elem_of_further|]. split_and!; [|done..].
    intros [->|?]%elem_of_cons; done. }
  exists x2. split_and!; [done..| |].
  { intros j Hj. rewrite Hsame2 by (by apply list_elem_of_further). by apply Hsame1. }
  destruct Hout2 as [Hg|[Hg Hrep]]; [by left|].
  destruct Hout1 as [[Hg1 Href]|[Hg1 Hrep1]]; [left; by rewrite Hg|]. right. split; [congruence|].
  intros j [->|Hj]%elem_of_cons; [|by apply Hrep]. rewrite Hsame2 by apply list_elem_of_here. done.
Qed.

Definition summary_of (u : gmap gostring uval) (ids : list Z) : list ValidationResponseSummary :=
  map (λ id, MkSummary id (entry_of u id).1) ids.
Definition errors_of (u : gmap gostring uval) (ids : list Z) : list ValidationError :=
  concat (map (λ id, (entry_of u id).2) ids).

Lemma summary_loop_cons id ids sm es x :
  (∀ n, cx_User x !! GlobalResponseStatusCodeKey ≠ Some (UInt n)) →
  ∃ y, summary_loop passed (id :: ids) sm es x
       = summary_loop passed ids (sm ++ [MkSummary id (entry_of (cx_User x) id).1])
           (es ++ (entry_of (cx_User x) id).2) y
    ∧ cx_User y = cx_User x ∧ cx_Request y = cx_Request x
    ∧ fp_Body (cx_Response y) = fp_Body (cx_Response x).
Proof.
  intros Hg. cbn [summary_loop]. unfold UserValue. rewrite bind_get.
  assert (Hrest : ∃ y, (status <-- cmd_get (λ x, cx_User x !! keyStatusCode id) ;;
      validationErrors <-- cmd_get (λ x, cx_User x !! keyValidationErrors id) ;;
      let errs' := match validationErrors with Some (UErrors l) => es ++ l | _ => es end in
      match status with
      | Some (UInt n) => summary_loop passed ids (sm ++ [MkSummary id n]) errs'
      | _ => if passed then summary_loop passed ids (sm ++ [MkSummary id 200]) es
             else reset_header ;;; summary_loop passed ids (sm ++ [MkSummary id 500]) errs'
      end) x
    = summary_loop passed ids (sm ++ [MkSummary id (entry_of (cx_User x) id).1])
        (es ++ (entry_of (cx_User x) id).2) y
    ∧ cx_User y = cx_User x ∧ cx_Request y = cx_Request x
    ∧ fp_Body (cx_Response y) = fp_Body (cx_Response x)).
  { rewrite !bind_get. cbv zeta. unfold entry_of, reset_header.
    destruct (cx_User x !! keyStatusCode id) as [[]|];
      try (destruct passed; rewrite ?bind_modify);
      destruct (cx_User x !! keyValidationErrors id) as [[]|]; cbn [fst snd]; rewrite ?app_nil_r;
      first [ by exists x | eexists; split; [done|]; by destruct x ]. }
  destruct (cx_User x !! GlobalResponseStatusCodeKey) as [[]|]; try exact Hrest. by destruct (Hg n).
Qed.

Lemma summary_loop_run ids sm es x :
  (∀ n, cx_User x !! GlobalResponseStatusCodeKey ≠ Some (UInt n)) →
  ∃ x1, summary_loop passed ids sm es x
        = (x1, Ret (Some (sm ++ summary_of (cx_User x) ids, es ++ errors_of (cx_User x) ids)))
    ∧ cx_Request x1 = cx_Request x ∧ fp_Body (cx_Response x1) = fp_Body (cx_Response x).
Proof.
  revert sm es x. induction ids as [|id ids IH]; intros sm es x Hg.
  { exists x. unfold summary_of, errors_of. cbn. by rewrite !app_nil_r. }
  destruct (summary_loop_cons id ids sm es x Hg) as (y & -> & Hu & Hr & Hb).
  destruct (IH (sm ++ [MkSummary id (entry_of (cx_User x) id).1]) (es ++ (entry_of (cx_User x) id).2) y)
    as (x1 & -> & Hr1 & Hb1); [by rewrite Hu|].
  exists x1. rewrite Hu. unfold summary_of, errors_of. cbn [map concat]. rewrite <- !app_assoc.
  split; [done|]. split; congruence.
Qed.

(** A status of the whole request ends the loop. *)
Lemma summary_loop_global ids sm es x n :
  ids ≠ [] → cx_User x !! GlobalResponseStatusCodeKey = Some (UInt n) →
  ∃ x1, summary_loop passed ids sm es x = (x1, Ret None)
    ∧ cx_Response x1 = MkFresp n ∅ (fp_Body (cx_Response x)).
Proof.
  intros Hne Hg. destruct ids as [|id ids]; [done|]. cbn [summary_loop]. unfold UserValue.
  rewrite bind_get, Hg. eexists. split; [done|]. by destruct x.
Qed.
End Reported.

(** * The answer *)

(** The rest of the answer after the summary. *)
Lemma answer_run encode perm cfg a rq ids nf x :
  aa_passOPTIONS a = ac_PassOptionsRequests cfg → aa_maxErrorsInResponse a = ac_MaxErrorsInResponse cfg →
  seen rq x → fp_Body (cx_Response x) = [] →
  let u := cx_User x in
  (∀ n, u !! GlobalResponseStatusCodeKey = Some (UInt n) → ids ≠ [] →
     cx_Response (answer encode perm a ids nf x).1 = MkFresp n ∅ []
     ∧ (answer encode perm a ids nf x).2 = Ret ())
  ∧ ((∀ n, u !! GlobalResponseStatusCodeKey ≠ Some (UInt n)) →
     ∀ limited data,
       SampleSlice perm (errors_of cfg rq u ids) (ac_MaxErrorsInResponse cfg) = Ret limited →
       encode (MkValidationResponse (summary_of cfg rq u ids ++ map (λ id, MkSummary id 500) nf) limited) = Ok data →
       (answer encode perm a ids nf x).2 = Ret ()
       ∧ fp_Status (cx_Response (answer encode perm a ids nf x).1) = 200%Z
       ∧ fp_Body (cx_Response (answer encode perm a ids nf x).1) = data).
Proof.
  intros Hpass Hmax Hseen Hbody u. destruct (seen_method rq x Hseen) as [Hm _].
  assert (Hp : aa_passOPTIONS a && (fq_Method (cx_Request x) =?s "OPTIONS") = passed cfg rq)
    by (unfold passed; by rewrite Hpass, Hm).
  split.
  - intros n Hg Hne. unfold answer. rewrite bind_get, Hp.
    destruct (summary_loop_global cfg rq ids [] [] x n Hne Hg) as (x1 & Hrun & Hresp).
    rewrite (bind_run _ _ _ _ _ Hrun). cbn. by rewrite Hresp, Hbody.
  - intros Hg limited data Hs He.
    destruct (summary_loop_run cfg rq ids [] [] x Hg) as (x1 & Hrun & _ & Hb1).
    cbn [app] in Hrun. unfold answer. rewrite bind_get, Hp, (bind_run _ _ _ _ _ Hrun).
    fold u. rewrite !bind_modify, Hmax, Hs, bind_lift. unfold Respond. cbn [Z.eqb].
    rewrite He. destruct x1 as [rq1 [st1 h1 b1] ? ? ? ? ? ?]. cbn in Hb1 |- *.
    split_and!; [done..|]. by rewrite Hb1, Hbody.
Qed.

(** The context of the first schema. *)
Lemma start_inv x uuid :
  cx_User x = ∅ → fp_Body (cx_Response x) = [] →
  let f := upd_fq_Header (Header_Del XWallarmSchemaIDHeader) in
  let x0 := upd_Request f (upd_User (<[RequestID := UStr uuid]>) x) in
  api_inv uuid (f (cx_Request x)) (client x) [] x0 ∧ cx_User x0 !! GlobalResponseStatusCodeKey = None.
Proof.
  intros Hu Hbody f x0. subst x0. destruct x; cbn in *. subst. split.
  - split; cbn; [by rewrite lookup_insert_eq| |by left|done|done].
    intros k Hk. left. destruct (decide (k = RequestID)) as [->|Hne]; [apply list_elem_of_here|].
    rewrite lookup_insert_ne, lookup_empty in Hk by done. by destruct Hk.
  - by rewrite lookup_insert_ne by discriminate.
Qed.

End APIHandlersSpec.
