(* ===== verification/APIFirewall.v ===== *)
(** The package that validates requests without a server: its options, the routers
    of the stored specifications, the validation of a request against one schema
    and, concurrently, against several (pkg/APIMode: apifw.go, handler.go,
    helpers.go, validator/validator.go).

    Counting by metrics is left out, except where the metrics are nil. *)
From S2P Require Import Prelude Cmd GoStrings RouterPattern RouterTree RouterMux Values URLValues Messages ParamDecoder BodyDecoder Validate Unknown APIErrors APIMode NetIP AccessLists Web Mid ProxyHandler Storage APIHandlers.

(** * Options *)

Record Configuration := MkConfiguration {
  PathToSpecDB : gostring;
  DBVersion : Z;
  UnknownParametersDetection : bool;
  PassOptionsRequests : bool;
  MaxErrorsInResponse : Z;
  MetricsEnabled : bool
}.

Definition WithDBVersion (dbVersion : Z) (c : Configuration) : Configuration :=
  let '(MkConfiguration p v u o m e) := c in MkConfiguration p dbVersion u o m e.
Definition WithPathToDB (path : gostring) (c : Configuration) : Configuration :=
  let '(MkConfiguration p v u o m e) := c in MkConfiguration path v u o m e.
Definition WithMaxErrorsInResponse (limit : Z) (c : Configuration) : Configuration :=
  let '(MkConfiguration p v u o m e) := c in MkConfiguration p v u o limit e.
Definition DisableUnknownParameters (c : Configuration) : Configuration :=
  let '(MkConfiguration p v u o m e) := c in MkConfiguration p v false o m e.
Definition EnablePassOptionsRequests (c : Configuration) : Configuration :=
  let '(MkConfiguration p v u o m e) := c in MkConfiguration p v u true m e.
Definition DisablePassOptionsRequests (c : Configuration) : Configuration :=
  let '(MkConfiguration p v u o m e) := c in MkConfiguration p v u false m e.
Definition EnablePrometheusMetrics (c : Configuration) : Configuration :=
  let '(MkConfiguration p v u o m e) := c in MkConfiguration p v u o m true.

(** [GetPrometheusCollectors]: the collectors by name. *)
Definition GetPrometheusCollectors (o : Configuration) : result gostring (list gostring) :=
  if negb (MetricsEnabled o) then Err (str "metrics disabled")
  else Ok [str "ErrorTypeCounter"; str "TotalErrors"; str "HttpRequestsTotal"; str "HttpRequestDuration"].

Section APIFirewall.
Context `{FmtPkg} `{TypesPkg} `{!SchemaPkg} `{!FilterPkg}.
Context (lib : parsers) (reg : registry) (json_Unmarshal : gostring → option value)
  (bodyEncoders : gmap gostring (value → result gostring gostring)).
Context (d : decompressor) (ConvertRequest : freq → result gostring request)
  (QueryArgs PostArgs : freq → list (gostring * gostring)).
Context `{RegexpPkg}.
Context (routePath : gostring → gostring → result gostring gostring).

(** Errors of the validation of a request. *)
Inductive fw_error :=
  | ErrSchemaNotFound (schemaID : Z)
  | ErrRequestParsing (e : api_error)
  | ErrNoStatus
  | ErrRequestRead (msg : gostring)
  | ErrPanic.

Notation fw_handler := (cmd reqctx (option api_error)).
Notation fw_mux := (@Mux _ fw_handler).

(** * One route *)

(** Every error of the validation is counted first: with nil metrics, the counting
    panics and that panic is the error. *)
Definition counted (nilMetrics : bool) (r : result api_error (list ValidationError))
  : result api_error (list ValidationError) :=
  match r with
  | Err e => Err (if nilMetrics then RecoveredPanic else e)
  | Ok l => Ok l
  end.

Definition APIModeHandler (nilMetrics unknownParametersDetection : bool) (rv : RequestValidator) : fw_handler :=
  cmd_recover
    (match rv_CustomRoute rv with
     | None => set_results (rv_SchemaID rv) (Some [not_found_error (rv_SchemaID rv)]) 403 ;;; cmd_ret None
     | Some cr =>
         r <-- cmd_get (λ x, counted nilMetrics
                 (validate_ctx lib reg json_Unmarshal bodyEncoders d ConvertRequest QueryArgs PostArgs
                    cr unknownParametersDetection x)) ;;
         match r with
         | Err e => cmd_ret (Some e)
         | Ok [] => set_results (rv_SchemaID rv) None 200 ;;; cmd_ret None
         | Ok errs => set_results (rv_SchemaID rv) (Some (map (with_schema rv) errs)) 403 ;;; cmd_ret None
         end
     end)
    (cmd_ret (Some RecoveredPanic)).

(** * The routers *)

(** The path the routes of a specification are below. *)
Definition fw_base (sp : api_spec) : result gostring gostring :=
  match as_Server sp with
  | BasePathError e => Err (str "getting server URL from OpenAPI specification: " ++ e)
  | URLError e => Err (str "parsing server URL from OpenAPI specification: " ++ e)
  | URLPath path => Ok (or_default path "/")
  end.

Fixpoint fw_add_routes (mt : method_table) (nilMetrics : bool) (o : Configuration) (schemaID : Z)
    (version base : gostring) (mx : fw_mux) (routes : list CustomRoute) : result gostring fw_mux :=
  match routes with
  | [] => Ok mx
  | cr :: routes' =>
      match routePath base (cr_Path cr) with
      | Err e => Err (str "join path error for route: " ++ e)
      | Ok path =>
          match AddEndpoint mt mx (cr_Method cr) path
                  (Some (APIModeHandler nilMetrics (UnknownParametersDetection o)
                           (MkRequestValidator (Some cr) version schemaID))) with
          | (_, Some _) => Err (str "the OAS endpoint registration failed")
          | (mx, None) => fw_add_routes mt nilMetrics o schemaID version base mx routes'
          end
      end
  end.

(** The router of one schema; a schema without specification is a nil pointer. *)
Definition fw_router (mt : method_table) (nilMetrics : bool) (o : Configuration) (s : @store api_spec)
    (schemaID : Z) : outcome (result gostring fw_mux) :=
  match Specification s schemaID with
  | None => Panic
  | Some sp =>
      Ret (base <-? fw_base sp ;;
           routes <-? NewRouterDBLoader sp ;;
           fw_add_routes mt nilMetrics o schemaID (SpecificationVersion s schemaID) base NewMux routes)
  end.

Fixpoint fw_routers_loop (mt : method_table) (nilMetrics : bool) (o : Configuration) (s : @store api_spec)
    (ids : list Z) (routers : gmap Z fw_mux) : outcome (result gostring (gmap Z fw_mux)) :=
  match ids with
  | [] => Ret (Ok routers)
  | schemaID :: ids' =>
      r <-! fw_router mt nilMetrics o s schemaID ;;
      match r with
      | Err e => Ret (Err e)
      | Ok mx => fw_routers_loop mt nilMetrics o s ids' (<[schemaID := mx]> routers)
      end
  end.

Definition getRouters (mt : method_table) (nilMetrics : bool) (o : Configuration) (s : @store api_spec)
  : outcome (result gostring (gmap Z fw_mux)) :=
  fw_routers_loop mt nilMetrics o s (SchemaIDs s) ∅.

(** * The firewall *)

Record APIFWModeAPI := MkFirewall {
  fw_routers : gmap Z fw_mux;
  fw_specsStorage : @store api_spec;
  fw_options : Configuration
}.

Context (LoadFromData : gostring → result gostring api_spec) (ValidateSpec : api_spec → option gostring).

(** [NewAPIFirewall]: [conf] is the configuration of the environment.  The routers
    are built before the metrics are set. *)
Definition NewAPIFirewall (mt : method_table) (conf : result gostring Configuration)
    (options : list (Configuration → Configuration)) (dk : disk)
  : outcome (disk * result gostring (APIFWModeAPI * list apifw_error)) :=
  match conf with
  | Err e => Ret (dk, Err (str "parsing config: " ++ e))
  | Ok cfg =>
      let o := fold_left (λ c opt, opt c) options cfg in
      let '(dk, s, errs) := NewOpenAPIDB LoadFromData ValidateSpec dk (PathToSpecDB o) (DBVersion o) in
      let err := if no_items errs then [] else [wrapOASpecErrs errs] in
      r <-! getRouters mt true o s ;;
      match r with
      | Ok routers => Ret (dk, Ok (MkFirewall routers s o, err))
      | Err e => Ret (dk, Ok (MkFirewall ∅ s o, err ++ [ErrHandlersInit e]))
      end
  end.

(** [UpdateSpecsStorage] on the whole firewall. *)
Definition fw_UpdateSpecsStorage (mt : method_table) (dk : disk) (a : APIFWModeAPI)
  : outcome (disk * APIFWModeAPI * (list Z * bool * option apifw_error)) :=
  let o := fw_options a in
  let cur := fw_specsStorage a in
  let '(dk, newSpecDB, errs) := NewOpenAPIDB LoadFromData ValidateSpec dk (PathToSpecDB o) (DBVersion o) in
  if negb (no_items errs) then Ret (dk, a, (SchemaIDs cur, false, Some (wrapOASpecErrs errs)))
  else if (Version newSpecDB <? Version cur)%Z then
    Ret (dk, a, (SchemaIDs cur, false, Some (ErrSpecLoading [])))
  else if ShouldUpdate cur newSpecDB then
    r <-! getRouters mt false o newSpecDB ;;
    match r with
    | Err e => Ret (dk, a, (SchemaIDs cur, false, Some (ErrHandlersInit e)))
    | Ok routers =>
        let '(dk, s, err) := AfterLoad dk (PathToSpecDB o) newSpecDB in
        Ret (dk, MkFirewall routers s o,
             (SchemaIDs s, true, match err with Some e => Some (wrapOASpecErrs [e]) | None => None end))
    end
  else Ret (dk, a, (SchemaIDs cur, false, None)).

(** An update, whatever the disk holds then. *)
Definition fw_step (mt : method_table) (a a' : APIFWModeAPI) : Prop :=
  ∃ dk dk' r, fw_UpdateSpecsStorage mt dk a = Ret (dk', a', r).

(** * One schema *)

Definition find (mt : method_table) (routers : gmap Z fw_mux) (rctx : Context) (schemaID : Z)
    (method path : gostring) : outcome (option (Context * option fw_handler)) :=
  match routers !! schemaID with
  | None => Ret None
  | Some schemaRouter => r <-! Find mt schemaRouter rctx method path ;; Ret (Some r)
  end.

Definition only (schemaID status : Z) (errs : list ValidationError) : ValidationResponse :=
  MkValidationResponse [MkSummary schemaID status] errs.

Definition ProcessRequest (perm : nat → list nat) (mt : method_table) (routers : gmap Z fw_mux)
    (passOptionsRequests : bool) (maxErrorsInResponse : Z) (schemaID : Z)
  : Cmd (ValidationResponse * option fw_error) :=
  cmd_recover
    (method <-- cmd_get (λ x, fq_Method (cx_Request x)) ;;
     path <-- cmd_get (λ x, fq_Path (cx_Request x)) ;;
     found <-- cmd_lift (find mt routers NewRouteContext schemaID method path) ;;
     match found with
     | None => cmd_ret (only schemaID 500 [], Some (ErrSchemaNotFound schemaID))
     | Some (_, None) =>
         if passOptionsRequests && (method =?s "OPTIONS") then cmd_ret (only schemaID 200 [], None)
         else cmd_ret (only schemaID 403 [not_found_error schemaID], None)
     | Some (rctx, Some handler) =>
         SetUserValue RouteCtxKey (URoute rctx) ;;;
         (err <-- handler ;;
          match err with
          | Some e => cmd_ret (only schemaID 500 [], Some (ErrRequestParsing e))
          | None =>
              status <-- UserValue (keyStatusCode schemaID) ;;
              match status with
              | Some (UInt statusCode) =>
                  validationErrors <-- UserValue (keyValidationErrors schemaID) ;;
                  let responseErrors := match validationErrors with Some (UErrors l) => l | _ => [] end in
                  limited <-- cmd_lift (SampleSlice perm responseErrors maxErrorsInResponse) ;;
                  cmd_ret (only schemaID statusCode limited, None)
              | _ => cmd_ret (only schemaID 500 [], Some ErrNoStatus)
              end
          end)
     end)
    (cmd_ret (only schemaID 500 [], Some ErrPanic)).

(** The goroutine of a schema up to its critical section, on a context of its own. *)
Definition new_ctx (rq : freq) : reqctx := MkCtx rq (MkFresp 200 ∅ []) ∅ [] None [] [] 0.

Definition process (perm : nat → list nat) (mt : method_table) (a : APIFWModeAPI) (rq : freq) (schemaID : Z)
  : ValidationResponse * option fw_error :=
  match (ProcessRequest perm mt (fw_routers a) (PassOptionsRequests (fw_options a))
           (MaxErrorsInResponse (fw_options a)) schemaID (new_ctx rq)).2 with
  | Ret r => r
  | Panic => (only schemaID 500 [], Some ErrPanic)
  end.

(** * Several schemas *)

(** The variables the goroutines share: [resp] and [respErr], a chain of errors. *)
Record answers := MkAnswers { an_resp : ValidationResponse; an_err : list fw_error }.
Definition no_answers : answers := MkAnswers (MkValidationResponse [] []) [].

Definition set_summary (l : list ValidationResponseSummary) (an : answers) : answers :=
  MkAnswers (MkValidationResponse l (vr_Errors (an_resp an))) (an_err an).
Definition set_errors (l : list ValidationError) (an : answers) : answers :=
  MkAnswers (MkValidationResponse (vr_Summary (an_resp an)) l) (an_err an).
Definition set_err (l : list fw_error) (an : answers) : answers := MkAnswers (an_resp an) l.

(** Where the function is in its loop over the schemas: before the request is read,
    before [wg.Add], before [go], and where the read failed, before each access to
    the shared variables, which is without the mutex. *)
Inductive main_pc :=
  | Iterate (ids : list Z)
  | Adding (rq : freq) (schemaID : Z) (ids : list Z)
  | Starting (rq : freq) (schemaID : Z) (ids : list Z)
  | LoadSummary (schemaID : Z) (msg : gostring) (ids : list Z)
  | StoreSummary (schemaID : Z) (msg : gostring) (loaded : list ValidationResponseSummary) (ids : list Z)
  | LoadErr (msg : gostring) (ids : list Z)
  | StoreErr (msg : gostring) (loaded : list fw_error) (ids : list Z)
  | Returned.

(** Where the goroutine of a schema is: before it reads [a.routers], before [find] takes
    the lock of the firewall, in [find], before it locks the mutex, in the critical
    section before each access to the shared variables, before the mutex is unlocked,
    before [wg.Done], at its end. *)
Notation reply := (ValidationResponse * option fw_error)%type.
Inductive go_pc :=
  | GStart (rq : freq) (schemaID : Z)
  | GFind (rq : freq) (schemaID : Z) (a : APIFWModeAPI)
  | GFinding (rq : freq) (schemaID : Z) (a : APIFWModeAPI)
  | GLock (schemaID : Z) (x : reply)
  | GLoadSummary (schemaID : Z) (x : reply)
  | GStoreSummary (schemaID : Z) (x : reply) (loaded : list ValidationResponseSummary)
  | GErrors (schemaID : Z) (x : reply)
  | GLoadErr (schemaID : Z) (x : reply)
  | GStoreErr (schemaID : Z) (x : reply) (loaded : list fw_error)
  | GUnlock
  | GDone
  | GEnded.

Section Concurrent.
(** The source of the requests: [Request.Read] on a reader, or for [ValidateRequest]
    the requests it builds.  A read that never returns is [None]. *)
Context {R : Type} (Read : R → option (R * result gostring freq)).
Context (perm : nat → list nat) (mt : method_table).

(** [vs_wg] is the counter of the wait group, [vs_mutex] tells whether the mutex is
    locked, [vs_readers] and [vs_writer] who holds the lock of the firewall. *)
Record vstate := MkVState {
  vs_main : main_pc;
  vs_reader : R;
  vs_gos : list go_pc;
  vs_wg : nat;
  vs_mutex : bool;
  vs_readers : nat;
  vs_writer : bool;
  vs_fw : APIFWModeAPI;
  vs_answers : answers
}.

Definition set_main (pc : main_pc) (s : vstate) : vstate :=
  let '(MkVState _ r g w m n wr a an) := s in MkVState pc r g w m n wr a an.
Definition set_reader (r : R) (s : vstate) : vstate :=
  let '(MkVState pc _ g w m n wr a an) := s in MkVState pc r g w m n wr a an.
Definition upd_gos (f : list go_pc → list go_pc) (s : vstate) : vstate :=
  let '(MkVState pc r g w m n wr a an) := s in MkVState pc r (f g) w m n wr a an.
Definition set_wg (w : nat) (s : vstate) : vstate :=
  let '(MkVState pc r g _ m n wr a an) := s in MkVState pc r g w m n wr a an.
Definition set_mutex (m : bool) (s : vstate) : vstate :=
  let '(MkVState pc r g w _ n wr a an) := s in MkVState pc r g w m n wr a an.
Definition set_readers (n : nat) (s : vstate) : vstate :=
  let '(MkVState pc r g w m _ wr a an) := s in MkVState pc r g w m n wr a an.
Definition set_writer (wr : bool) (s : vstate) : vstate :=
  let '(MkVState pc r g w m n _ a an) := s in MkVState pc r g w m n wr a an.
Definition set_fw (a : APIFWModeAPI) (s : vstate) : vstate :=
  let '(MkVState pc r g w m n wr _ an) := s in MkVState pc r g w m n wr a an.
Definition upd_answers (f : answers → answers) (s : vstate) : vstate :=
  let '(MkVState pc r g w m n wr a an) := s in MkVState pc r g w m n wr a (f an).
Definition set_go (k : nat) (g : go_pc) : vstate → vstate := upd_gos (<[k := g]>).

(** The steps of a call: those of its loop, and those of its goroutines.  An [append] to
    the summary and an extension of the error load a variable and then store it; slices
    are kept as the lists they show. *)
Inductive call_step : vstate → vstate → Prop :=
  | main_read s id ids r rq :
      vs_main s = Iterate (id :: ids) → Read (vs_reader s) = Some (r, Ok rq) →
      call_step s (set_main (Adding rq id ids) (set_reader r s))
  | main_add s rq id ids :
      vs_main s = Adding rq id ids → call_step s (set_main (Starting rq id ids) (set_wg (S (vs_wg s)) s))
  | main_go s rq id ids :
      vs_main s = Starting rq id ids →
      call_step s (set_main (Iterate ids) (upd_gos (λ l, l ++ [GStart rq id]) s))
  | main_read_error s id ids r msg :
      vs_main s = Iterate (id :: ids) → Read (vs_reader s) = Some (r, Err msg) →
      call_step s (set_main (LoadSummary id msg ids) (set_reader r s))
  | main_load_summary s id msg ids :
      vs_main s = LoadSummary id msg ids →
      call_step s (set_main (StoreSummary id msg (vr_Summary (an_resp (vs_answers s))) ids) s)
  | main_store_summary s id msg loaded ids :
      vs_main s = StoreSummary id msg loaded ids →
      call_step s (set_main (LoadErr msg ids) (upd_answers (set_summary (loaded ++ [MkSummary id 500])) s))
  | main_load_err s msg ids :
      vs_main s = LoadErr msg ids → call_step s (set_main (StoreErr msg (an_err (vs_answers s)) ids) s)
  | main_store_err s msg loaded ids :
      vs_main s = StoreErr msg loaded ids →
      call_step s (set_main (Iterate ids) (upd_answers (set_err (loaded ++ [ErrRequestRead msg])) s))
  | main_wait s : vs_main s = Iterate [] → vs_wg s = 0 → call_step s (set_main Returned s)
  | go_begin s k rq id :
      vs_gos s !! k = Some (GStart rq id) → call_step s (set_go k (GFind rq id (vs_fw s)) s)
  | go_rlock s k rq id a :
      vs_gos s !! k = Some (GFind rq id a) → vs_writer s = false →
      call_step s (set_go k (GFinding rq id a) (set_readers (S (vs_readers s)) s))
  | go_process s k rq id a :
      vs_gos s !! k = Some (GFinding rq id a) →
      call_step s (set_go k (GLock id (process perm mt a rq id)) (set_readers (pred (vs_readers s)) s))
  | go_lock s k id x :
      vs_gos s !! k = Some (GLock id x) → vs_mutex s = false →
      call_step s (set_go k (GLoadSummary id x) (set_mutex true s))
  | go_load_summary s k id x :
      vs_gos s !! k = Some (GLoadSummary id x) →
      call_step s (set_go k (GStoreSummary id x (vr_Summary (an_resp (vs_answers s)))) s)
  | go_store_summary s k id x loaded :
      vs_gos s !! k = Some (GStoreSummary id x loaded) →
      call_step s (set_go k (GErrors id x) (upd_answers (set_summary (loaded ++ vr_Summary x.1)) s))
  | go_errors s k id x :
      vs_gos s !! k = Some (GErrors id x) →
      call_step s (set_go k (GLoadErr id x)
        (upd_answers (set_errors (vr_Errors (an_resp (vs_answers s)) ++ vr_Errors x.1)) s))
  | go_load_err s k id x :
      vs_gos s !! k = Some (GLoadErr id x) → call_step s (set_go k (GStoreErr id x (an_err (vs_answers s))) s)
  | go_store_err s k id x loaded :
      vs_gos s !! k = Some (GStoreErr id x loaded) →
      call_step s (set_go k GUnlock
        (match x.2 with Some e => upd_answers (set_err (loaded ++ [e])) s | None => s end))
  | go_unlock s k : vs_gos s !! k = Some GUnlock → call_step s (set_go k GDone (set_mutex false s))
  | go_done s k : vs_gos s !! k = Some GDone → call_step s (set_go k GEnded (set_wg (pred (vs_wg s)) s)).

(** Meanwhile others may update the specifications, under the lock of the firewall. *)
Inductive env_step : vstate → vstate → Prop :=
  | env_lock s : vs_readers s = 0 → vs_writer s = false → env_step s (set_writer true s)
  | env_update s a : vs_writer s = true → fw_step mt (vs_fw s) a → env_step s (set_fw a s)
  | env_unlock s : vs_writer s = true → env_step s (set_writer false s).

Definition vstep (s s' : vstate) : Prop := call_step s s' ∨ env_step s s'.

(** A run of the function on a firewall. *)
Definition start (ids : list Z) (r : R) (a : APIFWModeAPI) : vstate :=
  MkVState (Iterate ids) r [] 0 false 0 false a no_answers.
Definition returns (ids : list Z) (r : R) (a : APIFWModeAPI) (an : answers) : Prop :=
  ∃ s, rtc vstep (start ids r a) s ∧ vs_main s = Returned ∧ vs_answers s = an.
End Concurrent.

(** The request of a schema: fasthttp builds it ([new_request]) and adds the headers
    in the order in which the map is visited. *)
Definition add_headers (Add : gostring → gostring → freq → freq) (headers : list (gostring * list gostring))
    (rq : freq) : freq :=
  fold_left (λ rq '(hName, hValues), fold_left (λ rq hValue, Add hName hValue rq) hValues rq) headers rq.

(** [ValidateRequest]: [orders] are the orders of the successive visits. *)
Definition ValidateRequest (new_request : gostring → gostring → gostring → freq)
    (Add : gostring → gostring → freq → freq) (perm : nat → list nat) (mt : method_table) (a : APIFWModeAPI)
    (schemaIDs : list Z) (uri method body : gostring) (headers : gmap gostring (list gostring)) (an : answers)
  : Prop :=
  ∃ orders : nat → list (gostring * list gostring), (∀ n, orders n ≡ₚ map_to_list headers)
    ∧ returns (λ n, Some (S n, Ok (add_headers Add (orders n) (new_request uri method body))))
        perm mt schemaIDs 0 a an.

(** [ValidateRequestFromReader]. *)
Definition ValidateRequestFromReader {R} (Read : R → option (R * result gostring freq)) (perm : nat → list nat)
    (mt : method_table) (a : APIFWModeAPI) (schemaIDs : list Z) (r : R) : answers → Prop :=
  returns Read perm mt schemaIDs r a.
End APIFirewall.
