(* ===== verification/PackageRuns.v ===== *)
(** The runs of the concurrent validation of the package: its locks and its wait group
    are used as they should, it returns under every schedule, the goroutines of a call
    that reads its requests without errors exclude each other, and a reader with one
    request serves one schema. *)
From S2P Require Import Prelude Cmd GoStrings RouterPattern RouterTree RouterMux Values URLValues Messages ParamDecoder BodyDecoder Validate Unknown APIErrors APIMode NetIP AccessLists Web Mid ProxyHandler Storage APIHandlers APIFirewall.

(** * The goroutines *)

Section Goroutines.
Context `{FloatPkg} `{RegexpPkg}.

(** A goroutine that has not called [wg.Done], one that holds the mutex, and one that
    holds the lock of the firewall for reading. *)
Definition live (g : go_pc) : bool := match g with GEnded => false | _ => true end.
Definition holds (g : go_pc) : bool :=
  match g with
  | GLoadSummary _ _ | GStoreSummary _ _ _ | GErrors _ _ | GLoadErr _ _ | GStoreErr _ _ _ | GUnlock => true
  | _ => false
  end.
Definition finding (g : go_pc) : bool := match g with GFinding _ _ _ => true | _ => false end.

(** The steps that are left. *)
Definition go_weight (g : go_pc) : nat :=
  match g with
  | GStart _ _ => 11 | GFind _ _ _ => 10 | GFinding _ _ _ => 9 | GLock _ _ => 8 | GLoadSummary _ _ => 7
  | GStoreSummary _ _ _ => 6 | GErrors _ _ => 5 | GLoadErr _ _ => 4 | GStoreErr _ _ _ => 3 | GUnlock => 2
  | GDone => 1 | GEnded => 0
  end.
Definition main_weight (pc : main_pc) : nat :=
  match pc with
  | Iterate ids => 14 * length ids + 1
  | Adding _ _ ids => 14 * length ids + 14
  | Starting _ _ ids => 14 * length ids + 13
  | LoadSummary _ _ ids => 14 * length ids + 5
  | StoreSummary _ _ _ ids => 14 * length ids + 4
  | LoadErr _ ids => 14 * length ids + 3
  | StoreErr _ _ ids => 14 * length ids + 2
  | Returned => 0
  end.

Lemma sum_insert l k g g' :
  l !! k = Some g → sum_list_with go_weight (<[k := g']> l) + go_weight g = sum_list_with go_weight l + go_weight g'.
Proof.
  revert k. induction l as [|c l IH]; intros [|k] Hk; simplify_eq/=; [lia|]. specialize (IH k Hk). lia.
Qed.
End Goroutines.

Section PackageRuns.
Context `{FmtPkg} `{TypesPkg} `{!SchemaPkg} `{!FilterPkg}.
Context (lib : parsers) (reg : registry) (json_Unmarshal : gostring → option value)
  (bodyEncoders : gmap gostring (value → result gostring gostring)).
Context (d : decompressor) (ConvertRequest : freq → result gostring request)
  (QueryArgs PostArgs : freq → list (gostring * gostring)).
Context `{RegexpPkg}.
Context (routePath : gostring → gostring → result gostring gostring).
Context (LoadFromData : gostring → result gostring api_spec) (ValidateSpec : api_spec → option gostring).
Context (perm : nat → list nat) (mt : method_table).
Context {R : Type} (Read : R → option (R * result gostring freq)).

Notation call_step := (call_step Read perm mt).
Notation env_step := (env_step lib reg json_Unmarshal bodyEncoders d ConvertRequest QueryArgs PostArgs routePath
  LoadFromData ValidateSpec mt).
Notation vstep := (vstep lib reg json_Unmarshal bodyEncoders d ConvertRequest QueryArgs PostArgs routePath
  LoadFromData ValidateSpec Read perm mt).
Notation fw_step := (fw_step lib reg json_Unmarshal bodyEncoders d ConvertRequest QueryArgs PostArgs routePath
  LoadFromData ValidateSpec mt).
Notation returns := (returns lib reg json_Unmarshal bodyEncoders d ConvertRequest QueryArgs PostArgs routePath
  LoadFromData ValidateSpec Read perm mt).
Notation vstate := (vstate (R := R)).
Notation reply := (ValidationResponse * option fw_error)%type.

(** * Locks and the wait group *)

(** The counter of the wait group is the number of goroutines to wait for, the mutex
    is locked by the one goroutine that holds it, and the lock of the firewall is held
    by readers or by a writer. *)
Record sync_inv (s : vstate) : Prop := MkSync {
  si_wg : vs_wg s = count live (vs_gos s) + (match vs_main s with Starting _ _ _ => 1 | _ => 0 end);
  si_mutex : count holds (vs_gos s) = if vs_mutex s then 1 else 0;
  si_readers : vs_readers s = count finding (vs_gos s);
  si_writer : vs_writer s = true → vs_readers s = 0;
  si_returned : vs_main s = Returned → vs_wg s = 0
}.

Ltac count_step Hk g' :=
  pose proof (count_insert live _ _ _ g' Hk); pose proof (count_insert holds _ _ _ g' Hk);
  pose proof (count_insert finding _ _ _ g' Hk).

Lemma call_step_sync s s' : call_step s s' → sync_inv s → sync_inv s'.
Proof.
  intros Hs [Hw Hm Hr Hwr Hret].
  destruct Hs as [s id ids r rq Hp _|s rq id ids Hp|s rq id ids Hp|s id ids r msg Hp _|s id msg ids Hp
    |s id msg loaded ids Hp|s msg ids Hp|s msg loaded ids Hp|s Hp Hz|s k rq id Hk|s k rq id a Hk Hnw|s k rq id a Hk
    |s k id x Hk Hmu|s k id x Hk|s k id x loaded Hk|s k id x Hk|s k id x Hk|s k id x loaded Hk|s k Hk|s k Hk].
  all: try match type of Hk with _ = Some ?g => match goal with |- sync_inv (set_go _ ?g' _) => count_step Hk g' end end.
  all: try match goal with |- context [match ?o with Some _ => upd_answers _ _ | None => _ end] => destruct o end.
  all: destruct s as [pc rd gs wg mu rs wr fw0 an0]; simpl in *; subst; split; simpl in *;
    rewrite ?count_app; simpl; try done; try congruence; try (intros ?; simplify_eq; lia); try lia.
  all: try (destruct pc; simpl in *; lia).
  all: try (intros Hpc; specialize (Hret Hpc); lia).
  all: try (destruct mu; lia).
Qed.

Lemma env_step_sync s s' : env_step s s' → sync_inv s → sync_inv s'.
Proof.
  intros Hs [Hw Hm Hr Hwr Hret].
  destruct Hs as [s Hz _|s a' Hwt _|s Hwt]; destruct s; split; simpl in *; done.
Qed.

Lemma vstep_sync s s' : vstep s s' → sync_inv s → sync_inv s'.
Proof. intros [Hs|Hs]; [by apply call_step_sync|by apply env_step_sync]. Qed.

Lemma sync_reachable ids r a s : rtc vstep (start ids r a) s → sync_inv s.
Proof.
  intros Hr. refine (rtc_ind_r sync_inv _ _ _ _ Hr); [by split|]. intros s1 s2 _ Hs. by apply vstep_sync.
Qed.

(** * Returning *)

Definition weight (s : vstate) : nat := main_weight (vs_main s) + sum_list_with go_weight (vs_gos s).

Lemma call_step_weight s s' : call_step s s' → weight s' < weight s.
Proof.
  intros Hs. unfold weight.
  destruct Hs as [s id ids r rq Hp _|s rq id ids Hp|s rq id ids Hp|s id ids r msg Hp _|s id msg ids Hp
    |s id msg loaded ids Hp|s msg ids Hp|s msg loaded ids Hp|s Hp Hz|s k rq id Hk|s k rq id a Hk Hnw|s k rq id a Hk
    |s k id x Hk Hmu|s k id x Hk|s k id x loaded Hk|s k id x Hk|s k id x Hk|s k id x loaded Hk|s k Hk|s k Hk].
  all: try match type of Hk with _ = Some ?g => match goal with |- context [set_go _ ?g' _] =>
    pose proof (sum_insert _ _ _ g' Hk) end end.
  all: try match goal with |- context [match ?o with Some _ => upd_answers _ _ | None => _ end] => destruct o end.
  all: destruct s as [pc rd gs wg mu rs wr fw0 an0]; simpl in *; subst; simpl; rewrite ?sum_list_with_app; simpl; lia.
Qed.

Lemma env_steps_keep (s s' : vstate) : rtc env_step s s' → vs_main s' = vs_main s ∧ vs_gos s' = vs_gos s.
Proof.
  induction 1 as [|s1 s2 s3 Hs _ [IH1 IH2]]; [done|]. rewrite IH1, IH2. by destruct Hs as [[] ? ?|[] ? ? ?|[] ?].
Qed.

(** Others release the lock of the firewall. *)
Lemma lock_released (s : vstate) :
  ∃ s1, rtc env_step s s1 ∧ vs_writer s1 = false ∧ vs_gos s1 = vs_gos s.
Proof.
  destruct (vs_writer s) eqn:Hw; [|by exists s].
  exists (set_writer false s). split; [by apply rtc_once, env_unlock|]. by destruct s.
Qed.

(** A goroutine that has not ended goes on, or another one that holds the mutex. *)
Lemma goroutine_steps s k g :
  sync_inv s → vs_gos s !! k = Some g → live g = true → ∃ s1 s', rtc env_step s s1 ∧ call_step s1 s'.
Proof.
  intros Hi. assert (∀ k g, vs_gos s !! k = Some g → live g = true → (∀ id x, g ≠ GLock id x) →
    ∃ s1 s', rtc env_step s s1 ∧ call_step s1 s') as Hother.
  { intros j g' Hj Hl Hn. destruct (lock_released s) as (s1 & Hs1 & Hw & Hg). exists s1.
    rewrite <- Hg in Hj. destruct g'; try done; try (eexists; split; [done|]; by econstructor).
    by edestruct Hn. }
  intros Hk Hl. destruct g as [| | |id x| | | | | | | |]; try (by eapply Hother).
  destruct (vs_mutex s) eqn:Hm; [|exists s; eexists; split; [done|]; by eapply go_lock].
  assert (0 < count holds (vs_gos s)) as Hc by (rewrite (si_mutex _ Hi), Hm; lia).
  apply count_pos in Hc as (j & g & Hj & Hg). eapply (Hother j g); [done|by destruct g|by intros ? ? ->].
Qed.

Lemma call_progress s :
  (∀ r, is_Some (Read r)) → sync_inv s → vs_main s ≠ Returned → ∃ s1 s', rtc env_step s s1 ∧ call_step s1 s'.
Proof.
  intros Hread Hi Hn. destruct (decide (count live (vs_gos s) = 0)) as [Hz|Hnz].
  2:{ assert (0 < count live (vs_gos s)) as (k & g & Hk & Hg)%count_pos by lia. by eapply goroutine_steps. }
  exists s. pose proof (si_wg _ Hi) as Hw. destruct (vs_main s) as [[|id ids]| | | | | | |] eqn:Hp; [..|done];
    try (eexists; split; [done|]; by econstructor).
  - eexists. split; [done|]. apply main_wait; [done|]. lia.
  - destruct (Hread (vs_reader s)) as [[r [rq|msg]] Hr]; eexists; (split; [done|]);
      [by eapply main_read|by eapply main_read_error].
Qed.

Lemma returns_from s : (∀ r, is_Some (Read r)) → sync_inv s → ∃ s', rtc vstep s s' ∧ vs_main s' = Returned.
Proof.
  intros Hread. induction (Nat.lt_wf_0_projected weight s) as [s _ IH]. intros Hi.
  assert (vs_main s = Returned ∨ vs_main s ≠ Returned) as [|Hn] by (destruct (vs_main s); first [by left|by right]); [by exists s|].
  destruct (call_progress s Hread Hi Hn) as (s1 & s2 & Henv & Hcall).
  assert (weight s2 < weight s) as Hlt.
  { destruct (env_steps_keep _ _ Henv) as [E1 E2]. apply call_step_weight in Hcall. unfold weight in *. congruence. }
  assert (rtc vstep s s2) as Hrun.
  { eapply rtc_r; [|by left]. refine (rtc_congruence id _ _ _ _ Henv). intros ? ? ?. by right. }
  destruct (IH s2 Hlt) as (s3 & ? & ?); [|exists s3; split; [by etrans|done]].
  clear -Hrun Hi. induction Hrun as [|? ? ? Hs _ IH]; [done|]. apply IH. by eapply vstep_sync.
Qed.

(** A step of the call, after any steps of others. *)
Definition round (s s' : vstate) : Prop := ∃ s1, rtc env_step s s1 ∧ call_step s1 s'.

Lemma rounds_weight n s s' : nsteps round n s s' → n + weight s' ≤ weight s.
Proof.
  induction 1 as [|n s1 s2 s3 (s0 & Henv & Hcall) _ IH]; [lia|].
  destruct (env_steps_keep _ _ Henv) as [E1 E2]. apply call_step_weight in Hcall.
  unfold weight in *. rewrite E1, E2 in Hcall. lia.
Qed.

Lemma blocked_read id ids r a s :
  Read r = None → rtc vstep (start (id :: ids) r a) s → vs_main s = Iterate (id :: ids).
Proof.
  intros Hn Hr.
  assert (vs_main s = Iterate (id :: ids) ∧ vs_reader s = r ∧ vs_gos s = []) as [? _]; [|done].
  refine (rtc_ind_r (λ s, vs_main s = Iterate (id :: ids) ∧ vs_reader s = r ∧ vs_gos s = []) _ _ _ _ Hr); [done|].
  clear Hr s. intros s s' _ [Hs|Hs] (Hm & Hrd & Hg).
  - destruct Hs; simplify_eq; try (rewrite Hg in *; done); congruence.
  - destruct Hs as [[] ? ?|[] ? ? ?|[] ?]; done.
Qed.

(** C16: the validation against several schemas returns.  Its goroutines, its loop and the
    updates of the specifications compete for the mutex and for the lock of the
    firewall, and the loop waits for the goroutines: if the reads return, then from
    every state that can be reached the call can go on until it has returned, so
    there is no deadlock, and a call for [n] schemas takes at most [14 n + 1] steps,
    whatever the schedule and whatever others do in between.  A read that never
    returns is the only thing that keeps the call from returning. *)
Theorem validation_returns ids r a :
  ((∀ r, is_Some (Read r)) →
   ∀ s, rtc vstep (start ids r a) s → ∃ s', rtc vstep s s' ∧ vs_main s' = Returned)
  ∧ (∀ n s, nsteps round n (start ids r a) s → n ≤ 14 * length ids + 1)
  ∧ (∀ id rest s, ids = id :: rest → Read r = None → rtc vstep (start ids r a) s → vs_main s ≠ Returned).
Proof.
  split; [|split].
  - intros Hread s Hs. apply returns_from; [done|]. by eapply sync_reachable.
  - intros n s Hn%rounds_weight. unfold weight in Hn. simpl in Hn. lia.
  - intros id rest s -> Hn Hs. by rewrite (blocked_read _ _ _ _ _ Hn Hs).
Qed.

(** * One request for all the schemas *)

(** What a goroutine adds to the shared variables. *)
Definition merge (an : answers) (x : reply) : answers :=
  MkAnswers
    (MkValidationResponse (vr_Summary (an_resp an) ++ vr_Summary x.1) (vr_Errors (an_resp an) ++ vr_Errors x.1))
    (match x.2 with Some e => an_err an ++ [e] | None => an_err an end).

(** The schema of a goroutine that has not stored its reply, and of the loop. *)
Definition go_id (g : go_pc) : option Z :=
  match g with
  | GStart _ id | GFind _ id _ | GFinding _ id _ | GLock id _ | GLoadSummary id _ | GStoreSummary id _ _
  | GErrors id _ | GLoadErr id _ | GStoreErr id _ _ => Some id
  | GUnlock | GDone | GEnded => None
  end.
Definition main_ids (pc : main_pc) : list Z :=
  match pc with
  | Iterate ids => ids
  | Adding _ id ids | Starting _ id ids => id :: ids
  | LoadSummary id _ ids | StoreSummary id _ _ ids => id :: ids
  | LoadErr _ ids | StoreErr _ _ ids => ids
  | Returned => []
  end.

Lemma omap_insert (l : list go_pc) k g g' :
  l !! k = Some g →
  option_list (go_id g') ++ omap go_id l ≡ₚ option_list (go_id g) ++ omap go_id (<[k := g']> l).
Proof.
  revert k. induction l as [|c l IH]; intros [|k] Hk; simplify_eq/=.
  - destruct (go_id g), (go_id g'); simpl; try done. apply Permutation_swap.
  - specialize (IH k Hk). destruct (go_id c) as [j|]; [|done].
    by rewrite <- !Permutation_middle, IH.
Qed.

Lemma sole_holder s k g j g' :
  sync_inv s → vs_gos s !! k = Some g → holds g = true → vs_gos s !! j = Some g' → holds g' = true → j = k.
Proof.
  intros Hi Hk Hg Hj Hg'. destruct (decide (j = k)) as [|Hne]; [done|]. exfalso.
  pose proof (count_insert holds _ _ _ GEnded Hk) as Hc. rewrite Hg in Hc. simpl in Hc.
  pose proof (si_mutex _ Hi) as Hm.
  assert (count holds (<[k := GEnded]> (vs_gos s)) = 0) as Hz by (destruct (vs_mutex s); lia).
  rewrite <- (list_lookup_insert_ne _ _ _ GEnded (not_eq_sym Hne)) in Hj.
  apply (count_zero _ _ _ _ Hz) in Hj. congruence.
Qed.

Section OneRequest.
Context (rq : freq) (a0 : APIFWModeAPI).

(** The reply of a goroutine that found the firewall as it was at some time since the
    call. *)
Definition replied (id : Z) (x : reply) : Prop := ∃ a, rtc fw_step a0 a ∧ x = process perm mt a rq id.

Definition go_ok (g : go_pc) : Prop :=
  match g with
  | GStart rq' _ => rq' = rq
  | GFind rq' _ a | GFinding rq' _ a => rq' = rq ∧ rtc fw_step a0 a
  | GLock id x | GLoadSummary id x | GStoreSummary id x _ | GErrors id x | GLoadErr id x | GStoreErr id x _ =>
      replied id x
  | GUnlock | GDone | GEnded => True
  end.

(** The shared variables while a goroutine is in its critical section, which began
    with [base]. *)
Definition partial (base : answers) (g : go_pc) (an : answers) : Prop :=
  match g with
  | GLoadSummary _ _ | GUnlock => an = base
  | GStoreSummary _ x loaded => an = base ∧ loaded = vr_Summary (an_resp base)
  | GErrors _ x => an = set_summary (vr_Summary (an_resp base) ++ vr_Summary x.1) base
  | GLoadErr _ x => an = set_err (an_err base) (merge base x)
  | GStoreErr _ x loaded => an = set_err (an_err base) (merge base x) ∧ loaded = an_err base
  | _ => True
  end.

Notation merged_answers merged := (fold_left merge (snd <$> merged) no_answers).

(** [merged]: the replies that were stored, in order. *)
Record run_inv (ids : list Z) (merged : list (Z * reply)) (s : vstate) : Prop := MkRunInv {
  ri_ids : ids ≡ₚ merged.*1 ++ omap go_id (vs_gos s) ++ main_ids (vs_main s);
  ri_merged : Forall (λ p, replied p.1 p.2) merged;
  ri_gos : ∀ k g, vs_gos s !! k = Some g → go_ok g;
  ri_main : match vs_main s with
            | Iterate _ | Returned => True
            | Adding rq' _ _ | Starting rq' _ _ => rq' = rq
            | _ => False
            end;
  ri_fw : rtc fw_step a0 (vs_fw s);
  ri_held : ∀ k g, vs_gos s !! k = Some g → holds g = true → partial (merged_answers merged) g (vs_answers s);
  ri_free : vs_mutex s = false → vs_answers s = merged_answers merged
}.

(** A goroutine goes on before it has stored its reply, or after. *)
Lemma run_inv_move ids merged s s' k g g' :
  sync_inv s → run_inv ids merged s → vs_gos s !! k = Some g →
  vs_gos s' = <[k := g']> (vs_gos s) → vs_main s' = vs_main s → vs_fw s' = vs_fw s →
  go_id g' = go_id g → go_ok g' →
  (holds g' = true → (holds g = true ∨ vs_mutex s = false) ∧ partial (merged_answers merged) g' (vs_answers s')) →
  (holds g = false → vs_answers s' = vs_answers s) →
  (vs_mutex s' = false → vs_answers s' = merged_answers merged) →
  run_inv ids merged s'.
Proof.
  intros Hi [Hids Hm Hgos Hmain Hfw Hheld Hfree] Hk Hg' Hmain' Hfw' Hid Hok Hnew Han Hfree'.
  split; rewrite ?Hmain', ?Hfw', ?Hg'; try done.
  - pose proof (omap_insert _ _ _ g' Hk) as Hp. rewrite Hid in Hp. rewrite Hids. apply Permutation_app_head, Permutation_app_tail.
    destruct (go_id g); [by apply Permutation_cons_inv in Hp|done].
  - intros j g0 [(<- & <- & _)|[_ Hj]]%list_lookup_insert_Some; [done|by eapply Hgos].
  - intros j g0 [(<- & <- & _)|[Hne Hj]]%list_lookup_insert_Some Hh; [by apply Hnew|].
    destruct (holds g) eqn:Hhg.
    + by rewrite (sole_holder s k g j g0) in Hne.
    + rewrite Han by done. by eapply Hheld.
Qed.

Lemma no_holder s k g : sync_inv s → vs_mutex s = false → vs_gos s !! k = Some g → holds g = false.
Proof. intros Hi Hm. apply count_zero. by rewrite (si_mutex _ Hi), Hm. Qed.

Lemma holder_locked s k g : sync_inv s → vs_gos s !! k = Some g → holds g = true → vs_mutex s = true.
Proof.
  intros Hi Hk Hg. destruct (vs_mutex s) eqn:Hm; [done|]. pose proof (no_holder s k g Hi Hm Hk). congruence.
Qed.

(** A reply is stored. *)
Lemma run_inv_stored ids merged s k id x loaded :
  sync_inv s → run_inv ids merged s → vs_gos s !! k = Some (GStoreErr id x loaded) →
  run_inv ids (merged ++ [(id, x)]) (set_go k GUnlock
    (match x.2 with Some e => upd_answers (set_err (loaded ++ [e])) s | None => s end)).
Proof.
  intros Hi [Hids Hm Hgos Hmain Hfw Hheld Hfree] Hk.
  pose proof (holder_locked _ _ _ Hi Hk eq_refl) as Hmu. pose proof (Hheld _ _ Hk eq_refl) as [Han Hl].
  set (s' := set_go _ _ _).
  assert (vs_gos s' = <[k := GUnlock]> (vs_gos s) ∧ vs_main s' = vs_main s ∧ vs_fw s' = vs_fw s ∧ vs_mutex s' = true
    ∧ vs_answers s' = merged_answers (merged ++ [(id, x)])) as (E1 & E2 & E3 & E4 & E5).
  { rewrite fmap_app, fold_left_app. simpl. unfold s'. destruct s; simpl in *. subst.
    unfold merge. destruct x as [rp [e|]]; simpl; by destruct (merged_answers merged) as [[] ?]. }
  split; rewrite ?E1, ?E2, ?E3, ?E4, ?E5; try done.
  - pose proof (omap_insert _ _ _ GUnlock Hk) as Hp. simpl in Hp. rewrite Hids, Hp, fmap_app. simpl.
    by rewrite <- app_assoc.
  - apply Forall_app. split; [done|]. apply Forall_singleton. exact (Hgos _ _ Hk).
  - intros j g [(<- & <- & _)|[_ Hj]]%list_lookup_insert_Some; [done|by eapply Hgos].
  - intros j g [(<- & <- & _)|[Hne Hj]]%list_lookup_insert_Some Hh; [done|].
    by rewrite (sole_holder s k _ j g Hi Hk eq_refl) in Hne.
Qed.

Context (Hone : ∀ r, ∃ r', Read r = Some (r', Ok rq)).

(** The steps of the loop. *)
Lemma run_inv_loop ids merged s s' :
  run_inv ids merged s → vs_mutex s' = vs_mutex s → vs_fw s' = vs_fw s → vs_answers s' = vs_answers s →
  (vs_gos s' = vs_gos s ∧ main_ids (vs_main s') = main_ids (vs_main s)
   ∨ ∃ id, vs_gos s' = vs_gos s ++ [GStart rq id] ∧ main_ids (vs_main s) = id :: main_ids (vs_main s')) →
  match vs_main s' with
  | Iterate _ | Returned => True
  | Adding rq' _ _ | Starting rq' _ _ => rq' = rq
  | _ => False
  end → run_inv ids merged s'.
Proof.
  intros [Hids Hm Hgos Hmain Hfw Hheld Hfree] Emu Efw Ean Hcase Hmain'.
  assert (∀ k g, vs_gos s' !! k = Some g → vs_gos s !! k = Some g ∨ ∃ id, g = GStart rq id) as Hold.
  { intros k g. destruct Hcase as [[-> _]|(id & -> & _)]; [by left|]. rewrite lookup_snoc_Some.
    intros [[_ ?]|[_ <-]]; eauto. }
  split; rewrite ?Emu, ?Efw, ?Ean; try done.
  - rewrite Hids. apply Permutation_app_head. destruct Hcase as [[-> ->]|(id & -> & ->)]; [done|].
    rewrite omap_app. simpl. by rewrite <- app_assoc.
  - intros k g [Hk|[id ->]]%Hold; [by eapply Hgos|done].
  - intros k g [Hk|[id ->]]%Hold; [by eapply Hheld|done].
Qed.

Lemma run_inv_step ids merged s s' :
  vstep s s' → sync_inv s → run_inv ids merged s → ∃ merged', run_inv ids merged' s'.
Proof.
  intros [Hs|Hs] Hi Hinv; pose proof Hinv as [Hids Hm Hgos Hmain Hfw Hheld Hfree].
  2:{ exists merged. destruct Hs as [s _ _|s a' _ Hup|s _]; [by destruct s| |by destruct s].
      split; try by destruct s. destruct s; simpl in *. by eapply rtc_r. }
  destruct Hs as [s id ids0 r rq' Hp Hrd|s rq' id ids0 Hp|s rq' id ids0 Hp|s id ids0 r msg Hp Hrd|s id msg ids0 Hp
    |s id msg loaded ids0 Hp|s msg ids0 Hp|s msg loaded ids0 Hp|s Hp Hz|s k rq' id Hk|s k rq' id a Hk Hnw|s k rq' id a Hk
    |s k id x Hk Hmu|s k id x Hk|s k id x loaded Hk|s k id x Hk|s k id x Hk|s k id x loaded Hk|s k Hk|s k Hk].
  (* the loop *)
  1: destruct (Hone (vs_reader s)) as [r1 Hr1]; rewrite Hr1 in Hrd; simplify_eq.
  1-3, 9: rewrite Hp in Hmain; try subst rq'; exists merged; apply (run_inv_loop ids merged s); try done;
    destruct s; simpl in *; subst; simpl; first [done|by left|right; by exists id].
  1: destruct (Hone (vs_reader s)) as [r1 Hr1]; congruence.
  1-4: by rewrite Hp in Hmain.
  (* the goroutines *)
  all: pose proof (Hgos _ _ Hk) as Hg; simpl in Hg.
  9: exists (merged ++ [(id, x)]); by eapply run_inv_stored.
  all: exists merged; match type of Hk with _ = Some ?g => match goal with |- run_inv _ _ (set_go _ ?g' _) =>
      eapply (run_inv_move ids merged s _ k g g' Hi Hinv Hk) end end; try (by destruct s).
  all: try (match type of Hk with _ = Some ?g => assert (holds g = true) as Hh by done;
    pose proof (holder_locked _ _ _ Hi Hk Hh) as Hlk; pose proof (Hheld _ _ Hk Hh) as Hpart; simpl in Hpart end).
  all: try (intros _; split; [auto; fail|]).
  all: destruct s; simpl in *; subst; try done.
  - destruct Hg as [-> Ha]. by exists a.
  - by apply Hfree.
  - destruct Hpart as [-> ->]. done.
Qed.

(** The answers are the replies of all the schemas, merged in some order. *)
Lemma returns_merged ids r an :
  returns ids r a0 an →
  ∃ merged, merged.*1 ≡ₚ ids ∧ Forall (λ p, replied p.1 p.2) merged ∧ an = merged_answers merged.
Proof.
  intros (s & Hrun & Hret & <-).
  assert (sync_inv s ∧ ∃ merged, run_inv ids merged s) as [Hi [merged Hinv]].
  { refine (rtc_ind_r (λ s, sync_inv s ∧ ∃ merged, run_inv ids merged s) _ _ _ _ Hrun).
    - split; [by split|]. exists []. by split.
    - intros s1 s2 _ Hs [Hi [merged Hinv]]. split; [by eapply vstep_sync|]. by eapply run_inv_step. }
  exists merged. destruct Hinv as [Hids Hm _ _ _ _ Hfree]. pose proof (si_returned _ Hi Hret) as Hz.
  pose proof (si_wg _ Hi) as Hw. rewrite Hz, Hret in Hw. simpl in Hw.
  assert (∀ k g, vs_gos s !! k = Some g → g = GEnded) as Hend.
  { intros k g Hk. assert (live g = false) by (apply (count_zero live (vs_gos s) k); [lia|done]). by destruct g. }
  assert (omap go_id (vs_gos s) = []) as Hnone.
  { revert Hend. generalize (vs_gos s). induction l as [|g l IH]; intros Hend; [done|].
    simpl. rewrite (Hend 0 g eq_refl). simpl. apply IH. intros k g' Hk. exact (Hend (S k) g' Hk). }
  split; [by rewrite Hids, Hnone, Hret, app_nil_r|]. split; [done|]. apply Hfree.
  destruct (vs_mutex s) eqn:Hmu; [|done]. exfalso. assert (0 < count holds (vs_gos s)) as Hc by (rewrite (si_mutex _ Hi), Hmu; lia).
  apply count_pos in Hc as (k & g & Hk & Hg). by rewrite (Hend _ _ Hk) in Hg.
Qed.
End OneRequest.

(** * Runs that exist *)

Tactic Notation "go_on" hyp(Hl) uconstr(c) :=
  eapply rtc_l; [left; eapply c; simpl; first [apply Hl|done]|simpl; rewrite ?list_insert_insert_eq].

(** A goroutine runs from its start to its end, if nobody holds a lock. *)
Lemma goroutine_runs s k rq id :
  vs_gos s !! k = Some (GStart rq id) → vs_mutex s = false → vs_writer s = false →
  rtc vstep s (set_go k GEnded (set_wg (pred (vs_wg s))
    (upd_answers (λ an, merge an (process perm mt (vs_fw s) rq id)) s))).
Proof.
  intros Hk Hm Hw. destruct s as [pc r gs wg mu n wr a an]. simpl in *. subst.
  assert (∀ g, <[k := g]> gs !! k = Some g) as Hl.
  { intros g. apply list_lookup_insert_eq. by eapply lookup_lt_Some. }
  set (x := process perm mt a rq id).
  eapply rtc_l; [left; by eapply (go_begin _ _ _ _ k)|]. simpl.
  go_on Hl go_rlock. go_on Hl go_process. fold x. go_on Hl go_lock. go_on Hl go_load_summary.
  go_on Hl go_store_summary. go_on Hl go_errors. go_on Hl go_load_err.
  eapply rtc_l; [left; eapply go_store_err; simpl; apply Hl|].
  set (s1 := set_go k GUnlock _).
  replace s1 with (MkVState pc r (<[k := GUnlock]> gs) wg true n false a (merge an x)).
  2:{ unfold s1, merge. destruct x as [rp [e|]]; simpl; by rewrite list_insert_insert_eq. }
  go_on Hl go_unlock. go_on Hl go_done. done.
Qed.

Lemma goroutine_starts s id ids r' rq :
  vs_main s = Iterate (id :: ids) → Read (vs_reader s) = Some (r', Ok rq) →
  rtc vstep s (set_main (Iterate ids) (upd_gos (λ l, l ++ [GStart rq id]) (set_wg (S (vs_wg s)) (set_reader r' s)))).
Proof.
  intros Hp Hr. eapply rtc_l; [left; by eapply main_read|]. eapply rtc_l; [left; apply (main_add _ _ _ _ rq id ids); by destruct s|].
  eapply rtc_l; [left; apply (main_go _ _ _ _ rq id ids); by destruct s|]. by destruct s.
Qed.

(** * A reader with one request *)

Section OneRead.
Context (r0 r1 : R) (rq : freq) (msg : gostring) (id : Z) (ids : list Z) (a0 : APIFWModeAPI).
Context (Hfirst : Read r0 = Some (r1, Ok rq)) (Hnext : Read r1 = Some (r1, Err msg)).

Notation failed_entry j := (MkSummary j 500).

(** An entry of the first schema, or of another one whose request could not be read. *)
Definition entry_allowed (e : ValidationResponseSummary) : Prop :=
  (∃ a, rtc fw_step a0 a ∧ e ∈ vr_Summary (process perm mt a rq id).1)
  ∨ ∃ j, j ∈ ids ∧ e = failed_entry j.

Definition gor_ok (g : go_pc) : Prop :=
  go_ok rq a0 g ∧ (∀ j, go_id g = Some j → j = id)
  ∧ match g with GStoreSummary _ _ loaded => Forall entry_allowed loaded | _ => True end.
Definition main_ok (s : vstate) : Prop :=
  vs_reader s = r0 ∧ vs_main s = Iterate (id :: ids)
  ∨ vs_reader s = r1
    ∧ match vs_main s with
      | Iterate l | LoadErr _ l | StoreErr _ _ l => l ⊆ ids
      | Adding rq' j l | Starting rq' j l => rq' = rq ∧ j = id ∧ l ⊆ ids
      | LoadSummary j _ l => j ∈ ids ∧ l ⊆ ids
      | StoreSummary j _ loaded l => j ∈ ids ∧ l ⊆ ids ∧ Forall entry_allowed loaded
      | Returned => True
      end.

Record read_inv (s : vstate) : Prop := MkReadInv {
  rd_summary : Forall entry_allowed (vr_Summary (an_resp (vs_answers s)));
  rd_fw : rtc fw_step a0 (vs_fw s);
  rd_gos : ∀ k g, vs_gos s !! k = Some g → gor_ok g;
  rd_main : main_ok s
}.

Lemma read_inv_loop s s' :
  read_inv s → vs_gos s' = vs_gos s ∨ vs_gos s' = vs_gos s ++ [GStart rq id] → vs_fw s' = vs_fw s →
  Forall entry_allowed (vr_Summary (an_resp (vs_answers s'))) → main_ok s' → read_inv s'.
Proof.
  intros [_ Hfw Hgos _] Hg Ef Hsum Hmain. split; [done|by rewrite Ef| |done].
  intros k g. destruct Hg as [-> | ->]; [apply Hgos|]. rewrite lookup_snoc_Some.
  intros [[_ Hk]|[_ <-]]; [by eapply Hgos|]. split_and!; [done|by intros j [= <-]|done].
Qed.

Lemma read_inv_go s s' k g' :
  read_inv s → vs_gos s' = <[k := g']> (vs_gos s) → vs_main s' = vs_main s → vs_reader s' = vs_reader s →
  vs_fw s' = vs_fw s → Forall entry_allowed (vr_Summary (an_resp (vs_answers s'))) → gor_ok g' → read_inv s'.
Proof.
  intros [_ Hfw Hgos Hmain] Hg Em Er Ef Hsum Hok. split; [done|by rewrite Ef| |].
  - intros i g. rewrite Hg. intros [(_ & <- & _)|[_ Hi]]%list_lookup_insert_Some; [done|by eapply Hgos].
  - unfold main_ok. by rewrite Em, Er.
Qed.

Lemma replied_allowed x : replied rq a0 id x → Forall entry_allowed (vr_Summary x.1).
Proof. intros (a & Ha & ->). apply Forall_forall. intros e He. left. eauto. Qed.

Lemma failed_allowed j : j ∈ ids → Forall entry_allowed [failed_entry j].
Proof. intros Hj. apply Forall_singleton. right. eauto. Qed.

Lemma read_inv_step s s' : vstep s s' → read_inv s → read_inv s'.
Proof.
  intros [Hs|Hs] Hinv; pose proof Hinv as [Hsum Hfw Hgos Hmain].
  2:{ destruct Hs as [s _ _|s a' _ Hup|s _]; [by destruct s| |by destruct s].
      split; try by destruct s. destruct s; simpl in *. by eapply rtc_r. }
  unfold main_ok in Hmain. assert (∀ j (l : list Z), j :: l ⊆ ids → j ∈ ids ∧ l ⊆ ids) as Hcons by set_solver.
  destruct Hs as [s j l r rq' Hp Hrd|s rq' j l Hp|s rq' j l Hp|s j l r m Hp Hrd|s j m l Hp
    |s j m loaded l Hp|s m l Hp|s m loaded l Hp|s Hp Hz|s k rq' j Hk|s k rq' j a Hk Hnw|s k rq' j a Hk
    |s k j x Hk Hmu|s k j x Hk|s k j x loaded Hk|s k j x Hk|s k j x Hk|s k j x loaded Hk|s k Hk|s k Hk].
  (* the loop *)
  1-9: rewrite Hp in Hmain; eapply (read_inv_loop s); [done| |by destruct s| |unfold main_ok; right].
  all: try (by destruct s; auto).
  all: try (destruct Hmain as [[Hrd0 Hm0]|[Hrd1 Hm1]]; [try discriminate Hm0|]).
  all: try (rewrite Hrd0, Hfirst in Hrd); try (rewrite Hrd1, Hnext in Hrd); try discriminate Hrd.
  all: try (by destruct s; simpl in *; simplify_eq; naive_solver).
  1: destruct Hm1 as (Hj & _ & Hl); destruct s; simpl; apply Forall_app; split; [done|by apply failed_allowed].
  (* the goroutines *)
  all: pose proof (Hgos _ _ Hk) as (Hg & Hid & Hload); simpl in Hg, Hid, Hload.
  all: try match goal with |- context [match ?o with Some _ => upd_answers _ _ | None => _ end] => destruct o end.
  all: try (pose proof (Hid _ eq_refl) as ->); eapply (read_inv_go s _ k); try (by destruct s); try (by split_and!; try (intros ? [= <-])).
  all: first [ destruct Hg as [-> Ha]; split_and!; [by exists a|by intros ? [= <-]|done]
             | destruct s; simpl; apply Forall_app; split; [done|by apply replied_allowed] ].
Qed.

(** The failures of the remaining schemas, one after the other. *)
Lemma fail_all rest s :
  vs_main s = Iterate rest → vs_reader s = r1 →
  ∃ err, rtc vstep s (set_main (Iterate []) (upd_answers (λ an,
    set_err err (set_summary (vr_Summary (an_resp an) ++ map (λ j, failed_entry j) rest) an)) s)).
Proof.
  revert s. induction rest as [|j rest IH]; intros s Hp Hr.
  { exists (an_err (vs_answers s)). destruct s as [? ? ? ? ? ? ? ? [[] ?]]; simpl in *. subst.
    rewrite app_nil_r. apply rtc_refl. }
  set (s1 := set_main (Iterate rest) (upd_answers (λ an,
    set_err (an_err an ++ [ErrRequestRead msg]) (set_summary (vr_Summary (an_resp an) ++ [failed_entry j]) an)) s)).
  assert (rtc vstep s s1) as Hs1.
  { destruct s; simpl in *. subst. unfold s1. simpl.
    eapply rtc_l; [left; by eapply main_read_error|]. eapply rtc_l; [left; by eapply main_load_summary|].
    eapply rtc_l; [left; by eapply main_store_summary|]. eapply rtc_l; [left; by eapply main_load_err|].
    eapply rtc_l; [left; by eapply main_store_err|]. done. }
  destruct (IH s1) as [err Herr]; [by destruct s..|]. exists err. etrans; [exact Hs1|].
  destruct s; unfold s1 in Herr; simpl in *. by rewrite <- app_assoc in Herr.
Qed.

Definition one_started (l : list Z) : vstate := MkVState (Iterate l) r1 [GStart rq id] 1 false 0 false a0 no_answers.

Lemma started l : rtc vstep (start (id :: l) r0 a0) (one_started l).
Proof. by apply (goroutine_starts (start (id :: l) r0 a0) id l r1 rq). Qed.

(** The reply to the first schema is stored between the load and the store of a
    failure. *)
Lemma lost_first j rest :
  ∃ an, returns (id :: j :: rest) r0 a0 an ∧ vr_Summary (an_resp an) = map (λ j, failed_entry j) (j :: rest).
Proof.
  set (x := process perm mt a0 rq id).
  set (s1 := MkVState (StoreSummary j msg [] rest) r1 [GEnded] 0 false 0 false a0 (merge no_answers x)).
  assert (rtc vstep (start (id :: j :: rest) r0 a0) s1) as Hs1.
  { etrans; [apply started|]. unfold one_started. eapply rtc_l; [left; by eapply main_read_error|].
    eapply rtc_l; [left; by eapply main_load_summary|]. simpl.
    by apply (goroutine_runs (MkVState (StoreSummary j msg [] rest) r1 [GStart rq id] 1 false 0 false a0 no_answers) 0 rq id). }
  set (an1 := set_err (an_err (merge no_answers x) ++ [ErrRequestRead msg]) (set_summary [failed_entry j] (merge no_answers x))).
  set (s2 := MkVState (Iterate rest) r1 [GEnded] 0 false 0 false a0 an1).
  assert (rtc vstep s1 s2) as Hs2.
  { eapply rtc_l; [left; by eapply main_store_summary|]. eapply rtc_l; [left; by eapply main_load_err|].
    eapply rtc_l; [left; by eapply main_store_err|]. done. }
  destruct (fail_all rest s2 eq_refl eq_refl) as [err Herr].
  eexists. split; [eexists; split; [etrans; [exact Hs1|]; etrans; [exact Hs2|]; eapply rtc_r; [exact Herr|]; left; by apply main_wait|]|];
    done.
Qed.

(** The failures are stored between the load and the store of the reply to the first
    schema. *)
Lemma lost_others l :
  ∃ an, returns (id :: l) r0 a0 an ∧ vr_Summary (an_resp an) = vr_Summary (process perm mt a0 rq id).1.
Proof.
  destruct (process perm mt a0 rq id) as [rp e] eqn:Ex.
  set (s1 := MkVState (Iterate l) r1 [GStoreSummary id (rp, e) []] 1 true 0 false a0 no_answers).
  assert (rtc vstep (start (id :: l) r0 a0) s1) as Hs1.
  { etrans; [apply started|]. unfold one_started. eapply rtc_l; [left; by apply (go_begin _ _ _ _ 0 rq id)|].
    eapply rtc_l; [left; by eapply (go_rlock _ _ _ _ 0)|].
    eapply rtc_l; [left; by eapply (go_process _ _ _ _ 0)|]. simpl. rewrite Ex.
    eapply rtc_l; [left; by eapply (go_lock _ _ _ _ 0)|]. by eapply rtc_l; [left; by eapply (go_load_summary _ _ _ _ 0)|]. }
  destruct (fail_all l s1 eq_refl eq_refl) as [err Herr]. simpl in Herr.
  destruct e as [e|]; eexists;
    (split; [eexists; split; [etrans; [exact Hs1|]; etrans; [exact Herr|]|split; [|reflexivity]]|]);
    try (eapply rtc_l; [left; by eapply (go_store_summary _ _ _ _ 0)|];
         eapply rtc_l; [left; by eapply (go_errors _ _ _ _ 0)|];
         eapply rtc_l; [left; by eapply (go_load_err _ _ _ _ 0)|];
         eapply rtc_l; [left; by eapply (go_store_err _ _ _ _ 0)|];
         eapply rtc_l; [left; by apply (go_unlock _ _ _ _ 0)|];
         eapply rtc_l; [left; by apply (go_done _ _ _ _ 0)|];
         eapply rtc_l; [left; by apply main_wait|]; apply rtc_refl); done.
Qed.

(** C33: a reader with one request serves one schema.  [ValidateRequestFromReader] reads
    a request for each schema, so no schema after the first is validated: whatever the
    schedule, an entry of the summary is the reply to the first schema, or the status
    500 for another one.  Since the failures are recorded without the mutex there are
    runs that lose entries: one whose summary has no entry for the first schema, and
    one whose summary has no other entry. *)
Theorem reader_one_request :
  ids ≠ [] →
  (∀ an, returns (id :: ids) r0 a0 an → Forall entry_allowed (vr_Summary (an_resp an)))
  ∧ (∃ an, returns (id :: ids) r0 a0 an ∧ vr_Summary (an_resp an) = map (λ j, failed_entry j) ids)
  ∧ (∃ an, returns (id :: ids) r0 a0 an ∧ vr_Summary (an_resp an) = vr_Summary (process perm mt a0 rq id).1).
Proof.
  intros Hne. split; [|split].
  - intros an (s & Hrun & _ & <-). apply (rd_summary s).
    refine (rtc_ind_r read_inv _ _ _ _ Hrun); [split; [done|done|done|by left]|].
    intros s1 s2 _ Hs. by apply read_inv_step.
  - destruct ids as [|j rest]; [done|]. apply lost_first.
  - apply lost_others.
Qed.
End OneRead.
End PackageRuns.
