(* ===== verification/APIFirewallSpec.v ===== *)
(** Properties of the package: the routers of a firewall during its life, and what is
    reported for each schema. *)
From S2P Require Import Prelude Cmd GoStrings RouterPattern RouterTree RouterInv RouterInsert RouterFind RouterMux Values URLValues Messages ParamDecoder ParamDecoderSpec BodyDecoder Validate Unknown APIErrors APIMode NetIP AccessLists Web Mid MidSpec ProxyHandler Storage StorageSpec APIHandlers APIHandlersSpec APIFirewall PackageRuns.

Section APIFirewallSpec.
Context `{FmtPkg} `{TypesPkg} `{!SchemaPkg} `{!FilterPkg}.
Context (lib : parsers) (reg : registry) (json_Unmarshal : gostring → option value)
  (bodyEncoders : gmap gostring (value → result gostring gostring)).
Context (d : decompressor) (ConvertRequest : freq → result gostring request)
  (QueryArgs PostArgs : freq → list (gostring * gostring)).
Context `{RegexpPkg}.
Context (routePath : gostring → gostring → result gostring gostring).
Context (LoadFromData : gostring → result gostring api_spec) (ValidateSpec : api_spec → option gostring).
Context (perm : nat → list nat) (mt : method_table).

(** * The routers *)

Notation validate := (validate_ctx lib reg json_Unmarshal bodyEncoders d ConvertRequest QueryArgs PostArgs).
Notation validated := (validated lib reg json_Unmarshal bodyEncoders d ConvertRequest QueryArgs PostArgs).
Notation handler := (APIModeHandler lib reg json_Unmarshal bodyEncoders d ConvertRequest QueryArgs PostArgs).
Notation getRouters := (getRouters lib reg json_Unmarshal bodyEncoders d ConvertRequest QueryArgs PostArgs routePath).
Notation fw_add_routes :=
  (fw_add_routes lib reg json_Unmarshal bodyEncoders d ConvertRequest QueryArgs PostArgs routePath).
Notation fw_router := (fw_router lib reg json_Unmarshal bodyEncoders d ConvertRequest QueryArgs PostArgs routePath).
Notation fw_routers_loop :=
  (fw_routers_loop lib reg json_Unmarshal bodyEncoders d ConvertRequest QueryArgs PostArgs routePath).
Notation NewAPIFirewall := (NewAPIFirewall lib reg json_Unmarshal bodyEncoders d ConvertRequest QueryArgs PostArgs
  routePath LoadFromData ValidateSpec mt).
Notation fw_UpdateSpecsStorage := (fw_UpdateSpecsStorage lib reg json_Unmarshal bodyEncoders d ConvertRequest
  QueryArgs PostArgs routePath LoadFromData ValidateSpec mt).
Notation fw_step := (fw_step lib reg json_Unmarshal bodyEncoders d ConvertRequest QueryArgs PostArgs routePath
  LoadFromData ValidateSpec mt).
Notation ValidateRequest := (ValidateRequest lib reg json_Unmarshal bodyEncoders d ConvertRequest QueryArgs PostArgs
  routePath LoadFromData ValidateSpec).
Notation store_wf := (store_wf LoadFromData ValidateSpec).

Section Routers.
Context (nm : bool) (o : Configuration).

Definition fw_reg (id : Z) (version base : gostring) (cr : CustomRoute)
  : option (@registration (cmd reqctx (option api_error))) :=
  match routePath base (cr_Path cr) with
  | Err _ => None
  | Ok path =>
      Some (Registration (cr_Method cr) path None
              (Some (handler nm (UnknownParametersDetection o) (MkRequestValidator (Some cr) version id))))
  end.

Lemma fw_add_routes_Ok id version base routes regs mx :
  fw_add_routes mt nm o id version base (mux_run mt regs) routes = Ok mx →
  mx = mux_run mt (regs ++ omap (fw_reg id version base) routes).
Proof.
  revert regs. induction routes as [|cr routes IH]; intros regs; cbn [APIFirewall.fw_add_routes].
  { intros [= <-]. by rewrite app_nil_r. }
  cbn [omap list_omap]. unfold fw_reg at 1. destruct (routePath base (cr_Path cr)) as [path|]; [|done].
  set (rg := Registration (cr_Method cr) path None (Some _)).
  change (AddEndpoint mt (mux_run mt regs) (cr_Method cr) path _) with (mux_add mt (mux_run mt regs) rg).
  destruct (mux_add mt (mux_run mt regs) rg) as [mx1 [e|]] eqn:Hadd; [done|].
  assert (mx1 = mux_run mt (regs ++ [rg])) as -> by (rewrite mux_run_snoc; by rewrite Hadd).
  intros ->%IH. cbn. by rewrite <- app_assoc.
Qed.

(** The router of a schema holds the routes of its document. *)
Definition fw_router_of (s : @store api_spec) (id : Z) (mx : @Mux _ (cmd reqctx (option api_error))) : Prop :=
  ∃ sp base routes, Specification s id = Some sp ∧ server_base sp = Some base
    ∧ NewRouterDBLoader sp = Ok routes
    ∧ mx = mux_run mt (omap (fw_reg id (SpecificationVersion s id) base) routes).

Lemma fw_router_Ok s id mx : fw_router mt nm o s id = Ret (Ok mx) → fw_router_of s id mx.
Proof.
  unfold APIFirewall.fw_router. destruct (Specification s id) as [sp|] eqn:Hsp; [|done].
  destruct (fw_base sp) as [base|] eqn:Hbase; [|done].
  destruct (NewRouterDBLoader sp) as [routes|] eqn:Hroutes; [|done]. cbn [rbind]. intros [= Hr].
  exists sp, base, routes. split; [done|]. split; [|split; [done|]].
  - unfold fw_base in Hbase. unfold server_base. destruct (as_Server sp); congruence.
  - by apply (fw_add_routes_Ok _ _ _ _ []).
Qed.

Lemma fw_routers_loop_Ok s ids rs rs' :
  fw_routers_loop mt nm o s ids rs = Ret (Ok rs') →
  (∀ id, id ∈ ids → ∃ mx, rs' !! id = Some mx ∧ fw_router_of s id mx)
  ∧ ∀ id, id ∉ ids → rs' !! id = rs !! id.
Proof.
  revert rs. induction ids as [|id ids IH]; intros rs; cbn [APIFirewall.fw_routers_loop].
  { intros [= <-]. split; [by intros ? ?%not_elem_of_nil|done]. }
  intros (r & Hr & Hloop)%obind_Ret. destruct r as [mx|e]; [|done].
  apply IH in Hloop as [Hin Hout]. split.
  - intros j Hj. destruct (decide (j ∈ ids)) as [Hj'|Hj']; [by apply Hin|].
    apply elem_of_cons in Hj as [->|Hj]; [|done]. exists mx. rewrite Hout by done.
    split; [by rewrite lookup_insert_eq|]. by apply fw_router_Ok.
  - intros j [Hne Hj]%not_elem_of_cons. rewrite Hout by done. by rewrite lookup_insert_ne.
Qed.

(** Nothing panics on a store that was loaded. *)
Lemma getRouters_total s : store_wf s → ∃ r, getRouters mt nm o s = Ret r.
Proof.
  intros Hwf. unfold APIFirewall.getRouters.
  assert (Hids : ∀ id, id ∈ SchemaIDs s → is_Some (Specification s id)).
  { intros id Hid%(IsLoaded_iff _ _ s id Hwf). unfold IsLoaded in Hid. unfold Specification.
    destruct (st_OpenAPISpec s !! id); [eauto|done]. }
  revert Hids. generalize (∅ : gmap Z (@Mux _ (cmd reqctx (option api_error)))). generalize (SchemaIDs s).
  induction l as [|id ids IH]; intros rs Hids; cbn [APIFirewall.fw_routers_loop]; [eauto|].
  unfold APIFirewall.fw_router. destruct (Hids id) as [sp Hsp]; [apply list_elem_of_here|]. rewrite Hsp.
  cbn [obind]. case_match; [|eauto]. apply IH. intros j Hj. apply Hids. by apply list_elem_of_further.
Qed.

(** [AfterLoad] changes nothing the routers are built from. *)
Lemma getRouters_AfterLoad dk path s :
  store_wf s → getRouters mt nm o (AfterLoad dk path s).1.2 = getRouters mt nm o s.
Proof.
  intros Hwf. pose proof (AfterLoad_cases _ _ dk path s Hwf) as Hc.
  destruct (AfterLoad dk path s) as [[dk' s'] err]. cbn [fst snd].
  destruct Hc as [[_ ->]|(db & db' & _ & _ & _ & _ & _ & ->)]; [done|].
  unfold APIFirewall.getRouters. set (s' := MkStore _ _ _ _).
  assert (SchemaIDs s' = SchemaIDs s) as ->.
  { unfold SchemaIDs, s'. cbn. f_equal. rewrite map_to_list_fmap. rewrite map_map.
    apply map_ext. intros [k e]. apply mark_id. }
  assert (Hv : ∀ id, SpecificationVersion s' id = SpecificationVersion s id).
  { intros id. unfold SpecificationVersion, s'. cbn. rewrite lookup_fmap.
    destruct (st_RawSpecs s !! id); [cbn; apply mark_version|done]. }
  generalize (∅ : gmap Z (@Mux _ (cmd reqctx (option api_error)))). generalize (SchemaIDs s).
  induction l as [|id ids IH]; intros rs; cbn [APIFirewall.fw_routers_loop]; [done|].
  assert (fw_router mt nm o s' id = fw_router mt nm o s id) as ->
    by (unfold APIFirewall.fw_router; by rewrite Hv).
  destruct (fw_router mt nm o s id) as [[mx|e]|]; cbn; [apply IH|done..].
Qed.
End Routers.

(** * The life of a firewall *)

(** The routers are those of the store, built before the metrics were set ([nm]) or
    after. *)
Definition built (a : APIFWModeAPI) (nm : bool) : Prop :=
  getRouters mt nm (fw_options a) (fw_specsStorage a) = Ret (Ok (fw_routers a)).

Definition fw_ok (a : APIFWModeAPI) : Prop := store_wf (fw_specsStorage a) ∧ ∃ nm, built a nm.

Definition handlers_ready (errs : list apifw_error) : Prop := ∀ e, ErrHandlersInit e ∉ errs.

Lemma NewAPIFirewall_ok conf opts dk dk' a errs :
  NewAPIFirewall conf opts dk = Ret (dk', Ok (a, errs)) → handlers_ready errs → fw_ok a.
Proof.
  unfold APIFirewall.NewAPIFirewall. destruct conf as [cfg|e]; [|done]. cbv zeta.
  set (o := fold_left _ opts cfg). unfold NewOpenAPIDB.
  pose proof (loadOpenAPIDBVersion_wf LoadFromData ValidateSpec dk (PathToSpecDB o) (DBVersion o) true) as Hwf.
  destruct (loadOpenAPIDBVersion _ _ _ _ _ _) as [[dk1 s] errs1]. cbn [fst snd] in Hwf.
  intros (r & Hr & Hres)%obind_Ret Hready. destruct r as [rs|e]; injection Hres as <- <- <-.
  - split; [done|]. by exists true.
  - exfalso. apply (Hready e), elem_of_app. right. apply list_elem_of_here.
Qed.

Lemma fw_step_ok a a' : fw_step a a' → fw_ok a → fw_ok a'.
Proof.
  intros (dk & dk' & r & Hup) Hok. revert Hup. unfold APIFirewall.fw_UpdateSpecsStorage, NewOpenAPIDB. cbv zeta.
  pose proof (loadOpenAPIDBVersion_wf LoadFromData ValidateSpec dk (PathToSpecDB (fw_options a))
    (DBVersion (fw_options a)) true) as Hwf.
  destruct (loadOpenAPIDBVersion _ _ _ _ _ _) as [[dk1 s] errs]. cbn [fst snd] in Hwf.
  destruct (negb (no_items errs)); [by intros [= _ <- _]|].
  destruct (Version s <? Version (fw_specsStorage a))%Z; [by intros [= _ <- _]|].
  destruct (ShouldUpdate (fw_specsStorage a) s); [|by intros [= _ <- _]].
  intros (rs & Hrs & Hres)%obind_Ret. destruct rs as [rs|e]; [|by injection Hres as _ <- _].
  pose proof (AfterLoad_wf LoadFromData ValidateSpec dk1 (PathToSpecDB (fw_options a)) s Hwf) as Hwf2.
  pose proof (getRouters_AfterLoad false (fw_options a) dk1 (PathToSpecDB (fw_options a)) s Hwf) as Hsame.
  destruct (AfterLoad _ _ s) as [[dk2 s2] err]. injection Hres as _ <- _.
  split; [done|]. exists false. unfold built. cbn [fw_options fw_specsStorage fw_routers]. cbn [fst snd] in Hsame. by rewrite Hsame.
Qed.

(** The options of a firewall stay the same. *)
Lemma fw_life_options a a' : rtc fw_step a a' → fw_options a' = fw_options a.
Proof.
  induction 1 as [|a1 a2 a3 (dk & dk' & r & Hup) _ IH]; [done|]. rewrite IH. revert Hup.
  unfold APIFirewall.fw_UpdateSpecsStorage. cbv zeta. destruct (NewOpenAPIDB _ _ _ _ _) as [[dk1 s] errs].
  repeat (destruct (_ : bool); [by intros [= _ <- _]|] || case_match); try (by intros [= _ <- _]).
  all: intros ([] & _ & Hres)%obind_Ret; [|by injection Hres as _ <- _].
  all: destruct (AfterLoad _ _ s) as [[dk2 s2] err]; by injection Hres as _ <- _.
Qed.

Lemma fw_life_ok a a' : rtc fw_step a a' → fw_ok a → fw_ok a'.
Proof. induction 1; [done|]. intros Hok. eauto using fw_step_ok. Qed.

(** The store of a firewall is updated as [UpdateSpecsStorage] of the storage says. *)
Lemma fw_update_store dk a dk' a' r :
  fw_UpdateSpecsStorage dk a = Ret (dk', a', r) →
  UpdateSpecsStorage LoadFromData ValidateSpec
    (λ n, match getRouters mt false (fw_options a) n with Ret (Err e) => Some e | _ => None end)
    (PathToSpecDB (fw_options a)) (DBVersion (fw_options a)) dk (fw_specsStorage a)
  = (dk', fw_specsStorage a', r).
Proof.
  unfold APIFirewall.fw_UpdateSpecsStorage, UpdateSpecsStorage. cbv zeta.
  destruct (NewOpenAPIDB _ _ _ _ _) as [[dk1 s] errs].
  destruct (negb (no_items errs)); [by intros [= <- <- <-]|].
  destruct (Version s <? Version (fw_specsStorage a))%Z; [by intros [= <- <- <-]|].
  destruct (ShouldUpdate (fw_specsStorage a) s); [|by intros [= <- <- <-]].
  destruct (getRouters mt false (fw_options a) s) as [[rs|e]|]; cbn [obind]; [|by intros [= <- <- <-]|done].
  destruct (AfterLoad _ _ s) as [[dk2 s2] [e|]]; by intros [= <- <- <-].
Qed.

(** Creating and updating a firewall never panics. *)
Theorem firewall_total :
  (∀ conf opts dk, ∃ r, NewAPIFirewall conf opts dk = Ret r)
  ∧ ∀ dk a, ∃ r, fw_UpdateSpecsStorage dk a = Ret r.
Proof.
  split.
  - intros conf opts dk. unfold APIFirewall.NewAPIFirewall. destruct conf as [cfg|e]; [|eauto]. cbv zeta.
    set (o := fold_left _ opts cfg). unfold NewOpenAPIDB.
    pose proof (loadOpenAPIDBVersion_wf LoadFromData ValidateSpec dk (PathToSpecDB o) (DBVersion o) true) as Hwf.
    destruct (loadOpenAPIDBVersion _ _ _ _ _ _) as [[dk1 s] errs1]. cbn [fst snd] in Hwf.
    destruct (getRouters_total true o s Hwf) as [r ->]. destruct r; cbn; eauto.
  - intros dk a. unfold APIFirewall.fw_UpdateSpecsStorage, NewOpenAPIDB. cbv zeta.
    pose proof (loadOpenAPIDBVersion_wf LoadFromData ValidateSpec dk (PathToSpecDB (fw_options a))
      (DBVersion (fw_options a)) true) as Hwf.
    destruct (loadOpenAPIDBVersion _ _ _ _ _ _) as [[dk1 s] errs]. cbn [fst snd] in Hwf.
    destruct (negb (no_items errs)); [eauto|].
    destruct (Version s <? Version (fw_specsStorage a))%Z; [eauto|].
    destruct (ShouldUpdate (fw_specsStorage a) s); [|eauto].
    destruct (getRouters_total false (fw_options a) s Hwf) as [r ->]. destruct r as [rs|e]; cbn; [|eauto].
    destruct (AfterLoad _ _ s) as [[dk2 s2] err]. eauto.
Qed.

(** * What is reported for a schema *)

Section Reported.
Context (a : APIFWModeAPI) (rq : freq).
Notation o := (fw_options a).
Notation s := (fw_specsStorage a).

Definition fw_passed : bool := PassOptionsRequests o && (fq_Method rq =?s "OPTIONS").
Definition fw_unrouted (id : Z) : Prop :=
  ∃ mx rctx, fw_routers a !! id = Some mx
    ∧ Find mt mx NewRouteContext (fq_Method rq) (fq_Path rq) = Ret (rctx, None).
Definition fw_error_of (r : result api_error (list ValidationError)) : option fw_error :=
  match r with Err e => Some (ErrRequestParsing e) | Ok _ => None end.

Inductive fw_reported (id : Z) : Z → list ValidationError → option fw_error → Prop :=
  | fw_reported_unknown : IsLoaded s id = false → fw_reported id 500 [] (Some (ErrSchemaNotFound id))
  | fw_reported_passed :
      IsLoaded s id = true → fw_unrouted id → fw_passed = true → fw_reported id 200 [] None
  | fw_reported_not_found :
      IsLoaded s id = true → fw_unrouted id → fw_passed = false →
      fw_reported id 403 [not_found_error id] None
  | fw_reported_validated cr keys vs rctx nm sample :
      IsLoaded s id = true → route_of routePath mt s rq id cr keys vs rctx → built a nm →
      let r := counted nm (validated cr (UnknownParametersDetection o) keys vs rq) in
      let errs := default [] (stored_errors (MkRequestValidator (Some cr) (SpecificationVersion s id) id) r) in
      SampleSlice perm errs (MaxErrorsInResponse o) = Ret sample →
      fw_reported id (status_of r) sample (fw_error_of r).

Lemma handler_fw_run nm u rv cr x :
  rv_CustomRoute rv = Some cr →
  let r := counted nm (validate cr u x) in
  handler nm u rv x
  = match r with
    | Err e => (x, Ret (Some e))
    | Ok _ => (upd_User (results (rv_SchemaID rv) (stored_errors rv r) (status_of r)) x, Ret None)
    end.
Proof.
  intros Hcr r. unfold APIModeHandler, cmd_recover. rewrite Hcr, bind_get. fold r.
  destruct r as [[|e errs]|e]; [..|done]; by rewrite (bind_run _ _ _ _ _ (set_results_run _ _ _ _)).
Qed.

Context (Htable : table_ok mt) (Hmax : (0 ≤ MaxErrorsInResponse o)%Z).
Context (Hok : fw_ok a).

(** The route of a request in a schema that is loaded. *)
Lemma fw_Find id :
  IsLoaded s id = true →
  ∃ mx rctx h, fw_routers a !! id = Some mx
    ∧ Find mt mx NewRouteContext (fq_Method rq) (fq_Path rq) = Ret (rctx, h)
    ∧ ∀ h', h = Some h' → ∃ cr keys vs nm, route_of routePath mt s rq id cr keys vs rctx ∧ built a nm
        ∧ h' = handler nm (UnknownParametersDetection o)
                 (MkRequestValidator (Some cr) (SpecificationVersion s id) id).
Proof.
  destruct Hok as [Hwf [nm Hrs]]. intros Hid%(IsLoaded_iff _ _ s id Hwf).
  destruct (fw_routers_loop_Ok nm o s _ _ _ Hrs) as [Hin _].
  destruct (Hin id Hid) as (mx & Hmx & sp & base & routes & Hsp & Hbase & Hroutes & ->).
  match goal with H : fw_routers a !! id = Some (mux_run mt ?regs) |- _ =>
    destruct (Find_registered mt regs (fq_Method rq) (fq_Path rq) Htable) as (rctx & h & Hf & Hh) end.
  eexists _, rctx, h. split; [exact Hmx|]. split; [exact Hf|]. intros h' Hsome.
  destruct (Hh h' Hsome) as (rg & m & keys & vs & Hrg & Hrh & Hm1 & Hm2 & Hcap).
  apply list_elem_of_omap in Hrg as (cr & Hcr & Hreg). unfold fw_reg in Hreg.
  destruct (routePath _ (cr_Path cr)) as [path|] eqn:Hpath; [|done]. injection Hreg as <-.
  cbn [reg_handler reg_method reg_pattern] in *. injection Hrh as <-.
  exists cr, keys, vs, nm. split; [|done]. by exists sp, base, routes, path, m.
Qed.

Lemma fw_unknown id : IsLoaded s id = false → fw_routers a !! id = None.
Proof.
  destruct Hok as [Hwf [nm Hrs]]. intros Hid.
  destruct (fw_routers_loop_Ok nm o s _ _ _ Hrs) as [_ Hout]. rewrite Hout; [apply lookup_empty|].
  intros Hin%(IsLoaded_iff _ _ s id Hwf). by rewrite Hid in Hin.
Qed.

Lemma process_reported id :
  ∃ st errs err, process perm mt a rq id = (only id st errs, err) ∧ fw_reported id st errs err.
Proof.
  unfold process, ProcessRequest, cmd_recover. rewrite !bind_get. cbn [new_ctx cx_Request]. unfold find.
  destruct (IsLoaded s id) eqn:Hid.
  2:{ rewrite (fw_unknown id Hid), bind_lift. do 3 eexists. split; [reflexivity|]. by constructor. }
  destruct (fw_Find id Hid) as (mx & rctx & h & Hmx & Hf & Hh). rewrite Hmx, Hf. cbn [obind]. rewrite bind_lift.
  destruct h as [h|].
  2:{ assert (Hun : fw_unrouted id) by (by exists mx, rctx). fold fw_passed.
      destruct fw_passed eqn:Hp; do 3 eexists; (split; [reflexivity|]); by constructor. }
  destruct (Hh h eq_refl) as (cr & keys & vs & nm & Hroute & Hnm & ->). unfold SetUserValue. rewrite bind_modify.
  set (x := upd_User _ (new_ctx rq)). set (rv := MkRequestValidator (Some cr) _ id).
  assert (validate cr (UnknownParametersDetection o) x = validated cr (UnknownParametersDetection o) keys vs rq) as Hval.
  { destruct Hroute as (sp & base & routes & path & m & _ & _ & _ & _ & _ & _ & _ & Hcap).
    eapply (validate_captured _ _ _ _ _ _ _ _ cr _ _ _ _ _ _ x Hcap). apply lookup_insert_eq. }
  set (r := counted nm (validated cr (UnknownParametersDetection o) keys vs rq)).
  destruct (SampleSlice_total perm (default [] (stored_errors rv r)) (MaxErrorsInResponse o) Hmax)
    as (sample & Hs & Hnil).
  pose proof (handler_fw_run nm (UnknownParametersDetection o) rv cr x eq_refl) as Hrun. cbv zeta in Hrun.
  rewrite Hval in Hrun. fold r in Hrun.
  assert (Hrep := fw_reported_validated id cr keys vs rctx nm sample Hid Hroute Hnm). cbv zeta in Hrep. fold rv r in Hrep.
  specialize (Hrep Hs). destruct r as [l|e] eqn:Er.
  2:{ rewrite (bind_run _ _ _ _ _ Hrun). rewrite (Hnil eq_refl) in Hrep. by do 3 eexists. }
  rewrite (bind_run _ _ _ _ _ Hrun). unfold UserValue. rewrite bind_get.
  set (u := cx_User (upd_User _ x)).
  assert (Hst : u !! keyStatusCode id = Some (UInt (status_of (Ok l)))) by (apply lookup_insert_eq).
  assert (He : match u !! keyValidationErrors id with Some (UErrors l) => l | _ => [] end
               = default [] (stored_errors rv (Ok l))).
  { unfold u, results. cbn [upd_User x new_ctx cx_User rv rv_SchemaID].
    rewrite lookup_insert_ne by apply status_errors_ne.
    destruct (stored_errors rv (Ok l)); [by rewrite lookup_insert_eq|].
    rewrite lookup_insert_ne by (unfold keyValidationErrors; apply suffix_ne; discriminate). done. }
  rewrite Hst, bind_get. fold u. rewrite He, Hs, bind_lift. by do 3 eexists.
Qed.
End Reported.

(** * The answers *)

Notation entry := (Z * list ValidationError * option fw_error)%type.

(** The answers of entries of schemas, merged in an order. *)
Definition answers_of (order : list Z) (entries : list entry) : answers :=
  MkAnswers (MkValidationResponse (zip_with (λ id e, MkSummary id e.1.1) order entries)
               (concat (map (λ e, e.1.2) entries)))
    (omap snd entries).

Lemma merge_entries order entries an :
  length order = length entries →
  fold_left merge (zip_with (λ id e, (only id e.1.1 e.1.2, e.2)) order entries) an
  = MkAnswers
      (MkValidationResponse (vr_Summary (an_resp an) ++ vr_Summary (an_resp (answers_of order entries)))
         (vr_Errors (an_resp an) ++ vr_Errors (an_resp (answers_of order entries))))
      (an_err an ++ an_err (answers_of order entries)).
Proof.
  revert entries an. induction order as [|id order IH]; intros [|[[st errs] err] entries] an Hl; try done.
  - cbn. destruct an as [[sm es] er]. cbn. by rewrite !app_nil_r.
  - cbn [zip_with fold_left]. rewrite IH by (by injection Hl). unfold merge. cbn.
    destruct err; cbn; by rewrite <- !app_assoc.
Qed.

(** What is reported of a schema, of the firewall as it was at some time since [a]. *)
Definition reported_since (a : APIFWModeAPI) (rq : freq) (id : Z) (e : entry) : Prop :=
  ∃ a', rtc fw_step a a' ∧ fw_reported a' rq id e.1.1 e.1.2 e.2.

Lemma merged_entries a rq merged :
  table_ok mt → (0 ≤ MaxErrorsInResponse (fw_options a))%Z → fw_ok a →
  Forall (λ p, replied lib reg json_Unmarshal bodyEncoders d ConvertRequest QueryArgs PostArgs routePath
    LoadFromData ValidateSpec perm mt rq a p.1 p.2) merged →
  ∃ entries : list entry, Forall2 (reported_since a rq) merged.*1 entries
    ∧ merged.*2 = zip_with (λ id e, (only id e.1.1 e.1.2, e.2)) merged.*1 entries.
Proof.
  intros Htable Hmax Hok. induction 1 as [|[id x] merged (a' & Hlife & Hx) _ (entries & Hf & Hm)]; [by exists []|].
  destruct (process_reported a' rq Htable) with (id := id) as (st & errs & err & Hp & Hrep);
    [by rewrite (fw_life_options _ _ Hlife)|by eapply fw_life_ok|].
  exists ((st, errs, err) :: entries). split; [constructor; [by exists a'|done]|].
  cbn [fst snd] in Hx. rewrite !fmap_cons, Hm, Hx, Hp. done.
Qed.

(** ** The request of [ValidateRequest] *)

Section Request.
Context (new_request : gostring → gostring → gostring → freq) (Add : gostring → gostring → freq → freq).

(** Headers of different names can be added in any order. *)
Definition commute (n1 n2 : gostring) : Prop :=
  ∀ v1 v2 rq, Add n1 v1 (Add n2 v2 rq) = Add n2 v2 (Add n1 v1 rq).

Lemma add_values_comm n1 n2 vs1 vs2 rq :
  commute n1 n2 →
  fold_left (λ rq v, Add n2 v rq) vs2 (fold_left (λ rq v, Add n1 v rq) vs1 rq)
  = fold_left (λ rq v, Add n1 v rq) vs1 (fold_left (λ rq v, Add n2 v rq) vs2 rq).
Proof.
  intros Hc.
  assert (Hone : ∀ v vs rq, fold_left (λ rq v, Add n2 v rq) vs (Add n1 v rq)
                            = Add n1 v (fold_left (λ rq v, Add n2 v rq) vs rq)).
  { intros v vs. induction vs as [|w vs IH]; intros rq0; cbn; [done|]. by rewrite <- Hc, IH. }
  revert rq. induction vs1 as [|v vs1 IH]; intros rq; cbn; [done|]. by rewrite IH, Hone.
Qed.

Lemma add_headers_perm l l' rq :
  l ≡ₚ l' → NoDup l.*1 → (∀ n1 n2, n1 ∈ l.*1 → n2 ∈ l.*1 → n1 ≠ n2 → commute n1 n2) →
  add_headers Add l rq = add_headers Add l' rq.
Proof.
  intros Hp. revert rq. induction Hp as [|[n vs] l l' Hp IH|[n1 vs1] [n2 vs2] l|l1 l2 l3 Hp1 IH1 Hp2 IH2];
    intros rq Hnd Hc; [done|..].
  - apply NoDup_cons in Hnd as [_ Hnd]. apply IH; [done|]. intros n1 n2 H1' H2' Hne. apply Hc; [by apply list_elem_of_further..|done].
  - unfold add_headers. cbn. f_equal. apply NoDup_cons in Hnd as [Hn _]. apply not_elem_of_cons in Hn as [Hn _].
    apply add_values_comm, Hc; [apply list_elem_of_here|apply list_elem_of_further, list_elem_of_here|done].
  - rewrite IH1 by done. apply IH2; [by rewrite <- Hp1|]. intros n1 n2. rewrite <- Hp1. apply Hc.
Qed.

Lemma add_headers_order l headers rq :
  l ≡ₚ map_to_list headers → (∀ n1 n2, n1 ∈ dom headers → n2 ∈ dom headers → n1 ≠ n2 → commute n1 n2) →
  add_headers Add l rq = add_headers Add (map_to_list headers) rq.
Proof.
  intros Hp Hc. symmetry. apply add_headers_perm; [done|apply NoDup_fst_map_to_list|].
  assert (Hd : ∀ n, n ∈ (map_to_list headers).*1 → n ∈ dom headers).
  { intros n ([k v] & -> & Hin%elem_of_map_to_list)%list_elem_of_fmap. by eapply elem_of_dom_2. }
  intros n1 n2 H1' H2'. apply Hc; by apply Hd.
Qed.

Lemma package_answers a ids uri method body headers an :
  table_ok mt → fw_ok a → (0 ≤ MaxErrorsInResponse (fw_options a))%Z →
  (∀ n1 n2, n1 ∈ dom headers → n2 ∈ dom headers → n1 ≠ n2 → commute n1 n2) →
  ValidateRequest new_request Add perm mt a ids uri method body headers an →
  let rq := add_headers Add (map_to_list headers) (new_request uri method body) in
  ∃ order entries, order ≡ₚ ids ∧ Forall2 (reported_since a rq) order entries ∧ an = answers_of order entries.
Proof.
  intros Htable Hok Hmax Hc (orders & Horders & Hret) rq.
  assert (∀ n : nat, ∃ n', Some (S n, Ok (add_headers Add (orders n) (new_request uri method body)))
                      = Some (n', @Ok gostring _ rq)) as Hread
    by (intros n; eexists; do 3 f_equal; by apply add_headers_order).
  destruct (returns_merged _ _ _ _ _ _ _ _ _ _ _ _ _ _ rq a Hread ids 0 an Hret) as (merged & Hp & Hall & ->).
  destruct (merged_entries a rq merged Htable Hmax Hok Hall) as (entries & Hf & Hm).
  exists merged.*1, entries. split; [done|]. split; [done|].
  rewrite Hm, merge_entries by (by eapply Forall2_length). done.
Qed.

End Request.
End APIFirewallSpec.
