(* ===== verification/APIExamples.v ===== *)
(** An API-mode application and a firewall of the package over a small database of
    specifications, with concrete libraries: the witnesses of their properties. *)
From S2P Require Import Prelude Cmd GoStrings RouterPattern RouterTree RouterInv RouterInsert RouterFind RouterMux RouterSpec Values URLValues Messages ParamDecoder ParamDecoderSpec BodyDecoder BodyDecoderSpec Validate ValidateSpec Unknown APIErrors APIMode APIModeSpec NetIP AccessLists AccessListsSpec Web Mid MidSpec ProxyHandler ProxySpec ProxyExamples Storage StorageSpec APIHandlers APIHandlersSpec APIFirewall PackageRuns APIFirewallSpec.

#[local] Existing Instances no_floats plain_fmt typed_schemas plain_filter digits_regexp set_cache admin_rules.

Module APIExample.
(** Every document describes the same two operations. *)
Definition load_spec (content : gostring) : result gostring api_spec :=
  if is_empty content then Err (str "empty")
  else Ok (MkAPISpec (URLPath "/") [(str "/pets/{id}", [(str "post", pet_route)]);
                                    (str "/pets", [(str "get", cr_Route list_custom)])]).
Definition valid_spec (_ : api_spec) : option gostring := None.

Definition files : disk :=
  {[ str "/db" := MkDB (Ok [MkRow (MkEntry 1 "1" "yaml" "a" []) (Some (str "new"));
                            MkRow (MkEntry 3 "1" "yaml" "b" []) (Some (str "new"))]) true None ]}.
Definition specs : store := (NewOpenAPIDB load_spec valid_spec files "/db" 2).1.2.

Definition cfg : api_config := MkAPIConfig _ _ false 2 true [] None None false.
Definition path_of (base path : gostring) : result gostring gostring := Ok path.

(** The statuses of an answer, and the number of its errors. *)
Definition print_answer (r : ValidationResponse) : result gostring gostring :=
  Ok (concat (map (λ s, itoa (vs_SchemaID s) ++ str ":" ++ itoa (vs_StatusCode s) ++ str ";") (vr_Summary r))
        ++ itoa (Z.of_nat (length (vr_Errors r)))).

Definition app : option api_App :=
  api_Handlers no_lib default_registry (λ _, None) ∅ no_unzip convert_pet (λ _, []) (λ _, []) path_of
    (λ e, e) (λ _, []) fq_Path (λ _ u, u) default_methods cfg specs.

Definition ctx (method path ids : gostring) : reqctx :=
  MkCtx (MkFreq method "http" "localhost" "localhost" path [] "HTTP/1.1"
           (<[str "X-Wallarm-Schema-Id" := [ids]]> (<[str "X-Key" := [str "k"]]> pet_header)) [] "{}")
    (MkFresp 200 ∅ []) ∅ "10.0.0.1:4242" (Some (str "10.0.0.1")) [] [] 0.
End APIExample.
Import APIExample.

Lemma elements_range (m : gset Z) : elements m ≡ₚ elements m.
Proof. done. Qed.
Lemma specs_wf : store_wf load_spec valid_spec specs.
Proof. apply loadOpenAPIDBVersion_wf. Qed.

Lemma SampleSlice_limit_witness :
  ∃ out rest, SampleSlice (seq 0) [3; 5; 7]%Z 2 = Ret out ∧ out ++ rest ≡ₚ [3; 5; 7]%Z ∧ length out = 2.
Proof.
  destruct (SampleSlice_limit (seq 0) [3; 5; 7]%Z 2 ltac:(done) ltac:(lia)) as (out & rest & Hs & Hp & Hn).
  exists out, rest. split; [exact Hs|]. split; [exact Hp|]. simpl in Hn. lia.
Defined.

Lemma schemas_of_request_witness :
  ∃ ids, getWallarmSchemaID elements specs (fq_Header (cx_Request (ctx "GET" "/pets" "3, 1,3,4"))) = Ok (ids, [4%Z])
    ∧ NoDup ids.
Proof.
  destruct (getWallarmSchemaID elements specs (fq_Header (cx_Request (ctx "GET" "/pets" "3, 1,3,4"))))
    as [[ids nf]|] eqn:Heq; [|vm_compute in Heq; discriminate Heq].
  assert (nf = [4%Z]) as Hnf by (vm_compute in Heq; by injection Heq as _ <-).
  exists ids. rewrite Hnf. split; [done|].
  destruct (schemas_of_request elements specs _ ids nf elements_range Heq) as (_ & _ & _ & _ & Hnd & _).
  exact Hnd.
Defined.

Notation reports := (reported no_lib default_registry (λ _, None) ∅ no_unzip convert_pet (λ _, []) (λ _, []) path_of
  (λ _, []) fq_Path (λ _ u, u) default_methods cfg specs).


(** * The package *)

Notation new_firewall := (NewAPIFirewall no_lib default_registry (λ _, None) ∅ no_unzip convert_pet (λ _, [])
  (λ _, []) path_of load_spec valid_spec default_methods).
Notation validate_request := (ValidateRequest no_lib default_registry (λ _, None) ∅ no_unzip convert_pet (λ _, [])
  (λ _, []) path_of load_spec valid_spec).
Notation read_and_validate := (ValidateRequestFromReader no_lib default_registry (λ _, None) ∅ no_unzip convert_pet
  (λ _, []) (λ _, []) path_of load_spec valid_spec).
Definition conf : Configuration := MkConfiguration [] 0 true false 0 false.

(** A request of a URI without query, and the addition of a header. *)
Definition new_request (uri method body : gostring) : freq :=
  MkFreq method "http" [] [] uri [] "HTTP/1.1" ∅ [] body.
Definition add_header (name value : gostring) : freq → freq :=
  upd_fq_Header (λ h, <[name := default [] (h !! name) ++ [value]]> h).
Definition pet_headers : gmap gostring (list gostring) :=
  {[ str "X-Key" := [str "k"]; str "Content-Type" := [str "application/json"] ]}.

Lemma add_header_comm n1 n2 : n1 ≠ n2 → commute add_header n1 n2.
Proof.
  intros Hne v1 v2 []. unfold add_header. cbn. f_equal. rewrite !lookup_insert_ne by done.
  by apply insert_insert_ne.
Qed.


Notation runs := (vstep no_lib default_registry (λ _, None) ∅ no_unzip convert_pet (λ _, []) (λ _, []) path_of
  load_spec valid_spec).

(** A call for two schemas whose reads all succeed, after one read. *)
Lemma validation_returns_witness :
  ∃ s s', rtc (runs (λ n : nat, Some (S n, Ok (cx_Request (ctx "GET" "/pets" "1")))) (seq 0) default_methods)
            (start [1; 3]%Z 0 (MkFirewall ∅ specs conf)) s
    ∧ rtc (runs (λ n : nat, Some (S n, Ok (cx_Request (ctx "GET" "/pets" "1")))) (seq 0) default_methods) s s'
    ∧ vs_main s' = Returned.
Proof.
  set (Read := λ n : nat, Some (S n, @Ok gostring _ (cx_Request (ctx "GET" "/pets" "1")))).
  set (s := MkVState (Adding (cx_Request (ctx "GET" "/pets" "1")) 1 [3]%Z) 1 [] 0 false 0 false (MkFirewall ∅ specs conf) no_answers).
  assert (Hs : rtc (runs Read (seq 0) default_methods) (start [1; 3]%Z 0 (MkFirewall ∅ specs conf)) s)
    by (apply rtc_once; left; by apply (main_read _ _ _ (start [1; 3]%Z 0 (MkFirewall ∅ specs conf)) 1 [3%Z] 1)).
  destruct (proj1 (validation_returns no_lib default_registry (λ _, None) ∅ no_unzip convert_pet (λ _, []) (λ _, []) path_of
    load_spec valid_spec (seq 0) default_methods Read [1; 3]%Z 0 (MkFirewall ∅ specs conf)) (λ r, mk_is_Some _ _ eq_refl) s Hs)
    as (s' & Hrun & Hret).
  exists s, s'. split; [exact Hs|]. split; [exact Hrun|exact Hret].
Defined.

(** A reader with one request and two schemas. *)
Lemma reader_one_request_witness :
  ∃ an, read_and_validate
          (λ n : nat, match n with 0 => Some (1, Ok (cx_Request (ctx "GET" "/pets" "1"))) | _ => Some (1, Err (str "EOF")) end)
          (seq 0) default_methods (MkFirewall ∅ specs conf) [1; 3]%Z 0 an
    ∧ vr_Summary (an_resp an) = [MkSummary 3 500].
Proof.
  refine (proj1 (proj2 (reader_one_request no_lib default_registry (λ _, None) ∅ no_unzip convert_pet (λ _, []) (λ _, [])
    path_of load_spec valid_spec (seq 0) default_methods _ 0 1
    (cx_Request (ctx "GET" "/pets" "1")) "EOF" 1 [3%Z] (MkFirewall ∅ specs conf) eq_refl eq_refl _))).
  discriminate.
Defined.
