(* ===== verification/Demo.v ===== *)
(** The demonstration program of the package (demo/interface/api-mode: main.go and
    internal/updater/updater.go): a server that validates every request it gets against
    the schema of a header, and a regular update of the specifications.

    [logger.Err] without a message logs nothing, so its calls are left out. *)
From S2P Require Import Prelude Cmd GoStrings RouterPattern RouterTree RouterInv RouterInsert RouterFind RouterMux RouterSpec Values URLValues Messages ParamDecoder ParamDecoderSpec BodyDecoder BodyDecoderSpec Validate ValidateSpec Unknown APIErrors APIMode APIModeSpec NetIP AccessLists Web Metrics Mid MidSpec ProxyHandler ProxySpec ProxyExamples Storage StorageSpec APIHandlers APIHandlersSpec APIFirewall PackageRuns APIFirewallSpec APIExamples.

(** The number [strconv.Atoi] returns, also with an error. *)
Definition atoi_value (s : gostring) : Z :=
  match atoi s with
  | Ok z => z
  | Err ErrSyntax => 0
  | Err ErrRange => match s with "-"%char :: _ => - 2 ^ 63 | _ => 2 ^ 63 - 1 end
  end.

Section Demo.
Context `{FmtPkg} `{TypesPkg} `{!SchemaPkg} `{!FilterPkg}.
Context (lib : parsers) (reg : registry) (json_Unmarshal : gostring → option value)
  (bodyEncoders : gmap gostring (value → result gostring gostring)).
Context (d : decompressor) (ConvertRequest : freq → result gostring request)
  (QueryArgs PostArgs : freq → list (gostring * gostring)).
Context `{RegexpPkg}.
Context (routePath : gostring → gostring → result gostring gostring).
Context (LoadFromData : gostring → result gostring api_spec) (ValidateSpec : api_spec → option gostring).
Context (perm : nat → list nat) (mt : method_table).
(** fasthttp: the URI of a request as it was received and the headers it visits, and
    how the package makes a request of them; [json.Marshal]. *)
Context (RequestURI : freq → gostring) (VisitAll : freq → list (gostring * gostring))
  (new_request : gostring → gostring → gostring → freq) (Add : gostring → gostring → freq → freq)
  (Marshal : ValidationResponse → result gostring gostring).
Notation fw := (@APIFWModeAPI _).
Notation NewAPIFirewall := (NewAPIFirewall lib reg json_Unmarshal bodyEncoders d ConvertRequest QueryArgs PostArgs
  routePath LoadFromData ValidateSpec mt).
Notation fw_step := (fw_step lib reg json_Unmarshal bodyEncoders d ConvertRequest QueryArgs PostArgs
  routePath LoadFromData ValidateSpec mt).

Notation ValidateRequest := (ValidateRequest lib reg json_Unmarshal bodyEncoders d ConvertRequest QueryArgs PostArgs
  routePath LoadFromData ValidateSpec).
Notation reported_since := (reported_since lib reg json_Unmarshal bodyEncoders d ConvertRequest QueryArgs PostArgs
  routePath LoadFromData ValidateSpec perm mt).

(** * The start *)

(** [main] up to the servers: a firewall that could not be made is a nil interface,
    whose method is called next. *)
Definition demo_start (conf : result gostring Configuration) (dk : disk)
  : outcome (disk * fw * list apifw_error * option (list gostring)) :=
  r <-! NewAPIFirewall conf [WithPathToDB "pkg/APIMode/wallarm_apifw_test.db"; EnablePrometheusMetrics] dk ;;
  match r with
  | (_, Err _) => Panic
  | (dk, Ok (a, errs)) =>
      Ret (dk, a, errs, match GetPrometheusCollectors (fw_options a) with Ok l => Some l | Err _ => None end)
  end.

Definition demo_metricsHandler (serve : Cmd unit) : Cmd unit := metricsHandler "/metrics" serve.

(** * Requests *)

(** [headers.Set] for every header that is visited. *)
Definition demo_headers (rq : freq) : http_Header :=
  fold_left (λ h kv, Header_Set kv.1 kv.2 h) (VisitAll rq) ∅.

(** The response: after an error of the encoding it is reset, and then set all the
    same. *)
Definition demo_reply (response : result gostring gostring) (r : fresp) : fresp :=
  let r := match response with Err _ => set_fp_Status 500 (MkFresp 200 ∅ []) | Ok _ => r end in
  upd_fp_Body (λ _, match response with Ok data => data | Err _ => [] end) (set_fp_Status 200 r).

Definition demo_handler (a : fw) (x x' : reqctx) : Prop :=
  let rq := cx_Request x in
  ∃ an, ValidateRequest new_request Add perm mt a [atoi_value (header_Get (fq_Header rq) "X-Wallarm-Schema-ID")]
          (RequestURI rq) (fq_Method rq) (fq_Body rq) (demo_headers rq) an
    ∧ x' = upd_Response (demo_reply (Marshal (an_resp an))) x.

(** * The update *)

(** A tick of [Run], with the errors it logs. *)
Definition demo_tick (dk : disk) (a : fw) : outcome (disk * fw * list logev) :=
  r <-! fw_UpdateSpecsStorage lib reg json_Unmarshal bodyEncoders d ConvertRequest QueryArgs PostArgs routePath
          LoadFromData ValidateSpec mt dk a ;;
  let '(dk, a, (_, _, err)) := r in
  Ret (dk, a, match err with
              | Some _ => [LogError "Regular OpenAPI specification updater: error while OpenAPI specifications update"]
              | None => []
              end).

(** * Properties *)

(** What the demonstration answers, after any updates: 200, and if the report can be
    encoded, that of the one schema whose number is in the header, 0 if there is none. *)
Lemma demo_reports conf dk dk' a0 errs0 m a x x' :
  table_ok mt → demo_start conf dk = Ret (dk', a0, errs0, m) → handlers_ready errs0 → rtc fw_step a0 a →
  (0 ≤ MaxErrorsInResponse (fw_options a))%Z →
  (∀ n1 n2, n1 ≠ n2 → commute Add n1 n2) → demo_handler a x x' →
  let rq := cx_Request x in
  let sent := add_headers Add (map_to_list (demo_headers rq)) (new_request (RequestURI rq) (fq_Method rq) (fq_Body rq)) in
  fp_Status (cx_Response x') = 200%Z
  ∧ ∃ st errs err,
      reported_since a sent (atoi_value (header_Get (fq_Header rq) "X-Wallarm-Schema-ID")) (st, errs, err)
      ∧ ∀ data, Marshal (only (atoi_value (header_Get (fq_Header rq) "X-Wallarm-Schema-ID")) st errs) = Ok data →
          fp_Body (cx_Response x') = data.
Proof.
  intros Htable Hstart Hready Hlife Hmax Hc (an & Hv & ->) rq sent.
  assert (∀ e r, fp_Status (demo_reply e r) = 200%Z) as H200 by by intros [] [].
  assert (∀ g y, cx_Response (upd_Response g y) = g (cx_Response y)) as Hup by by intros g [].
  rewrite Hup. split; [apply H200|]. unfold demo_start in Hstart.
  destruct (NewAPIFirewall conf _ dk) as [[dk1 [[a1 errs1]|]]|] eqn:Hnew; [|done..].
  cbn [obind] in Hstart. injection Hstart as -> -> -> _.
  destruct (package_answers lib reg json_Unmarshal bodyEncoders d ConvertRequest QueryArgs PostArgs routePath
    LoadFromData ValidateSpec perm mt new_request Add a
    [atoi_value (header_Get (fq_Header rq) "X-Wallarm-Schema-ID")] (RequestURI rq) (fq_Method rq) (fq_Body rq)
    (demo_headers rq) an Htable) as (order & entries & Hp & Hf & Han);
    [by eapply fw_life_ok, NewAPIFirewall_ok|done|by intros; apply Hc|exact Hv|].
  apply Permutation_singleton_r in Hp. subst order.
  inversion Hf as [|? [[st errs] err] ? l Hrep Hnil]; subst. inversion Hnil; subst.
  exists st, errs, err. split; [exact Hrep|]. intros data Hm. unfold answers_of in *. cbn in *.
  rewrite app_nil_r. unfold only in Hm. rewrite Hm. by destruct (cx_Response x).
Qed.

(** Ticks are updates of the firewall, and never panic. *)
Lemma demo_tick_total dk a :
  ∃ dk' a' logs, demo_tick dk a = Ret (dk', a', logs) ∧ fw_step a a'.
Proof.
  destruct (proj2 (firewall_total lib reg json_Unmarshal bodyEncoders d ConvertRequest QueryArgs PostArgs routePath
    LoadFromData ValidateSpec mt) dk a) as [[[dk' a'] [[ids b] err]] Hr].
  unfold demo_tick. rewrite Hr. cbn [obind]. do 3 eexists. split; [done|]. by exists dk, dk', (ids, b, err).
Qed.
End Demo.

(** An encoding that fails is answered with an empty 200. *)
Lemma demo_encoding_error r : demo_reply (Err (str "unsupported value")) r = MkFresp 200 ∅ [].
Proof. done. Qed.
