(* ===== verification/GraphQL.v ===== *)
(** The GraphQL mode: reading and validating queries
    (internal/platform/validator/graphql.go, internal/platform/complexity), the
    handler of HTTP requests and the routes (cmd/api-firewall/internal/handlers/graphql:
    httpHandler.go, routes.go).

    The GraphQL library and the JSON parser are interfaces. *)
From S2P Require Import Prelude Cmd GoStrings RouterPattern RouterTree RouterMux Values URLValues ParamDecoder BodyDecoder NetIP AccessLists Web Mid Adaptor ProxyHandler.

(** * Libraries *)

(** fastjson: a value, the member of an object, and texts.  [Get] on nil or on
    another value is nil. *)
Inductive json :=
  | JNull
  | JBool (b : bool)
  | JNumber (text : gostring)
  | JString (s : gostring)
  | JArray (l : list json)
  | JObject (kvs : list (gostring * json)).

Definition json_Get (v : option json) (key : gostring) : option json :=
  match v with Some (JObject kvs) => obj_get key kvs | _ => None end.
Definition StringBytes (v : json) : result gostring gostring :=
  match v with JString s => Ok s | _ => Err (str "value doesn't contain string") end.
Definition GetStringBytes (v : option json) : gostring :=
  match v with Some (JString s) => s | _ => [] end.

Class JSONPkg := {
  ParseBytes : gostring → result gostring json;
  MarshalTo : json → gostring;
  json_Encode : gostring → gostring
}.

(** graphql-go-tools.  A document is a set of arrays that refer to each other by
    index; [Normalize] gives the request it changes.  [RequestErrors] are lists of
    messages, one kind of [Errors]. *)
Record gfield := MkField { gf_HasSelections : bool; gf_AliasIsDefined : bool }.
Inductive selection_kind := SelectionKindField | SelectionKindFragmentSpread | SelectionKindInlineFragment.
Record selection := MkSelection { sel_Kind : selection_kind; sel_Ref : nat }.
Record complexity_result := MkComplexity { cr_Complexity : Z; cr_Depth : Z; cr_NodeCount : Z }.
Inductive operation_type := OperationTypeQuery | OperationTypeMutation | OperationTypeSubscription | OperationTypeUnknown.

Record GRequest := MkGRequest { gq_OperationName : gostring; gq_Variables : gostring; gq_Query : gostring }.

Class GraphQLPkg := {
  gschema : Type;
  document : Type;
  normalized : Type;
  gerrors : Type;
  doc_Fields : document → list gfield;
  doc_Selections : document → list selection;
  doc_SelectionSets : document → list (list nat);
  FieldNameString : document → nat → gostring;
  NumOfOperationDefinitions : document → Z;
  OperationNameExists : document → gostring → bool;
  ParseGraphqlDocumentString : gostring → document;
  IsIntrospectionQuery : GRequest → result gostring bool;
  CalculateComplexity : gschema → GRequest → result gostring complexity_result;
  Normalize : gschema → GRequest → result gostring (normalized * bool * option gerrors);
  ValidateForSchema : gschema → normalized → result gostring (bool * option gerrors);
  OperationType : GRequest → result gostring operation_type;
  ErrEmptyRequest : gostring;
  ErrRequiredOperationNameIsMissing : gostring;
  ErrOperationWithProvidedOperationNameNotFound : gostring → gostring;
  RequestErrorsFromError : gostring → list gostring;
  as_Errors : list gostring → gerrors
}.

(** [config.GraphQL]. *)
Record GraphQL := MkGraphQL {
  gc_MaxQueryComplexity : Z;
  gc_MaxQueryDepth : Z;
  gc_MaxAliasesNum : Z;
  gc_NodeCountLimit : Z;
  gc_BatchQueryLimit : Z;
  gc_DisableFieldDuplication : bool;
  gc_Playground : bool;
  gc_Introspection : bool;
  gc_WSCheckOrigin : bool;
  gc_WSOrigin : list gostring;
  gc_RequestValidation : gostring
}.

Section GraphQL.
Context `{JSONPkg} `{GraphQLPkg}.

(** * Checks of a document *)

(** [getNumOfAliases] and [validateAliasesNum]. *)
Fixpoint getNumOfAliases (fields : list gfield) : Z :=
  match fields with
  | [] => 0
  | f :: fields' => (if gf_AliasIsDefined f then 1 else 0) + getNumOfAliases fields'
  end.
Definition validateAliasesNum (d : document) (MaxAliasesNum : Z) : option gostring :=
  if (MaxAliasesNum <? getNumOfAliases (doc_Fields d))%Z
  then Some (str "the maximum number of aliases in the GraphQL document has been exceeded. The maximum number of aliases value is "
             ++ itoa MaxAliasesNum ++ str ". The current number of aliases is " ++ itoa (getNumOfAliases (doc_Fields d)))
  else None.

(** [validateDuplicateFields]: the counts of a selection set, then the loop over
    the sets.  The reference of a selection is used as the index of a field
    whatever its kind; an index out of range panics. *)
Fixpoint count_fields (d : document) (refs : list nat) (m : gmap gostring Z) : outcome (gmap gostring Z) :=
  match refs with
  | [] => Ret m
  | cs :: refs' =>
      match doc_Selections d !! cs with
      | None => Panic
      | Some sel =>
          match doc_Fields d !! sel_Ref sel with
          | None => Panic
          | Some field =>
              if gf_HasSelections field then count_fields d refs' m
              else
                let fieldName := FieldNameString d (sel_Ref sel) in
                count_fields d refs' (<[fieldName := match m !! fieldName with None => 1 | Some n => n + 1 end]> m)%Z
          end
      end
  end.
Fixpoint duplicates_loop (d : document) (sets : list (list nat)) : outcome bool :=
  match sets with
  | [] => Ret false
  | ss :: sets' =>
      m <-! count_fields d ss ∅ ;;
      if existsb (λ kn, 1 <? kn.2)%Z (map_to_list m) then Ret true else duplicates_loop d sets'
  end.
Definition ErrFieldDuplicationFound : gostring := "duplicate fields were found in the GraphQL document".
Definition validateDuplicateFields (d : document) : outcome (option gostring) :=
  dup <-! duplicates_loop d (doc_SelectionSets d) ;;
  Ret (if (dup : bool) then Some ErrFieldDuplicationFound else None).

Definition validateOperationName (d : document) (r : GRequest) : option gostring :=
  let operationName := trim_space (gq_OperationName r) in
  if is_empty operationName && (1 <? NumOfOperationDefinitions d)%Z
  then Some ErrRequiredOperationNameIsMissing
  else if negb (OperationNameExists d operationName)
  then Some (ErrOperationWithProvidedOperationNameNotFound operationName)
  else None.

(** [complexity.ValidateQuery]: the errors. *)
Definition exceeds (limit value : Z) (msg1 msg2 : gostring) : list gostring :=
  if ((0 <? limit) && (limit <? value))%Z then [msg1 ++ itoa limit ++ msg2 ++ itoa value] else [].
Definition ValidateQuery (cfg : GraphQL) (s : gschema) (r : GRequest) : list gostring :=
  match CalculateComplexity s r with
  | Err e => RequestErrorsFromError e
  | Ok result =>
      exceeds (gc_MaxQueryComplexity cfg) (cr_Complexity result)
        "the maximum query complexity value has been exceeded. The maximum query complexity value is "
        ". The current query complexity is "
      ++ exceeds (gc_MaxQueryDepth cfg) (cr_Depth result)
           "the maximum query depth value has been exceeded. The maximum query depth value is "
           ". The current query depth is "
      ++ exceeds (gc_NodeCountLimit cfg) (cr_NodeCount result)
           "the query node limit has been exceeded. The query node count limit is "
           ". The current query node count value is "
  end.

(** * The validation of a query *)

Record ValidationResult := MkResult { vr_Valid : bool; vr_GErrors : option gerrors }.
Definition ErrNotAllowIntrospectionQuery : gostring := "introspection queries are not allowed".

(** A result and an internal error. *)
Notation verdict := (ValidationResult * option gostring)%type.
Definition refused_query (errs : list gostring) : verdict := (MkResult false (Some (as_Errors errs)), None).
Definition invalid (msg : gostring) : verdict := refused_query (RequestErrorsFromError msg).
Definition internal_error (msg : gostring) : verdict := (MkResult false None, Some msg).

(** The checks by the schema. *)
Definition validate_schema (cfg : GraphQL) (s : gschema) (d : document) (r : GRequest) : outcome verdict :=
  match Normalize s r with
  | Err e => Ret (internal_error e)
  | Ok (n, Successful, errs) =>
      if negb Successful then Ret (MkResult false errs, None)
      else
        match ValidateForSchema s n with
        | Err e => Ret (internal_error e)
        | Ok (Valid, errs) =>
            if negb Valid then Ret (MkResult false errs, None)
            else if gc_DisableFieldDuplication cfg then
              err <-! validateDuplicateFields d ;;
              Ret (match err with Some e => invalid e | None => (MkResult true None, None) end)
            else Ret (MkResult true None, None)
        end
  end.

Definition validate_document (cfg : GraphQL) (s : gschema) (r : GRequest) : outcome verdict :=
  let d := ParseGraphqlDocumentString (gq_Query r) in
  match validateOperationName d r with
  | Some e => Ret (invalid e)
  | None =>
      match (if (0 <? gc_MaxAliasesNum cfg)%Z then validateAliasesNum d (gc_MaxAliasesNum cfg) else None) with
      | Some e => Ret (invalid e)
      | None =>
          let limits := ((0 <? gc_NodeCountLimit cfg) || (0 <? gc_MaxQueryDepth cfg)
                         || (0 <? gc_MaxQueryComplexity cfg))%Z in
          match (if limits then ValidateQuery cfg s r else []) with
          | [] => validate_schema cfg s d r
          | errs => Ret (refused_query errs)
          end
      end
  end.

Definition ValidateGraphQLRequest (cfg : GraphQL) (s : gschema) (r : GRequest) : outcome verdict :=
  if negb (gc_Introspection cfg) then
    match IsIntrospectionQuery r with
    | Err e => Ret (internal_error e)
    | Ok true => Ret (invalid ErrNotAllowIntrospectionQuery)
    | Ok false => validate_document cfg s r
    end
  else validate_document cfg s r.

(** * Reading a request *)

(** One object of a request: the query and the name have to be texts. *)
Definition text_member (v : json) (key : gostring) : result gostring gostring :=
  match json_Get (Some v) key with None => Ok [] | Some x => StringBytes x end.
Definition unmarshal_query (v : json) : result gostring GRequest :=
  let variables := match json_Get (Some v) "variables" with Some x => MarshalTo x | None => [] end in
  query <-? text_member v "query" ;;
  opName <-? text_member v "operationName" ;;
  Ok (MkGRequest opName variables query).

Fixpoint unmarshal_batch (l : list json) : result gostring (list GRequest) :=
  match l with
  | [] => Ok []
  | v :: l' => q <-? unmarshal_query v ;; qs <-? unmarshal_batch l' ;; Ok (q :: qs)
  end.

Definition UnmarshalGraphQLRequest (requestBytes : gostring) : result gostring (list GRequest) :=
  match requestBytes with
  | [] => Err ErrEmptyRequest
  | _ =>
      parsedRequest <-? ParseBytes requestBytes ;;
      match parsedRequest with
      | JObject _ => q <-? unmarshal_query parsedRequest ;; Ok [q]
      | JArray batchQueries => unmarshal_batch batchQueries
      | _ => Err (str "JSON parsing error: invalid query")
      end
  end.

(** [ParseGraphQLRequest]: the text of the query of a GET request is unescaped
    (once more than its arguments already are) and encoded; its operation name is
    not. *)
Definition peek_arg (args : list (gostring * gostring)) (key : gostring) : gostring :=
  default [] (obj_get key args).
Definition quote : gostring := ["034"%char].
Definition get_query (args : list (gostring * gostring)) : result gostring gostring :=
  match query_unescape (peek_arg args "query") with
  | None => Err (str "invalid URL escape")
  | Some queryArgQuery =>
      Ok (str "{" ++ quote ++ str "query" ++ quote ++ str ":" ++ json_Encode queryArgQuery
          ++ str "," ++ quote ++ str "operationName" ++ quote ++ str ":" ++ quote
          ++ peek_arg args "operationName" ++ quote ++ str "}")
  end.

Fixpoint check_types (isGet : bool) (qs : list GRequest) : result gostring unit :=
  match qs with
  | [] => Ok ()
  | q :: qs' =>
      operationType <-? OperationType q ;;
      match operationType with
      | OperationTypeQuery => check_types isGet qs'
      | _ => if isGet then Err (str "wrong GraphQL query type in GET request") else check_types isGet qs'
      end
  end.

Definition ParseGraphQLRequest (QueryArgs : freq → list (gostring * gostring)) (rq : freq)
  : result gostring (list GRequest) :=
  let isGet := fq_Method rq =?s "GET" in
  query <-? (if isGet then get_query (QueryArgs rq)
             else if fq_Method rq =?s "POST" then Ok (fq_Body rq) else Ok []) ;;
  match query with
  | [] => Err (str "GraphQL query not found in the request")
  | _ =>
      gqlRequest <-? UnmarshalGraphQLRequest query ;;
      _ <-? check_types isGet gqlRequest ;;
      Ok gqlRequest
  end.
End GraphQL.

(** * The handler of HTTP requests *)

Definition set_fq_Path (v : gostring) (r : freq) : freq :=
  let '(MkFreq m s hh uh p q pr h c b) := r in MkFreq m s hh uh v q pr h c b.

Definition ErrInvalidQuery : gostring := "invalid query".
Definition ErrNetworkConnection : gostring := "network connection error".

Section GraphQLHandler.
Context `{JSONPkg} `{GraphQLPkg} `{CachePkg}.
(** fasthttp: the arguments of the query and whether a request asks for a WebSocket;
    the text of an error ([WriteResponse]). *)
Context (QueryArgs : freq → list (gostring * gostring)) (IsWebSocketUpgrade : freq → bool)
  (ConnectionUpgrade : http_Header → bool)
  (graphql_error : gostring → gostring).

Record GHandler := MkGHandler {
  gh_cfg : GraphQL;
  gh_RequestHostHeader : gostring;
  gh_serverPath : gostring;
  gh_proxyPool : pool;
  gh_schema : gschema;
  gh_websocket : Handler
}.

(** Forwarding, with the answer to an error. *)
Definition graphql_forward (h : GHandler) : Handler :=
  err <-- Perform (gh_proxyPool h) (gh_RequestHostHeader h) ;;
  match err with
  | Some _ =>
      log (LogError "request proxying") ;;;
      (cmd_modify (upd_Response (set_fp_Status 500)) ;;; RespondGraphQLErrors (graphql_error ErrNetworkConnection))
  | None => cmd_ret None
  end.

(** The goroutines that validate the queries, all of which run: how many of them
    fail, each with a message.  A panic of one of them is not recovered and ends the
    process; here it is the outcome [Panic] of the handler, and nothing is sent. *)
Definition query_fails (cfg : GraphQL) (s : gschema) (q : GRequest) : outcome bool :=
  '(result, err) <-! ValidateGraphQLRequest cfg s q ;;
  Ret (match err with
       | Some _ => true
       | None => negb (vr_Valid result) && match vr_GErrors result with Some _ => true | None => false end
       end).
Fixpoint queries_failed (cfg : GraphQL) (s : gschema) (qs : list GRequest) : outcome nat :=
  match qs with
  | [] => Ret 0
  | q :: qs' =>
      b <-! query_fails cfg s q ;; n <-! queries_failed cfg s qs' ;;
      Ret (if (b : bool) then S n else n)
  end.

Definition invalid_query (h : GHandler) (msgs : list gostring) (next : Handler) : Handler :=
  cmd_modify (upd_Log (λ l, l ++ map LogError msgs)) ;;;
  (if equal_fold (gc_RequestValidation (gh_cfg h)) ValidationBlock
   then RespondGraphQLErrors (graphql_error ErrInvalidQuery) else next).

Definition query_message : gostring := "GraphQL query validation".
Definition validate_queries (h : GHandler) (gqlRequest : list GRequest) : Handler :=
  failed <-- cmd_lift (queries_failed (gh_cfg h) (gh_schema h) gqlRequest) ;;
  match failed with
  | 0 => graphql_forward h
  | S _ => invalid_query h (replicate failed query_message) (graphql_forward h)
  end.

Definition check_batch (h : GHandler) (gqlRequest : list GRequest) : Handler :=
  let limit := gc_BatchQueryLimit (gh_cfg h) in
  if ((0 <? limit) && (limit <? Z.of_nat (length gqlRequest)))%Z
  then invalid_query h [query_message] (validate_queries h gqlRequest) else validate_queries h gqlRequest.

(** [GraphQLHandle]. *)
Definition GraphQLHandle (h : GHandler) : Handler :=
  cmd_modify (upd_Request (set_fq_Path (gh_serverPath h))) ;;;
  (rq <-- cmd_get cx_Request ;;
   if IsWebSocketUpgrade rq then gh_websocket h
   else if (fq_Method rq =?s "POST")
           && negb (equal_fold (header_Get (fq_Header rq) "Content-Type") "application/json")
   then RespondError 403 []
   else if (fq_Method rq =?s "GET") && is_empty (peek_arg (QueryArgs rq) "query")
   then cmd_modify (upd_Response (set_fp_Status 400)) ;;; RespondGraphQLErrors (graphql_error ErrInvalidQuery)
   else if equal_fold (gc_RequestValidation (gh_cfg h)) ValidationDisable then graphql_forward h
   else
     match ParseGraphQLRequest QueryArgs rq with
     | Err _ => invalid_query h [str "GraphQL request unmarshal"] (check_batch h [])
     | Ok gqlRequest => check_batch h gqlRequest
     end).

(** * The routes *)

Context `{RegexpPkg} `{NetHTTPPkg}.

(** What [Handlers] gets with the handler.  [ge_graphqlPath] is the path of the
    API host. *)
Record graphql_env := MkGraphQLEnv {
  ge_Scheme : gostring;
  ge_Host : gostring;
  ge_DeleteAcceptEncoding : bool;
  ge_AllowIPHeader : gostring;
  ge_allowedIPs : option entries;
  ge_CookieName : gostring;
  ge_HeaderName : gostring;
  ge_TrimBearerPrefix : bool;
  ge_deniedTokens : option entries;
  ge_trace : bool;
  ge_graphqlPath : gostring;
  ge_playground : list (gostring * http_Handler)
}.

Definition graphql_proxy_options (cfg : GraphQL) (e : graphql_env) : ProxyOptions :=
  MkProxyOptions GraphQLMode (gc_RequestValidation cfg) (ge_DeleteAcceptEncoding e) (ge_Scheme e) (ge_Host e).
Definition graphql_ip_options (e : graphql_env) : IPAllowListOptions :=
  MkIPAllow GraphQLMode (ge_AllowIPHeader e) 401 (ge_allowedIPs e).
Definition graphql_token_options (e : graphql_env) : DenylistOptions :=
  MkDenylist GraphQLMode (ge_CookieName e) (ge_HeaderName e) (ge_TrimBearerPrefix e) 401 (ge_deniedTokens e).

Definition graphql_middlewares (cfg : GraphQL) (e : graphql_env) : list (option Middleware) :=
  map Some
    [ Logger (ge_trace e);
      Errors;
      Panics;
      Proxy ConnectionUpgrade (graphql_proxy_options cfg e);
      IPAllowlist graphql_error (graphql_ip_options e);
      Denylist graphql_error (graphql_token_options e) ].

(** The default handler is nil. *)
Definition graphql_options : AppAdditionalOptions := MkAppOptions GraphQLMode false cmd_panic.

(** The pages of the playground, handlers of net/http. *)
Definition playground_pages (e : graphql_env) : list (gostring * Handler) :=
  map (λ '(path, handler), (path, NewFastHTTPHandler handler true)) (ge_playground e).

Definition graphql_app (mt : method_table) (e : graphql_env) (h : GHandler) : App :=
  let path := or_default (ge_graphqlPath e) "/" in
  let app := NewApp graphql_options (graphql_middlewares (gh_cfg h) e) in
  let app := (Handle mt app "GET" path None (GraphQLHandle h) [None]).1 in
  let app := (Handle mt app "POST" path None (GraphQLHandle h) []).1 in
  if gc_Playground (gh_cfg h)
  then fold_left (λ app '(p, handler), (Handle mt app "GET" p None handler []).1) (playground_pages e) app
  else app.
End GraphQLHandler.
