(* ===== verification/WebSocket.v ===== *)
(** WebSockets of the GraphQL mode: the connection to the backend
    (internal/platform/proxy: wsClient.go, ws.go) and the session that copies
    messages in both directions (cmd/api-firewall/internal/handlers/graphql/wsHandler.go).

    Logging of messages, and buffers that are pooled, are left out. *)
From S2P Require Import Prelude Cmd GoStrings RouterPattern RouterTree RouterMux Values URLValues ParamDecoder BodyDecoder NetIP AccessLists Web Mid Adaptor Backend GraphQL.

Section WebSocket.
Context `{JSONPkg} `{GraphQLPkg}.

(** * The connection to the backend *)

(** [builtinForwardHeaderHandler]. *)
Definition forward_header (name : gostring) (rq : freq) (h : http_Header) : http_Header :=
  match header_Get (fq_Header rq) name with [] => h | v => Header_Add h name v end.
Definition builtinForwardHeaderHandler (rq : freq) : http_Header :=
  forward_header "Cookie" rq (forward_header "Origin" rq ∅).

(** [wsCopyResponse]: the headers in the order of the map, the status, and the body
    unless reading it fails. *)
Record ws_response := MkWSResponse {
  wr_StatusCode : Z;
  wr_Header : list (gostring * list gostring);
  wr_Body : result gostring gostring
}.
Definition wsCopyResponse (src : ws_response) : Cmd (option gostring) :=
  cmd_modify (upd_Response (λ dst,
    set_fp_Status (wr_StatusCode src)
      (upd_fp_Header (λ h, fold_left (λ h '(k, vv), fold_left (λ h v, Header_Add h k v) vv h) (wr_Header src) h) dst))) ;;;
  match wr_Body src with
  | Err e => cmd_ret (Some e)
  | Ok body => cmd_modify (upd_Response (upd_fp_Body (λ _, body))) ;;; cmd_ret None
  end.

(** [NewWSClient], as the address it dials, and [GetConn]; [Dial] is the dialer. *)
Record WSClientOptions := MkWSOptions {
  wo_Scheme : gostring; wo_Host : gostring; wo_Path : gostring;
  wo_InsecureConnection : bool; wo_RootCA : gostring
}.
Definition ConnStr (o : WSClientOptions) : gostring :=
  wo_Scheme o ++ str "://" ++ path_Join (wo_Host o) (wo_Path o).
Definition NewWSClient (readCA : gostring → result gostring gostring) (appendCerts : gostring → bool)
    (o : WSClientOptions) : result gostring gostring :=
  _ <-? BuildTLSConfig readCA appendCerts (wo_InsecureConnection o) (wo_RootCA o) ;;
  Ok (ConnStr o).
Definition GetConn (Dial : gostring → http_Header → result gostring ws_response) (connStr : gostring)
  : Cmd (option gostring) :=
  rq <-- cmd_get cx_Request ;;
  match Dial connStr (builtinForwardHeaderHandler rq) with
  | Err e => cmd_ret (Some e)
  | Ok backendResp => wsCopyResponse backendResp
  end.

(** [HandleWebSocketProxy] up to the session; [Upgrade] is the upgrader, which sets
    the response itself. *)
Definition HandleWebSocketProxy (Dial : gostring → http_Header → result gostring ws_response)
    (connStr : gostring) (Upgrade : Cmd (option gostring)) : Handler :=
  err <-- GetConn Dial connStr ;;
  match err with
  | Some _ => log (LogError "Connecting to the server WS error") ;;; RespondError 503 []
  | None =>
      err <-- Upgrade ;;
      match err with
      | Some _ => log (LogError "WebSocket handler") ;;; cmd_ret None
      | None => cmd_ret None
      end
  end.

(** [CheckOrigin] of the upgrader. *)
Definition CheckOrigin (cfg : GraphQL) (rq : freq) : bool :=
  if negb (gc_WSCheckOrigin cfg) then true
  else existsb (λ o, o =?s header_Get (fq_Header rq) "Origin") (gc_WSOrigin cfg).

(** * Messages *)

(** What is written to the connections of a session, and which of the next writes
    succeed (all after the end of the list). *)
Inductive ws_event := ToBackend (messageType : Z) (p : gostring) | ToClient (messageType : Z) (p : gostring).
Record wsstate := MkWS { ws_trace : list ws_event; ws_writes : list bool }.

Definition TextMessage : Z := 1.
Definition BinaryMessage : Z := 2.
Definition CloseMessage : Z := 8.

Definition WriteMessage (e : ws_event) : cmd wsstate bool := λ s,
  match ws_writes s with
  | [] => (MkWS (ws_trace s ++ [e]) [], Ret true)
  | true :: w => (MkWS (ws_trace s ++ [e]) w, Ret true)
  | false :: w => (MkWS (ws_trace s) w, Ret false)
  end.

(** [SendError] and [SendComplete]; [marshal_error] is the JSON of the message. *)
Context (marshal_error : gostring → option gerrors → result gostring gostring).

Definition SendError (messageType : Z) (msgID : gostring) (requestErrors : option gerrors) : cmd wsstate bool :=
  match marshal_error msgID requestErrors with
  | Err _ => cmd_ret false
  | Ok msg => WriteMessage (ToClient messageType msg)
  end.
Definition complete_message (id : gostring) : gostring :=
  str "{" ++ quote ++ str "id" ++ quote ++ str ":" ++ quote ++ id ++ quote ++ str ","
  ++ quote ++ str "type" ++ quote ++ str ":" ++ quote ++ str "complete" ++ quote ++ str "}".
Definition SendComplete (messageType : Z) (id : gostring) : cmd wsstate bool :=
  WriteMessage (ToClient messageType (complete_message id)).

(** ** From the client to the backend *)

(** The refusal of a query; the errors of the writes are logged. *)
Definition refuse_query (messageType : Z) (msgID : gostring) (errs : option gerrors) : cmd wsstate bool :=
  _ <-- SendError messageType msgID errs ;;
  _ <-- SendComplete messageType msgID ;;
  cmd_ret true.

(** A query, from its validation on.  In log-only mode a query whose validation
    fails with an internal error is written once here and once below. *)
Definition forward_query (cfg : GraphQL) (s : gschema) (messageType : Z) (p msgID : gostring) (q : GRequest)
  : cmd wsstate bool :=
  '(result, err) <-- cmd_lift (ValidateGraphQLRequest cfg s q) ;;
  let block := equal_fold (gc_RequestValidation cfg) ValidationBlock in
  let rest :=
    if negb (vr_Valid result) && block then refuse_query messageType msgID (vr_GErrors result)
    else WriteMessage (ToBackend messageType p) in
  match err with
  | Some _ =>
      if block then refuse_query messageType msgID
                      (Some (as_Errors (RequestErrorsFromError "invalid graphql request")))
      else
        ok <-- WriteMessage (ToBackend messageType p) ;;
        if (ok : bool) then rest else cmd_ret false
  | None => rest
  end.

Definition ws_query (msg : json) : GRequest :=
  let msgPayload := json_Get (Some msg) "payload" in
  MkGRequest (GetStringBytes (json_Get msgPayload "operationName"))
    (GetStringBytes (json_Get msgPayload "variables"))
    (GetStringBytes (json_Get msgPayload "query")).
Definition is_query (msg : json) : bool :=
  let msgType := GetStringBytes (json_Get (Some msg) "type") in
  (msgType =?s "subscribe") || (msgType =?s "start").

(** A message of the client: whether the loop goes on. *)
Definition client_message (cfg : GraphQL) (s : gschema) (messageType : Z) (p : gostring) : cmd wsstate bool :=
  if equal_fold (gc_RequestValidation cfg) ValidationDisable || is_empty p
     || (negb (messageType =? TextMessage) && negb (messageType =? BinaryMessage))%Z
  then WriteMessage (ToBackend messageType p)
  else
    match ParseBytes p with
    | Err _ =>
        if equal_fold (gc_RequestValidation cfg) ValidationLog then WriteMessage (ToBackend messageType p)
        else cmd_ret true
    | Ok msg =>
        if negb (is_query msg) then WriteMessage (ToBackend messageType p)
        else forward_query cfg s messageType p (GetStringBytes (json_Get (Some msg) "id")) (ws_query msg)
    end.

(** * A session *)

(** The two goroutines: at their select, reading, or ended; how often each of the
    channels was closed, since closing one twice panics. *)
Inductive loop_pc := AtSelect | Reading | Stopped.
Record session := MkSession {
  ss_client : loop_pc;
  ss_backend : loop_pc;
  ss_errClient : nat;
  ss_errBackend : nat;
  ss_ws : wsstate
}.

(** Where a step comes from. *)
Inductive ws_source := Internal | FromClient | FromBackend.

Inductive ws_step (cfg : GraphQL) (sc : gschema) : ws_source → session → session → Prop :=
  | client_notified b ec eb w :
      0 < eb → ws_step cfg sc Internal (MkSession AtSelect b ec eb w) (MkSession Stopped b (S ec) eb w)
  | client_reads b ec w :
      ws_step cfg sc Internal (MkSession AtSelect b ec 0 w) (MkSession Reading b ec 0 w)
  | client_writes t p b ec eb w w' :
      client_message cfg sc t p w = (w', Ret true) →
      ws_step cfg sc FromClient (MkSession Reading b ec eb w) (MkSession AtSelect b ec eb w')
  | client_fails t p b ec eb w w' :
      client_message cfg sc t p w = (w', Ret false) →
      ws_step cfg sc FromClient (MkSession Reading b ec eb w) (MkSession Stopped b (S ec) eb w')
  | client_closed b ec eb w :
      ws_step cfg sc FromClient (MkSession Reading b ec eb w) (MkSession Stopped b (S ec) eb w)
  | backend_notified c ec eb w :
      0 < ec → ws_step cfg sc Internal (MkSession c AtSelect ec eb w) (MkSession c Stopped ec (S eb) w)
  | backend_reads c eb w :
      ws_step cfg sc Internal (MkSession c AtSelect 0 eb w) (MkSession c Reading 0 eb w)
  | backend_writes t p c ec eb w w' :
      WriteMessage (ToClient t p) w = (w', Ret true) →
      ws_step cfg sc FromBackend (MkSession c Reading ec eb w) (MkSession c AtSelect ec eb w')
  | backend_fails t p c ec eb w w' :
      WriteMessage (ToClient t p) w = (w', Ret false) →
      ws_step cfg sc FromBackend (MkSession c Reading ec eb w) (MkSession c Stopped ec (S eb) w')
  | backend_closed c ec eb w :
      ws_step cfg sc FromBackend (MkSession c Reading ec eb w) (MkSession c Stopped ec (S eb) w).

Definition new_session (w : wsstate) : session := MkSession AtSelect AtSelect 0 0 w.

(** After both goroutines: [closeWSConn] of the backend, then of the client;
    [close_text] is the body of the message. *)
Definition closeWSConns (close_text : gostring) : cmd wsstate unit :=
  _ <-- WriteMessage (ToBackend CloseMessage close_text) ;;
  _ <-- WriteMessage (ToClient CloseMessage close_text) ;;
  cmd_ret ().
End WebSocket.
