(* ===== verification/GraphQLSpec.v ===== *)
(** Properties of the GraphQL mode: when a query is valid, what the whole
    application sends to the backend, and what a WebSocket session lets pass. *)
From S2P Require Import Prelude Cmd GoStrings RouterPattern RouterTree RouterInv RouterInsert RouterFind RouterMux Values URLValues ParamDecoder BodyDecoder NetIP AccessLists Web Mid MidSpec Adaptor ProxyHandler ProxySpec Backend GraphQL WebSocket.

(** * Queries *)

Section Validation.
Context `{JSONPkg} `{GraphQLPkg}.

(** The names of the fields without selections of a selection set; none when a
    reference is out of range. *)
Fixpoint leaf_names (d : document) (refs : list nat) : option (list gostring) :=
  match refs with
  | [] => Some []
  | cs :: refs' =>
      sel ← doc_Selections d !! cs;
      field ← doc_Fields d !! sel_Ref sel;
      l ← leaf_names d refs';
      Some (if gf_HasSelections field then l else FieldNameString d (sel_Ref sel) :: l)
  end.

Definition bump (m : gmap gostring Z) (name : gostring) : gmap gostring Z :=
  (<[name := match m !! name with None => 1 | Some n => n + 1 end]> m)%Z.

Lemma count_fields_spec d refs m :
  count_fields d refs m = match leaf_names d refs with None => Panic | Some l => Ret (fold_left bump l m) end.
Proof.
  revert m. induction refs as [|cs refs IH]; intros m; cbn; [done|].
  destruct (doc_Selections d !! cs) as [sel|]; cbn; [|done].
  destruct (doc_Fields d !! sel_Ref sel) as [field|]; cbn; [|done].
  destruct (gf_HasSelections field); rewrite IH; by destruct (leaf_names d refs).
Qed.

(** No count exceeds one exactly when no name occurs twice. *)
Lemma bump_lookup m x k n :
  bump m x !! k = Some n ↔
  k = x ∧ n = (match m !! x with None => 1 | Some n => n + 1 end)%Z ∨ k ≠ x ∧ m !! k = Some n.
Proof. unfold bump. rewrite lookup_insert_Some. naive_solver. Qed.

Lemma bump_single m x :
  (∀ k n, m !! k = Some n → 1 ≤ n)%Z →
  (∀ k n, bump m x !! k = Some n → n ≤ 1)%Z ↔ (∀ k n, m !! k = Some n → n ≤ 1)%Z ∧ m !! x = None.
Proof.
  intros Hpos. split.
  - intros Hle. assert (Hx : m !! x = None).
    { destruct (m !! x) as [n|] eqn:E; [|done]. specialize (Hpos _ _ E).
      specialize (Hle x (n + 1)%Z). rewrite bump_lookup, E in Hle. specialize (Hle (or_introl (conj eq_refl eq_refl))). lia. }
    split; [|done]. intros k n Hk. apply (Hle k n), bump_lookup. right. split; [congruence|done].
  - intros [Hle Hx] k n. rewrite bump_lookup, Hx. intros [[_ ->]|[_ Hk]]; [lia|by apply (Hle k)].
Qed.

Lemma bump_le_1 l m :
  (∀ k n, m !! k = Some n → 1 ≤ n)%Z →
  (∀ k n, fold_left bump l m !! k = Some n → n ≤ 1)%Z ↔
  (∀ k n, m !! k = Some n → n ≤ 1)%Z ∧ NoDup l ∧ ∀ k, k ∈ l → m !! k = None.
Proof.
  revert m. induction l as [|x l IH]; intros m Hpos; cbn [fold_left].
  { split; [|by intros [? _]]. intros Hle. split; [done|]. split; [constructor|by intros ? ?%not_elem_of_nil]. }
  assert (Hpos' : ∀ k n, bump m x !! k = Some n → (1 ≤ n)%Z).
  { intros k n. rewrite bump_lookup. intros [[_ ->]|[_ Hk]]; [|by apply (Hpos k)].
    destruct (m !! x) as [n0|] eqn:E; [specialize (Hpos _ _ E)|]; lia. }
  rewrite (IH _ Hpos'), (bump_single m x Hpos), NoDup_cons.
  assert (Hl : (∀ k, k ∈ l → bump m x !! k = None) ↔ x ∉ l ∧ ∀ k, k ∈ l → m !! k = None).
  { setoid_rewrite eq_None_not_Some. unfold is_Some. setoid_rewrite bump_lookup. split.
    - intros Hn. split; [intros Hx; apply (Hn x Hx); eauto|]. intros k Hk [n Hs].
      destruct (decide (k = x)) as [->|Hne]; apply (Hn _ Hk); eauto.
    - intros [Hx Hn] k Hk (n & [[-> _]|[_ Hs]]); [done|]. apply (Hn k Hk). eauto. }
  rewrite Hl. setoid_rewrite elem_of_cons. naive_solver.
Qed.

Lemma duplicates_loop_spec d sets :
  duplicates_loop d sets = Ret false ↔ ∀ refs, refs ∈ sets → ∃ l, leaf_names d refs = Some l ∧ NoDup l.
Proof.
  induction sets as [|refs sets IH]; cbn [duplicates_loop].
  { split; [by intros _ ? ?%not_elem_of_nil|done]. }
  rewrite count_fields_spec. setoid_rewrite elem_of_cons.
  destruct (leaf_names d refs) as [l|] eqn:El; cbn [obind].
  2:{ split; [done|]. intros Hs. destruct (Hs refs (or_introl eq_refl)) as (l & ? & _). congruence. }
  assert (Hdup : existsb (λ kn, 1 <? kn.2)%Z (map_to_list (fold_left bump l ∅)) = false ↔ NoDup l).
  { transitivity (∀ k n, fold_left bump l ∅ !! k = Some n → n ≤ 1)%Z.
    - split.
      + intros He k n Hk. apply Z.nlt_ge. intros Hn. apply not_true_iff_false in He. apply He.
        apply existsb_exists. exists (k, n). split; [|by apply Z.ltb_lt].
        by apply list_elem_of_In, elem_of_map_to_list.
      + intros Hle. apply not_true_iff_false. intros ([k n] & Hin & Hn)%existsb_exists.
        apply list_elem_of_In, elem_of_map_to_list, Hle in Hin. apply Z.ltb_lt in Hn. cbn in *. lia.
    - rewrite bump_le_1 by (intros k n; by rewrite lookup_empty). setoid_rewrite lookup_empty. naive_solver. }
  destruct (existsb _ _).
  - split; [done|]. intros Hs. destruct (Hs refs (or_introl eq_refl)) as (l' & ? & Hnd).
    assert (l' = l) as -> by congruence. by apply Hdup in Hnd.
  - rewrite IH. split; [|by auto]. intros Hs refs' [->|Hr]; [|by apply Hs].
    exists l. split; [done|]. by apply Hdup.
Qed.

(** C34: the search for duplicate fields uses the reference of every selection as
    the index of a field, although the reference of a fragment is the index of a
    fragment: it panics on a document with a selection whose reference is no index
    of a field, unless a duplicate is found before. *)
Theorem reference_panics d before refs cs sel after after' :
  doc_SelectionSets d = before ++ (refs ++ cs :: after) :: after' →
  (∀ r, r ∈ before → ∃ l, leaf_names d r = Some l ∧ NoDup l) →
  doc_Selections d !! cs = Some sel → length (doc_Fields d) ≤ sel_Ref sel →
  validateDuplicateFields d = Panic.
Proof.
  intros Hsets Hbefore Hsel Hlen. unfold validateDuplicateFields. rewrite Hsets. clear Hsets.
  assert (Hnone : leaf_names d (refs ++ cs :: after) = None).
  { apply lookup_ge_None_2 in Hlen. induction refs as [|r refs IH]; cbn [app leaf_names].
    - rewrite Hsel. cbn. by rewrite Hlen.
    - destruct (doc_Selections d !! r) as [sel'|]; cbn; [|done].
      destruct (doc_Fields d !! sel_Ref sel') as [f|]; cbn; [|done]. by rewrite IH. }
  induction before as [|r before IH]; cbn [app duplicates_loop].
  - by rewrite count_fields_spec, Hnone.
  - assert (Hr : duplicates_loop d [r] = Ret false).
    { apply duplicates_loop_spec. intros r' ->%list_elem_of_singleton. apply Hbefore, list_elem_of_here. }
    cbn [duplicates_loop] in Hr. destruct (count_fields d r ∅) as [m|]; [|done]. cbn [obind] in *.
    destruct (existsb _ _); [done|]. apply IH. intros r' Hr'. apply Hbefore. by apply list_elem_of_further.
Qed.

(** ** Valid queries *)

Definition within (limit value : Z) : Prop := (limit ≤ 0 ∨ value ≤ limit)%Z.
Definition aliases (d : document) : Z := Z.of_nat (length (List.filter gf_AliasIsDefined (doc_Fields d))).

Definition within_limits (cfg : GraphQL) (s : gschema) (r : GRequest) : Prop :=
  match CalculateComplexity s r with
  | Ok c => within (gc_MaxQueryComplexity cfg) (cr_Complexity c) ∧ within (gc_MaxQueryDepth cfg) (cr_Depth c)
            ∧ within (gc_NodeCountLimit cfg) (cr_NodeCount c)
  | Err e => RequestErrorsFromError e = []
  end.

Record query_valid (cfg : GraphQL) (s : gschema) (r : GRequest) : Prop := {
  qv_introspection : gc_Introspection cfg = true ∨ IsIntrospectionQuery r = Ok false;
  qv_name :
    let d := ParseGraphqlDocumentString (gq_Query r) in
    let name := trim_space (gq_OperationName r) in
    (name ≠ [] ∨ NumOfOperationDefinitions d ≤ 1)%Z ∧ OperationNameExists d name = true;
  qv_aliases : within (gc_MaxAliasesNum cfg) (aliases (ParseGraphqlDocumentString (gq_Query r)));
  qv_complexity :
    (gc_NodeCountLimit cfg ≤ 0 ∧ gc_MaxQueryDepth cfg ≤ 0 ∧ gc_MaxQueryComplexity cfg ≤ 0)%Z
    ∨ within_limits cfg s r;
  qv_schema : ∃ n errs errs', Normalize s r = Ok (n, true, errs) ∧ ValidateForSchema s n = Ok (true, errs');
  qv_fields :
    gc_DisableFieldDuplication cfg = true →
    let d := ParseGraphqlDocumentString (gq_Query r) in
    ∀ refs, refs ∈ doc_SelectionSets d → ∃ l, leaf_names d refs = Some l ∧ NoDup l
}.

(** A verdict that lets a query pass. *)
Definition accepts (o : outcome (ValidationResult * option gostring)) : Prop :=
  ∃ res, o = Ret (res, None) ∧ vr_Valid res = true.

Lemma accepts_Ret b errs err : accepts (Ret (MkResult b errs, err)) ↔ b = true ∧ err = None.
Proof.
  split; [by intros (res & [= <- ->] & Hv)|]. intros [-> ->]. by eexists.
Qed.
Lemma accepts_Panic : ¬ accepts Panic.
Proof. by intros (? & ? & _). Qed.
Lemma accepts_invalid msg : ¬ accepts (Ret (invalid msg)).
Proof. unfold invalid, refused_query. rewrite accepts_Ret. by intros [? _]. Qed.

Lemma getNumOfAliases_filter fields : getNumOfAliases fields = Z.of_nat (length (List.filter gf_AliasIsDefined fields)).
Proof. induction fields as [|f fields IH]; cbn; [done|]. destruct (gf_AliasIsDefined f); cbn; lia. Qed.

Lemma validateOperationName_spec d r :
  validateOperationName d r = None ↔
  (trim_space (gq_OperationName r) ≠ [] ∨ NumOfOperationDefinitions d ≤ 1)%Z
  ∧ OperationNameExists d (trim_space (gq_OperationName r)) = true.
Proof.
  unfold validateOperationName. set (name := trim_space _).
  destruct (is_empty name && (1 <? NumOfOperationDefinitions d)%Z) eqn:Hn.
  - split; [done|]. apply andb_prop in Hn as [Hn Hd%Z.ltb_lt]. intros [[Hne|Hle] _]; [|lia].
    by destruct name.
  - apply andb_false_iff in Hn. destruct (OperationNameExists d name); cbn; [|split; [done|by intros [_ ?]]].
    split; [|done]. intros _. split; [|done].
    destruct Hn as [Hn|Hn%Z.ltb_ge]; [left; by destruct name|by right].
Qed.

Lemma aliases_spec d (limit : Z) :
  (if (0 <? limit)%Z then validateAliasesNum d limit else None) = None ↔ within limit (aliases d).
Proof.
  unfold validateAliasesNum, within, aliases. rewrite getNumOfAliases_filter.
  destruct (Z.ltb_spec 0 limit); [|by split; [left|]].
  destruct (Z.ltb_spec limit (Z.of_nat (length (List.filter gf_AliasIsDefined (doc_Fields d)))));
    split; try done; [intros [?|?]; lia|by right].
Qed.

Lemma exceeds_spec limit value m1 m2 : exceeds limit value m1 m2 = [] ↔ within limit value.
Proof.
  unfold exceeds, within. destruct (Z.ltb_spec 0 limit), (Z.ltb_spec limit value); cbn; split; try done; try lia.
Qed.

Lemma ValidateQuery_spec cfg s r : ValidateQuery cfg s r = [] ↔ within_limits cfg s r.
Proof.
  unfold ValidateQuery, within_limits. destruct (CalculateComplexity s r) as [c|e]; [|done].
  by rewrite !app_nil, !exceeds_spec.
Qed.

Lemma complexity_spec cfg s r :
  (if ((0 <? gc_NodeCountLimit cfg) || (0 <? gc_MaxQueryDepth cfg) || (0 <? gc_MaxQueryComplexity cfg))%Z
   then ValidateQuery cfg s r else []) = []
  ↔ (gc_NodeCountLimit cfg ≤ 0 ∧ gc_MaxQueryDepth cfg ≤ 0 ∧ gc_MaxQueryComplexity cfg ≤ 0)%Z
    ∨ within_limits cfg s r.
Proof.
  rewrite <- ValidateQuery_spec.
  destruct (Z.ltb_spec 0 (gc_NodeCountLimit cfg)), (Z.ltb_spec 0 (gc_MaxQueryDepth cfg)),
    (Z.ltb_spec 0 (gc_MaxQueryComplexity cfg)); cbn; split; auto; intros [?|?]; auto; lia.
Qed.

Lemma validate_schema_accepts cfg s d r :
  accepts (validate_schema cfg s d r) ↔
  (∃ n errs errs', Normalize s r = Ok (n, true, errs) ∧ ValidateForSchema s n = Ok (true, errs'))
  ∧ (gc_DisableFieldDuplication cfg = true →
     ∀ refs, refs ∈ doc_SelectionSets d → ∃ l, leaf_names d refs = Some l ∧ NoDup l).
Proof.
  unfold validate_schema. rewrite <- duplicates_loop_spec.
  destruct (Normalize s r) as [[[n ok] errs]|e].
  2:{ unfold internal_error. rewrite accepts_Ret. split; [by intros [? _]|by intros [(? & ? & ? & ? & _) _]]. }
  destruct ok; cbn [negb].
  2:{ rewrite accepts_Ret. split; [by intros [? _]|by intros [(? & ? & ? & ? & _) _]]. }
  destruct (ValidateForSchema s n) as [[v errs']|e] eqn:Hv.
  2:{ unfold internal_error. rewrite accepts_Ret. split; [by intros [? _]|].
      intros [(n' & ? & ? & [= <- _] & Hn) _]. congruence. }
  destruct v; cbn [negb].
  2:{ rewrite accepts_Ret. split; [by intros [? _]|]. intros [(n' & ? & ? & [= <- _] & Hn) _]. congruence. }
  assert (Hs : ∃ n0 errs0 errs0', Ok (n, true, errs) = @Ok gostring _ (n0, true, errs0)
                 ∧ ValidateForSchema s n0 = Ok (true, errs0')) by (by exists n, errs, errs').
  destruct (gc_DisableFieldDuplication cfg); [|by rewrite accepts_Ret].
  unfold validateDuplicateFields. destruct (duplicates_loop d _) as [[]|] eqn:Hd; cbn [obind].
  - split; [by intros ?%accepts_invalid|]. intros [_ Hf]. by specialize (Hf eq_refl).
  - by rewrite accepts_Ret.
  - split; [by intros ?%accepts_Panic|]. intros [_ Hf]. by specialize (Hf eq_refl).
Qed.

Lemma validate_document_accepts cfg s r :
  accepts (validate_document cfg s r) ↔
  validateOperationName (ParseGraphqlDocumentString (gq_Query r)) r = None
  ∧ within (gc_MaxAliasesNum cfg) (aliases (ParseGraphqlDocumentString (gq_Query r)))
  ∧ ((gc_NodeCountLimit cfg ≤ 0 ∧ gc_MaxQueryDepth cfg ≤ 0 ∧ gc_MaxQueryComplexity cfg ≤ 0)%Z
     ∨ within_limits cfg s r)
  ∧ accepts (validate_schema cfg s (ParseGraphqlDocumentString (gq_Query r)) r).
Proof.
  unfold validate_document. cbv zeta. rewrite <- aliases_spec, <- complexity_spec.
  destruct (validateOperationName _ r) as [e|]; [split; [by intros ?%accepts_invalid|by intros [? _]]|].
  destruct (if (0 <? gc_MaxAliasesNum cfg)%Z then _ else _) as [e|];
    [split; [by intros ?%accepts_invalid|by intros (_ & ? & _)]|].
  destruct (if (_ || _ : bool) then ValidateQuery cfg s r else []); [split; [done|by intros (_ & _ & _ & ?)]|].
  unfold refused_query. rewrite accepts_Ret. split; [by intros [? _]|by intros (_ & _ & ? & _)].
Qed.

Lemma query_accepts cfg s r : accepts (ValidateGraphQLRequest cfg s r) ↔ query_valid cfg s r.
Proof.
  transitivity ((gc_Introspection cfg = true ∨ IsIntrospectionQuery r = Ok false)
                ∧ accepts (validate_document cfg s r)).
  - unfold ValidateGraphQLRequest. destruct (gc_Introspection cfg); cbn [negb]; [split; [auto|by intros [_ ?]]|].
    destruct (IsIntrospectionQuery r) as [[]|e].
    + split; [by intros ?%accepts_invalid|by intros [[?|?] _]].
    + split; [auto|by intros [_ ?]].
    + unfold internal_error. rewrite accepts_Ret. split; [by intros [? _]|by intros [[?|?] _]].
  - rewrite validate_document_accepts, validateOperationName_spec, validate_schema_accepts. split.
    + intros (Hi & Hn & Ha & Hc & Hs & Hf). by split.
    + intros [Hi Hn Ha Hc Hs Hf]. done.
Qed.

(** C13: a GraphQL query is valid exactly when it is no introspection query (unless
    these are allowed), it names an operation of its document (and names one when
    there are several), its aliases, complexity, depth and nodes are within the
    limits that are set, it can be normalised and matches the schema, and, when
    duplicates are not allowed, every reference of its selection sets is in range
    and no two fields without selections of a set have the same name. *)
Theorem valid_query cfg s r : accepts (ValidateGraphQLRequest cfg s r) ↔ query_valid cfg s r.
Proof. apply query_accepts. Qed.
End Validation.

(** * The application *)

Section Application.
Context `{JSONPkg} `{GraphQLPkg} `{CachePkg} `{RegexpPkg} `{NetHTTPPkg}.
Context (QueryArgs : freq → list (gostring * gostring)) (IsWebSocketUpgrade : freq → bool)
  (ConnectionUpgrade : http_Header → bool) (graphql_error : gostring → gostring).

Notation handle := (GraphQLHandle QueryArgs IsWebSocketUpgrade graphql_error).
Notation app := (graphql_app QueryArgs IsWebSocketUpgrade ConnectionUpgrade graphql_error).
Notation middlewares := (graphql_middlewares ConnectionUpgrade graphql_error).

(** The library gives errors with a result that is not successful. *)
Definition errors_reported : Prop :=
  (∀ s r n errs, Normalize s r = Ok (n, false, errs) → errs ≠ None)
  ∧ ∀ s n errs, ValidateForSchema s n = Ok (false, errs) → errs ≠ None.

(** ** One request *)

(** What a valid request holds: queries within the limit of a batch. *)
Definition request_valid (h : GHandler) (rq : freq) : Prop :=
  ∃ qs, ParseGraphQLRequest QueryArgs rq = Ok qs
    ∧ within (gc_BatchQueryLimit (gh_cfg h)) (Z.of_nat (length qs))
    ∧ Forall (query_valid (gh_cfg h) (gh_schema h)) qs.

(** A verdict that is not valid has an internal error or errors. *)
Definition told (o : outcome (ValidationResult * option gostring)) : Prop :=
  ∀ res, o = Ret (res, None) → vr_Valid res = false → vr_GErrors res ≠ None.

Lemma told_Ret b errs err : (b = false → err = None → errs ≠ None) → told (Ret (MkResult b errs, err)).
Proof. intros Hb res [= <- ->]. cbn. auto. Qed.

Lemma told_query cfg s r : errors_reported → told (ValidateGraphQLRequest cfg s r).
Proof.
  intros [Hn Hv].
  assert (Hsch : ∀ d, told (validate_schema cfg s d r)).
  { intros d. unfold validate_schema. destruct (Normalize s r) as [[[n [|]] errs]|e] eqn:En; cbn [negb];
      [|by apply told_Ret; intros _ _; eapply Hn|by apply told_Ret].
    destruct (ValidateForSchema s n) as [[[|] errs']|e] eqn:Ev; cbn [negb];
      [|by apply told_Ret; intros _ _; eapply Hv|by apply told_Ret].
    destruct (gc_DisableFieldDuplication cfg); [|by apply told_Ret].
    unfold validateDuplicateFields. destruct (duplicates_loop d _) as [[]|]; cbn [obind]; [by apply told_Ret..|done]. }
  assert (Hdoc : told (validate_document cfg s r)).
  { unfold validate_document. destruct (validateOperationName _ r); [by apply told_Ret|].
    destruct (if (0 <? gc_MaxAliasesNum cfg)%Z then _ else _); [by apply told_Ret|].
    destruct (if (_ || _ : bool) then ValidateQuery cfg s r else []); [apply Hsch|by apply told_Ret]. }
  unfold ValidateGraphQLRequest. destruct (gc_Introspection cfg); [done|]. cbn [negb].
  destruct (IsIntrospectionQuery r) as [[]|]; [by apply told_Ret|done|by apply told_Ret].
Qed.

Lemma queries_pass cfg s qs :
  errors_reported → queries_failed cfg s qs = Ret 0 → Forall (query_valid cfg s) qs.
Proof.
  intros Her. induction qs as [|q qs IH]; cbn [queries_failed]; [by constructor|].
  intros (b & Hb & Hrest)%obind_Ret. apply obind_Ret in Hrest as (n & Hn & [= Hor]).
  destruct b; [done|]. subst n. constructor; [|by apply IH]. apply query_accepts.
  unfold query_fails in Hb. apply obind_Ret in Hb as ([res [e|]] & Hv & [= Hf]).
  exists res. split; [done|]. destruct (vr_Valid res) eqn:Hval; [done|]. cbn in Hf.
  destruct (vr_GErrors res) eqn:Hg; [done|]. by destruct (told_query cfg s q Her res Hv Hval).
Qed.

(** ** The handler *)

Lemma graphql_forward_sent h x :
  cx_Sent (graphql_forward graphql_error h x).1 = cx_Sent x
  ∨ cx_Sent (graphql_forward graphql_error h x).1
    = cx_Sent x ++ [with_host (gh_RequestHostHeader h) (cx_Request x)].
Proof.
  assert (Hk : ∀ err : option herr, keeps cx_Sent (match err with
    | Some _ => log (LogError "request proxying") ;;;
                (cmd_modify (upd_Response (set_fp_Status 500)) ;;;
                 RespondGraphQLErrors (graphql_error ErrNetworkConnection))
    | None => cmd_ret (None : option herr) end)).
  { intros [e|]; unfold log, RespondGraphQLErrors; solve_keeps. }
  unfold graphql_forward. destruct (Perform_sent (gh_proxyPool h) (gh_RequestHostHeader h) x) as [Hs|Hs];
    [left|right]; rewrite <- Hs; unfold cmd_bind; destruct (Perform _ _ x) as [x1 [err|]]; cbn; try done; apply Hk.
Qed.

(** In block mode nothing follows an invalid query. *)
Lemma invalid_query_sent h msg next x :
  equal_fold (gc_RequestValidation (gh_cfg h)) ValidationBlock = true →
  cx_Sent (invalid_query graphql_error h msg next x).1 = cx_Sent x.
Proof.
  intros Hb. unfold invalid_query. rewrite Hb, bind_modify.
  unfold RespondGraphQLErrors. rewrite bind_modify. cbn. by destruct x.
Qed.

Lemma handle_block h x :
  errors_reported → to_lower (gc_RequestValidation (gh_cfg h)) = ValidationBlock →
  keeps cx_Sent (gh_websocket h) →
  let rq := set_fq_Path (gh_serverPath h) (cx_Request x) in
  cx_Sent (handle h x).1 = cx_Sent x
  ∨ request_valid h rq ∧ cx_Sent (handle h x).1 = cx_Sent x ++ [with_host (gh_RequestHostHeader h) rq].
Proof.
  intros Her Hmode Hws rq.
  assert (Hb : equal_fold (gc_RequestValidation (gh_cfg h)) ValidationBlock = true)
    by (unfold equal_fold; by rewrite Hmode).
  assert (Hd : equal_fold (gc_RequestValidation (gh_cfg h)) ValidationDisable = false)
    by (unfold equal_fold; by rewrite Hmode).
  unfold GraphQLHandle. rewrite bind_modify, bind_get.
  set (y := upd_Request _ x). assert (Hy : cx_Request y = rq) by (by destruct x).
  assert (Hsy : cx_Sent y = cx_Sent x) by (by destruct x). rewrite Hy, Hd.
  destruct (IsWebSocketUpgrade rq); [left; by rewrite Hws|].
  destruct (_ && negb _); [left; by rewrite (keeps_RespondError cx_Sent) by auto with apifw|].
  destruct (_ && is_empty _); [left; unfold RespondGraphQLErrors; rewrite !bind_modify; by destruct x|].
  destruct (ParseGraphQLRequest QueryArgs rq) as [qs|] eqn:Hp; [|left; by rewrite invalid_query_sent].
  unfold check_batch. destruct (_ && _)%Z eqn:Hl; [left; by rewrite invalid_query_sent|].
  unfold validate_queries. destruct (queries_failed _ _ qs) as [[|n]|] eqn:Hq.
  - rewrite bind_lift. destruct (graphql_forward_sent h y) as [->| ->]; rewrite Hsy; [by left|right].
    rewrite Hy. split; [|done]. exists qs. split; [done|]. split; [|by apply queries_pass].
    apply andb_false_iff in Hl as [Hl%Z.ltb_ge|Hl%Z.ltb_ge]; [by left|by right].
  - rewrite bind_lift. left. by rewrite invalid_query_sent.
  - by left.
Qed.

(** ** The routes *)

Notation new_app e h := (NewApp graphql_options (middlewares (gh_cfg h) e)).

Definition endpoint_reg (a : App) (method path : gostring) (mw : list (option Middleware)) (h : Handler) : registration :=
  Registration method path None (Some (app_handler a mw h)).

(** An application whose routes are [regs], with the middlewares and options of [a0]. *)
Definition built (mt : method_table) (a0 : App) (regs : list registration) (a : App) : Prop :=
  app_Router a = mux_run mt regs ∧ app_mw a = app_mw a0 ∧ app_Options a = app_Options a0.

Lemma Handle_built mt a0 regs a method path h mw :
  built mt a0 regs a →
  built mt a0 (regs ++ [endpoint_reg a0 method path mw h]) (Handle mt a method path None h mw).1.
Proof.
  intros (Hr & Hm & Ho). unfold Handle.
  assert (Hh : app_handler a mw h = app_handler a0 mw h) by (unfold app_handler; by rewrite Hm).
  rewrite Hh, Hr. unfold built. rewrite mux_run_snoc. unfold mux_add, endpoint_reg.
  cbn [reg_method reg_pattern reg_actions reg_handler].
  destruct (AddEndpointWithActions _ _ _ _ _ _) as [mx err]. done.
Qed.

Lemma Handle_all_built mt a0 l regs a :
  built mt a0 regs a →
  built mt a0 (regs ++ map (λ '(p, h), endpoint_reg a0 "GET" p [] h) l)
    (fold_left (λ a '(p, h), (Handle mt a "GET" p None h []).1) l a).
Proof.
  revert regs a. induction l as [|[p h] l IH]; intros regs a Ha; cbn [fold_left map]; [by rewrite app_nil_r|].
  rewrite cons_middle, app_assoc. apply IH. by apply Handle_built.
Qed.

Definition graphql_regs (e : graphql_env) (h : GHandler) : list registration :=
  let path := or_default (ge_graphqlPath e) "/" in
  [endpoint_reg (new_app e h) "GET" path [None] (handle h); endpoint_reg (new_app e h) "POST" path [] (handle h)]
  ++ (if gc_Playground (gh_cfg h)
      then map (λ '(p, pg), endpoint_reg (new_app e h) "GET" p [] pg) (playground_pages e) else []).

Lemma graphql_app_built mt e h : built mt (new_app e h) (graphql_regs e h) (app mt e h).
Proof.
  unfold graphql_app, graphql_regs. cbv zeta.
  assert (H0' : built mt (new_app e h) [] (new_app e h)) by done.
  apply (Handle_built _ _ _ _ "GET" (or_default (ge_graphqlPath e) "/") (handle h) [None]) in H0'.
  apply (Handle_built _ _ _ _ "POST" (or_default (ge_graphqlPath e) "/") (handle h) []) in H0'.
  destruct (gc_Playground (gh_cfg h)); [|by rewrite app_nil_r]. by apply Handle_all_built.
Qed.

Lemma graphql_regs_cases e h rg :
  rg ∈ graphql_regs e h →
  (∃ method mw, (method = str "GET" ∨ method = str "POST") ∧ WrapMiddleware mw (handle h) = handle h
     ∧ rg = endpoint_reg (new_app e h) method (or_default (ge_graphqlPath e) "/") mw (handle h))
  ∨ ∃ p pg, (p, pg) ∈ playground_pages e ∧ rg = endpoint_reg (new_app e h) "GET" p [] pg.
Proof.
  unfold graphql_regs. rewrite elem_of_app, !elem_of_cons.
  intros [[->|[->|[]%not_elem_of_nil]]|Hin].
  - left. exists (str "GET"), [None]. auto.
  - left. exists (str "POST"), []. auto.
  - right. destruct (gc_Playground (gh_cfg h)); [|by apply not_elem_of_nil in Hin].
    apply list_elem_of_fmap in Hin as ([p pg] & -> & Hin). eauto.
Qed.

(** The context in which a handler runs. *)
Definition graphql_admitted (e : graphql_env) (x1 : reqctx) : Prop :=
  ip_allowed (graphql_ip_options e) x1 ∧ token_allowed (graphql_token_options e) x1.

Lemma reaches_graphql cfg e a mw h :
  app_mw a = middlewares cfg e → WrapMiddleware mw h = h →
  reaches (app_handler a mw h) h
    (λ x x1, ∃ uuid, (equal_fold (gc_RequestValidation cfg) ValidationBlock = true →
                        cx_User x !! RequestID = Some (UStr uuid))
       ∧ x1 = upd_Request (proxied ConnectionUpgrade (graphql_proxy_options cfg e) uuid (RemoteIP x)) x
       ∧ graphql_admitted e x1).
Proof.
  intros Ha Hmw. unfold app_handler. rewrite Hmw, Ha, WrapMiddleware_foldr.
  intros x. pose proof (reaches_trans _ _ _ _ _ (reaches_Logger (ge_trace e) _)
    (reaches_trans _ _ _ _ _ (reaches_Errors _)
    (reaches_trans _ _ _ _ _ (reaches_Panics _)
    (reaches_trans _ _ _ _ _ (reaches_Proxy ConnectionUpgrade (graphql_proxy_options cfg e) _)
    (reaches_trans _ _ _ _ _ (reaches_IPAllowlist graphql_error (graphql_ip_options e) _)
      (reaches_Denylist graphql_error (graphql_token_options e) h)))))) as Hr.
  unfold graphql_middlewares. cbn [map foldr apply_mw].
  assert (∀ c : Handler, reaches (err <-- c ;; match err with
            | Some e0 => SignalShutdown ;;; cmd_ret (Some e0) | None => cmd_ret None end) c eq) as Hsig.
  { intros c. apply reaches_after. intros []; unfold SignalShutdown; solve_keeps. }
  destruct (reaches_trans _ _ _ _ _ (Hsig _) Hr x) as [Hn|(x1 & HR & Hs & Hc)]; [left; exact Hn|].
  right. exists x1. split; [|split; [exact Hs|exact Hc]].
  destruct HR as (? & <- & ? & <- & ? & <- & ? & <- & ? & (uuid & Hid & ->) & ? & [-> Hip] & -> & Htok).
  by exists uuid.
Qed.

(** What a request was that has been sent in block mode, in the context [x1] of its
    handler: the one of the client itself (its address, and the request with the
    headers the proxy sets). *)
Definition graphql_forwarded (mt : method_table) (e : graphql_env) (h : GHandler) (uuid : gostring)
    (x x' x1 : reqctx) : Prop :=
  ∃ method m keys vs rctx, (method = str "GET" ∨ method = str "POST")
    ∧ methodMap mt !! fq_Method (cx_Request x) = Some m ∧ methodMap mt !! method = Some m
    ∧ captured (or_default (ge_graphqlPath e) "/") (fq_Path (cx_Request x)) keys vs rctx
    ∧ x1 = upd_Request (proxied ConnectionUpgrade (graphql_proxy_options (gh_cfg h) e) uuid (RemoteIP x))
             (routed uuid None rctx x)
    ∧ graphql_admitted e x1
    ∧ let rq := set_fq_Path (gh_serverPath h) (cx_Request x1) in
      request_valid h rq ∧ cx_Sent x' = cx_Sent x ++ [with_host (gh_RequestHostHeader h) rq].

Lemma graphql_sent mt e h uuid x :
  table_ok mt → errors_reported → to_lower (gc_RequestValidation (gh_cfg h)) = ValidationBlock →
  keeps cx_Sent (gh_websocket h) → cx_User x = ∅ →
  let x' := (MainHandler mt (app mt e h) uuid x).1 in
  cx_Sent x' = cx_Sent x ∨ ∃ x1, graphql_forwarded mt e h uuid x x' x1.
Proof.
  intros Hmt Her Hmode Hws Hu x'. subst x'. unfold graphql_forwarded. destruct (graphql_app_built mt e h) as (Hr & _ & Hopt).
  destruct (FindWithActions_registered mt (graphql_regs e h) (fq_Method (cx_Request x)) (fq_Path (cx_Request x)) Hmt)
    as (rctx & h' & acts & Hf & Hh).
  rewrite <- Hr in Hf. rewrite (MainHandler_sent _ _ uuid _ _ _ _ Hf), Hopt. destruct h' as [h'|].
  2:{ left. subst acts. by destruct x. }
  destruct Hh as (rg & m & keys & vs & Hin & Hrh & Hra & Hm1 & Hm2 & Hcap).
  set (y := routed _ _ _ _). assert (Hsy : cx_Sent y = cx_Sent x) by (unfold y, routed; by rewrite sent_user, looked_up_sent).
  apply graphql_regs_cases in Hin as [(method & mw & Hmeth & Hmw & ->)|(p & pg & Hin & ->)];
    cbn [reg_handler reg_actions reg_method reg_pattern endpoint_reg] in *; injection Hrh as <-; subst acts.
  - destruct (reaches_graphql (gh_cfg h) e (new_app e h) mw (handle h) eq_refl Hmw y)
      as [Hn|(x1 & (id & Hid & Hx1 & Hadm) & Hs & Hc)]; [left; congruence|].
    assert (id = uuid) as ->.
    { unfold equal_fold in Hid. rewrite Hmode in Hid. specialize (Hid eq_refl).
      unfold y, routed in Hid. destruct x. simpl in Hid, Hu. subst. by simplify_map_eq. }
    rewrite Hc. destruct (handle_block h x1 Her Hmode Hws) as [Hn|[Hval Hone]]; [left; congruence|].
    right. exists x1, method, m, keys, vs, rctx. split; [done|].
    replace (to_upper method) with method in Hm2 by (by destruct Hmeth as [-> | ->]).
    split_and!; [done..| |done|done|congruence]. subst x1. unfold y. by destruct x.
  - left. destruct (reaches_graphql (gh_cfg h) e (new_app e h) [] pg eq_refl eq_refl y)
      as [Hn|(x1 & _ & Hs & Hc)]; [congruence|].
    apply list_elem_of_fmap in Hin as ([p' page] & [= -> ->] & _).
    rewrite Hc, adaptor_sent. congruence.
Qed.

(** C8: the GraphQL mode when it blocks.  A request that reaches the backend was
    received with GET or POST for the path of the GraphQL endpoint, the address of its
    client and its tokens are allowed, and it holds GraphQL queries, no more than the limit of
    a batch, each of them valid.  What is sent is one request: the one received,
    for the path of the backend, with the headers, the scheme and the host that the
    proxy sets. *)
Theorem graphql_block_forwards mt e h uuid x :
  table_ok mt → errors_reported → to_lower (gc_RequestValidation (gh_cfg h)) = ValidationBlock →
  keeps cx_Sent (gh_websocket h) → cx_User x = ∅ →
  let x' := (MainHandler mt (app mt e h) uuid x).1 in
  cx_Sent x' = cx_Sent x
  ∨ ∃ x1, graphql_forwarded mt e h uuid x x' x1.
Proof. apply graphql_sent. Qed.

(** The handler of WebSockets sends no request, if the upgrader does not. *)
Lemma keeps_sent_websocket Dial connStr Upgrade :
  keeps cx_Sent Upgrade → keeps cx_Sent (HandleWebSocketProxy Dial connStr Upgrade).
Proof.
  intros Hu. unfold HandleWebSocketProxy, GetConn, wsCopyResponse, RespondError, ctx_Error, log.
  repeat first [apply keeps_bind; [|intros ?] | exact Hu | apply keeps_get | apply keeps_ret
    | apply keeps_modify; by intros [] | case_match].
Qed.
End Application.

(** * WebSocket sessions *)

Section Sessions.
Context `{JSONPkg} `{GraphQLPkg} (marshal_error : gostring → option gerrors → result gostring gostring).
Context (cfg : GraphQL) (sc : gschema).

Notation client_message := (client_message marshal_error cfg sc).
Notation ws_step := (ws_step marshal_error cfg sc).

(** A message that may be passed on in block mode: one that is no query, or a valid
    query. *)
Definition ws_allowed (t : Z) (p : gostring) : Prop :=
  p = [] ∨ (t ≠ TextMessage ∧ t ≠ BinaryMessage)
  ∨ ∃ msg, ParseBytes p = Ok msg ∧ (is_query msg = false ∨ query_valid cfg sc (ws_query msg)).

(** A command that writes to the backend only what satisfies [P]. *)
Definition backend_only {A} (P : Z → gostring → Prop) (c : cmd wsstate A) : Prop :=
  ∀ w, ∃ evs, ws_trace (c w).1 = ws_trace w ++ evs ∧ ∀ t p, ToBackend t p ∈ evs → P t p.

Lemma backend_only_nil {A} P (c : cmd wsstate A) : (∀ w, (c w).1 = w) → backend_only P c.
Proof. intros Hc w. exists []. rewrite Hc, app_nil_r. split; [done|]. by intros ? ? ?%not_elem_of_nil. Qed.
Lemma backend_only_write P e :
  (∀ t p, e = ToBackend t p → P t p) → backend_only P (WriteMessage e).
Proof.
  intros He w. unfold WriteMessage. destruct (ws_writes w) as [|[] ?].
  3:{ exists []. rewrite app_nil_r. split; [done|]. by intros ? ? ?%not_elem_of_nil. }
  all: exists [e]; split; [done|]; intros t p ?%list_elem_of_singleton; by apply He.
Qed.
Lemma backend_only_bind {A B} P (c : cmd wsstate A) (k : A → cmd wsstate B) :
  backend_only P c → (∀ a, backend_only P (k a)) → backend_only P (cmd_bind c k).
Proof.
  intros Hc Hk w. unfold cmd_bind. destruct (Hc w) as (evs & Htr & Hev). destruct (c w) as [w' [a|]]; cbn in *.
  - destruct (Hk a w') as (evs' & Htr' & Hev'). exists (evs ++ evs'). rewrite Htr', Htr, app_assoc.
    split; [done|]. intros t p [?|?]%elem_of_app; auto.
  - by exists evs.
Qed.
Lemma backend_only_lift {A B} P (a : A) (k : A → cmd wsstate B) :
  backend_only P (k a) → backend_only P (cmd_bind (cmd_lift (Ret a)) k).
Proof. done. Qed.
Lemma backend_only_refuse P t id errs : backend_only P (refuse_query marshal_error t id errs).
Proof.
  unfold refuse_query, SendError, SendComplete. apply backend_only_bind.
  - destruct (marshal_error id errs); [by apply backend_only_write|by apply backend_only_nil].
  - intros _. apply backend_only_bind; [by apply backend_only_write|]. intros _. by apply backend_only_nil.
Qed.

Lemma client_message_block t p :
  to_lower (gc_RequestValidation cfg) = ValidationBlock →
  backend_only (λ t' p', t' = t ∧ p' = p ∧ ws_allowed t p) (client_message t p).
Proof.
  intros Hmode.
  assert (Hb : equal_fold (gc_RequestValidation cfg) ValidationBlock = true)
    by (unfold equal_fold; by rewrite Hmode).
  assert (Hd : equal_fold (gc_RequestValidation cfg) ValidationDisable = false)
    by (unfold equal_fold; by rewrite Hmode).
  assert (Hl : equal_fold (gc_RequestValidation cfg) ValidationLog = false)
    by (unfold equal_fold; by rewrite Hmode).
  assert (Hw : ws_allowed t p → backend_only (λ t' p', t' = t ∧ p' = p ∧ ws_allowed t p) (WriteMessage (ToBackend t p)))
    by (intros Ha; apply backend_only_write; intros t' p' [= -> ->]; done).
  unfold WebSocket.client_message. rewrite Hd, Hl. cbn [orb].
  destruct (is_empty p || _) eqn:Hskip.
  { apply Hw. apply orb_prop in Hskip as [He|He]; [left; by destruct p|]. right. left.
    apply andb_prop in He as [H1' H2']. rewrite negb_true_iff, Z.eqb_neq in H1', H2'. done. }
  destruct (ParseBytes p) as [msg|] eqn:Hp; [|by apply backend_only_nil].
  destruct (is_query msg) eqn:Hq; cbn [negb].
  2:{ apply Hw. right. right. exists msg. auto. }
  unfold forward_query. rewrite Hb.
  destruct (ValidateGraphQLRequest cfg sc (ws_query msg)) as [[res [e|]]|] eqn:Hv.
  - apply backend_only_lift, backend_only_refuse.
  - apply backend_only_lift. cbv beta iota zeta. rewrite andb_true_r. destruct (vr_Valid res) eqn:Hval; cbn [negb].
    + apply Hw. right. right. exists msg. split; [done|]. right. apply query_accepts. by exists res.
    + apply backend_only_refuse.
  - by apply backend_only_nil.
Qed.

(** The channels and the messages of a session. *)
Definition closes (pc : loop_pc) : nat := match pc with Stopped => 1 | _ => 0 end.
Record session_inv (s : session) : Prop := {
  si_client : ss_errClient s = closes (ss_client s);
  si_backend : ss_errBackend s = closes (ss_backend s);
  si_trace : ∀ t p, ToBackend t p ∈ ws_trace (ss_ws s) → ws_allowed t p
}.

Lemma session_inv_step l s s' :
  to_lower (gc_RequestValidation cfg) = ValidationBlock → ws_step l s s' → session_inv s → session_inv s'.
Proof.
  intros Hmode Hs [Hc Hb Ht].
  assert (Hmsg : ∀ t p w w' r, client_message t p w = (w', r) → (∀ t p, ToBackend t p ∈ ws_trace w → ws_allowed t p) →
            ∀ t p, ToBackend t p ∈ ws_trace w' → ws_allowed t p).
  { intros t p w w' r Hrun Hw. destruct (client_message_block t p Hmode w) as (evs & Htr & Hev).
    rewrite Hrun in Htr. cbn in Htr. rewrite Htr. intros t' p' [?|Hin]%elem_of_app; [auto|].
    by destruct (Hev _ _ Hin) as (-> & -> & ?). }
  assert (Hwr : ∀ t p w w' r, WriteMessage (ToClient t p) w = (w', r) →
            (∀ t p, ToBackend t p ∈ ws_trace w → ws_allowed t p) →
            ∀ t p, ToBackend t p ∈ ws_trace w' → ws_allowed t p).
  { intros t p w w' r Hrun Hw. destruct (backend_only_write ws_allowed (ToClient t p) ltac:(done) w) as (evs & Htr & Hev).
    rewrite Hrun in Htr. cbn in Htr. rewrite Htr. intros t' p' [?|?]%elem_of_app; auto. }
  destruct Hs; cbn in *; split; cbn; eauto; congruence.
Qed.

(** C19: a WebSocket session in block mode.  However its two goroutines are
    scheduled and whatever is read, each closes its channel once, when it ends (a
    second close would panic), and every message passed to the backend is one that
    is no query or a valid query. *)
Theorem ws_session_block w s :
  to_lower (gc_RequestValidation cfg) = ValidationBlock → ws_trace w = [] →
  rtc (λ s s', ∃ l, ws_step l s s') (new_session w) s → session_inv s.
Proof.
  intros Hmode Hw Hrun. refine (rtc_ind_r session_inv _ _ _ _ Hrun).
  - split; cbn; [done..|]. rewrite Hw. by intros ? ? ?%not_elem_of_nil.
  - intros s1 s2 _ [l Hs] Hinv. by eapply session_inv_step.
Qed.

(** ** The end of a session *)

Inductive ws_run : list ws_source → session → session → Prop :=
  | run_nil s : ws_run [] s s
  | run_cons l ls s s1 s' : ws_step l s s1 → ws_run ls s1 s' → ws_run (l :: ls) s s'.

Definition reads_left (pc : loop_pc) : nat := match pc with Reading => 1 | _ => 0 end.
Definition from_client (l : ws_source) : bool := match l with FromClient => true | _ => false end.
Definition from_backend (l : ws_source) : bool := match l with FromBackend => true | _ => false end.
Notation count f ls := (length (List.filter f ls)).

(** C39: when one direction of a session has ended, the other one handles at most
    one more message, whatever is read: the one it is reading. *)
Theorem ws_session_ends ls s s' :
  ws_run ls s s' →
  (ss_client s = Stopped → 0 < ss_errClient s → count from_client ls + count from_backend ls ≤ reads_left (ss_backend s))
  ∧ (ss_backend s = Stopped → 0 < ss_errBackend s → count from_client ls + count from_backend ls ≤ reads_left (ss_client s)).
Proof.
  induction 1 as [s|l ls s s1 s' Hs Hrun [IH1 IH2]]; [cbn; lia|].
  split; intros Hst Hn; destruct Hs; cbn in *; try done; try lia;
    first [ specialize (IH1 Hst Hn); lia | specialize (IH2 Hst Hn); lia ].
Qed.

(** In log-only mode a query whose validation fails with an internal error is
    written twice. *)
Lemma ws_log_twice t p msgID q res e w :
  to_lower (gc_RequestValidation cfg) = ValidationLog →
  ValidateGraphQLRequest cfg sc q = Ret (res, Some e) → ws_writes w = [] →
  ws_trace (forward_query marshal_error cfg sc t p msgID q w).1 = ws_trace w ++ [ToBackend t p; ToBackend t p].
Proof.
  intros Hmode Hv Hw. unfold forward_query. rewrite Hv, bind_lift.
  assert (equal_fold (gc_RequestValidation cfg) ValidationBlock = false) as ->
    by (unfold equal_fold; by rewrite Hmode).
  rewrite andb_false_r. unfold WriteMessage, cmd_bind. rewrite Hw. cbn. by rewrite <- app_assoc.
Qed.
End Sessions.
