(* ===== verification/GraphQLExamples.v ===== *)
(** A GraphQL endpoint with concrete libraries: the witnesses of the properties of
    the GraphQL mode. *)
From S2P Require Import Prelude Cmd GoStrings RouterPattern RouterTree RouterInv RouterInsert RouterFind RouterMux RouterSpec Values URLValues ParamDecoder ParamDecoderSpec BodyDecoder NetIP AccessLists Web Mid MidSpec Adaptor ProxyHandler ProxySpec Backend GraphQL WebSocket GraphQLSpec.

Module GraphQLExample.
(** Documents given by their arrays; the text "n" stands for one of two documents,
    "{ a }" and "{ ... on Q { ... on Q { a } } }". *)
Record example_document := MkDocument {
  ed_Fields : list (gostring * gfield);
  ed_Selections : list selection;
  ed_SelectionSets : list (list nat)
}.
Definition field_a : gostring * gfield := (str "a", MkField false false).
Definition plain_document : example_document :=
  MkDocument [field_a] [MkSelection SelectionKindField 0] [[0]].
Definition nested_document : example_document :=
  MkDocument [field_a]
    [MkSelection SelectionKindField 0; MkSelection SelectionKindInlineFragment 1;
     MkSelection SelectionKindInlineFragment 0] [[0]; [1]; [2]].

Definition graphql_pkg : GraphQLPkg := {|
  gschema := unit;
  document := example_document;
  normalized := GRequest;
  gerrors := list gostring;
  doc_Fields d := map snd (ed_Fields d);
  doc_Selections := ed_Selections;
  doc_SelectionSets := ed_SelectionSets;
  FieldNameString d i := default [] (fst <$> ed_Fields d !! i);
  NumOfOperationDefinitions _ := 1%Z;
  OperationNameExists _ name := is_empty name;
  ParseGraphqlDocumentString q := if q =?s "nested" then nested_document else plain_document;
  IsIntrospectionQuery q := Ok (gq_Query q =?s "introspection");
  CalculateComplexity _ _ := Ok (MkComplexity 1 1 1);
  Normalize _ q := Ok (q, true, None);
  ValidateForSchema _ q := if gq_Query q =?s "unknown" then Ok (false, Some [str "unknown field"]) else Ok (true, None);
  OperationType _ := Ok OperationTypeQuery;
  ErrEmptyRequest := str "empty";
  ErrRequiredOperationNameIsMissing := str "no name";
  ErrOperationWithProvidedOperationNameNotFound n := n;
  RequestErrorsFromError e := [e];
  as_Errors l := l
|}.

(** Bodies that stand for the object with the query or the message of that text. *)
Definition json_pkg : JSONPkg := {|
  ParseBytes b := Ok (JObject [(str "type", JString "start"); (str "query", JString b);
                               (str "payload", JObject [(str "query", JString b)])]);
  MarshalTo _ := [];
  json_Encode s := s
|}.
End GraphQLExample.
Import GraphQLExample.

#[local] Existing Instances graphql_pkg json_pkg digits_regexp set_cache plain_http.

Module GraphQLEndpoint.
Definition cfg : GraphQL := MkGraphQL 5 5 5 5 2 true false false false [] "BLOCK".
Definition backend : pool := Ok (λ _, Ok (MkFresp 200 ∅ "data")).
Definition gql_endpoint : GHandler := MkGHandler cfg [] "/query" backend tt (cmd_ret None).
Definition env : graphql_env := MkGraphQLEnv "http" "backend" false [] None [] [] false None false "/graphql" [].
Definition ctx (body : gostring) : reqctx :=
  MkCtx (MkFreq "POST" "http" "localhost" "localhost" "/graphql" [] "HTTP/1.1"
           {[ str "Content-Type" := [str "application/json"] ]} [] body)
    (MkFresp 200 ∅ []) ∅ "10.0.0.1:4242" (Some (str "10.0.0.1")) [] [] 0.
End GraphQLEndpoint.
Import GraphQLEndpoint.

Lemma example_errors_reported : errors_reported.
Proof.
  split; [discriminate|]. intros s n errs H. unfold ValidateForSchema, graphql_pkg in H. revert H. destruct (gq_Query n =?s "unknown"); [by intros [= <-]|]. intros [=].
Qed.

Lemma reference_panics_witness : validateDuplicateFields nested_document = Panic.
Proof.
  refine (reference_panics nested_document [[0]] [] 1 (MkSelection SelectionKindInlineFragment 1) [] [[2]] _ _ _ _);
    [reflexivity| |reflexivity|cbn; lia].
  intros r ->%list_elem_of_singleton. exists [str "a"]. split; [reflexivity|apply NoDup_singleton].
Defined.

Lemma graphql_block_forwards_witness :
  ∃ x1, cx_RemoteIP x1 = cx_RemoteIP (ctx "a")
    ∧ request_valid (λ _, []) gql_endpoint (set_fq_Path "/query" (cx_Request x1)).
Proof.
  destruct (graphql_block_forwards (λ _, []) (λ _, false) (λ _, false) (λ e, e) default_methods env gql_endpoint "id"
    (ctx "a") default_methods_ok example_errors_reported)
    as [Hn|(x1 & method & m & keys & vs & rctx & _ & _ & _ & _ & Hx1 & _ & Hval & _)];
    [reflexivity|by intros x|reflexivity| |].
  - vm_compute in Hn. discriminate Hn.
  - exists x1. split; [by rewrite Hx1|exact Hval].
Defined.

(** A session in which the client sends a query, which is passed on. *)
Lemma ws_session_block_witness :
  ∃ s, rtc (λ s s', ∃ l, ws_step (λ _ _, Ok []) cfg tt l s s') (new_session (MkWS [] [])) s
    ∧ ws_trace (ss_ws s) = [ToBackend 1 "a"] ∧ ws_allowed cfg tt 1 "a".
Proof.
  set (s1 := MkSession AtSelect AtSelect 0 0 (MkWS [ToBackend 1 "a"] [])).
  assert (Hrun : rtc (λ s s', ∃ l, ws_step (λ _ _, Ok []) cfg tt l s s') (new_session (MkWS [] [])) s1).
  { eapply rtc_l; [exists Internal; apply client_reads|]. eapply rtc_l; [|apply rtc_refl].
    exists FromClient. apply (client_writes _ _ _ 1 "a"). vm_compute. reflexivity. }
  exists s1. split; [exact Hrun|]. split; [reflexivity|].
  refine (si_trace _ _ _ (ws_session_block (λ _ _, Ok []) cfg tt (MkWS [] []) s1 _ _ Hrun) _ _ _);
    [reflexivity|reflexivity|apply list_elem_of_here].
Defined.

(** A session whose client side has ended while the backend side reads. *)
Lemma ws_session_ends_witness :
  ∃ ls s', ws_run (λ _ _, Ok []) cfg tt ls (MkSession Stopped Reading 1 0 (MkWS [] [])) s'
    ∧ length ls = 2 ∧ length (List.filter from_client ls) + length (List.filter from_backend ls) ≤ 1.
Proof.
  assert (Hrun : ws_run (λ _ _, Ok []) cfg tt [FromBackend; Internal] (MkSession Stopped Reading 1 0 (MkWS [] []))
                   (MkSession Stopped Stopped 1 1 (MkWS [ToClient 1 "b"] []))).
  { eapply run_cons; [apply (backend_writes _ _ _ 1 "b"); reflexivity|].
    eapply run_cons; [apply backend_notified; lia|apply run_nil]. }
  exists [FromBackend; Internal]. eexists. split; [exact Hrun|]. split; [reflexivity|].
  exact (proj1 (ws_session_ends (λ _ _, Ok []) cfg tt _ _ _ Hrun) eq_refl (Nat.lt_0_succ 0)).
Defined.
