(* ===== verification/Startup.v ===== *)
(** The start of the program: [main] (cmd/api-firewall/main.go), the function [Run] of
    each mode (cmd/api-firewall/internal/handlers/proxy/run.go, api/run.go and
    graphql/run.go), the choice of the OAuth validator (proxy/routes.go) and the
    health checks (proxy/health.go and api/health.go).

    [Run] is a sequence of steps that stops at the first error; its result is what
    the servers are given.  Parsing the command line and the YAML file, validating
    the tags of the configuration, net/url, files and listeners are parameters.
    A call of [Fatal] that ends the process is a panic here; [logger.Fatal()] without
    a message ends nothing. *)
From S2P Require Import Prelude Cmd GoStrings Config RouterPattern RouterTree RouterMux Values URLValues Messages ParamDecoder BodyDecoder Validate Unknown APIErrors APIMode NetIP AccessLists OAuth2 Web Metrics Mid Adaptor ProxyHandler Backend Storage StorageSpec Updater APIHandlers GraphQL WebSocket.

(** * Steps that fail *)

Definition startup (A : Type) : Type := outcome (result gostring A).
Definition startup_bind {A B} (c : startup A) (f : A → startup B) : startup B :=
  r <-! c ;; match r with Ok a => f a | Err e => Ret (Err e) end.
Notation "x <-* c ;; k" := (startup_bind c (λ x, k))
  (at level 100, c at next level, right associativity).

Definition now {A} (r : result gostring A) : startup A := Ret r.
(** [errors.Wrap]. *)
Definition Wrap (e msg : gostring) : gostring := msg ++ str ": " ++ e.
Definition wrapped {A} (msg : gostring) (c : startup A) : startup A :=
  r <-! c ;; Ret (match r with Ok a => Ok a | Err e => Err (Wrap e msg) end).
Definition fatal {A} (r : result gostring A) : startup A :=
  match r with Ok a => Ret (Ok a) | Err _ => Panic end.

(** * The choice of the mode *)

Inductive run_mode := RunAPI | RunGraphQL | RunProxy.
Definition mode_of (Mode : gostring) : run_mode :=
  if to_lower Mode =?s Web.APIMode then RunAPI
  else if to_lower Mode =?s GraphQLMode then RunGraphQL
  else RunProxy.

Inductive log_level := TraceLevel | DebugLevel | InfoLevel | WarnLevel | ErrorLevel.
Definition level_of (LogLevel : gostring) : log_level :=
  let l := to_lower LogLevel in
  if l =?s "trace" then TraceLevel
  else if l =?s "debug" then DebugLevel
  else if l =?s "error" then ErrorLevel
  else if l =?s "warning" then WarnLevel
  else InfoLevel.

(** The format of the log; any other setting leaves the default logger. *)
Inductive log_format := JSONFormat | TextFormat | DefaultFormat.
Definition format_of (LogFormat : gostring) : log_format :=
  let l := to_lower LogFormat in
  if l =?s "json" then JSONFormat else if l =?s "text" then TextFormat else DefaultFormat.

(** The end of the process: the exit code, what is printed and what [main] logs. *)
Record exit_report := MkExit { ex_code : Z; ex_out : list gostring; ex_log : list logev }.

(** A text that is printed also when making it failed. *)
Definition printed (r : result gostring gostring) (what : gostring) : exit_report :=
  match r with
  | Ok text => MkExit 0 [text] []
  | Err e => MkExit 0 [[]] [LogError (str "main: generating " ++ what ++ str ": " ++ e)]
  end.

(** [main]: [Usage] and [VersionString] are those of the conf library; [enabled] is
    zerolog's filter of events by the global level; [Run] gives the error of the mode
    that is run. *)
Inductive parse_outcome :=
| Parsed (Mode LogLevel LogFormat : gostring)
| HelpWanted (Mode : gostring)
| VersionWanted
| ParseFailed (msg : gostring).

Definition main (Usage : run_mode → result gostring gostring) (VersionString : result gostring gostring)
    (enabled : log_level → logev → bool) (p : parse_outcome)
    (Run : run_mode → log_level → log_format → outcome (option gostring)) : outcome exit_report :=
  match p with
  | HelpWanted Mode => Ret (printed (Usage (mode_of Mode)) "usage")
  | VersionWanted => Ret (printed VersionString "config version")
  | ParseFailed msg => Ret (MkExit 1 [] [LogError (str "main: error: " ++ msg)])
  | Parsed Mode LogLevel LogFormat =>
      let level := level_of LogLevel in
      err <-! Run (mode_of Mode) level (format_of LogFormat) ;;
      Ret (match err with
           | Some e => MkExit 1 [] (List.filter (enabled level) [LogInfo (str "main: error: " ++ e)])
           | None => MkExit 0 [] []
           end)
  end.

(** * Addresses *)

(** [url.URL], as far as it is read. *)
Record URL := MkURL { url_Scheme : gostring; url_Host : gostring; url_Path : gostring }.

(** The scheme of a text that is the URI of a request. *)
Definition uri_scheme (ParseRequestURI : gostring → result gostring URL) (s : gostring) : option gostring :=
  match ParseRequestURI s with Ok u => Some (url_Scheme u) | Err _ => None end.

(** [URL.Port]: the digits after the last colon. *)
Definition url_Port (u : URL) : gostring :=
  match last_index_byte (url_Host u) ":" with
  | Some i =>
      let port := drop (S i) (url_Host u) in
      if forallb is_digit port then port else []
  | None => []
  end.

(** The host of the backend with the port of its scheme when it has none. *)
Definition backend_host (u : URL) : gostring :=
  if is_empty (url_Port u) then
    if url_Scheme u =?s "https" then url_Host u ++ str ":443"
    else if url_Scheme u =?s "http" then url_Host u ++ str ":80"
    else url_Host u
  else url_Host u.

Definition isTLS (apiHost : URL) : bool := url_Scheme apiHost =?s "https".

(** * Health checks *)

Section Health.
(** [encode]: the JSON of the fields of a structure, by name; those of [Liveness]
    are left out when they are empty. *)
Context (encode : list (gostring * gostring) → result gostring gostring).

Definition omitempty (fields : list (gostring * gostring)) : list (gostring * gostring) :=
  List.filter (λ f, negb (is_empty f.2)) fields.

(** [Liveness], the same in both packages. *)
Definition Liveness (Hostname : result gostring gostring) (Version : gostring)
    (Getenv : gostring → gostring) : Handler :=
  let host := match Hostname with Ok h => h | Err _ => str "unavailable" end in
  Respond (encode (omitempty
    [ (str "status", str "up"); (str "build", Version); (str "host", host);
      (str "pod", Getenv "KUBERNETES_PODNAME");
      (str "podIP", Getenv "KUBERNETES_NAMESPACE_POD_IP");
      (str "node", Getenv "KUBERNETES_NODENAME");
      (str "namespace", Getenv "KUBERNETES_NAMESPACE") ])) 200.

Definition status_body (status : gostring) : result gostring gostring := encode [(str "status", status)].

(** [Readiness] of the proxy mode: the pool is asked for its client, which is given
    back without an error. *)
Definition proxy_Readiness (p : PoolV2) : Handler :=
  match Pool_Get p with
  | Err _ => Respond (status_body "not ready") 500
  | Ok _ => Respond (status_body "ok") 200
  end.

(** The handler of the health server: an error is logged with the prefix of the
    package. *)
Definition log_failure (logPrefix what : gostring) (h : Handler) : Cmd unit :=
  err <-- h ;;
  match err with
  | Some (HError msg) | Some (HShutdown msg) => log (LogError (logPrefix ++ str ": " ++ what ++ str ": " ++ msg))
  | None => cmd_ret ()
  end.

Definition healthHandler (logPrefix : gostring) (liveness readiness : Handler) : Cmd unit :=
  path <-- cmd_get (λ x, fq_Path (cx_Request x)) ;;
  if path =?s "/v1/liveness" then log_failure logPrefix "liveness" liveness
  else if path =?s "/v1/readiness" then log_failure logPrefix "readiness" readiness
  else ctx_Error "Unsupported path" 404.
End Health.

(** * OAuth *)

(** The settings of [config.Oauth]. *)
Record oauth_config := MkOauth {
  oa_ValidationType : gostring;
  oa_SignatureAlgorithm : gostring;
  oa_PubCertFile : gostring;
  oa_SecretKey : gostring;
  oa_Introspection : Introspection.Introspection_Config
}.

Inductive oauth_validator :=
| OAuthJWT (j : JWT.JWT_Config)
| OAuthIntrospection (c : Introspection.Introspection_Config).

(** The switch of [Handlers]: without its key there is no validator.  [ReadKey] reads
    and parses the file of the public key. *)
Definition oauthValidator (ReadKey : gostring → result gostring gostring) (c : oauth_config)
  : option oauth_validator :=
  let kind := to_lower (oa_ValidationType c) in
  if kind =?s "jwt" then
    if has_prefix (to_lower (oa_SignatureAlgorithm c)) "rs" && negb (is_empty (oa_PubCertFile c)) then
      match ReadKey (oa_PubCertFile c) with
      | Err _ => None
      | Ok key => Some (OAuthJWT (JWT.MkJWT_Config (oa_SignatureAlgorithm c) (Some key) (oa_SecretKey c)))
      end
    else Some (OAuthJWT (JWT.MkJWT_Config (oa_SignatureAlgorithm c) None (oa_SecretKey c)))
  else if kind =?s "introspection" then Some (OAuthIntrospection (oa_Introspection c))
  else None.

(** * The configuration of the proxy mode *)

(** [config.ProxyMode]: what the handlers read and what [Run] reads. *)
Record proxy_mode := MkProxyMode {
  pm_handlers : pconfig;
  pm_APISpecs : gostring;
  pm_APISpecsCustomHeader : CustomHeader;
  pm_ServerURL : gostring;
  pm_InsecureConnection : bool;
  pm_RootCA : gostring;
  pm_HealthCheckInterval : Z;
  pm_Oauth : oauth_config;
  pm_TokenFile : gostring;
  pm_TokenCookieName : gostring;
  pm_TokenHeaderName : gostring;
  pm_TrimBearerPrefix : bool;
  pm_AllowIPFile : gostring;
  pm_AllowIPHeaderName : gostring;
  pm_ModSecurity : ModSecurity;
  pm_APIHost : gostring;
  pm_SpecificationUpdatePeriod : Z
}.

Definition set_Mode (f : gostring → gostring) (c : proxy_mode) : proxy_mode :=
  let '(MkProxyMode (MkPConfig m p rq rs st h u sh rh de mq ms eps) a ch b i r hc o tf tc th tb al ah mo ap up) := c in
  MkProxyMode (MkPConfig (f m) p rq rs st h u sh rh de mq ms eps) a ch b i r hc o tf tc th tb al ah mo ap up.

(** A validation error of the validator library. *)
Record field_error := MkFieldError {
  ve_Tag : gostring; ve_Field : gostring; ve_Param : gostring; ve_Value : gostring
}.

Definition field_message (e : field_error) : option gostring :=
  if ve_Tag e =?s "gt" then
    Some (str "configuration validator error: parameter " ++ ve_Field e ++ str " should be > " ++ ve_Param e
          ++ str ". Actual value: " ++ ve_Value e)
  else if ve_Tag e =?s "url" then
    Some (str "configuration validator error: parameter " ++ ve_Field e
          ++ str " should be a string in URL format. Example: http://localhost:8080/; actual value: " ++ ve_Value e)
  else if ve_Tag e =?s "oneof" then
    Some (str "configuration validator error: parameter " ++ ve_Field e
          ++ str " should have one of the following value: " ++ ve_Param e ++ str "; actual value: " ++ ve_Value e)
  else None.

(** The first error with a message of its own, or all of them ([text]). *)
Fixpoint config_message (errs : list field_error) (text : gostring) : gostring :=
  match errs with
  | [] => Wrap text "configuration validator error"
  | e :: errs' => match field_message e with Some m => m | None => config_message errs' text end
  end.

Section ProxyConfig.
(** [validate_Struct]: the errors of the tags with their text; [ParseMediaType] the
    error of package mime; [viper_Unmarshal] the settings of apifw.yaml. *)
Context (conf_Parse : result gostring proxy_mode) (conf_String : proxy_mode → option gostring)
  (validate_Struct : proxy_mode → list field_error * gostring)
  (ParseMediaType : gostring → option gostring) (viper_Unmarshal : proxy_mode → proxy_mode).

Definition valid_config (cfg : proxy_mode) : bool := no_items (validate_Struct cfg).1.

Definition check_config (cfg : proxy_mode) : result gostring proxy_mode :=
  match validate_Struct cfg with
  | ([], _) =>
      let ct := Introspection.ContentType (oa_Introspection (pm_Oauth cfg)) in
      match (if is_empty ct then None else ParseMediaType ct) with
      | Some e => Err (Wrap e "configuration validator error")
      | None => Ok cfg
      end
  | (errs, text) => Err (config_message errs text)
  end.

(** The first part of [Run]: the settings of the file come after the checks. *)
Definition proxy_configuration : result gostring proxy_mode :=
  match conf_Parse with
  | Err e => Err (Wrap e "parsing config")
  | Ok cfg =>
      cfg <-? check_config (set_Mode to_upper cfg) ;;
      let cfg := viper_Unmarshal cfg in
      match conf_String cfg with
      | Some e => Err (Wrap e "generating config for output")
      | None => Ok cfg
      end
  end.
End ProxyConfig.

(** * The start of the modes *)

Section Startup.
Context `{FmtPkg} `{TypesPkg} `{!SchemaPkg} `{!FilterPkg}.
Context (lib : parsers) (reg : registry) (json_Unmarshal : gostring → option value)
  (bodyEncoders : gmap gostring (value → result gostring gostring)).
Context (dz : decompressor) (ConvertRequest : freq → result gostring request)
  (QueryArgs PostArgs : freq → list (gostring * gostring)).
Context `{RegexpPkg} `{CachePkg} `{CorazaPkg} `{JWT.JWTPkg}.
Context (graphql_error : gostring → gostring) (ConnectionUpgrade : http_Header → bool)
  (uri_String : freq → gostring) (uri_resolve : freq → gostring → gostring).
Context (mt : method_table).
Notation doc := (list (gostring * list (gostring * Route))).
(** The world: files, names, net/url, the connection of a pool to the backend, the
    answer of an introspection endpoint, the engine of ModSecurity, the level of the
    log. *)
Context (os_Open : gostring → result gostring gostring) (NotExist : gostring → bool)
  (LookupIP : gostring → result gostring (list (list Z))) (appendCerts : gostring → bool)
  (ParseRequestURI : gostring → result gostring URL)
  (routePath : gostring → gostring → result gostring gostring)
  (Do : PoolV2 → freq → result do_error fresp)
  (introspect : Introspection.Introspection_Config → gostring → list gostring → option gostring)
  (ReadKey : gostring → result gostring gostring)
  (NewWAF : list gostring → result gostring (reqctx → tx))
  (encode : list (gostring * gostring) → result gostring gostring)
  (Hostname : result gostring gostring) (Version : gostring) (Getenv : gostring → gostring)
  (trace : bool).

(** The pool as the handlers use it. *)
Definition pool_of (p : PoolV2) : pool :=
  match Pool_Get p with Err e => Err e | Ok _ => Ok (Do p) end.

Definition start_pool (ServerURL : gostring) (InsecureConnection : bool) (RootCA : gostring)
    (HealthCheckInterval : Z) : startup (URL * PoolV2) :=
  u <-* wrapped "parsing proxy URL" (now (ParseRequestURI ServerURL)) ;;
  p <-* wrapped "proxy pool init" (now
          (NewPoolV2 LookupIP (BuildTLSConfig os_Open appendCerts InsecureConnection RootCA)
             (backend_host u) [] HealthCheckInterval)) ;;
  Ret (Ok (u, p)).

Definition validate_token (v : oauth_validator) : gostring → list gostring → option gostring :=
  match v with
  | OAuthJWT j => JWT.JWT_Validate j
  | OAuthIntrospection c => introspect c
  end.

(** ** Proxy mode *)

Definition proxy_environment (cfg : proxy_mode) (u : URL) (p : PoolV2) (denied allowed : option entries)
    (waf : option (reqctx → tx)) : proxy_env :=
  MkProxyEnv (url_Scheme u) (url_Host u) (routePath (or_default (url_Path u) "/")) (pool_of p)
    (pm_AllowIPHeaderName cfg) allowed (pm_TokenCookieName cfg) (pm_TokenHeaderName cfg)
    (pm_TrimBearerPrefix cfg) denied waf (validate_token <$> oauthValidator ReadKey (pm_Oauth cfg)) trace.

(** What the servers of the proxy mode get. *)
Record proxy_services := MkProxyServices {
  ps_cfg : proxy_mode;
  ps_env : proxy_env;
  ps_pool : PoolV2;
  ps_store : @file_store doc;
  ps_Handler : option (gostring → Cmd unit);
  ps_health : Cmd unit;
  ps_isTLS : bool;
  ps_ErrorHandler : Cmd unit;
  ps_updater : option (updater (World := sources) (Store := @file_store doc) (Serving := option doc))
}.

(** The rest of [Run]; the document is the one the store has read. *)
Definition proxy_start (LoadFromData : gostring → result gostring doc) (ValidateSpec : doc → option gostring)
    (sha256_empty : gostring) (read : gostring → file_read) (get : url_request → option (Z * gostring))
    (load_text : list load_error → gostring) (cfg : proxy_mode) : startup proxy_services :=
  r <-! NewOpenAPIFromFileOrURL LoadFromData ValidateSpec (uri_scheme ParseRequestURI) read get
          (pm_APISpecs cfg) (pm_APISpecsCustomHeader cfg) ;;
  match r with
  | Err errs => Ret (Err (Wrap (load_text errs) "loading OpenAPI specification from File or URL"))
  | Ok specStorage =>
      up <-* start_pool (pm_ServerURL cfg) (pm_InsecureConnection cfg) (pm_RootCA cfg) (pm_HealthCheckInterval cfg) ;;
      denied <-* wrapped "denylist init error" (Denylist_New os_Open (pm_TokenFile cfg)) ;;
      allowed <-* wrapped "The allow IP list init error" (AllowIP_New os_Open (pm_AllowIPFile cfg)) ;;
      waf <-* now (LoadModSecurityConfiguration NotExist NewWAF (pm_ModSecurity cfg)) ;;
      match fs_OpenAPISpec specStorage with
      | None => Panic
      | Some spec =>
          let e := proxy_environment cfg up.1 up.2 denied allowed waf in
          let h := ProxyHandler.Handlers lib reg json_Unmarshal bodyEncoders dz ConvertRequest QueryArgs PostArgs
                     graphql_error ConnectionUpgrade uri_String uri_resolve ValidateSpec mt (pm_handlers cfg) e spec in
          let health := healthHandler "Regular OpenAPI specification updater"
                          (Liveness encode Hostname Version Getenv) (proxy_Readiness encode up.2) in
          apiHost <-* wrapped "parsing API Host URL" (now (ParseRequestURI (pm_APIHost cfg))) ;;
          Ret (Ok (MkProxyServices cfg e up.2 specStorage h health (isTLS apiHost)
                     (log (LogError "request processing error") ;;;
                      ctx_Error [] (pc_CustomBlockStatusCode (pm_handlers cfg)))
                     (if (0 <? pm_SpecificationUpdatePeriod cfg)%Z
                      then Some (Updater.Start (ops := proxy_updater LoadFromData ValidateSpec sha256_empty
                                   (uri_scheme ParseRequestURI) (pm_APISpecs cfg) (pm_APISpecsCustomHeader cfg))
                                   (MkSources read get) specStorage)
                      else None)))
      end
  end.

(** ** API mode *)

(** [config.APIMode], as far as [Run] reads it. *)
Record api_mode := MkAPIMode {
  am_PathToSpecDB : gostring;
  am_DBVersion : Z;
  am_ModSecurity : ModSecurity;
  am_AllowIPFile : gostring;
  am_AllowIPHeaderName : gostring;
  am_MetricsEnabled : bool;
  am_UnknownParametersDetection : bool;
  am_PassOptionsRequests : bool;
  am_MaxErrorsInResponse : Z;
  am_APIHost : gostring;
  am_SpecificationUpdatePeriod : Z
}.

Record api_services := MkAPIServices {
  as_cfg : api_mode;
  as_disk : disk;
  as_store : @store api_spec;
  as_Handler : option api_App;
  as_metrics : PrometheusMetrics;
  as_health : @store api_spec → Cmd unit;
  as_isTLS : bool;
  as_updater : option (updater (World := disk) (Store := @store api_spec) (Serving := gmap Z api_spec * @store api_spec))
}.

(** The handler of errors of the server: the response, and what is counted. *)
Definition api_ErrorHandler : Cmd unit :=
  log (LogError "request processing error") ;;; ctx_Error [] 500.
Definition api_ErrorHandler_counts (p : PrometheusMetrics) (c : collectors) : collectors :=
  IncErrorTypeCounter p "request processing error" 0 (IncHTTPRequestTotalCountOnly p 0 500 c).

(** [Run]: the errors of the database are only logged. *)
Definition api_start (LoadFromData : gostring → result gostring api_spec)
    (ValidateSpec : api_spec → option gostring) (mimetype_Detect : gostring → gostring)
    (conf_Parse : result gostring api_mode) (conf_String : api_mode → option gostring) (d : disk)
  : startup api_services :=
  cfg <-* wrapped "parsing config" (now conf_Parse) ;;
  match conf_String cfg with
  | Some e => Ret (Err (Wrap e "generating config for output"))
  | None =>
      let '(d, specStorage, _) := NewOpenAPIDB LoadFromData ValidateSpec d (am_PathToSpecDB cfg) (am_DBVersion cfg) in
      waf <-* now (LoadModSecurityConfiguration NotExist NewWAF (am_ModSecurity cfg)) ;;
      allowed <-* wrapped "The allow IP list init error" (AllowIP_New os_Open (am_AllowIPFile cfg)) ;;
      let c := MkAPIConfig _ _ (am_PassOptionsRequests cfg) (am_MaxErrorsInResponse cfg)
                 (am_UnknownParametersDetection cfg) (am_AllowIPHeaderName cfg) allowed waf trace in
      let h := api_Handlers lib reg json_Unmarshal bodyEncoders dz ConvertRequest QueryArgs PostArgs
                 routePath graphql_error mimetype_Detect uri_String uri_resolve mt c specStorage in
      let health := λ s, healthHandler "Regular OpenAPI specification updater"
                           (Liveness encode Hostname Version Getenv) (Readiness (status_body encode) s) in
      apiHost <-* wrapped "parsing API Host URL" (now (ParseRequestURI (am_APIHost cfg))) ;;
      Ret (Ok (MkAPIServices cfg d specStorage h (NewPrometheusMetrics (am_MetricsEnabled cfg)) health (isTLS apiHost)
                 (if (0 <? am_SpecificationUpdatePeriod cfg)%Z
                  then Some (Updater.Start (ops := api_updater LoadFromData ValidateSpec (am_PathToSpecDB cfg) (am_DBVersion cfg))
                               d specStorage)
                  else None)))
  end.

(** ** GraphQL mode *)

Context `{JSONPkg} `{GraphQLPkg} `{NetHTTPPkg}.

(** [config.GraphQLMode], as far as [Run] and [Handlers] read it. *)
Record graphql_mode := MkGraphQLMode {
  gm_Graphql : GraphQL;
  gm_Schema : gostring;
  gm_ServerURL : gostring;
  gm_RequestHostHeader : gostring;
  gm_DeleteAcceptEncoding : bool;
  gm_InsecureConnection : bool;
  gm_RootCA : gostring;
  gm_HealthCheckInterval : Z;
  gm_TokenFile : gostring;
  gm_TokenCookieName : gostring;
  gm_TokenHeaderName : gostring;
  gm_TrimBearerPrefix : bool;
  gm_AllowIPFile : gostring;
  gm_AllowIPHeaderName : gostring;
  gm_APIHost : gostring
}.

Record graphql_services := MkGraphQLServices {
  gs_cfg : graphql_mode;
  gs_pool : PoolV2;
  gs_handler : GHandler;
  gs_env : graphql_env;
  gs_App : App;
  gs_health : Cmd unit;
  gs_isTLS : bool
}.

(** The schema: every failure is fatal. *)
Definition start_schema (NewSchemaFromReader : gostring → result gostring gschema)
    (schema_Validate : gschema → result gostring (option gostring)) (Close : option gostring) (file : gostring)
  : startup gschema :=
  text <-* fatal (os_Open file) ;;
  schema <-* fatal (NewSchemaFromReader text) ;;
  res <-* fatal (schema_Validate schema) ;;
  match res, Close with
  | None, None => Ret (Ok schema)
  | _, _ => Panic
  end.

Definition ws_options (u : URL) (cfg : graphql_mode) : WSClientOptions :=
  MkWSOptions (if url_Scheme u =?s "https" then str "wss" else str "ws") (url_Host u) (url_Path u)
    (gm_InsecureConnection cfg) (gm_RootCA cfg).

(** [Run] with [Handlers]: the address of the API is parsed in both, and in the first
    a failure is fatal.  [playground] gives the pages of the playground for the path
    of the endpoint. *)
Definition graphql_start (NewSchemaFromReader : gostring → result gostring gschema)
    (schema_Validate : gschema → result gostring (option gostring)) (Close : option gostring)
    (IsWebSocketUpgrade : freq → bool) (Dial : gostring → http_Header → result gostring ws_response)
    (Upgrade : (freq → bool) → Cmd (option gostring))
    (playground : gostring → result gostring (list (gostring * http_Handler)))
    (conf_Parse : result gostring graphql_mode) (conf_String : graphql_mode → option gostring)
  : startup graphql_services :=
  cfg <-* wrapped "parsing config" (now conf_Parse) ;;
  match conf_String cfg with
  | Some e => Ret (Err (Wrap e "generating config for output"))
  | None =>
      schema <-* start_schema NewSchemaFromReader schema_Validate Close (gm_Schema cfg) ;;
      up <-* start_pool (gm_ServerURL cfg) (gm_InsecureConnection cfg) (gm_RootCA cfg) (gm_HealthCheckInterval cfg) ;;
      connStr <-* wrapped "ws connections pool init"
                    (now (NewWSClient os_Open appendCerts (ws_options up.1 cfg))) ;;
      denied <-* wrapped "denylist init error" (Denylist_New os_Open (gm_TokenFile cfg)) ;;
      allowed <-* wrapped "The allow IP list init error" (AllowIP_New os_Open (gm_AllowIPFile cfg)) ;;
      apiHost <-* fatal (ParseRequestURI (gm_APIHost cfg)) ;;
      let path := or_default (url_Path apiHost) "/" in
      pages <-* (if gc_Playground (gm_Graphql cfg) then fatal (playground path) else Ret (Ok [])) ;;
      let h := MkGHandler (gm_Graphql cfg) (gm_RequestHostHeader cfg) (url_Path up.1) (pool_of up.2) schema
                 (HandleWebSocketProxy Dial connStr (Upgrade (CheckOrigin (gm_Graphql cfg)))) in
      let e := MkGraphQLEnv (url_Scheme up.1) (url_Host up.1) (gm_DeleteAcceptEncoding cfg)
                 (gm_AllowIPHeaderName cfg) allowed (gm_TokenCookieName cfg) (gm_TokenHeaderName cfg)
                 (gm_TrimBearerPrefix cfg) denied trace (url_Path apiHost) pages in
      let app := graphql_app QueryArgs IsWebSocketUpgrade ConnectionUpgrade graphql_error mt e h in
      let health := healthHandler "main" (Liveness encode Hostname Version Getenv) (proxy_Readiness encode up.2) in
      Ret (Ok (MkGraphQLServices cfg up.2 h e app health (isTLS apiHost)))
  end.
End Startup.

(** * The end of [Run] *)

(** What the [select] receives: [None] is a nil error. *)
Inductive stop_event :=
| ServerError (err : option gostring)
| UpdaterReturned (err : option gostring)
| MetricsError (err : option gostring)
| Signal.

Definition stop_error (err : option gostring) (msg : gostring) : option gostring :=
  (λ e, Wrap e msg) <$> err.

(** Proxy and GraphQL mode: the pool is closed when the server could be stopped.  The
    channel of the updater is not received from. *)
Definition proxy_stop (ev : stop_event) (Shutdown : option gostring) (p : PoolV2)
  : option (PoolV2 * option gostring) :=
  match ev with
  | ServerError err => Some (p, stop_error err "server error")
  | Signal =>
      match Shutdown with
      | Some e => Some (p, Some (Wrap e "could not stop server gracefully"))
      | None => Some (Pool_Close p, None)
      end
  | UpdaterReturned _ | MetricsError _ => None
  end.

(** API mode: the updater is stopped before the server; [Shutdown] of the updater
    returns no error. *)
Definition api_stop (ev : stop_event) (Shutdown : option gostring) : option gostring :=
  match ev with
  | ServerError err => stop_error err "server error"
  | UpdaterReturned err => stop_error err "regular updater error"
  | MetricsError err => stop_error err "metrics error"
  | Signal => stop_error Shutdown "could not stop server gracefully"
  end.
