(* ===== verification/StartupSpec.v ===== *)
(** What the start of the program guarantees: the configuration that the proxy mode
    runs with, and the requests that the server it starts sends to the backend,
    traced back to the files it was configured with. *)
From S2P Require Import Prelude Cmd GoStrings Config RouterPattern RouterTree RouterFind RouterMux Values URLValues Messages ParamDecoder BodyDecoder Validate Unknown APIErrors APIMode NetIP AccessLists AccessListsSpec OAuth2 Web Metrics Mid MidSpec Adaptor ProxyHandler ProxySpec Backend Storage StorageSpec Updater APIHandlers GraphQL WebSocket GraphQLSpec Startup.

(** * Steps *)

Lemma startup_bind_Ok {A B} (c : startup A) (f : A → startup B) b :
  startup_bind c f = Ret (Ok b) → ∃ a, c = Ret (Ok a) ∧ f a = Ret (Ok b).
Proof. unfold startup_bind. destruct c as [[a|e]|]; simpl; intros Hf; [by exists a|done..]. Qed.

Lemma wrapped_Ok {A} msg (c : startup A) a : wrapped msg c = Ret (Ok a) → c = Ret (Ok a).
Proof. unfold wrapped. destruct c as [[x|e]|]; simpl; by intros [= ->]. Qed.

(** * The configuration *)

Section Configuration.
Context (conf_Parse : result gostring proxy_mode) (conf_String : proxy_mode → option gostring)
  (validate_Struct : proxy_mode → list field_error * gostring)
  (ParseMediaType : gostring → option gostring) (viper_Unmarshal : proxy_mode → proxy_mode).

(** The settings that are checked are those of the command line and the environment:
    the ones of the file replace them afterwards. *)
Lemma configuration_checked cfg :
  proxy_configuration conf_Parse conf_String validate_Struct ParseMediaType viper_Unmarshal = Ok cfg →
  ∃ cfg0, conf_Parse = Ok cfg0 ∧ valid_config validate_Struct (set_Mode to_upper cfg0) = true ∧
    cfg = viper_Unmarshal (set_Mode to_upper cfg0).
Proof.
  unfold proxy_configuration, check_config, valid_config. destruct conf_Parse as [cfg0|]; [|done].
  destruct (validate_Struct (set_Mode to_upper cfg0)) as [[|e errs] text] eqn:Hv; [|done].
  destruct (if is_empty _ then _ else _); simpl; [done|].
  destruct (conf_String _); [done|]. intros [= <-]. exists cfg0. by rewrite Hv.
Qed.
End Configuration.

(** * The proxy mode *)

Section ProxyStart.
Context `{FmtPkg} `{TypesPkg} `{!SchemaPkg} `{!FilterPkg}.
Context (lib : parsers) (reg : registry) (json_Unmarshal : gostring → option value)
  (bodyEncoders : gmap gostring (value → result gostring gostring)).
Context (dz : decompressor) (ConvertRequest : freq → result gostring request)
  (QueryArgs PostArgs : freq → list (gostring * gostring)).
Context `{RegexpPkg} `{CachePkg} `{CorazaPkg} `{JWT.JWTPkg}.
Context (graphql_error : gostring → gostring) (ConnectionUpgrade : http_Header → bool)
  (uri_String : freq → gostring) (uri_resolve : freq → gostring → gostring).
Context (mt : method_table).
Context (os_Open : gostring → result gostring gostring) (NotExist : gostring → bool)
  (LookupIP : gostring → result gostring (list (list Z))) (appendCerts : gostring → bool)
  (ParseRequestURI : gostring → result gostring URL)
  (routePath : gostring → gostring → result gostring gostring)
  (Do : PoolV2 → freq → result do_error fresp)
  (introspect : Introspection.Introspection_Config → gostring → list gostring → option gostring)
  (ReadKey : gostring → result gostring gostring)
  (NewWAF : list gostring → result gostring (reqctx → tx))
  (encode : list (gostring * gostring) → result gostring gostring)
  (Hostname : result gostring gostring) (Version : gostring) (Getenv : gostring → gostring)
  (trace : bool).
Notation doc := (list (gostring * list (gostring * Route))).
Context (LoadFromData : gostring → result gostring doc) (ValidateSpec : doc → option gostring)
  (sha256_empty : gostring) (read : gostring → file_read) (get : url_request → option (Z * gostring))
  (load_text : list load_error → gostring).

Notation proxy_start := (proxy_start lib reg json_Unmarshal bodyEncoders dz ConvertRequest QueryArgs PostArgs
  graphql_error ConnectionUpgrade uri_String uri_resolve mt os_Open NotExist LookupIP appendCerts ParseRequestURI
  routePath Do introspect ReadKey NewWAF encode Hostname Version Getenv trace
  LoadFromData ValidateSpec sha256_empty read get load_text).
Notation app := (proxy_app lib reg json_Unmarshal bodyEncoders dz ConvertRequest QueryArgs PostArgs
  graphql_error ConnectionUpgrade uri_String uri_resolve).

(** The text of the specification that was read: the body of the answer to the request
    for it, or the content of the file. *)
Definition spec_text (cfg : proxy_mode) : option gostring :=
  if is_url (uri_scheme ParseRequestURI) (pm_APISpecs cfg) then
    match get (spec_request (pm_APISpecsCustomHeader cfg) (pm_APISpecs cfg)) with
    | Some (status, body) => if (status =? 200)%Z then Some body else None
    | None => None
    end
  else match read (pm_APISpecs cfg) with Content raw => Some raw | _ => None end.

Lemma loaded_spec cfg s :
  NewOpenAPIFromFileOrURL LoadFromData ValidateSpec (uri_scheme ParseRequestURI) read get
    (pm_APISpecs cfg) (pm_APISpecsCustomHeader cfg) = Ret (Ok s) →
  ∃ raw spec, spec_text cfg = Some raw ∧ LoadFromData raw = Ok spec ∧ ValidateSpec spec = None
    ∧ fs_OpenAPISpec s = Some spec.
Proof.
  assert (∀ raw, no_store_on_error (Ret (loaded_file LoadFromData ValidateSpec raw)) = Ret (Ok s) →
    ∃ spec, LoadFromData raw = Ok spec ∧ ValidateSpec spec = None ∧ fs_OpenAPISpec s = Some spec) as Hraw.
  { intros raw. unfold no_store_on_error, loaded_file, ParseOAS. destruct (LoadFromData raw) as [spec|]; [|done].
    destruct (ValidateSpec spec) eqn:Hv; [done|]. simpl. intros [= <-]. by exists spec. }
  unfold NewOpenAPIFromFileOrURL, spec_text. destruct (is_url _ _).
  - unfold URL_Load. destruct (get _) as [[status body]|]; [|done]. destruct (status =? 200)%Z; [|done].
    intros (spec & ?)%Hraw. by exists body, spec.
  - unfold File_Load. destruct (read _) as [| | |raw]; [done..|]. intros (spec & ?)%Hraw. by exists raw, spec.
Qed.

(** What a start that succeeds was made of. *)
Lemma proxy_start_parts cfg sv :
  proxy_start cfg = Ret (Ok sv) →
  ∃ u denied allowed waf raw spec,
    ParseRequestURI (pm_ServerURL cfg) = Ok u
    ∧ Denylist_New os_Open (pm_TokenFile cfg) = Ret (Ok denied)
    ∧ AllowIP_New os_Open (pm_AllowIPFile cfg) = Ret (Ok allowed)
    ∧ LoadModSecurityConfiguration NotExist NewWAF (pm_ModSecurity cfg) = Ok waf
    ∧ spec_text cfg = Some raw ∧ LoadFromData raw = Ok spec
    ∧ ps_env sv = proxy_environment routePath Do introspect ReadKey trace cfg u (ps_pool sv) denied allowed waf
    ∧ (∀ h, ps_Handler sv = Some h → ∃ routes, NewRouter ValidateSpec spec true = Ok routes
         ∧ h = MainHandler mt (app mt (pm_handlers cfg) (ps_env sv) routes)).
Proof.
  unfold Startup.proxy_start.
  destruct (NewOpenAPIFromFileOrURL _ _ _ _ _ _ _) as [[s|errs]|] eqn:Hs; cbn [obind]; [|done..].
  apply loaded_spec in Hs as (raw & spec & Hraw & Hspec & _ & Hst).
  intros ([u p] & Hup & Hr)%startup_bind_Ok. unfold start_pool in Hup.
  apply startup_bind_Ok in Hup as (u' & Hu%wrapped_Ok & Hup).
  apply startup_bind_Ok in Hup as (p' & _ & [= -> ->]). injection Hu as Hu.
  apply startup_bind_Ok in Hr as (denied & Hd%wrapped_Ok & Hr).
  apply startup_bind_Ok in Hr as (allowed & Ha%wrapped_Ok & Hr).
  apply startup_bind_Ok in Hr as (waf & Hw & Hr). injection Hw as Hw. rewrite Hst in Hr.
  apply startup_bind_Ok in Hr as (apiHost & _ & [= <-]).
  exists u, denied, allowed, waf, raw, spec. split_and!; try done. simpl.
  intros h. unfold Handlers. destruct (NewRouter ValidateSpec spec true) as [routes|]; [|done].
  intros [= <-]. by exists routes.
Qed.

(** In every state of the updater that the proxy mode starts, while the lock is free,
    the handlers are built of the document of the current store. *)
Lemma proxy_start_updater cfg sv u0 u :
  proxy_start cfg = Ret (Ok sv) → ps_updater sv = Some u0 →
  rtc (up_step (ops := proxy_updater LoadFromData ValidateSpec sha256_empty (uri_scheme ParseRequestURI)
                         (pm_APISpecs cfg) (pm_APISpecsCustomHeader cfg))) u0 u →
  up_locked u = false → up_serving u = fs_OpenAPISpec (up_store u).
Proof.
  unfold Startup.proxy_start.
  destruct (NewOpenAPIFromFileOrURL _ _ _ _ _ _ _) as [[s|errs]|]; cbn [obind]; [|done..].
  intros ([v p] & _ & Hr)%startup_bind_Ok.
  do 3 (apply startup_bind_Ok in Hr as (? & _ & Hr)). destruct (fs_OpenAPISpec s); [|done].
  apply startup_bind_Ok in Hr as (? & _ & [= <-]). simpl.
  destruct (0 <? pm_SpecificationUpdatePeriod cfg)%Z; [|done]. intros [= <-] Hreach.
  apply (ui_free _ (reachable_inv _ _ _ Hreach)).
Qed.

(** C6: From the files to the backend.  Let the proxy mode have started with the mode of
    the requests, and that of every endpoint in the list, to block, and with an allow
    list file that has an address.  A request that its server sends to the backend
    matches a route of the document that was read and validated; its address, that of
    its client or the one in the configured header, is the one of a line of the allow
    list file; and the validator accepts it as [block_forwarded] tells.  The only other
    requests that are sent are OPTIONS requests without a route, where the
    configuration passes them. *)
Theorem startup_enforces cfg sv h uuid x data :
  table_ok mt → proxy_start cfg = Ret (Ok sv) → ps_Handler sv = Some h →
  blocking (pm_handlers cfg) → cx_User x = ∅ →
  pm_AllowIPFile cfg ≠ [] → os_Open (pm_AllowIPFile cfg) = Ok data →
  concat (map line_ips (scan data).1) ≠ [] →
  let x' := (h uuid x).1 in
  cx_Sent x' = cx_Sent x
  ∨ ∃ raw spec routes,
      spec_text cfg = Some raw ∧ LoadFromData raw = Ok spec ∧ NewRouter ValidateSpec spec true = Ok routes
      ∧ ((∃ x1 line ip,
            ParseIP (ip_to_check (ip_options (pm_handlers cfg) (ps_env sv)) x1) = Some ip
            ∧ line ∈ (scan data).1 ∧ IP_String ip ∈ line_ips line
            ∧ block_forwarded lib reg json_Unmarshal bodyEncoders dz ConvertRequest QueryArgs PostArgs
                ConnectionUpgrade uri_String uri_resolve mt (pm_handlers cfg) (ps_env sv) routes uuid x x' x1)
         ∨ options_passed lib reg json_Unmarshal bodyEncoders dz ConvertRequest QueryArgs PostArgs graphql_error
             ConnectionUpgrade uri_String uri_resolve mt (pm_handlers cfg) (ps_env sv) routes x x').
Proof.
  intros Hmt Hstart Hh Hblock Hu Hne Hdata Haddr x'.
  destruct (proxy_start_parts _ _ Hstart) as (u & denied & allowed & waf & raw & spec & _ & _ & Ha & _ & Hraw & Hspec & He & Hhandler).
  destruct (Hhandler _ Hh) as (routes & Hroutes & ->).
  destruct (block_sent lib reg json_Unmarshal bodyEncoders dz ConvertRequest QueryArgs PostArgs graphql_error
    ConnectionUpgrade uri_String uri_resolve mt (pm_handlers cfg) (ps_env sv) routes uuid x Hmt Hblock Hu)
    as [Hn|Hsent]; [by left|right]. exists raw, spec, routes. do 3 (split; [done|]).
  destruct Hsent as [[x1 Hf]|Hop]; [left|by right].
  pose proof Hf as (cr & path & m & keys & vs & rctx & rq & _ & _ & _ & _ & _ & _ & (Hip & _) & _).
  assert (ia_AllowedIPs (ip_options (pm_handlers cfg) (ps_env sv)) = allowed) as Hen by by rewrite He.
  rewrite <- Hen in Ha.
  destruct (ip_allowed_file _ _ _ _ _ Ha Hne Hdata Haddr Hip) as (ip & line & Hparse & Hline & Hin).
  by exists x1, line, ip.
Qed.
End ProxyStart.

(** * The API and the GraphQL mode *)

Section OtherModes.
Context `{FmtPkg} `{TypesPkg} `{!SchemaPkg} `{!FilterPkg}.
Context (lib : parsers) (reg : registry) (json_Unmarshal : gostring → option value)
  (bodyEncoders : gmap gostring (value → result gostring gostring)).
Context (dz : decompressor) (ConvertRequest : freq → result gostring request)
  (QueryArgs PostArgs : freq → list (gostring * gostring)).
Context `{RegexpPkg} `{CachePkg} `{CorazaPkg}.
Context (graphql_error : gostring → gostring) (ConnectionUpgrade : http_Header → bool)
  (uri_String : freq → gostring) (uri_resolve : freq → gostring → gostring).
Context (mt : method_table).
Context (os_Open : gostring → result gostring gostring) (NotExist : gostring → bool)
  (LookupIP : gostring → result gostring (list (list Z))) (appendCerts : gostring → bool)
  (ParseRequestURI : gostring → result gostring URL)
  (routePath : gostring → gostring → result gostring gostring)
  (Do : PoolV2 → freq → result do_error fresp)
  (NewWAF : list gostring → result gostring (reqctx → tx))
  (encode : list (gostring * gostring) → result gostring gostring)
  (Hostname : result gostring gostring) (Version : gostring) (Getenv : gostring → gostring)
  (trace : bool).

(** The API mode starts with the store of its database, whatever errors loading it
    had, and in every state of the updater it starts, while the lock is free, the
    server answers for the current store and so does the health check. *)
Lemma api_start_updater LoadFromData ValidateSpec mimetype_Detect conf_Parse conf_String d sv :
  api_start lib reg json_Unmarshal bodyEncoders dz ConvertRequest QueryArgs PostArgs graphql_error
    uri_String uri_resolve mt os_Open NotExist ParseRequestURI routePath NewWAF encode Hostname Version Getenv trace
    LoadFromData ValidateSpec mimetype_Detect conf_Parse conf_String d = Ret (Ok sv) →
  let cfg := as_cfg sv in
  (∃ errs, NewOpenAPIDB LoadFromData ValidateSpec d (am_PathToSpecDB cfg) (am_DBVersion cfg)
     = (as_disk sv, as_store sv, errs))
  ∧ ∀ u0 u, as_updater sv = Some u0 →
      rtc (up_step (ops := api_updater LoadFromData ValidateSpec (am_PathToSpecDB cfg) (am_DBVersion cfg))) u0 u →
      up_locked u = false → up_serving u = (st_OpenAPISpec (up_store u), up_store u).
Proof.
  intros (cfg & Hc & Hr)%startup_bind_Ok cfg'. subst cfg'. destruct (conf_String cfg); [done|].
  destruct (NewOpenAPIDB _ _ _ _ _) as [[d' s] errs] eqn:Hdb.
  apply startup_bind_Ok in Hr as (waf & _ & Hr). apply startup_bind_Ok in Hr as (allowed & _ & Hr).
  apply startup_bind_Ok in Hr as (apiHost & _ & [= <-]). simpl. split; [by exists errs|].
  intros u0 u Hu0. destruct (0 <? am_SpecificationUpdatePeriod cfg)%Z; [|done]. injection Hu0 as <-.
  intros Hreach. apply (ui_free _ (reachable_inv _ _ _ Hreach)).
Qed.

Context `{JSONPkg} `{GraphQLPkg} `{NetHTTPPkg}.

Section GraphQLStart.
Context (NewSchemaFromReader : gostring → result gostring gschema)
  (schema_Validate : gschema → result gostring (option gostring)) (Close : option gostring)
  (IsWebSocketUpgrade : freq → bool) (Dial : gostring → http_Header → result gostring ws_response)
  (Upgrade : (freq → bool) → Cmd (option gostring))
  (playground : gostring → result gostring (list (gostring * http_Handler)))
  (conf_Parse : result gostring graphql_mode) (conf_String : graphql_mode → option gostring).
Notation start := (graphql_start QueryArgs graphql_error ConnectionUpgrade mt os_Open LookupIP appendCerts
  ParseRequestURI Do encode Hostname Version Getenv trace NewSchemaFromReader schema_Validate Close
  IsWebSocketUpgrade Dial Upgrade playground conf_Parse conf_String).

(** What a start that succeeds was made of: the schema was read, parsed and validated. *)
Lemma graphql_start_parts sv :
  start = Ret (Ok sv) →
  let cfg := gs_cfg sv in let h := gs_handler sv in let e := gs_env sv in
  conf_Parse = Ok cfg ∧ ∃ text allowed connStr,
    os_Open (gm_Schema cfg) = Ok text ∧ NewSchemaFromReader text = Ok (gh_schema h)
    ∧ schema_Validate (gh_schema h) = Ok None
    ∧ AllowIP_New os_Open (gm_AllowIPFile cfg) = Ret (Ok allowed) ∧ ge_allowedIPs e = allowed
    ∧ gh_cfg h = gm_Graphql cfg
    ∧ gh_websocket h = HandleWebSocketProxy Dial connStr (Upgrade (CheckOrigin (gm_Graphql cfg)))
    ∧ gs_App sv = graphql_app QueryArgs IsWebSocketUpgrade ConnectionUpgrade graphql_error mt e h.
Proof.
  intros (cfg & [= Hc]%wrapped_Ok & Hr)%startup_bind_Ok. destruct (conf_String cfg); [done|].
  apply startup_bind_Ok in Hr as (schema & Hschema & Hr).
  apply startup_bind_Ok in Hr as (up & _ & Hr). apply startup_bind_Ok in Hr as (connStr & _ & Hr).
  apply startup_bind_Ok in Hr as (denied & _ & Hr).
  apply startup_bind_Ok in Hr as (allowed & Ha%wrapped_Ok & Hr).
  do 2 (apply startup_bind_Ok in Hr as (? & _ & Hr)). injection Hr as <-. simpl.
  split; [done|].
  unfold start_schema, fatal in Hschema. destruct (os_Open (gm_Schema cfg)) as [text|]; [|done].
  exists text, allowed, connStr. simpl in Hschema.
  destruct (NewSchemaFromReader text) as [sc|]; [|done]. simpl in Hschema.
  destruct (schema_Validate sc) as [[|]|] eqn:Hv; simpl in Hschema; [done| |done].
  destruct Close; [done|]. injection Hschema as <-. by split_and!.
Qed.

(** C7: From the files to the backend in the GraphQL mode.  Let it have started in
    block mode with an allow list file that has an address, and let the upgrade of a
    connection send nothing.  A request that its server sends to the backend was
    received for the GraphQL endpoint, the address it is checked for is the one of a
    line of the allow list file, and all its queries are valid for the schema that was
    read from the file, parsed and validated; otherwise nothing is sent. *)
Theorem graphql_start_enforces sv uuid x data :
  table_ok mt → errors_reported → (∀ check, keeps cx_Sent (Upgrade check)) →
  start = Ret (Ok sv) → cx_User x = ∅ →
  to_lower (gc_RequestValidation (gm_Graphql (gs_cfg sv))) = ValidationBlock →
  gm_AllowIPFile (gs_cfg sv) ≠ [] → os_Open (gm_AllowIPFile (gs_cfg sv)) = Ok data →
  concat (map line_ips (scan data).1) ≠ [] →
  let h := gs_handler sv in
  let x' := (MainHandler mt (gs_App sv) uuid x).1 in
  cx_Sent x' = cx_Sent x
  ∨ ∃ text x1 line ip,
      os_Open (gm_Schema (gs_cfg sv)) = Ok text ∧ NewSchemaFromReader text = Ok (gh_schema h)
      ∧ schema_Validate (gh_schema h) = Ok None
      ∧ ParseIP (ip_to_check (graphql_ip_options (gs_env sv)) x1) = Some ip
      ∧ line ∈ (scan data).1 ∧ IP_String ip ∈ line_ips line
      ∧ graphql_forwarded QueryArgs ConnectionUpgrade mt (gs_env sv) h uuid x x' x1.
Proof.
  intros Hmt Her Hup Hstart Hu Hblock Hne Hdata Haddr h x'.
  destruct (graphql_start_parts _ Hstart) as (_ & text & allowed & connStr & Ht & Hs & Hv & Ha & He & Hcfg & Hws & Happ).
  subst h x'. rewrite Happ.
  destruct (graphql_sent QueryArgs IsWebSocketUpgrade ConnectionUpgrade graphql_error mt (gs_env sv) (gs_handler sv) uuid x
    Hmt Her)
    as [Hn|[x1 Hf]]; [by rewrite Hcfg|rewrite Hws; apply keeps_sent_websocket, Hup|done|by left|right].
  pose proof Hf as (method & m & keys & vs & rctx & _ & _ & _ & _ & _ & (Hip & _) & _).
  rewrite <- He in Ha.
  destruct (ip_allowed_file _ _ (graphql_ip_options (gs_env sv)) _ _ Ha Hne Hdata Haddr Hip)
    as (ip & line & Hparse & Hline & Hin).
  by exists text, x1, line, ip.
Qed.
End GraphQLStart.
End OtherModes.

(** * The exit *)

(** A run that fails exits with 1, and the reason is logged unless the level is that
    of warnings or errors: then the process ends without a word. *)
Lemma exit_reason Usage VersionString enabled Mode LogLevel LogFormat Run e :
  (∀ l m, enabled l (LogInfo m) = match l with WarnLevel | ErrorLevel => false | _ => true end) →
  Run (mode_of Mode) (level_of LogLevel) (format_of LogFormat) = Ret (Some e) →
  main Usage VersionString enabled (Parsed Mode LogLevel LogFormat) Run =
  Ret (MkExit 1 []
    (if bool_decide (to_lower LogLevel = str "error" ∨ to_lower LogLevel = str "warning") then []
     else [LogInfo (str "main: error: " ++ e)])).
Proof.
  intros Hen Hr. unfold main. rewrite Hr. cbn [obind List.filter]. rewrite Hen. do 2 f_equal.
  unfold level_of, eqb_str. repeat case_bool_decide; simpl; try done; naive_solver congruence.
Qed.

(** * Addresses and health *)

Lemma last_index_byte_app s c t : c ∉ t → last_index_byte (s ++ c :: t) c = Some (length s).
Proof.
  intros Ht. unfold last_index_byte. rewrite reverse_app, reverse_cons, <- (assoc_L (++)).
  change ([c] ++ reverse s) with (c :: reverse s).
  rewrite index_byte_app by by rewrite elem_of_reverse. simpl. f_equal.
  rewrite length_app, length_reverse. simpl. lia.
Qed.

Lemma SplitHostPort_join host port :
  (∀ c, c ∈ [":"%char; "["%char; "]"%char] → (c ∉ host) ∧ (c ∉ port)) →
  SplitHostPort (host ++ str ":" ++ port) = Ok (host, port).
Proof.
  intros Hc. change (str ":" ++ port) with (":"%char :: port).
  destruct (Hc ":"%char) as [H1 H2]; [left|]. destruct (Hc "["%char) as [H3 H4]; [right; left|].
  destruct (Hc "]"%char) as [H5 H6]; [right; right; left|]. unfold SplitHostPort.
  rewrite last_index_byte_app, take_app_length by done.
  rewrite (bool_decide_false (":"%char ∈ host)) by done.
  assert (drop (S (length host)) (host ++ ":"%char :: port) = port) as ->.
  { rewrite <- Nat.add_1_r. by rewrite drop_app_add. }
  rewrite drop_0, !bool_decide_false by (rewrite elem_of_app, elem_of_cons; by intros [?|[?|?]]).
  destruct host as [|a host]; [done|]. simpl. rewrite elem_of_cons in H3.
  destruct a as [[] [] [] [] [] [] [] []]; try done. by destruct H3; left.
Qed.

(** The host of a URL without a port is split into the host and the port of the
    scheme, so the start does not fail on it. *)
Lemma backend_host_default u :
  (∀ c, c ∈ [":"%char; "["%char; "]"%char] → c ∉ url_Host u) →
  SplitHostPort (backend_host u) =
    (if url_Scheme u =?s "https" then Ok (url_Host u, str "443")
     else if url_Scheme u =?s "http" then Ok (url_Host u, str "80")
     else Err (str "address " ++ url_Host u ++ str ": missing port in address")).
Proof.
  intros Hc. assert (last_index_byte (url_Host u) ":" = None) as Hl.
  { unfold last_index_byte. rewrite (proj2 (index_byte_None _ _)); [done|].
    rewrite elem_of_reverse. apply Hc. left. }
  assert (∀ p, p ∈ [str "443"; str "80"] → SplitHostPort (url_Host u ++ str ":" ++ p) = Ok (url_Host u, p)) as Hp.
  { intros p Hp. apply SplitHostPort_join. intros c Hin. split; [by apply Hc|].
    rewrite !elem_of_cons, elem_of_nil in Hp. rewrite !elem_of_cons, elem_of_nil in Hin. destruct Hp as [->|[->|[]]];
      destruct Hin as [->|[->|[->|[]]]]; by apply (bool_decide_unpack _); vm_compute. }
  unfold backend_host, url_Port. rewrite Hl. cbn [is_empty].
  destruct (url_Scheme u =?s "https"); [apply (Hp (str "443")); left|].
  destruct (url_Scheme u =?s "http"); [apply (Hp (str "80")); right; left|].
  unfold SplitHostPort. by rewrite Hl.
Qed.

(** The readiness of the proxy mode does not depend on the health of the backends. *)
Lemma readiness_ignores_backends encode lb host port addr :
  proxy_Readiness encode (MkPoolV2 lb false host port addr) = Respond (status_body encode "ok") 200.
Proof. done. Qed.
