(* ===== verification/StartupExamples.v ===== *)
(** A proxy started from a small configuration and files, with concrete libraries:
    the witness of what the start guarantees, and settings that no check sees. *)
From S2P Require Import Prelude Cmd GoStrings Config RouterPattern RouterTree RouterFind RouterMux RouterSpec Values URLValues Messages ParamDecoder ParamDecoderSpec BodyDecoder BodyDecoderSpec Validate ValidateSpec Unknown APIErrors APIMode APIModeSpec NetIP AccessLists AccessListsSpec OAuth2 Web Mid MidSpec Adaptor ProxyHandler ProxySpec ProxyExamples Backend Storage StorageSpec GraphQL WebSocket GraphQLSpec GraphQLExamples Startup StartupSpec.

#[local] Existing Instances no_floats plain_fmt typed_schemas plain_filter digits_regexp set_cache admin_rules.

Module StartExample.
(** Tokens are not accepted. *)
#[local] Instance no_tokens : JWT.JWTPkg := {|
  JWT.token_method _ := Err (str "malformed");
  JWT.token_verify _ _ := Err (str "malformed")
|}.

Definition pet_doc : list (gostring * list (gostring * Route)) :=
  [(str "/pets/{id}", [(str "post", pet_route)]); (str "/pets", [(str "get", cr_Route list_custom)])].

(** The allow list file is the only file. *)
Definition read_file (name : gostring) : result gostring gostring :=
  if name =?s "/allow" then Ok (str "10.0.0.1") else Err (str "no such file").

Definition no_oauth : oauth_config :=
  MkOauth [] [] [] [] (Introspection.MkIntrospection_Config [] [] [] [] [] [] 0).

Definition settings (mode : gostring) : proxy_mode :=
  MkProxyMode (pet_config mode) "openapi.yaml" (MkCustomHeader [] []) "http://backend" false [] 0 no_oauth
    [] [] [] false "/allow" [] (MkModSecurity [] []) "http://0.0.0.0:8282" 60.

Definition parse_url (s : gostring) : result gostring URL :=
  if has_prefix s "http://" then Ok (MkURL "http" "backend" []) else Err (str "invalid URI for request").

(** The specification is a file. *)
Definition read_spec (name : gostring) : file_read :=
  if name =?s "openapi.yaml" then Content "openapi: 3.0.0" else Storage.NotExist.

Definition run (mode : gostring) : startup proxy_services :=
  proxy_start no_lib default_registry (λ _, None) ∅ no_unzip convert_pet (λ _, []) (λ _, [])
    (λ e, e) (λ _, false) fq_Path (λ _ u, u) default_methods read_file (λ _, true)
    (λ _, Ok [[10; 0; 0; 9]%Z]) (λ _, true) parse_url (λ _ p, Ok p) (λ _ _, Ok (MkFresp 200 ∅ "pet"))
    (λ _ _ _, None) (λ _, Err (str "no key")) (λ _, Err (str "no rules")) (λ _, Ok [])
    (Err (str "no name")) "develop" (λ _, []) false
    (λ _, Ok pet_doc) (λ _, None) [] read_spec (λ _, None) (λ _, []) (settings mode).

(** What the server of the start sends for a request. *)
Definition sent (mode method path : gostring) : option (list freq) :=
  match run mode with
  | Ret (Ok sv) =>
      match ps_Handler sv with Some h => Some (cx_Sent (h (str "id") (pet_ctx method path)).1) | None => None end
  | _ => None
  end.
End StartExample.
Import StartExample.
#[local] Existing Instance no_tokens.

Lemma startup_enforces_witness :
  ∃ sv h x1 line ip,
    run "BLOCK" = Ret (Ok sv) ∧ ps_Handler sv = Some h
    ∧ ParseIP (ip_to_check (ip_options (pet_config "BLOCK") (ps_env sv)) x1) = Some ip
    ∧ cx_RemoteIP x1 = cx_RemoteIP (pet_ctx "POST" "/pets/7")
    ∧ line ∈ [str "10.0.0.1"] ∧ IP_String ip ∈ line_ips line.
Proof.
  assert (option_map length (sent "BLOCK" "POST" "/pets/7") = Some 1) as Hsent by by vm_compute.
  unfold sent in Hsent. destruct (run "BLOCK") as [[sv|]|] eqn:Hrun; [|done..].
  destruct (ps_Handler sv) as [h|] eqn:Hh; [|done]. unfold run in Hrun.
  destruct (startup_enforces no_lib default_registry (λ _, None) ∅ no_unzip convert_pet (λ _, []) (λ _, [])
    (λ e, e) (λ _, false) fq_Path (λ _ u, u) default_methods read_file (λ _, true)
    (λ _, Ok [[10; 0; 0; 9]%Z]) (λ _, true) parse_url (λ _ p, Ok p) (λ _ _, Ok (MkFresp 200 ∅ "pet"))
    (λ _ _ _, None) (λ _, Err (str "no key")) (λ _, Err (str "no rules")) (λ _, Ok [])
    (Err (str "no name")) "develop" (λ _, []) false
    (λ _, Ok pet_doc) (λ _, None) [] read_spec (λ _, None) (λ _, [])
    (settings "BLOCK") sv h "id" (pet_ctx "POST" "/pets/7") "10.0.0.1")
    as [Hn|(raw & spec & routes & _ & _ & _ & [(x1 & line & ip & Hip & Hline & Hin & Hf)|[Hp _]])];
    [exact default_methods_ok|exact Hrun|exact Hh|split; [reflexivity|constructor]|reflexivity
    |discriminate|reflexivity|vm_compute; discriminate| | |].
  - revert Hsent. rewrite Hn. discriminate.
  - destruct Hf as (cr & path & m & keys & vs & rctx & rq & _ & _ & _ & _ & _ & -> & _).
    eexists sv, h, _, line, ip. by split_and!.
  - discriminate Hp.
Defined.

(** The validator of the tags of the configuration: the mode is one of three. *)
Definition validate_mode (c : proxy_mode) : list field_error * gostring :=
  let m := pc_RequestValidation (pm_handlers c) in
  if existsb (λ v, m =?s v) [str "DISABLE"; str "BLOCK"; str "LOG_ONLY"] then ([], [])
  else ([MkFieldError "oneof" "RequestValidation" "DISABLE BLOCK LOG_ONLY" m], str "invalid").

(** A mode on the command line that is none of them stops the start; the same mode in
    the file does not, and the proxy runs with it without blocking. *)
Lemma file_settings_unchecked :
  let configuration := λ cmd file,
    proxy_configuration (Ok (settings cmd)) (λ _, None) validate_mode (λ _, None) (λ _, settings file) in
  configuration "BLOK" "BLOCK" = Err (str ("configuration validator error: parameter RequestValidation should " ++
    "have one of the following value: DISABLE BLOCK LOG_ONLY; actual value: BLOK"))
  ∧ configuration "BLOCK" "BLOK" = Ok (settings "BLOK")
  ∧ valid_config validate_mode (settings "BLOK") = false
  ∧ option_map length (sent "BLOK" "GET" "/unknown") = Some 1.
Proof. by vm_compute. Qed.

(** * A GraphQL mode *)

Module GraphQLStartExample.
Import GraphQLExamples.GraphQLExample GraphQLExamples.GraphQLEndpoint.
#[export] Existing Instances graphql_pkg json_pkg plain_http.

Definition gql_settings : graphql_mode :=
  MkGraphQLMode GraphQLEndpoint.cfg "/schema" "http://backend" [] false false [] 0 [] [] [] false "/allow" []
    "http://0.0.0.0:8282".

(** The files are the schema and the allow list. *)
Definition read_gql (name : gostring) : result gostring gostring :=
  if name =?s "/schema" then Ok (str "type Query { a: Int }") else read_file name.

Definition new_schema (_ : gostring) : result gostring gschema := Ok ().

Definition run_gql : startup graphql_services :=
  graphql_start (λ _, []) (λ e, e) (λ _, false) default_methods read_gql (λ _, Ok [[10; 0; 0; 9]%Z]) (λ _, true)
    parse_url (λ _ _, Ok (MkFresp 200 ∅ "data")) (λ _, Ok []) (Err (str "no name")) "develop" (λ _, []) false
    new_schema (λ _, Ok None) None (λ _, false) (λ _ _, Err (str "no server")) (λ _, cmd_ret None)
    (λ _, Ok []) (Ok gql_settings) (λ _, None).

Definition gql_query : reqctx :=
  MkCtx (MkFreq "POST" "http" "localhost" "localhost" "/" [] "HTTP/1.1"
           {[ str "Content-Type" := [str "application/json"] ]} [] "a")
    (MkFresp 200 ∅ []) ∅ "10.0.0.1:4242" (Some (str "10.0.0.1")) [] [] 0.

Definition sent_gql : option nat :=
  match run_gql with
  | Ret (Ok sv) => Some (length (cx_Sent (MainHandler default_methods (gs_App sv) (str "id") gql_query).1))
  | _ => None
  end.
End GraphQLStartExample.
Import GraphQLStartExample.

Lemma graphql_start_enforces_witness :
  ∃ sv x1 line ip,
    run_gql = Ret (Ok sv)
    ∧ ParseIP (ip_to_check (graphql_ip_options (gs_env sv)) x1) = Some ip ∧ cx_RemoteIP x1 = cx_RemoteIP gql_query
    ∧ line ∈ [str "10.0.0.1"] ∧ IP_String ip ∈ line_ips line.
Proof.
  assert (sent_gql = Some 1) as Hsent by by vm_compute. unfold sent_gql in Hsent.
  destruct run_gql as [[sv|]|] eqn:Hrun; [|done..].
  unfold run_gql in Hrun. pose proof (proj1 (graphql_start_parts _ _ _ _ _ _ _ _ _ _ _ _ _ _ _ _ _ _ _ _ _ _ _ _ Hrun)) as Hcfg.
  injection Hcfg as Hcfg. symmetry in Hcfg.
  destruct (graphql_start_enforces (λ _, []) (λ e, e) (λ _, false) default_methods read_gql
    (λ _, Ok [[10; 0; 0; 9]%Z]) (λ _, true) parse_url (λ _ _, Ok (MkFresp 200 ∅ "data")) (λ _, Ok [])
    (Err (str "no name")) "develop" (λ _, []) false
    new_schema (λ _, Ok None) None (λ _, false) (λ _ _, Err (str "no server")) (λ _, cmd_ret None)
    (λ _, Ok []) (Ok gql_settings) (λ _, None) sv "id" gql_query "10.0.0.1")
    as [Hn|(text & x1 & line & ip & _ & _ & _ & Hip & Hline & Hin & Hf)];
    [exact default_methods_ok|exact example_errors_reported|by intros check x|exact Hrun|reflexivity
    |by rewrite Hcfg|by rewrite Hcfg|by rewrite Hcfg|vm_compute; discriminate| |].
  - revert Hsent. rewrite Hn. discriminate.
  - destruct Hf as (method & m & keys & vs & rctx & _ & _ & _ & _ & -> & _).
    eexists sv, _, line, ip. by split_and!.
Defined.
